(* ===== verification/_CoqProject ===== *)
-Q . S2P
Prelude.v
Text.v
Types.v
FsTree.v
Proto.v
Registry.v
RegistrySpec.v
Diff.v
FsCopy.v
FsCopySpec.v
FdCopy.v
FdCopySpec.v
FdExact.v
Xattr.v
Router.v
GuestConn.v
Output.v
Uidmap.v
Helper.v
Pidfile.v
Cgroup.v
Quiesce.v
OpLock.v
OpLockSpec.v
Mountinfo.v
Setup.v
SetupSpec.v
Backend.v
Handshake.v
Startup.v
Reexec.v
BackendSpec.v
ReconcileSpec.v
Recovery.v
Exec.v
Contract.v
Mcp.v
McpSpec.v
Quota.v
Serve.v
Cli.v
UnitTests.v
