(* ===== verification/Prelude.v ===== *)
(** * draug: a verification development

    draug runs commands in rootless sandboxes: user, mount, pid, uts and net
    namespaces around a project directory, whose changes go to an overlayfs
    upper layer that can be snapshot, restored and diffed.  This library is a
    shallow embedding of the program: each definition is the translation of
    the Rust it names, each theorem a property of those definitions.

    ** The program and its model

    The crates call each other in this order: the binary (draug-cli) drives
    the backend (draug-ns), which keeps its rows in the registry (draug-core),
    starts a setup process, and talks to the guest (draug-guest), which is
    PID 1 of the sandbox, in the frames of draug-proto.

    - shared: this file (results, the state and error monad [ST], generic
      lemmas); Text.v (the parts of [str] and [String] the code uses);
      Types.v (draug-core/src types.rs, limits.rs, error.rs, backend.rs);
      FsTree.v (file trees as lstat shows them).
    - draug-proto/src/lib.rs: Proto.v, [read_frame] and [write_frame] and the
      host's asynchronous versions of them in draug-ns.
    - draug-core/src/registry.rs: Registry.v, a definition per statement and
      operation; RegistrySpec.v, the abstract registry and the refinement.
    - draug-ns/src/linux/diff.rs: Diff.v, [walk] and its helpers and, in its
      second half, what overlayfs shows.
    - draug-ns/src/linux/fscopy.rs, twice: FsCopy.v and FsCopySpec.v on a tree
      that nobody changes, where the system calls fail and fall short; FdCopy.v
      and FdCopySpec.v on objects, descriptors and open flags, where the
      sandbox changes the layer between any two calls; FdExact.v, the second
      against the contract of the first, for a sandbox that is frozen; Xattr.v,
      [get_xattr] by path, which the diff uses.
    - draug-ns/src/linux/uidmap.rs: Uidmap.v.  reexec.rs: Reexec.v,
      [maybe_run] on environments, with the probe of mod.rs; Helper.v, a helper
      and its parent as two processes.
    - draug-ns/src/linux/cgroup.rs: Cgroup.v; with the freezing, the op lock
      and the thawing of backend.rs, one call after the other: Quiesce.v.
    - draug-ns/src/linux/backend.rs, its op lock: OpLock.v, snapshot, destroy
      and reconcile of several processes on one sandbox, interleaved at their
      await points, and OpLockSpec.v.
    - draug-ns/src/linux/setup.rs: Mountinfo.v (parsing), Setup.v (all system
      calls in their order), SetupSpec.v (mount table laws, sealing).
    - draug-ns/src/linux/backend.rs: Pidfile.v (guest.pid, /proc/<pid>/stat,
      the wait for a killed guest), Backend.v (spawn, snapshot, restore,
      destroy, reconcile over one world), BackendSpec.v and ReconcileSpec.v
      (what they promise), Recovery.v (histories of calls, failures and deaths,
      and the reconcile after them), Handshake.v (Setup.v's lines meet Backend.v's
      [drive]), Exec.v ([exec] and its relay, to the exit code of sbx exec and
      the result of the MCP tool).
    - draug-guest/src/server.rs: Router.v (the reaper and the exit-status
      router), GuestConn.v ([handle_conn] and its five threads), Startup.v
      ([guest_main] up to its accept loop, and the boot of a sandbox).
    - draug-cli/src/mcp.rs: Output.v (capture and clamping), Mcp.v (the seven
      tools, quota and error objects), McpSpec.v (the shape of results),
      Quota.v (the create gate under concurrency and deadlines), Serve.v
      ([serve] and the tool methods, for a client that makes calls in turn).
    - draug-cli/src/main.rs: Cli.v.
    - draug-core/src/backend.rs and draug-ns/src/lib.rs: Contract.v, the
      [Backend] trait as a class, its documentation as laws, the namespace
      backend and the stub of other systems as instances.
    - UnitTests.v: the unit tests inside the source files, run on the model.

    Components meet where the code calls: Backend.v uses the operations of
    Registry.v on the database in its world, [Cgroup.required] for the
    failures of a spawn and the lines of Handshake.v for the setup process;
    [create_cgroup_abstracts] says how far its cgroup step is an abstraction of
    Cgroup.v.  Startup.v follows setup's child into the guest and back to the
    host's [drive]; Reexec.v says that the processes of Setup.v and Helper.v are
    started with what backend.rs gives them.  Mcp.v, Serve.v and Cli.v are
    clients of Backend.v and Exec.v; Contract.v proves what a client of any
    lawful backend may rely on, from the class alone.

    ** How the code's effects are modelled

    - Errors are values of [result]; [let?] is the question mark operator, and
      [do!] threads a state through fallible code.
    - What the outside decides is either a schedule in the state, consumed in
      order (I/O failures, random ids, partial transfers, SQLite failures,
      setup processes), or a parameter: a function of the calls so far
      (Cgroup.v), a class of system calls (Setup.v, [Kernel]; Startup.v,
      [GuestKernel]), or a clock that another writer moves by (FdCopy.v, [env]).
    - A failure that the code ignores is ignored, and noted: the world of
      Backend.v has the list of them ([w_dropped]) - cgroup.kill and the rmdir
      of a cgroup, which is given up after twenty attempts, reading cgroup.path,
      the removal of a snapshot's directory -, so that theorems can say what is
      left behind then.
    - An exec changes the layer: what the command writes is a parameter of the
      socket it is sent to ([so_writes], [run_command]).
    - What a process prints is part of its state: Serve.v and Cli.v thread a
      [term], the world with the bytes on both streams.  Writes to the streams
      are taken to succeed.
    - Concurrency is a state machine whose actions are the atomic steps of the
      threads or tasks, and a theorem is about every sequence of them
      (Router.v, GuestConn.v, Helper.v, Quota.v, OpLock.v), an explicit
      interleaving (Handshake.v, Startup.v, ReconcileSpec.v), or a writer that
      acts before every call (FdCopy.v).
    - Machine integers are Z or N with the bounds and wrap-around the code
      meets (saturating sums, casts between i64 and u64, u32 pids).

    Parameters with laws, each instantiated in a Witness module: msgpack
    ([Codec], decoding undoes encoding), JSON of limits ([LimitsJson]) and of
    the setup's configuration ([ConfigJson]: what could be written reads back,
    and can be when the paths are Unicode), SQLite
    ([SqlEngine]: a scan is a permutation), the mount table ([KernelLaws]: a
    remount makes what is mounted at a point read-only, a bind or mount adds at
    its target, a refused mount changes nothing, other calls leave the table
    alone, pivot_root and umount do what their manual says, mountinfo lists
    the table with its escapes).  [KernelLaws] assumes that nothing is
    propagated into the namespace or mounted by others while setup runs.

    ** What the theorems show

    - registry: every operation, on every outcome, is the step of two finite
      maps ([registry_refines]); an opened database is complete
      ([init_complete]).
    - layers: a diff reports exactly the paths at which the base and the tree
      overlayfs shows differ ([diff_upper_exact]), as long as no upper directory
      re-opens a base directory below an opaque one; a copy that succeeds is
      the layer ([copy_tree_exact]), as long as no directory stream breaks off
      and no attribute that is there is reported absent, and without failures
      it succeeds ([copy_tree_total]); descriptor by descriptor, with the sandbox frozen,
      it makes the same tree of new objects and touches nothing else
      ([fd_copy_exact]); an attribute is read whole, whatever its size
      ([get_xattr_faithful]).  Whatever the sandbox does to the layer meanwhile,
      the copy stays inside it ([copy_confined]) and returns, unless it meets a
      pipe or a layer that grows without end ([copy_returns],
      [pipe_swap_blocks]).
    - sandbox: setup that succeeds leaves nothing of the host reachable but
      what the design allows ([sandbox_sealed]), the recursive remount fails
      closed ([remount_fails_closed]), mountinfo is read exactly
      ([mounts_under_exact]), and the host understands what setup prints in
      every interleaving but one ([handshake]); a guest that is accepted has
      bound its socket ([boot]).  [link_fails_open]: under a state root behind a
      link the remount sees nothing.
    - limits and liveness: a requested limit is enforced or the spawn fails
      ([create_enforces], [controllers_migrate]); a snapshot never leaves a
      sandbox frozen ([snapshot_thaws]); a reused pid is not taken for the
      guest ([liveness_exact]).
    - the op lock: if no call is dropped and no teardown goes on without the
      lock, a layer stays frozen while it is copied, with nobody else inside a
      critical section ([copy_stays_frozen]), and only then
      ([frozen_while_copying]); if no teardown gives up its cgroup, a cgroup
      never outlives the row and the directory that lead to it
      ([cgroup_stays_named]); once everybody is gone a reconcile repairs the
      sandbox, but for a cgroup whose name was lost ([reconcile_heals]).  What the lock does
      not cover: [deadline_leaves_frozen], [lock_lost_with_directory],
      [teardown_forgets_cgroup].
    - backend: snapshot is all or nothing, restore materializes the captured
      layer, spawn is ready or rolled back, destroy kills exactly what belongs
      to the sandbox, reconcile reaps exactly the dead; each theorem says what
      is left where the code ignores a failure.  After any history, failures included, the registry is
      such that a reconcile which nothing disturbs heals it ([history_heals]).
      The trait's promises hold ([ns_keeps_promises]), so a sandbox can be
      branched any number of times and dropped ([fork_keeps_files]).
    - exec: frames round trip and are delivered exactly; started first, one
      truthful terminal frame last, no output lost; every wait gets its own
      child's status; a handler leaves no command behind, unless it could not
      report its start ([handler_returns_clean]); the relay passes events on
      unchanged and ends; the exit code is the command's; the maps of a rootless
      sandbox are the ones its user was granted ([write_maps_rootless]); the
      copy helper returns once the maps are written; a re-executed process plays the role
      it was started for ([reexec_roles]).
    - clients: every MCP result has its tool's shape ([tool_results_typed]),
      output rendering never panics and is bounded ([clamp_total]), creates
      keep the quota ([quota_respected]) but for calls dropped during an
      insert ([quota_overshoot]), a session of calls is answered call by call
      and keeps it too, but for calls cut off, through all of the backend
      ([session_keeps_quota]); a command prints its result and nothing else, or
      fails with 125 and an empty stdout ([cli_outcome]).
    Theorems on defects state the behaviour of the code as it is.

    ** Bounds and fuel

    Fuel bounds recursion that is not structural, and a theorem says that it
    is enough: the relay has a round per byte it may read, plus one
    ([relay_one_terminal], [relay_messages]); copy and readlink loops have the
    remaining length ([copy_tree_total]); the copy of a layer that changes has
    a depth and a number of rounds, and [copy_returns] says which are enough for
    a writer that keeps to some rank and size, while [copy_confined] holds for
    any; the accept loop runs for any number of rounds; character, word and escape scanners
    have the length of the text; reading an attribute has a round per failure of the
    schedule and per byte of the value ([get_xattr_returns]); octal and decimal
    printers have the digits of
    their width.  The code's own bounds are kept as numbers: 80 polls of a
    freeze, 20 attempts to remove a cgroup, 100 polls for a killed guest,
    [MAX_FRAME_LEN], [MAX_CHUNK_LEN], [MAX_ORPHANS], [MAX_BYTES].

    ** Not modelled

    - argument parsing (clap), the MCP transport, schemas and [get_info]
      (rmcp), [Registry::open], which is a connection (rusqlite) and then
      [init], tokio runtimes;
    - writes to stdout and stderr that fail, and the panics of [println!] then;
    - what a command does in its sandbox beyond its layer and its output;
    - syncfs and the deadline around [drive]: they change none of the state;
    - sandboxes that other processes insert while the quota is checked, mount
      propagation during setup;
    - a process of draug that dies inside a call: Recovery.v has every call run
      to its end, with whatever failures; OpLock.v has the deaths;
    - re-exports, the texts of schemas and descriptions, and the integration
      tests, which run real sandboxes on a real kernel.

    ** Next

    One world for OpLock.v and Backend.v, so that the registry row of a snapshot
    is followed through a crash; opaque directories and metacopy files under a
    base that changes. *)

From Stdlib Require Export Ascii ZifyBool ZifyN ZifyNat.
From stdpp Require Export base numbers list strings sorting gmap pretty.

#[global] Open Scope Z_scope.

(** ** Results

    Rust's [Result<T, E>]; [let?] is the [?] operator. *)

Inductive result (E A : Type) : Type :=
  | Ok (a : A)
  | Err (e : E).
Arguments Ok {E A} a.
Arguments Err {E A} e.

Declare Scope draug_scope.
Delimit Scope draug_scope with draug.
#[global] Open Scope draug_scope.

Notation "'let?' x ':=' m 'in' k" :=
  (match m with Ok x => k | Err err => Err err end)
    (at level 10, x pattern, m at level 200, k at level 200,
     format "'[v' 'let?'  x  ':='  m  'in' '/' k ']'") : draug_scope.

Definition is_ok {E A} (r : result E A) : bool :=
  match r with Ok _ => true | Err _ => false end.

(** [Result::ok] *)
Definition ok_of {E A} (r : result E A) : option A :=
  match r with Ok a => Some a | Err _ => None end.

Definition map_err {E F A} (f : E -> F) (r : result E A) : result F A :=
  match r with Ok a => Ok a | Err e => Err (f e) end.

#[global] Instance result_eq_dec {E A} `{EqDecision E} `{EqDecision A} : EqDecision (result E A).
Proof. solve_decision. Defined.

(** ** Tactics *)

(** Case on the scrutinee of every [match] in the goal or a hypothesis, then
    use the equations that gives. *)
Ltac cases := repeat (case_match || case_decide); simplify_eq/=.

(** Destruct every existential and conjunction among the hypotheses. *)
Ltac deep :=
  repeat match goal with
  | H : _ /\ _ |- _ => destruct H
  | H : exists _, _ |- _ => destruct H
  | H : Ok _ = Ok _ |- _ => injection H as H
  | H : Ok _ = Err _ |- _ => discriminate H
  | H : Err _ = Ok _ |- _ => discriminate H
  | H : (_, _) = (_, _) |- _ => injection H as H
  end; simplify_eq/=.

Create HintDb draug.
Create Rewrite HintDb draug.

(** ** Machine integers

    A w-bit unsigned integer is a [Z] (or [N]) below [2^w]; arithmetic that
    can leave that range is written with [wrap]. *)

Definition wrap (w : Z) (z : Z) : Z := z mod 2 ^ w.

(** [x as i64] on a [u64], and back: two's complement. *)
Definition i64_of_u64 (z : Z) : Z := if decide (z < 2 ^ 63) then z else z - 2 ^ 64.
Definition u64_of_i64 (z : Z) : Z := wrap 64 z.

Definition u64_range (z : Z) : Prop := 0 <= z < 2 ^ 64.
Definition i64_range (z : Z) : Prop := - 2 ^ 63 <= z < 2 ^ 63.

Lemma u64_i64_roundtrip z : u64_range z -> u64_of_i64 (i64_of_u64 z) = z.
Proof.
  unfold u64_range, u64_of_i64, i64_of_u64, wrap. intros Hz. case_decide.
  - by rewrite Z.mod_small by lia.
  - rewrite <- (Z_mod_plus_full _ 1). rewrite Z.mod_small; lia.
Qed.

Lemma i64_of_u64_range z : u64_range z -> i64_range (i64_of_u64 z).
Proof. unfold u64_range, i64_range, i64_of_u64. case_decide; lia. Qed.

#[export] Hint Resolve i64_of_u64_range : draug.

(** Length of a byte string, as the code's [usize]. *)
Definition len {A} (l : list A) : N := N.of_nat (length l).

Lemma len_app {A} (l k : list A) : len (l ++ k) = (len l + len k)%N.
Proof. unfold len. rewrite length_app. lia. Qed.

Lemma len_nil {A} : len (@nil A) = 0%N.
Proof. done. Qed.

#[export] Hint Rewrite @len_app @len_nil : draug.

(** ** Bytes *)

Abbreviation byte := Byte.byte.

Definition byte_val (b : byte) : N := Byte.to_N b.
Definition byte_of (n : N) : byte := default Byte.x00 (Byte.of_N (n mod 256)).

Lemma byte_val_bound b : (byte_val b < 256)%N.
Proof. pose proof (Byte.to_N_bounded b). unfold byte_val. lia. Qed.

Lemma byte_of_val b : byte_of (byte_val b) = b.
Proof.
  unfold byte_of. rewrite N.mod_small by apply byte_val_bound.
  unfold byte_val. by rewrite Byte.of_to_N.
Qed.

Lemma byte_val_of n : byte_val (byte_of n) = (n mod 256)%N.
Proof.
  unfold byte_of, byte_val.
  destruct (Byte.of_N (n mod 256)) as [b|] eqn:E; simpl.
  - by apply Byte.to_of_N.
  - apply Byte.of_N_None_iff in E.
    pose proof (N.mod_upper_bound n 256). lia.
Qed.

#[global] Instance byte_eq_dec : EqDecision byte := Byte.byte_eq_dec.

(** ** Text *)

Definition bytes_of_string (s : string) : list byte := String.list_byte_of_string s.
Definition string_of_bytes (l : list byte) : string := String.string_of_list_byte l.

Lemma string_of_bytes_of_string s : string_of_bytes (bytes_of_string s) = s.
Proof. apply String.string_of_list_byte_of_string. Qed.

Lemma bytes_of_string_of_bytes l : bytes_of_string (string_of_bytes l) = l.
Proof. apply String.list_byte_of_string_of_list_byte. Qed.

Definition str_len (s : string) : N := N.of_nat (String.length s).

(** ** Tables

    A list of rows with a key column, and the finite map it denotes. *)

Definition table_map {R V} (key : R -> string) (val : R -> V) (l : list R) : gmap string V :=
  list_to_map ((fun r => (key r, val r)) <$> l).

Lemma NoDup_filter_keys {R} (key : R -> string) (P : R -> Prop) `{forall r, Decision (P r)} (l : list R) :
  NoDup (key <$> l) -> NoDup (key <$> filter P l).
Proof.
  induction l as [|r l IH]; [done|]. rewrite fmap_cons, NoDup_cons. intros [Hr Hl].
  rewrite filter_cons. case_decide; [|by apply IH].
  rewrite fmap_cons, NoDup_cons. split; [|by apply IH].
  rewrite list_elem_of_fmap in *. setoid_rewrite list_elem_of_filter. naive_solver.
Qed.

Section table.
Context {R V : Type} (key : R -> string) (val : R -> V).
Implicit Types l : list R.

Lemma table_keys l : ((fun r => (key r, val r)) <$> l).*1 = key <$> l.
Proof. by rewrite <- list_fmap_compose. Qed.

Lemma table_map_Some l k v : NoDup (key <$> l) ->
  table_map key val l !! k = Some v <-> exists r, r ∈ l /\ key r = k /\ val r = v.
Proof.
  intros Hl. unfold table_map. rewrite <- elem_of_list_to_map by (by rewrite table_keys).
  rewrite list_elem_of_fmap. split; [|naive_solver]. intros (r & [= -> ->] & ?). eauto.
Qed.

Lemma table_map_None l k : table_map key val l !! k = None <-> k ∉ key <$> l.
Proof. unfold table_map. by rewrite <- not_elem_of_list_to_map, table_keys. Qed.

Lemma table_map_snoc l r : key r ∉ key <$> l ->
  table_map key val (l ++ [r]) = <[key r := val r]> (table_map key val l).
Proof.
  intros. unfold table_map. rewrite fmap_app. apply list_to_map_snoc. by rewrite table_keys.
Qed.

Lemma table_map_fmap (f : R -> R) (g : V -> V) l :
  (forall r, key (f r) = key r /\ val (f r) = g (val r)) ->
  table_map key val (f <$> l) = g <$> table_map key val l.
Proof.
  intros Hf. unfold table_map. rewrite <- list_to_map_fmap. f_equal.
  rewrite <- !list_fmap_compose. apply list_fmap_ext. intros i r _. simpl.
  by destruct (Hf r) as [-> ->].
Qed.

Lemma table_map_filter l k : NoDup (key <$> l) ->
  table_map key val (filter (fun r => key r <> k) l) = delete k (table_map key val l).
Proof.
  intros Hl. apply map_eq. intros j. destruct (decide (j = k)) as [->|Hj].
  - rewrite lookup_delete_eq. apply table_map_None.
    rewrite list_elem_of_fmap. setoid_rewrite list_elem_of_filter. naive_solver.
  - rewrite lookup_delete_ne by done. apply option_eq. intros v.
    rewrite !table_map_Some by (by try apply NoDup_filter_keys).
    setoid_rewrite list_elem_of_filter. naive_solver.
Qed.

(** Rewriting rows without touching their keys. *)
Lemma table_map_update l (f : R -> R) (g : V -> V) k : NoDup (key <$> l) ->
  (forall r, r ∈ l -> key r = k -> key (f r) = key r /\ val (f r) = g (val r)) ->
  table_map key val ((fun r => if decide (key r = k) then f r else r) <$> l)
  = alter g k (table_map key val l).
Proof.
  intros Hl Hf.
  assert (key <$> ((fun r => if decide (key r = k) then f r else r) <$> l) = key <$> l) as Hk.
  { rewrite <- list_fmap_compose. apply list_fmap_ext. intros i r Hr%list_elem_of_lookup_2.
    simpl. case_decide; [|done]. by apply Hf. }
  apply map_eq. intros j. apply option_eq. intros v.
  rewrite table_map_Some by (by rewrite Hk).
  rewrite lookup_alter. setoid_rewrite list_elem_of_fmap. case_decide as Hj.
  - subst j. rewrite fmap_Some. setoid_rewrite table_map_Some; [|done]. split.
    + intros (r & (r0 & -> & Hr) & Hkey & <-). case_decide as Hd; [|done].
      destruct (Hf r0) as [??]; [done..|]. naive_solver.
    + intros (v0 & (r & Hr & Hkey & <-) & ->). destruct (Hf r) as [Hk' Hv]; [done..|].
      exists (f r). split_and!; [|congruence|done].
      exists r. by rewrite decide_True.
  - rewrite table_map_Some by done. split.
    + intros (r & (r0 & -> & Hr) & Hkey & <-). case_decide as Hd; [|naive_solver].
      destruct (Hf r0) as [Hk' _]; [done..|]. congruence.
    + intros (r & Hr & Hkey & <-). exists r. split_and!; [|done..].
      exists r. rewrite decide_False; [done|congruence].
Qed.
End table.

(** ** Loops that collect

    [for x in l { out.extend(f(x)?) }]. *)

Definition collect {E A B} (f : A -> result E (list B)) : list A -> result E (list B) :=
  fix go l :=
    match l with
    | [] => Ok []
    | x :: l' => match f x with
                 | Ok o => match go l' with Ok o' => Ok (o ++ o') | Err e => Err e end
                 | Err e => Err e
                 end
    end.

Lemma collect_Ok {E A B} (f : A -> result E (list B)) l out : collect f l = Ok out ->
  forall y, y ∈ out <-> exists x o, x ∈ l /\ f x = Ok o /\ y ∈ o.
Proof.
  revert out. induction l as [|x l IH]; intros out; simpl; [intros [= <-]; set_solver|].
  destruct (f x) as [o|e] eqn:Ex; [|done]. destruct (collect f l) as [o'|e]; [|done].
  intros [= <-] y. rewrite elem_of_app, (IH o') by done. setoid_rewrite elem_of_cons. split.
  - intros [?|(x' & o'' & ? & ? & ?)]; eauto 10.
  - intros (x' & o'' & [->|?] & ? & ?); [left; congruence|right; eauto].
Qed.

Lemma collect_total {E A B} (f : A -> result E (list B)) l :
  (forall x, x ∈ l -> exists o, f x = Ok o) -> exists out, collect f l = Ok out.
Proof.
  induction l as [|x l IH]; intros H; simpl; [by eexists|].
  destruct (H x) as [o ->]; [left|]. destruct IH as [o' ->]; [|by eexists].
  intros y Hy. apply H. by right.
Qed.

Lemma collect_Ok_each {E A B} (f : A -> result E (list B)) l out : collect f l = Ok out ->
  forall x, x ∈ l -> exists o, f x = Ok o.
Proof.
  revert out. induction l as [|y l IH]; intros out; simpl; [set_solver|].
  destruct (f y) as [o|e] eqn:Ey; [|done]. destruct (collect f l) as [o'|e]; [|done].
  intros _ x [->|Hx]%elem_of_cons; eauto.
Qed.

Lemma collect_Err {E A B} (f : A -> result E (list B)) l e : collect f l = Err e ->
  exists x, x ∈ l /\ f x = Err e.
Proof.
  induction l as [|x l IH]; simpl; [done|]. destruct (f x) as [o|e'] eqn:Ex.
  - destruct (collect f l); [done|]. intros [= ->]. destruct IH as (y & ? & ?); [done|].
    exists y. split; [by right|done].
  - intros [= ->]. exists x. split; [left|done].
Qed.

Lemma filter_ext_in {A} (P Q : A -> Prop) `{!forall x, Decision (P x), !forall x, Decision (Q x)} (l : list A) :
  (forall x, x ∈ l -> P x <-> Q x) -> filter P l = filter Q l.
Proof.
  induction l as [|x l IH]; intros Hpq; [done|].
  pose proof (Hpq x (list_elem_of_here _ _)) as Hx. rewrite !filter_cons.
  rewrite IH by (intros; apply Hpq; by right). by repeat case_decide; tauto.
Qed.

(** ** Byte order on text: [String::cmp] *)

Definition str_le (a b : string) : Prop := String.leb a b = true.

#[export] Instance str_le_dec : RelDecision str_le.
Proof. intros a b. unfold str_le. apply _. Defined.

#[export] Instance str_le_total : Total str_le.
Proof. intros a b. apply String.leb_total. Qed.

Lemma string_compare_cons a s b t :
  String.compare (String a s) (String b t)
  = match N.compare (N_of_ascii a) (N_of_ascii b) with Eq => String.compare s t | c => c end.
Proof. done. Qed.

#[export] Instance str_le_trans : Transitive str_le.
Proof.
  unfold str_le, String.leb. intros a. induction a as [|x a IH]; intros [|y b] [|z c]; try done.
  rewrite !string_compare_cons. specialize (IH b c).
  destruct (N.compare_spec (N_of_ascii x) (N_of_ascii y)),
    (N.compare_spec (N_of_ascii y) (N_of_ascii z)), (N.compare_spec (N_of_ascii x) (N_of_ascii z));
    try done; try lia; try congruence.
Qed.

(** ** Octal: [format!("{:o}")] *)

Fixpoint octal_fuel (fuel : nat) (n : Z) (acc : string) : string :=
  match fuel with
  | O => acc
  | S fuel' =>
      let acc := String (ascii_of_N (48 + Z.to_N (n mod 8))) acc in
      if decide (n < 8) then acc else octal_fuel fuel' (n / 8) acc
  end.

(** A u32 has at most eleven octal digits. *)
Definition octal (n : Z) : string := octal_fuel 11 n EmptyString.

Example octal_0100644 : octal 33188 = "100644"%string.
Proof. reflexivity. Qed.

(** ** A state and error monad

    Code that threads a world through calls that may fail: the world is kept
    when a call fails. *)

Definition ST (S E A : Type) : Type := S -> result E A * S.

Definition st_ret {S E A} (a : A) : ST S E A := fun s => (Ok a, s).
Definition st_fail {S E A} (e : E) : ST S E A := fun s => (Err e, s).
Definition st_bind {S E A B} (m : ST S E A) (k : A -> ST S E B) : ST S E B := fun s =>
  match m s with (Ok a, s') => k a s' | (Err e, s') => (Err e, s') end.
Definition st_lift {S E A} (r : result E A) : ST S E A := fun s => (r, s).
(** [let _ = m]: the error is dropped, its effects are not. *)
Definition st_try {S E A} (m : ST S E A) : ST S E (result E A) := fun s =>
  let '(r, s') := m s in (Ok r, s').

Notation "'do!' x ':=' m 'in' k" := (st_bind m (fun x => k))
  (at level 10, x pattern, m at level 200, k at level 200,
   format "'[v' 'do!'  x  ':='  m  'in' '/' k ']'") : draug_scope.

(** A run, from what it returns. *)
Lemma ran {S E A} (x : result E A * S) r : x.1 = r -> x = (r, x.2).
Proof. intros <-. apply surjective_pairing. Qed.

Lemma st_bind_Ok {S E A B} (m : ST S E A) (k : A -> ST S E B) s b s' : st_bind m k s = (Ok b, s') ->
  exists a s1, m s = (Ok a, s1) /\ k a s1 = (Ok b, s').
Proof. unfold st_bind. destruct (m s) as [[a|e] s1]; [eauto|done]. Qed.

Lemma st_try_bind {S E A B} (m : ST S E A) (k : result E A -> ST S E B) s r s' :
  st_bind (st_try m) k s = (r, s') -> exists a s1, m s = (a, s1) /\ k a s1 = (r, s').
Proof. unfold st_bind, st_try. destruct (m s) as [a s1]. eauto. Qed.

Lemma st_bind_assoc {S E A B C} (m : ST S E A) (f : A -> ST S E B) (g : B -> ST S E C) s :
  st_bind m (fun x => st_bind (f x) g) s = st_bind (st_bind m f) g s.
Proof. unfold st_bind. by destruct (m s) as [[]]. Qed.
