(* ===== verification/Text.v ===== *)
(** * Text: the parts of Rust's [str] and [String] the code uses

    UTF-8 validity and [String::from_utf8_lossy] on bytes, character
    boundaries, [lines], [split], [trim], [split_whitespace], prefixes,
    substring search, and the decimal [parse] of unsigned integers.  These
    are the standard library's functions, not the repository's. *)

From S2P Require Import Prelude.

(** ** UTF-8 *)

Definition in_range (lo hi : N) (b : byte) : bool :=
  (lo <=? byte_val b)%N && (byte_val b <=? hi)%N.

Definition is_cont (b : byte) : bool := in_range 128 191 b.

(** The second byte a three-byte or four-byte sequence may have. *)
Definition second3 (b0 b1 : byte) : bool :=
  if (byte_val b0 =? 224)%N then in_range 160 191 b1
  else if (byte_val b0 =? 237)%N then in_range 128 159 b1
  else is_cont b1.

Definition second4 (b0 b1 : byte) : bool :=
  if (byte_val b0 =? 240)%N then in_range 144 191 b1
  else if (byte_val b0 =? 244)%N then in_range 128 143 b1
  else is_cont b1.

(** Bytes of the sequence a first byte announces; 0 when it starts none. *)
Definition utf8_width (b : byte) : nat :=
  if in_range 0 127 b then 1
  else if in_range 194 223 b then 2
  else if in_range 224 239 b then 3
  else if in_range 240 244 b then 4
  else 0.

(** The next character of a byte string: how many bytes it spans and whether
    it is well formed.  An ill-formed one spans the maximal prefix that could
    have started a character, as in [Utf8Chunks]. *)
Definition utf8_next (l : list byte) : nat * bool :=
  match l with
  | [] => (0%nat, true)
  | b0 :: l1 =>
      match utf8_width b0 with
      | 1%nat => (1%nat, true)
      | 2%nat =>
          match l1 with
          | b1 :: _ => if is_cont b1 then (2%nat, true) else (1%nat, false)
          | [] => (1%nat, false)
          end
      | 3%nat =>
          match l1 with
          | b1 :: l2 =>
              if second3 b0 b1 then
                match l2 with
                | b2 :: _ => if is_cont b2 then (3%nat, true) else (2%nat, false)
                | [] => (2%nat, false)
                end
              else (1%nat, false)
          | [] => (1%nat, false)
          end
      | 4%nat =>
          match l1 with
          | b1 :: l2 =>
              if second4 b0 b1 then
                match l2 with
                | b2 :: l3 =>
                    if is_cont b2 then
                      match l3 with
                      | b3 :: _ => if is_cont b3 then (4%nat, true) else (3%nat, false)
                      | [] => (3%nat, false)
                      end
                    else (2%nat, false)
                | [] => (2%nat, false)
                end
              else (1%nat, false)
          | [] => (1%nat, false)
          end
      | _ => (1%nat, false)
      end
  end.

(** U+FFFD *)
Definition replacement : list byte := [Byte.xef; Byte.xbf; Byte.xbd].

Fixpoint lossy_fuel (fuel : nat) (l : list byte) : list byte :=
  match fuel, l with
  | O, _ | _, [] => []
  | S fuel', _ =>
      let (n, good) := utf8_next l in
      (if good then take n l else replacement) ++ lossy_fuel fuel' (drop n l)
  end.

(** [String::from_utf8_lossy] *)
Definition from_utf8_lossy (l : list byte) : list byte := lossy_fuel (length l) l.

Inductive utf8 : list byte -> Prop :=
  | utf8_nil : utf8 []
  | utf8_char c l : c <> [] -> utf8_next c = (length c, true) -> utf8 l -> utf8 (c ++ l).

Fixpoint valid_fuel (fuel : nat) (l : list byte) : bool :=
  match fuel, l with
  | _, [] => true
  | O, _ => false
  | S fuel', _ =>
      let (n, good) := utf8_next l in good && valid_fuel fuel' (drop n l)
  end.

Definition utf8_valid (l : list byte) : bool := valid_fuel (length l) l.

(** [str::is_char_boundary] *)
Definition is_char_boundary (l : list byte) (i : N) : bool :=
  if decide (i = 0)%N then true
  else match l !! N.to_nat i with
       | None => (i =? len l)%N
       | Some b => negb (is_cont b)
       end.

(** *** Lemmas *)

Lemma utf8_next_bound l n good :
  utf8_next l = (n, good) -> (n <= length l)%nat /\ (l <> [] -> (0 < n)%nat).
Proof.
  unfold utf8_next. intros H.
  repeat case_match; simplify_eq/=; split; intros; try done; lia.
Qed.

Lemma utf8_width_pos b : is_cont b = true -> utf8_width b = 0%nat.
Proof.
  unfold is_cont, utf8_width, in_range. intros.
  repeat case_match; simplify_eq/=; lia.
Qed.

Lemma second3_cont b0 b1 : second3 b0 b1 = true -> is_cont b1 = true.
Proof. unfold second3, is_cont, in_range. intros. repeat case_match; lia. Qed.

Lemma second4_cont b0 b1 : second4 b0 b1 = true -> is_cont b1 = true.
Proof. unfold second4, is_cont, in_range. intros. repeat case_match; lia. Qed.

(** A good character is decided by its own bytes. *)
Lemma utf8_next_app c l : c <> [] -> utf8_next c = (length c, true) ->
  utf8_next (c ++ l) = (length c, true).
Proof.
  intros Hc H. destruct c as [|b0 [|b1 [|b2 [|b3 c]]]]; [done|..]; clear Hc;
    unfold utf8_next in *; simpl in *;
    destruct (utf8_width b0) as [|[|[|[|[|]]]]]; simplify_eq/=; try done;
    repeat (case_match; simplify_eq/=); done.
Qed.

Lemma utf8_next_take l n : l <> [] -> utf8_next l = (n, true) ->
  utf8_next (take n l) = (length (take n l), true) /\ take n l <> [].
Proof.
  destruct l as [|b0 l]; [done|]. intros _ H.
  unfold utf8_next in H |- *.
  repeat (case_match; simplify_eq/=); try done.
Qed.

Lemma replacement_char : utf8_next replacement = (length replacement, true).
Proof. reflexivity. Qed.

Lemma lossy_fuel_utf8 fuel l : (length l <= fuel)%nat -> utf8 (lossy_fuel fuel l).
Proof.
  revert l. induction fuel as [|fuel IH]; intros [|b l] Hl;
    [apply utf8_nil|apply utf8_nil|apply utf8_nil|].
  cbn [lossy_fuel]. destruct (utf8_next (b :: l)) as [n good] eqn:E.
  pose proof (utf8_next_bound _ _ _ E) as [Hn Hpos]. specialize (Hpos ltac:(done)).
  assert (utf8 (lossy_fuel fuel (drop n (b :: l)))).
  { apply IH. rewrite length_drop. simpl in *. lia. }
  destruct good.
  - apply utf8_next_take in E as [??]; [|done]. by constructor.
  - by apply utf8_char; [|apply replacement_char|].
Qed.

(** [from_utf8_lossy] always yields UTF-8. *)
Lemma from_utf8_lossy_utf8 l : utf8 (from_utf8_lossy l).
Proof. by apply lossy_fuel_utf8. Qed.

Lemma lossy_fuel_id fuel l : utf8 l -> (length l <= fuel)%nat -> lossy_fuel fuel l = l.
Proof.
  intros Hl. revert fuel. induction Hl as [|c l Hc Hn Hl IH]; intros fuel Hf.
  { by destruct fuel. }
  rewrite length_app in Hf. destruct fuel as [|fuel]; [destruct c; simpl in *; [done|lia]|].
  assert (exists b k, c ++ l = b :: k) as (b & k & Ek) by (destruct c; [done|by eexists _, _]).
  rewrite Ek. cbn [lossy_fuel]. rewrite <- Ek, utf8_next_app by done.
  rewrite take_app_length, drop_app_length, IH; [done|].
  destruct c; simpl in *; [done|lia].
Qed.

(** [from_utf8_lossy] leaves UTF-8 alone. *)
Lemma from_utf8_lossy_id l : utf8 l -> from_utf8_lossy l = l.
Proof. intros. by apply lossy_fuel_id. Qed.

Lemma utf8_app l k : utf8 l -> utf8 k -> utf8 (l ++ k).
Proof.
  induction 1 as [|c l Hc Hn Hl IH]; intros; [done|].
  rewrite <- (assoc_L (++)). constructor; auto.
Qed.

Lemma valid_fuel_utf8 fuel l : valid_fuel fuel l = true -> utf8 l.
Proof.
  revert l. induction fuel as [|fuel IH]; intros [|b l];
    [intros; apply utf8_nil|done|intros; apply utf8_nil|].
  cbn [valid_fuel]. destruct (utf8_next (b :: l)) as [n good] eqn:E.
  intros [-> ?]%andb_true_iff. rewrite <- (take_drop n (b :: l)).
  apply utf8_next_take in E as [??]; [|done]. constructor; auto.
Qed.

Lemma utf8_valid_utf8 l : utf8_valid l = true -> utf8 l.
Proof. apply valid_fuel_utf8. Qed.

Lemma from_utf8_lossy_valid l : utf8_valid l = true -> from_utf8_lossy l = l.
Proof. intros. by apply from_utf8_lossy_id, utf8_valid_utf8. Qed.

(** The bytes of a character behind its first one are continuation bytes. *)
Lemma utf8_next_cont c i b : utf8_next c = (length c, true) ->
  c !! S i = Some b -> is_cont b = true.
Proof.
  intros H Hi. destruct c as [|b0 [|b1 [|b2 [|b3 c]]]]; [done|..];
    unfold utf8_next in H; simpl in H;
    destruct (utf8_width b0) as [|[|[|[|[|]]]]]; simplify_eq/=; try done;
    repeat (case_match; simplify_eq/=); try done;
    destruct i as [|[|[|i]]]; simplify_eq/=; try done;
    eauto using second3_cont, second4_cont.
  by destruct c.
Qed.

Lemma utf8_next_first c b : utf8_next (b :: c) = (length (b :: c), true) -> is_cont b = false.
Proof.
  intros H. destruct (is_cont b) eqn:E; [|done].
  apply utf8_width_pos in E. simpl in H. by rewrite E in H.
Qed.

(** Cutting UTF-8 at a character boundary leaves UTF-8 on both sides. *)
Lemma utf8_split l i : utf8 l -> (i <= len l)%N -> is_char_boundary l i = true ->
  utf8 (take (N.to_nat i) l) /\ utf8 (drop (N.to_nat i) l).
Proof.
  intros Hl. revert i. induction Hl as [|c l Hc Hn Hl IH]; intros i Hi Hb.
  { rewrite take_nil, drop_nil. split; constructor. }
  destruct (decide (i = 0)%N) as [->|Hi0].
  { simpl. rewrite take_0, drop_0. split; [constructor|by constructor]. }
  unfold is_char_boundary in Hb. rewrite decide_False in Hb by done.
  destruct (decide (i < len c)%N) as [Hic|Hic].
  - exfalso. rewrite lookup_app_l in Hb by (unfold len in *; lia).
    destruct (c !! N.to_nat i) as [b|] eqn:Eb;
      [|apply lookup_ge_None in Eb; unfold len in *; lia].
    destruct (N.to_nat i) as [|j] eqn:Ej; [lia|].
    by rewrite (utf8_next_cont c j b) in Hb.
  - rewrite len_app in Hi.
    rewrite take_app_ge, drop_app_ge by (unfold len in *; lia).
    replace (N.to_nat i - length c)%nat with (N.to_nat (i - len c)) by (unfold len in *; lia).
    destruct (IH (i - len c)%N) as [??]; [lia| |].
    + unfold is_char_boundary. case_decide; [done|].
      rewrite lookup_app_r in Hb by (unfold len in *; lia).
      replace (N.to_nat i - length c)%nat with (N.to_nat (i - len c)) in Hb by (unfold len in *; lia).
      destruct (l !! _); [done|]. rewrite len_app in Hb. lia.
    + split; [by constructor|done].
Qed.

(** ** Lines, splits and whitespace *)

(** [split(p)]: the pieces between the elements that satisfy [p]; at least one. *)
Fixpoint split_at {A} (p : A -> bool) (l : list A) : list (list A) :=
  match l with
  | [] => [[]]
  | x :: l' =>
      if p x then [] :: split_at p l'
      else match split_at p l' with
           | [] => [[x]]
           | piece :: rest => (x :: piece) :: rest
           end
  end.

Definition is_byte (n : N) (b : byte) : bool := (byte_val b =? n)%N.
Definition is_nl : byte -> bool := is_byte 10.

(** Without the carriage return a terminated line may end with. *)
Definition strip_cr (l : list byte) : list byte :=
  match last l with
  | Some b => if is_byte 13 b then take (length l - 1) l else l
  | None => l
  end.

Fixpoint lines_of (pieces : list (list byte)) : list (list byte) :=
  match pieces with
  | [] => []
  | [l] => if decide (l = []) then [] else [l]
  | l :: rest => strip_cr l :: lines_of rest
  end.

(** [str::lines]: a line ends at a newline, with the carriage return before it
    dropped; the unterminated last line is kept as it is, unless empty. *)
Definition lines (l : list byte) : list (list byte) := lines_of (split_at is_nl l).

(** The Unicode [White_Space] characters, by their UTF-8 bytes. *)
Definition ws1 (a : N) : bool := ((9 <=? a) && (a <=? 13) || (a =? 32))%N.
Definition ws2 (a b : N) : bool := ((a =? 194) && ((b =? 133) || (b =? 160)))%N.
Definition ws3 (a b c : N) : bool :=
  ((a =? 225) && (b =? 154) && (c =? 128)
   || (a =? 226) && (b =? 128) && ((128 <=? c) && (c <=? 138) || (c =? 168) || (c =? 169) || (c =? 175))
   || (a =? 226) && (b =? 129) && (c =? 159)
   || (a =? 227) && (b =? 128) && (c =? 128))%N.

(** Bytes of the white space at the head, 0 for none. *)
Definition ws_len (l : list byte) : nat :=
  match l with
  | [] => 0%nat
  | a :: l1 =>
      if ws1 (byte_val a) then 1%nat
      else match l1 with
           | [] => 0%nat
           | b :: l2 =>
               if ws2 (byte_val a) (byte_val b) then 2%nat
               else match l2 with
                    | c :: _ => if ws3 (byte_val a) (byte_val b) (byte_val c) then 3%nat else 0%nat
                    | [] => 0%nat
                    end
           end
  end.

(** The same at the end of a string given back to front. *)
Definition ws_len_rev (l : list byte) : nat :=
  match l with
  | [] => 0%nat
  | a :: l1 =>
      if ws1 (byte_val a) then 1%nat
      else match l1 with
           | [] => 0%nat
           | b :: l2 =>
               if ws2 (byte_val b) (byte_val a) then 2%nat
               else match l2 with
                    | c :: _ => if ws3 (byte_val c) (byte_val b) (byte_val a) then 3%nat else 0%nat
                    | [] => 0%nat
                    end
           end
  end.

Fixpoint drop_ws (ws : list byte -> nat) (fuel : nat) (l : list byte) : list byte :=
  match fuel with
  | O => l
  | S fuel' => match ws l with O => l | n => drop_ws ws fuel' (drop n l) end
  end.

Definition trim_start (l : list byte) : list byte := drop_ws ws_len (length l) l.
Definition trim_end (l : list byte) : list byte :=
  reverse (drop_ws ws_len_rev (length l) (reverse l)).
Definition trim (l : list byte) : list byte := trim_end (trim_start l).

Fixpoint words_from (fuel : nat) (cur : list byte) (l : list byte) : list (list byte) :=
  match fuel, l with
  | O, _ | _, [] => if decide (cur = []) then [] else [cur]
  | S fuel', b :: l' =>
      match ws_len l with
      | O => words_from fuel' (cur ++ [b]) l'
      | n => (if decide (cur = []) then [] else [cur]) ++ words_from fuel' [] (drop n l)
      end
  end.

(** [str::split_whitespace] *)
Definition words (l : list byte) : list (list byte) := words_from (length l) [] l.

(** *** The same on [string] *)

Definition str_lines (s : string) : list string := string_of_bytes <$> lines (bytes_of_string s).
Definition str_split (c : N) (s : string) : list string :=
  string_of_bytes <$> split_at (is_byte c) (bytes_of_string s).
Definition str_words (s : string) : list string := string_of_bytes <$> words (bytes_of_string s).
Definition str_trim (s : string) : string := string_of_bytes (trim (bytes_of_string s)).
Definition str_lossy (s : string) : string := string_of_bytes (from_utf8_lossy (bytes_of_string s)).
Definition str_utf8 (s : string) : Prop := utf8 (bytes_of_string s).

Lemma str_lossy_id s : str_utf8 s -> str_lossy s = s.
Proof.
  intros. unfold str_lossy. rewrite from_utf8_lossy_id by done.
  apply string_of_bytes_of_string.
Qed.

Fixpoint strip_prefix (p s : string) : option string :=
  match p, s with
  | EmptyString, _ => Some s
  | String a p', String b s' => if decide (a = b) then strip_prefix p' s' else None
  | String _ _, EmptyString => None
  end.

Definition starts_with (p s : string) : bool :=
  match strip_prefix p s with Some _ => true | None => false end.

(** [str::contains] *)
Fixpoint contains (needle s : string) : bool :=
  starts_with needle s ||
  match s with EmptyString => false | String _ s' => contains needle s' end.

(** [split_once(c)] *)
Fixpoint split_once (c : ascii) (s : string) : option (string * string) :=
  match s with
  | EmptyString => None
  | String a s' =>
      if decide (a = c) then Some (EmptyString, s')
      else match split_once c s' with
           | Some (k, v) => Some (String a k, v)
           | None => None
           end
  end.

Lemma strip_prefix_app p s : strip_prefix p (p +:+ s) = Some s.
Proof. induction p as [|a p IH]; [done|]. simpl. by rewrite decide_True. Qed.

Lemma strip_prefix_Some p s r : strip_prefix p s = Some r -> s = p +:+ r.
Proof.
  revert s. induction p as [|a p IH]; intros [|b s]; simpl; intros; simplify_eq/=; try done.
  case_decide; simplify_eq. by rewrite (IH s).
Qed.

Lemma split_once_Some c s k v : split_once c s = Some (k, v) -> s = k +:+ String c v.
Proof.
  revert k. induction s as [|a s IH]; intros k; simpl; [done|].
  case_decide; intros; simplify_eq/=; [done|].
  destruct (split_once c s) as [[k' v']|]; simplify_eq/=.
  by rewrite (IH k').
Qed.

(** ** Decimal integers *)

Definition digit (a : ascii) : option N :=
  let n := N_of_ascii a in
  if decide (48 <= n <= 57)%N then Some (n - 48)%N else None.

Fixpoint digits_val (max : N) (acc : N) (s : string) : option N :=
  match s with
  | EmptyString => Some acc
  | String a s' =>
      match digit a with
      | None => None
      | Some d =>
          let acc' := (acc * 10 + d)%N in
          if decide (acc' <= max)%N then digits_val max acc' s' else None
      end
  end.

(** [str::parse] for an unsigned integer of maximum [max]: an optional plus
    sign, then one or more digits whose value fits. *)
Definition parse_uint (max : N) (s : string) : option N :=
  match s with
  | EmptyString => None
  | String "+" s' =>
      match s' with EmptyString => None | _ => digits_val max 0 s' end
  | _ => digits_val max 0 s
  end.

Definition u32_max : N := 2 ^ 32 - 1.
Definition u64_max : N := 2 ^ 64 - 1.

Lemma digit_pretty d : (d < 10)%N -> digit (pretty_N_char d) = Some d.
Proof.
  intros. assert (d = 0 \/ d = 1 \/ d = 2 \/ d = 3 \/ d = 4 \/ d = 5 \/ d = 6 \/ d = 7
    \/ d = 8 \/ d = 9)%N as Hc by lia. by destruct_or! Hc; subst.
Qed.

Lemma digits_val_pretty max n s : (n <= max)%N ->
  digits_val max 0 (pretty_N_go n s) = digits_val max n s.
Proof.
  revert s. induction (N.lt_wf_0 n) as [n _ IH]; intros s Hn.
  destruct (decide (n = 0)%N) as [->|]; [by rewrite pretty_N_go_0|].
  rewrite pretty_N_go_step by lia.
  pose proof (N.div_lt n 10). pose proof (N.div_mod n 10). pose proof (N.mod_lt n 10).
  rewrite IH by lia. simpl. rewrite digit_pretty by lia.
  rewrite decide_True by lia. f_equal. lia.
Qed.

(** The first character of a printed number is a digit. *)
Lemma pretty_N_head (n : N) : exists d s, pretty n = String (pretty_N_char d) s /\ (d < 10)%N.
Proof.
  assert (forall s, (0 < n)%N -> exists d s', pretty_N_go n s = String (pretty_N_char d) s' /\ (d < 10)%N)
    as Hgo.
  { induction (N.lt_wf_0 n) as [n _ IH]. intros s Hn. rewrite pretty_N_go_step by done.
    destruct (decide (n < 10)%N).
    - rewrite (N.div_small n 10), pretty_N_go_0 by done.
      rewrite N.mod_small by done. by eexists n, s.
    - apply IH; [apply N.div_lt; lia|]. apply N.div_str_pos. lia. }
  unfold pretty, pretty_N. case_decide; [by exists 0%N, EmptyString|]. apply Hgo. lia.
Qed.

(** Parsing undoes printing. *)
Lemma parse_uint_pretty (max n : N) : (n <= max)%N -> parse_uint max (pretty n) = Some n.
Proof.
  intros Hn. destruct (pretty_N_head n) as (d & s & E & Hd).
  assert (digits_val max 0 (pretty n) = Some n) as Hv.
  { unfold pretty, pretty_N. case_decide as H0.
    - subst. simpl. by rewrite decide_True by lia.
    - by rewrite digits_val_pretty. }
  rewrite E in *. unfold parse_uint.
  assert (d = 0 \/ d = 1 \/ d = 2 \/ d = 3 \/ d = 4 \/ d = 5 \/ d = 6 \/ d = 7
    \/ d = 8 \/ d = 9)%N as Hc by lia.
  by destruct_or! Hc; subst.
Qed.

Lemma digits_val_bound max acc s n :
  (acc <= max)%N -> digits_val max acc s = Some n -> (n <= max)%N.
Proof.
  revert acc. induction s as [|a s IH]; intros acc Hacc; simpl; [by intros [= <-]|].
  destruct (digit a); [|done]. case_decide; [|done]. eauto.
Qed.

Lemma parse_uint_bound max s n : parse_uint max s = Some n -> (n <= max)%N.
Proof.
  unfold parse_uint. intros. repeat (case_match; simplify_eq/=);
    eapply digits_val_bound; try eassumption; lia.
Qed.

#[export] Hint Resolve parse_uint_bound : draug.

(** Decimal digits of a number. *)
Lemma pretty_N_go_length n s k : (n < 10 ^ N.of_nat k)%N ->
  (String.length (pretty_N_go n s) <= k + String.length s)%nat.
Proof.
  revert n s. induction k as [|k IH]; intros n s Hn.
  { assert (n = 0)%N as -> by (simpl in Hn; lia). by rewrite pretty_N_go_0. }
  destruct (decide (n = 0)%N) as [->|]; [rewrite pretty_N_go_0; lia|].
  rewrite pretty_N_go_step by lia.
  etrans; [apply IH|simpl; lia].
  apply N.Div0.div_lt_upper_bound. rewrite Nat2N.inj_succ, N.pow_succ_r' in Hn. lia.
Qed.

Lemma pretty_N_length (n : N) k : (0 < k)%nat -> (n < 10 ^ N.of_nat k)%N ->
  (String.length (pretty n) <= k)%nat.
Proof.
  intros Hk Hn. unfold pretty, pretty_N. case_decide; [simpl; lia|].
  etrans; [by apply (pretty_N_go_length _ _ k)|simpl; lia].
Qed.

(** *** ASCII *)

Definition is_digit_byte (b : byte) : Prop := in_range 48 57 b = true.

Lemma bytes_of_string_cons a s : bytes_of_string (String a s) = Ascii.byte_of_ascii a :: bytes_of_string s.
Proof. done. Qed.

Lemma bytes_of_string_app s t : bytes_of_string (s +:+ t) = bytes_of_string s ++ bytes_of_string t.
Proof.
  induction s as [|a s IH]; [done|]. change (String a s +:+ t) with (String a (s +:+ t)).
  by rewrite !bytes_of_string_cons, IH.
Qed.

Lemma len_bytes_of_string s : len (bytes_of_string s) = str_len s.
Proof.
  unfold len, str_len. f_equal. induction s as [|a s IH]; [done|].
  rewrite bytes_of_string_cons. simpl. by rewrite IH.
Qed.

Lemma pretty_digits (n : N) : Forall is_digit_byte (bytes_of_string (pretty n)).
Proof.
  assert (forall s, Forall is_digit_byte (bytes_of_string s) ->
    Forall is_digit_byte (bytes_of_string (pretty_N_go n s))) as Hgo.
  { induction (N.lt_wf_0 n) as [n _ IH]. intros s Hs.
    destruct (decide (n = 0)%N) as [->|]; [by rewrite pretty_N_go_0|].
    rewrite pretty_N_go_step by lia. apply IH; [apply N.div_lt; lia|].
    rewrite bytes_of_string_cons. constructor; [|done].
    pose proof (N.mod_lt n 10 ltac:(done)) as Hd.
    assert (n mod 10 = 0 \/ n mod 10 = 1 \/ n mod 10 = 2 \/ n mod 10 = 3 \/ n mod 10 = 4
      \/ n mod 10 = 5 \/ n mod 10 = 6 \/ n mod 10 = 7 \/ n mod 10 = 8 \/ n mod 10 = 9)%N as Hc by lia.
    by destruct_or! Hc; rewrite Hc. }
  unfold pretty, pretty_N. case_decide; [by repeat constructor|]. by apply Hgo.
Qed.

Definition is_ascii (b : byte) : Prop := in_range 0 127 b = true.

Lemma utf8_ascii l : Forall is_ascii l -> utf8 l.
Proof.
  induction 1 as [|b l Hb Hl IH]; [constructor|]. apply (utf8_char [b]); [done| |done].
  unfold utf8_next, utf8_width. unfold is_ascii in Hb. by rewrite Hb.
Qed.

Lemma digits_ascii l : Forall is_digit_byte l -> Forall is_ascii l.
Proof.
  intros Hl. eapply Forall_impl; [exact Hl|]. unfold is_digit_byte, is_ascii, in_range. intros. lia.
Qed.

Lemma digits_no_nl l : Forall is_digit_byte l -> Forall (fun b => is_nl b = false) l.
Proof.
  intros Hl. eapply Forall_impl; [exact Hl|]. unfold is_digit_byte, in_range, is_nl, is_byte.
  intros. lia.
Qed.

(** *** Trimming digits *)

Lemma ws_len_digit b l : is_digit_byte b -> ws_len (b :: l) = 0%nat.
Proof.
  unfold is_digit_byte, in_range, ws_len, ws1, ws2, ws3. intros Hb.
  repeat case_match; try done; lia.
Qed.

Lemma ws_len_rev_digit b l : is_digit_byte b -> ws_len_rev (b :: l) = 0%nat.
Proof.
  unfold is_digit_byte, in_range, ws_len_rev, ws1, ws2, ws3. intros Hb.
  repeat case_match; try done; lia.
Qed.

Lemma drop_ws_none ws fuel l : ws l = 0%nat -> drop_ws ws fuel l = l.
Proof. intros H. destruct fuel; simpl; [done|]. by rewrite H. Qed.

Lemma trim_digits l : Forall is_digit_byte l -> trim l = l.
Proof.
  intros Hl. assert (trim_start l = l) as Hs.
  { apply drop_ws_none. destruct Hl; [done|]. by apply ws_len_digit. }
  unfold trim. rewrite Hs. unfold trim_end. rewrite drop_ws_none; [apply reverse_involutive|].
  assert (Forall is_digit_byte (reverse l)) as Hr by (by apply Forall_reverse).
  destruct Hr; [done|]. by apply ws_len_rev_digit.
Qed.

Lemma str_trim_pretty (n : N) : str_trim (pretty n) = pretty n.
Proof. unfold str_trim. rewrite trim_digits by apply pretty_digits. apply string_of_bytes_of_string. Qed.

(** *** One number per line, as procfs and cgroupfs print them *)

Lemma words_from_digits cur d rest :
  Forall is_digit_byte d -> cur ++ d <> [] ->
  words_from (length (d ++ Byte.x0a :: rest)) cur (d ++ Byte.x0a :: rest)
  = (cur ++ d) :: words_from (length rest) [] rest.
Proof.
  intros Hd. revert cur. induction Hd as [|b d Hb Hd IH]; intros cur Hc.
  - rewrite app_nil_r in Hc. simpl. rewrite decide_False by done. by rewrite app_nil_r, drop_0.
  - change ((b :: d) ++ Byte.x0a :: rest) with (b :: (d ++ Byte.x0a :: rest)).
    cbn [length words_from]. rewrite ws_len_digit by done.
    rewrite IH; [by rewrite <- app_assoc|]. by destruct cur.
Qed.

Definition pid_lines (pids : list N) : string :=
  foldr (fun p s => pretty p +:+ String "010" s) EmptyString pids.

Lemma str_words_pid_lines pids : str_words (pid_lines pids) = pretty <$> pids.
Proof.
  unfold str_words, words. induction pids as [|p pids IH]; [done|].
  cbn [pid_lines foldr]. fold (pid_lines pids).
  rewrite bytes_of_string_app, bytes_of_string_cons.
  change (Ascii.byte_of_ascii "010") with Byte.x0a.
  rewrite words_from_digits; [|apply pretty_digits|].
  - rewrite !fmap_cons, IH. f_equal. apply string_of_bytes_of_string.
  - destruct (pretty_N_head p) as (d & s & -> & _). by rewrite bytes_of_string_cons.
Qed.

(** *** Splitting at a separator *)

Lemma split_at_sep {A} (p : A -> bool) (l : list A) x rest :
  Forall (fun y => p y = false) l -> p x = true -> split_at p (l ++ x :: rest) = l :: split_at p rest.
Proof.
  intros Hl Hx. induction Hl as [|y l Hy Hl IH]; simpl; [by rewrite Hx|]. by rewrite Hy, IH.
Qed.

Lemma split_at_none {A} (p : A -> bool) (l : list A) :
  Forall (fun y => p y = false) l -> split_at p l = [l].
Proof. induction 1 as [|y l Hy Hl IH]; simpl; [done|]. by rewrite Hy, IH. Qed.
