(* ===== verification/Types.v ===== *)
(** * Core types and the error taxonomy

    draug-core/src/types.rs, limits.rs, error.rs and the event type of
    backend.rs.  A [PathBuf] is the byte string of the path ([path]); a Rust
    [String] is a [string] of its UTF-8 bytes.  [std::io::Error] and
    [rusqlite::Error] are library types: the model keeps what the code reads
    of them (the kind, the errno, the SQLite result class) and their message. *)

From S2P Require Import Prelude.

Abbreviation path := string.

(** [Path::join]: an absolute second path replaces the first; a slash goes
    between the two unless the first one ends with one or is empty. *)
Definition ends_with_slash (a : path) : bool :=
  match String.get (String.length a - 1) a with Some c => bool_decide (c = "/"%char) | None => false end.

Definition path_join (a b : path) : path :=
  match b with
  | String "/" _ => b
  | _ => match a with
         | EmptyString => b
         | _ => if ends_with_slash a then a +:+ b else a +:+ "/" +:+ b
         end
  end.

(** A double quote. *)
Definition dq : string := String "034" EmptyString.

(** ** std::io::Error *)
Module Io.

Inductive ErrorKind :=
  | NotFound | PermissionDenied | AlreadyExists | InvalidInput | InvalidData
  | UnexpectedEof | Other.

#[global] Instance ErrorKind_eq_dec : EqDecision ErrorKind.
Proof. solve_decision. Defined.

Record error := mk { kind : ErrorKind; raw_os_error : option Z; message : string }.

#[global] Instance error_eq_dec : EqDecision error.
Proof. solve_decision. Defined.

(** [io::Error::new(kind, msg)] and [io::Error::other(msg)]. *)
Definition new (k : ErrorKind) (m : string) : error := mk k None m.
Definition other (m : string) : error := mk Other None m.

End Io.

(** ** rusqlite::Error *)
Module Sql.

Inductive error_code := ConstraintViolation | OtherCode (n : Z).

Inductive error :=
  | SqliteFailure (code : error_code) (msg : string)
  | OtherError (msg : string).

Definition to_string (e : error) : string :=
  match e with SqliteFailure _ m => m | OtherError m => m end.

End Sql.

(** ** limits.rs *)

Record ResourceLimits := mkLimits {
  cpu_millis : option Z;
  memory_bytes : option Z;
  pids : option Z;
  disk_bytes : option Z;
  wall_time : option Z;
}.

#[global] Instance ResourceLimits_eq_dec : EqDecision ResourceLimits.
Proof. solve_decision. Defined.

Definition unlimited : ResourceLimits := mkLimits None None None None None.

(** ** types.rs *)

Inductive SandboxState := Creating | Ready | Running | Stopped.

#[global] Instance SandboxState_eq_dec : EqDecision SandboxState.
Proof. solve_decision. Defined.

Definition state_as_str (s : SandboxState) : string :=
  match s with
  | Creating => "creating"
  | Ready => "ready"
  | Running => "running"
  | Stopped => "stopped"
  end.

Definition state_parse (s : string) : option SandboxState :=
  if decide (s = "creating") then Some Creating
  else if decide (s = "ready") then Some Ready
  else if decide (s = "running") then Some Running
  else if decide (s = "stopped") then Some Stopped
  else None.

(** [#[derive(Debug)]]: the variant's name. *)
Definition state_debug (s : SandboxState) : string :=
  match s with
  | Creating => "Creating"
  | Ready => "Ready"
  | Running => "Running"
  | Stopped => "Stopped"
  end.

Record SandboxSpec := mkSpec {
  spec_name : option string;
  spec_rootfs : path;
  spec_from_snapshot : option string;
  spec_limits : ResourceLimits;
  spec_env : list (string * string);
  spec_network : bool;
  spec_allow_host_proc_fallback : bool;
}.

Record Sandbox := mkSandbox {
  sb_id : string;
  sb_name : option string;
  sb_state : SandboxState;
  sb_backend : string;
  sb_rootfs : path;
  sb_state_dir : path;
  sb_limits : ResourceLimits;
  sb_created_at : Z;
}.

Record SnapshotMeta := mkSnapshot {
  sn_id : string;
  sn_sandbox_id : option string;
  sn_name : string;
  sn_path : path;
  sn_rootfs : path;
  sn_size_bytes : Z;
  sn_created_at : Z;
}.

Inductive DiffKind := Added | Modified | Deleted.

#[global] Instance DiffKind_eq_dec : EqDecision DiffKind.
Proof. solve_decision. Defined.

Record DiffEntry := mkDiffEntry {
  de_path : string;
  de_kind : DiffKind;
  de_size : option Z;
  de_mode : option string;
}.

#[global] Instance DiffEntry_eq_dec : EqDecision DiffEntry.
Proof. solve_decision. Defined.

(** ** error.rs *)

Inductive ResourceKind := RSandbox | RSnapshot.

#[global] Instance ResourceKind_eq_dec : EqDecision ResourceKind.
Proof. solve_decision. Defined.

Definition ResourceKind_fmt (k : ResourceKind) : string :=
  match k with RSandbox => "sandbox" | RSnapshot => "snapshot" end.

Inductive ExecErrorKind := SpawnFailed | Timeout | Cancelled.

#[global] Instance ExecErrorKind_eq_dec : EqDecision ExecErrorKind.
Proof. solve_decision. Defined.

Definition ExecErrorKind_fmt (k : ExecErrorKind) : string :=
  match k with
  | SpawnFailed => "spawn-failed"
  | Timeout => "timeout"
  | Cancelled => "cancelled"
  end.

Inductive Error :=
  | NotFound (kind : ResourceKind) (id : string)
  | AlreadyExists (kind : ResourceKind) (id : string)
  | InvalidSpec (msg : string)
  | WrongState (id : string) (state : SandboxState) (op : string)
  | Unsupported (msg : string)
  | Protocol (msg : string)
  | Exec (kind : ExecErrorKind) (message : string)
  | Registry (e : Sql.error)
  | IoErr (op : string) (source : Io.error).

Definition Error_io (op : string) (source : Io.error) : Error := IoErr op source.

(** The [Display] that [thiserror] derives from the [#[error("...")]] strings. *)
Definition Error_fmt (e : Error) : string :=
  match e with
  | NotFound kind id => ResourceKind_fmt kind +:+ " not found: " +:+ id
  | AlreadyExists kind id => ResourceKind_fmt kind +:+ " already exists: " +:+ id
  | InvalidSpec m => "invalid spec: " +:+ m
  | WrongState id state op =>
      "cannot " +:+ op +:+ " sandbox " +:+ id +:+ " in state " +:+ state_debug state
  | Unsupported m => "unsupported on this host: " +:+ m
  | Protocol m => "guest protocol error: " +:+ m
  | Exec kind m => "exec failed (" +:+ ExecErrorKind_fmt kind +:+ "): " +:+ m
  | Registry e => "registry error: " +:+ Sql.to_string e
  | IoErr op source => "io error during " +:+ op +:+ ": " +:+ Io.message source
  end.

(** ** backend.rs: one event of an exec's output stream *)

Inductive ExecEvent :=
  | EStarted (pid : Z)
  | EStdout (data : list byte)
  | EStderr (data : list byte)
  | Exited (code signal : option Z)
  | Failed (kind message : string).

Record ExecRequest := mkExecRequest {
  er_argv : list string;
  er_env : list (string * string);
  er_cwd : option string;
  er_timeout_ms : option Z;
}.

(** ** Lemmas *)

Lemma state_parse_as_str s : state_parse (state_as_str s) = Some s.
Proof. by destruct s. Qed.

Lemma state_parse_Some x s : state_parse x = Some s -> x = state_as_str s.
Proof. unfold state_parse. intros. by cases. Qed.

#[export] Hint Resolve state_parse_as_str : draug.
