(* ===== verification/FsTree.v ===== *)
(** * File trees

    What the code that walks layers sees of a file system: a node has a [stat],
    its extended attributes, a file's bytes or a link's target, and what is
    found under it by name.  Names under a directory are its entries; names
    under a symbolic link are what a path through the link would reach, since
    joining a path and calling lstat follows every component but the last.
    [dir_error] and [xattr_error] are what reading the directory or an
    attribute fails with.  A tree does not change while it is walked. *)

From S2P Require Import Prelude Types.

Record stat := mkStat {
  st_mode : Z; st_uid : Z; st_gid : Z; st_size : Z; st_rdev : Z;
}.

Record inode := mkInode {
  i_stat : stat;
  i_xattrs : list (string * list byte);
  i_data : list byte;
  dir_error : option Io.error;
  xattr_error : option Io.error;
}.

Inductive node := Node (i : inode) (kids : list (string * node)).

Definition n_inode (n : node) : inode := let 'Node i _ := n in i.
Definition n_kids (n : node) : list (string * node) := let 'Node _ k := n in k.
Definition n_stat (n : node) : stat := i_stat (n_inode n).

Definition S_IFMT : Z := 61440.
Definition S_IFCHR : Z := 8192.
Definition S_IFDIR : Z := 16384.
Definition S_IFREG : Z := 32768.
Definition S_IFLNK : Z := 40960.

Definition file_type (s : stat) : Z := Z.land (st_mode s) S_IFMT.
Definition is_dir (s : stat) : bool := file_type s =? S_IFDIR.
Definition is_lnk (s : stat) : bool := file_type s =? S_IFLNK.
Definition is_char_device (s : stat) : bool := file_type s =? S_IFCHR.

Fixpoint assoc {V} (k : string) (l : list (string * V)) : option V :=
  match l with
  | [] => None
  | (k', v) :: l' => if decide (k = k') then Some v else assoc k l'
  end.

(** [symlink_metadata(dir.join(name))]: the node there, if any. *)
Definition child (n : node) (name : string) : option node := assoc name (n_kids n).

(** [read_dir(path)] *)
Definition read_dir (n : node) : result Io.error (list (string * node)) :=
  match dir_error (n_inode n) with Some e => Err e | None => Ok (n_kids n) end.

Section node_ind.
Context (P : node -> Prop).
Context (Hnode : forall i kids, Forall (fun '(_, c) => P c) kids -> P (Node i kids)).

Fixpoint node_rect' (n : node) : P n :=
  match n with
  | Node i kids =>
      Hnode i kids
        ((fix go l : Forall (fun '(_, c) => P c) l :=
            match l with
            | [] => List.Forall_nil _
            | (s, c) :: l' => List.Forall_cons _ (s, c) l' (node_rect' c) (go l')
            end) kids)
  end.
End node_ind.

(** Induction over a tree with the hypothesis for every child. *)
Lemma node_ind' (P : node -> Prop) :
  (forall i kids, (forall s c, (s, c) ∈ kids -> P c) -> P (Node i kids)) -> forall n, P n.
Proof.
  intros H. apply node_rect'. intros i kids Hk. apply H. intros s c Hc.
  rewrite Forall_forall in Hk. by apply (Hk (s, c)).
Qed.

(** Names are unique in every directory. *)
Inductive wf_tree : node -> Prop :=
  | wf_Node i kids : NoDup kids.*1 -> (forall s c, (s, c) ∈ kids -> wf_tree c) -> wf_tree (Node i kids).

(** Nothing is reached through a node that is not a directory. *)
Inductive plain : node -> Prop :=
  | plain_Node i kids : (is_dir (i_stat i) = false -> kids = []) ->
      (forall s c, (s, c) ∈ kids -> plain c) -> plain (Node i kids).

(** Reading directories and attributes never fails. *)
Inductive readable : node -> Prop :=
  | readable_Node i kids : dir_error i = None -> xattr_error i = None ->
      (forall s c, (s, c) ∈ kids -> readable c) -> readable (Node i kids).

Lemma assoc_Some {V} k (l : list (string * V)) v : NoDup l.*1 -> assoc k l = Some v <-> (k, v) ∈ l.
Proof.
  induction l as [|[k' v'] l IH]; simpl; [set_solver|]. rewrite NoDup_cons, elem_of_cons.
  intros [Hk Hl]. case_decide as Hd.
  - subst. split; [naive_solver|]. intros [?|Hin]; [naive_solver|].
    destruct Hk. apply list_elem_of_fmap. by exists (k', v).
  - rewrite IH by done. naive_solver.
Qed.

Lemma assoc_In {V} k (l : list (string * V)) v : assoc k l = Some v -> (k, v) ∈ l.
Proof.
  induction l as [|[k' v'] l IH]; simpl; [done|]. case_decide; [intros; simplify_eq; left|].
  intros. right. auto.
Qed.

Lemma assoc_None {V} k (l : list (string * V)) : assoc k l = None <-> k ∉ l.*1.
Proof.
  induction l as [|[k' v'] l IH]; simpl; [set_solver|]. case_decide; [subst; set_solver|].
  rewrite IH. set_solver.
Qed.

Lemma child_Some n name c : wf_tree n -> child n name = Some c <-> (name, c) ∈ n_kids n.
Proof. destruct 1. by apply assoc_Some. Qed.

Lemma child_wf n name c : wf_tree n -> child n name = Some c -> wf_tree c.
Proof. intros Hn Hc. destruct Hn as [i kids _ Hk]. apply assoc_In in Hc. by eapply Hk. Qed.

Lemma child_plain n name c : plain n -> child n name = Some c -> plain c.
Proof. intros Hn Hc. destruct Hn as [i kids _ Hk]. apply assoc_In in Hc. by eapply Hk. Qed.

Lemma child_readable n name c : readable n -> child n name = Some c -> readable c.
Proof. intros Hn Hc. destruct Hn as [i kids _ _ Hk]. apply assoc_In in Hc. by eapply Hk. Qed.

Lemma child_plain_file n name : plain n -> is_dir (n_stat n) = false -> child n name = None.
Proof. intros Hn Hd. destruct Hn as [i kids Hk _]. unfold child. simpl. by rewrite Hk. Qed.

#[export] Hint Resolve child_wf child_plain child_readable : draug.
