(* ===== verification/Proto.v ===== *)
(** * The exec protocol: wire types and framing

    draug-proto/src/lib.rs, and the asynchronous framing of
    draug-ns/src/linux/backend.rs.  [rmp_serde] is a library: it is the class
    [Codec], whose only law is that decoding undoes encoding.  A [Read] is the
    bytes it still delivers and the error that follows them (none: end of
    file); a [Write] is the bytes it accepted, when it fails the room it has
    left and the error it then reports, and the error of a flush, if that
    fails. *)

From S2P Require Import Prelude Types.

Definition MAX_FRAME_LEN : N := 1024 * 1024.
Definition MAX_CHUNK_LEN : N := 64 * 1024.

Inductive HostMessage :=
  | ExecRequestMsg (argv : list string) (env : list (string * string))
      (cwd : option string) (stdin tty : bool) (timeout_ms : option Z)
  | Stdin (data : list byte).

Inductive GuestMessage :=
  | Started (pid : Z)
  | Stdout (data : list byte)
  | Stderr (data : list byte)
  | Exit (code signal : option Z)
  | ErrorMsg (kind message : string).

Definition SPAWN_FAILED : string := "spawn-failed".
Definition TIMEOUT : string := "timeout".
Definition PROTOCOL : string := "protocol".

(** ** The codec the framing is used with *)

Class Codec (T : Type) := {
  to_vec : T -> result string (list byte);
  from_slice : list byte -> result string T;
}.

Class CodecLaws (T : Type) `{Codec T} := {
  from_slice_to_vec m body : to_vec m = Ok body -> from_slice body = Ok m;
}.

(** ** Readers and writers *)

Record reader := Reader { rd_data : list byte; rd_fail : option Io.error }.

Definition eof_error : Io.error := Io.new Io.UnexpectedEof "failed to fill whole buffer".

(** [Read::read_exact] into a buffer of [n] bytes. *)
Definition read_exact (n : N) (r : reader) : result Io.error (list byte) * reader :=
  if decide (n <= len (rd_data r))%N
  then (Ok (take (N.to_nat n) (rd_data r)), Reader (drop (N.to_nat n) (rd_data r)) (rd_fail r))
  else (Err (default eof_error (rd_fail r)), Reader [] (rd_fail r)).

Record writer := Writer {
  wr_out : list byte;
  wr_limit : option (N * Io.error);
  wr_flush : option Io.error;
}.

(** [Write::write_all]. *)
Definition write_all (data : list byte) (w : writer) : result Io.error unit * writer :=
  match wr_limit w with
  | None => (Ok tt, Writer (wr_out w ++ data) None (wr_flush w))
  | Some (room, e) =>
      if decide (len data <= room)%N
      then (Ok tt, Writer (wr_out w ++ data) (Some (room - len data, e)%N) (wr_flush w))
      else (Err e, Writer (wr_out w ++ take (N.to_nat room) data) (Some (0%N, e)) (wr_flush w))
  end.

(** [Write::flush]. *)
Definition flush (w : writer) : result Io.error unit * writer :=
  (match wr_flush w with None => Ok tt | Some e => Err e end, w).

(** ** u32 big-endian *)

Definition to_be_bytes (n : N) : list byte :=
  [byte_of (n / 2 ^ 24); byte_of (n / 2 ^ 16); byte_of (n / 2 ^ 8); byte_of n].

Definition from_be_bytes (l : list byte) : N :=
  foldl (fun acc b => acc * 256 + byte_val b)%N 0%N l.

(** ** sync_io *)

Definition read_frame {T} `{Codec T} (r : reader) : result Io.error (option T) * reader :=
  match read_exact 4 r with
  | (Err e, r') =>
      if decide (Io.kind e = Io.UnexpectedEof) then (Ok None, r') else (Err e, r')
  | (Ok len_buf, r') =>
      let n := from_be_bytes len_buf in
      if decide (MAX_FRAME_LEN < n)%N then
        (Err (Io.new Io.InvalidData
                ("frame of " +:+ pretty n +:+ " bytes exceeds MAX_FRAME_LEN")), r')
      else
        match read_exact n r' with
        | (Err e, r'') => (Err e, r'')
        | (Ok buf, r'') =>
            match from_slice buf with
            | Ok m => (Ok (Some m), r'')
            | Err e => (Err (Io.new Io.InvalidData ("bad frame: " +:+ e)), r'')
            end
        end
  end.

Definition write_frame {T} `{Codec T} (m : T) (w : writer) : result Io.error unit * writer :=
  match to_vec m with
  | Err e => (Err (Io.new Io.InvalidData ("encode: " +:+ e)), w)
  | Ok body =>
      if decide (len body <= MAX_FRAME_LEN)%N then
        match write_all (to_be_bytes (len body)) w with
        | (Err e, w') => (Err e, w')
        | (Ok _, w') =>
            match write_all body w' with
            | (Err e, w'') => (Err e, w'')
            | (Ok _, w'') => flush w''
            end
        end
      else (Err (Io.new Io.InvalidData "frame too large"), w)
  end.

(** The host's framing, draug-ns/src/linux/backend.rs: the length is cast with
    [as u32] and never compared with [MAX_FRAME_LEN]. *)
Definition host_write_frame {T} `{Codec T} (m : T) (w : writer) : result Io.error unit * writer :=
  match to_vec m with
  | Err e => (Err (Io.new Io.InvalidData e), w)
  | Ok body =>
      match write_all (to_be_bytes (len body mod 2 ^ 32)) w with
      | (Err e, w') => (Err e, w')
      | (Ok _, w') =>
          match write_all body w' with
          | (Err e, w'') => (Err e, w'')
          | (Ok _, w'') => flush w''
          end
      end
  end.

Definition host_read_frame {T} `{Codec T} (r : reader) : result Io.error (option T) * reader :=
  match read_exact 4 r with
  | (Err e, r') =>
      if decide (Io.kind e = Io.UnexpectedEof) then (Ok None, r') else (Err e, r')
  | (Ok len_buf, r') =>
      let n := from_be_bytes len_buf in
      if decide (MAX_FRAME_LEN < n)%N then
        (Err (Io.new Io.InvalidData "oversized frame from guest"), r')
      else
        match read_exact n r' with
        | (Err e, r'') => (Err e, r'')
        | (Ok buf, r'') =>
            match from_slice buf with
            | Ok m => (Ok (Some m), r'')
            | Err e => (Err (Io.new Io.InvalidData e), r'')
            end
        end
  end.

(** ** Lemmas *)

Lemma length_to_be_bytes n : length (to_be_bytes n) = 4%nat.
Proof. done. Qed.

Lemma from_to_be_bytes n : (n < 2 ^ 32)%N -> from_be_bytes (to_be_bytes n) = n.
Proof.
  intros Hn. unfold from_be_bytes, to_be_bytes. simpl.
  rewrite !byte_val_of, N.add_0_l.
  rewrite (N.mod_small (n / 2 ^ 24)) by (apply N.Div0.div_lt_upper_bound; lia).
  change (2 ^ 24)%N with (2 ^ 8 * (2 ^ 8 * 2 ^ 8))%N.
  change (2 ^ 16)%N with (2 ^ 8 * 2 ^ 8)%N.
  change (2 ^ 8)%N with 256%N. change (256 * 256)%N with 65536%N.
  rewrite <- !N.Div0.div_div.
  pose proof (N.div_mod n 256). pose proof (N.div_mod (n / 256) 256).
  pose proof (N.div_mod (n / 65536) 256).
  change 65536%N with (256 * 256)%N in *. rewrite <- !N.Div0.div_div in *. lia.
Qed.

Lemma read_exact_app l rest f :
  read_exact (len l) (Reader (l ++ rest) f) = (Ok l, Reader rest f).
Proof.
  unfold read_exact. simpl. rewrite len_app, decide_True by lia.
  unfold len. rewrite Nat2N.id, take_app_length, drop_app_length. done.
Qed.

Lemma write_all_inv data w w' :
  write_all data w = (Ok tt, w') ->
  wr_out w' = wr_out w ++ data.
Proof. unfold write_all. intros. by cases. Qed.

Lemma flush_inv w x w' : flush w = (x, w') -> w' = w.
Proof. by intros [= _ <-]. Qed.

(** What a sent frame is. *)
Definition frame (body : list byte) : list byte := to_be_bytes (len body) ++ body.

Section framing.
Context {T} `{CodecLaws T}.

Lemma write_frame_inv (m : T) w w' :
  write_frame m w = (Ok tt, w') ->
  exists body, to_vec m = Ok body /\ (len body <= MAX_FRAME_LEN)%N
    /\ wr_out w' = wr_out w ++ frame body.
Proof.
  unfold write_frame. destruct (to_vec m) as [body|]; [|done].
  case_decide; [|done].
  destruct (write_all _ w) as [[[]|] w1] eqn:E1; [|done].
  destruct (write_all _ w1) as [[[]|] w2] eqn:E2; [|done]. intros ->%flush_inv.
  exists body. split_and!; [done..|].
  rewrite (write_all_inv _ _ _ E2), (write_all_inv _ _ _ E1). unfold frame.
  by rewrite <- (assoc_L (++)).
Qed.

Lemma read_frame_frame (m : T) body rest f :
  to_vec m = Ok body -> (len body <= MAX_FRAME_LEN)%N ->
  read_frame (Reader (frame body ++ rest) f) = (Ok (Some m), Reader rest f).
Proof.
  intros Hm Hlen. unfold read_frame, frame. rewrite <- (assoc_L (++)).
  change 4%N with (len (to_be_bytes (len body))).
  rewrite read_exact_app, from_to_be_bytes; [|unfold MAX_FRAME_LEN in *; lia].
  rewrite decide_False by lia. rewrite read_exact_app.
  by rewrite (from_slice_to_vec _ _ Hm).
Qed.
End framing.

Lemma len_lt_take {A} (l k fr : list A) :
  fr = l ++ k -> k <> [] -> (len l < len fr)%N.
Proof. intros -> Hk. rewrite len_app. unfold len at 3. destruct k; simpl; [done|lia]. Qed.

(** [read_exact] splits its input or delivers nothing. *)
Lemma read_exact_inv n r x r' :
  read_exact n r = (x, r') ->
  match x with
  | Ok l => rd_data r = l ++ rd_data r' /\ len l = n /\ rd_fail r' = rd_fail r
  | Err e => (len (rd_data r) < n)%N /\ e = default eof_error (rd_fail r) /\ rd_data r' = []
  end.
Proof.
  unfold read_exact. case_decide as Hn; intros [= <- <-]; simpl.
  - rewrite take_drop. split_and!; [done| |done].
    unfold len in *. rewrite length_take. lia.
  - split_and!; [lia|done..].
Qed.

Lemma read_exact_short n data : (len data < n)%N ->
  read_exact n (Reader data None) = (Err eof_error, Reader [] None).
Proof. intros. unfold read_exact. simpl. by rewrite decide_False by lia. Qed.

(** ** Properties *)

Section properties.
Context {T} `{CodecLaws T}.

(** C31: whatever [write_frame] puts on the wire, [read_frame] takes off it
    again: the same message, and every byte behind the frame left in place. *)
Theorem frame_roundtrip (m : T) w w' :
  write_frame m w = (Ok tt, w') ->
  exists fr, wr_out w' = wr_out w ++ fr
    /\ forall rest f, read_frame (Reader (fr ++ rest) f) = (Ok (Some m), Reader rest f).
Proof.
  intros (body & Hm & Hlen & Hw)%write_frame_inv.
  exists (frame body). split; [done|]. intros. by apply read_frame_frame.
Qed.

(** [read_frame] delivers a message exactly when the stream starts with
    the big-endian length of a body of at most [MAX_FRAME_LEN] bytes that
    decodes to it; it consumes that frame and nothing else. *)
Theorem read_frame_delivers (m : T) r r' :
  read_frame r = (Ok (Some m), r') <->
  exists hdr body, rd_data r = hdr ++ body ++ rd_data r' /\ rd_fail r' = rd_fail r
    /\ len hdr = 4%N /\ from_be_bytes hdr = len body
    /\ (len body <= MAX_FRAME_LEN)%N /\ from_slice body = Ok m.
Proof.
  split.
  - unfold read_frame. destruct (read_exact 4 r) as [x r1] eqn:E1.
    apply read_exact_inv in E1. destruct x as [hdr|]; [|by case_decide].
    destruct E1 as (Hd1 & Hl1 & Hf1). case_decide as Hmax; [done|].
    destruct (read_exact _ r1) as [y r2] eqn:E2.
    apply read_exact_inv in E2. destruct y as [body|]; [|done].
    destruct E2 as (Hd2 & Hl2 & Hf2).
    destruct (from_slice body) eqn:Hb; [|done]. intros [= <- <-].
    exists hdr, body. rewrite Hd1, Hd2, Hf2, Hf1. split_and!; [done|done|done|done|lia|done].
  - intros (hdr & body & Hd & Hf & Hh & Hn & Hmax & Hb).
    destruct r as [data f], r' as [data' f']. simpl in *. subst.
    unfold read_frame. rewrite <- Hh, read_exact_app, Hn.
    rewrite decide_False by lia. rewrite read_exact_app. by rewrite Hb.
Qed.

(** A connection cut inside a frame: with fewer than four bytes of the
    length received (one to three bytes included) [read_frame] reports a
    clean end, [Ok None]; cut later, it reports [UnexpectedEof]. *)
Theorem read_frame_cut (m : T) body pre suf :
  to_vec m = Ok body -> (len body <= MAX_FRAME_LEN)%N ->
  frame body = pre ++ suf -> suf <> [] ->
  read_frame (T := T) (Reader pre None) =
    (if decide (len pre < 4)%N then Ok None else Err eof_error, Reader [] None).
Proof.
  intros Hm Hlen Hsplit Hsuf. pose proof (len_lt_take _ _ _ Hsplit Hsuf) as Hlt.
  unfold read_frame. case_decide as Hpre; [by rewrite read_exact_short|].
  assert (exists k, pre = to_be_bytes (len body) ++ k) as [k ->].
  { exists (drop 4 pre). rewrite <- (take_drop 4 pre) at 1. f_equal.
    apply (f_equal (take 4)) in Hsplit. unfold frame in Hsplit.
    rewrite take_app_le in Hsplit by done. rewrite take_app_le in Hsplit;
      [|unfold len in *; lia]. by rewrite <- Hsplit. }
  change 4%N with (len (to_be_bytes (len body))).
  rewrite read_exact_app, from_to_be_bytes; [|unfold MAX_FRAME_LEN in *; lia].
  rewrite decide_False by lia.
  unfold frame in Hlt. rewrite !len_app in Hlt. rewrite read_exact_short by lia. done.
Qed.

(** A body over [MAX_FRAME_LEN]: the guest's [write_frame] refuses it and
    writes nothing, the host's [write_frame] sends it in full, and the
    guest's [read_frame] rejects what the host sent. *)
Theorem oversized_frame (m : T) body w rest f :
  to_vec m = Ok body -> (MAX_FRAME_LEN < len body < 2 ^ 32)%N -> wr_limit w = None -> wr_flush w = None ->
  write_frame m w = (Err (Io.new Io.InvalidData "frame too large"), w)
  /\ exists w' fr, host_write_frame m w = (Ok tt, w') /\ wr_out w' = wr_out w ++ fr
     /\ len fr = (4 + len body)%N
     /\ exists e r', read_frame (T := T) (Reader (fr ++ rest) f) = (Err e, r')
        /\ Io.kind e = Io.InvalidData.
Proof.
  intros Hm [Hlo Hhi] Hw Hf. split.
  { unfold write_frame. by rewrite Hm, decide_False by lia. }
  unfold host_write_frame, write_all, flush. rewrite Hm, Hw. simpl. rewrite Hf.
  eexists _, (frame body). split_and!; [done| | |].
  - unfold frame. rewrite N.mod_small by done. by rewrite <- (assoc_L (++)).
  - unfold frame. by rewrite len_app.
  - unfold read_frame, frame. rewrite <- (assoc_L (++)).
    change 4%N with (len (to_be_bytes (len body))).
    rewrite read_exact_app, from_to_be_bytes by done.
    rewrite decide_True by done. by eexists _, _.
Qed.

(** The host's reader and the guest's reader take the same bytes off any
    stream with the same outcome, message for message and error kind for
    error kind. *)
Theorem host_read_frame_agrees r :
  let (x, r1) := host_read_frame (T := T) r in
  let (y, r2) := read_frame (T := T) r in
  r1 = r2 /\ match x, y with
             | Ok a, Ok b => a = b
             | Err e, Err e' => Io.kind e = Io.kind e'
             | _, _ => False
             end.
Proof.
  unfold host_read_frame, read_frame.
  destruct (read_exact 4 r) as [[hdr|e] r1]; [|by case_decide].
  case_decide; [done|].
  destruct (read_exact _ r1) as [[body|e] r2]; [|done].
  by destruct (from_slice body).
Qed.
End properties.

(** ** Witnesses: the identity codec on byte strings *)

#[local] Instance bytes_codec : Codec (list byte) :=
  {| to_vec b := Ok b; from_slice b := Ok b |}.
#[local] Instance bytes_codec_laws : CodecLaws (list byte).
Proof. split. by intros ?? [= ->]. Qed.

Definition hi : list byte := bytes_of_string "hi".
Definition w0 : writer := Writer [] None None.

Lemma frame_roundtrip_witness : exists fr,
  wr_out (snd (write_frame hi w0)) = [] ++ fr
  /\ forall rest f, read_frame (Reader (fr ++ rest) f) = (Ok (Some hi), Reader rest f).
Proof. apply (frame_roundtrip hi w0). reflexivity. Defined.

Lemma read_frame_cut_witness :
  read_frame (T := list byte) (Reader [Byte.x00; Byte.x00] None) = (Ok None, Reader [] None).
Proof.
  apply (read_frame_cut hi hi [Byte.x00; Byte.x00] (drop 2 (frame hi)));
    [reflexivity | vm_compute; discriminate | reflexivity | discriminate].
Defined.

Lemma oversized_frame_witness : let big := repeat Byte.x00 (N.to_nat (MAX_FRAME_LEN + 1)) in
  write_frame big w0 = (Err (Io.new Io.InvalidData "frame too large"), w0).
Proof.
  intros big. apply (oversized_frame big big w0 [] None).
  - reflexivity.
  - unfold big, len. rewrite repeat_length, N2Nat.id. by vm_compute.
  - reflexivity.
  - reflexivity.
Defined.
