(* ===== verification/Registry.v ===== *)
(** * The sandbox and snapshot registry

    draug-core/src/registry.rs.  The database is the rows of its two tables in
    insertion order; every statement of the source is one definition here, with
    the constraints of the schema (PRIMARY KEY, UNIQUE, the foreign key with
    ON DELETE SET NULL) as its guard.  SQLite itself is a library: the order in
    which a query without ORDER BY scans its rows is the parameter [scan], of
    which only that it is a permutation is known, and any statement may fail
    (busy, I/O): [db_faults] is the schedule of those failures.  [serde_json]
    on the limits is the class [LimitsJson]. *)

From S2P Require Import Prelude Text Types.

Class LimitsJson := {
  limits_to_json : ResourceLimits -> result string string;
  limits_from_json : string -> option ResourceLimits;
}.

Class LimitsJsonLaws `{LimitsJson} := {
  limits_from_to l s : limits_to_json l = Ok s -> limits_from_json s = Some l;
}.

Class SqlEngine := {
  scan : forall {A}, list A -> list A;
  scan_perm : forall A (l : list A), Permutation (scan l) l;
}.

(** ** Rows *)

Record sandbox_row := mkSandboxRow {
  r_id : string; r_name : option string; r_state : string; r_backend : string;
  r_rootfs : string; r_state_dir : string; r_limits : string; r_created_at : Z;
}.

Record snapshot_row := mkSnapshotRow {
  q_id : string; q_sandbox_id : option string; q_name : string; q_path : string;
  q_rootfs : string; q_size_bytes : Z; q_created_at : Z;
}.

Record db := mkDb {
  db_sandbox : list sandbox_row;
  db_snapshot : list snapshot_row;
  db_faults : list (option (Z * string));
}.

Definition with_tables (d : db) (sbs : list sandbox_row) (sns : list snapshot_row) : db :=
  mkDb sbs sns (db_faults d).

(** Run one statement: take the next scheduled failure, or execute it. *)
Definition statement {A} (body : db -> result Sql.error A * db) (d : db)
  : result Sql.error A * db :=
  match db_faults d with
  | Some (n, m) :: fs =>
      (Err (Sql.SqliteFailure (Sql.OtherCode n) m), mkDb (db_sandbox d) (db_snapshot d) fs)
  | None :: fs => body (mkDb (db_sandbox d) (db_snapshot d) fs)
  | [] => body d
  end.

Definition constraint_failed (m : string) : Sql.error :=
  Sql.SqliteFailure Sql.ConstraintViolation m.

(** [query_row(...).optional()]: the first row the scan meets. *)
Definition query_row `{SqlEngine} {R} (p : R -> bool) (rows : list R) : option R :=
  head (scan (filter (fun r => p r = true) rows)).

(** ORDER BY: rows with equal keys come in the order of the scan. *)
Definition key_le {R} (key : R -> Z) (a b : R) : Prop := key a <= key b.

#[export] Instance key_le_dec {R} (key : R -> Z) : RelDecision (key_le key).
Proof. intros a b. unfold key_le. apply _. Defined.
#[export] Instance key_le_trans {R} (key : R -> Z) : Transitive (key_le key).
Proof. intros a b c. unfold key_le. lia. Qed.
#[export] Instance key_le_total {R} (key : R -> Z) : Total (key_le key).
Proof. intros a b. unfold key_le. lia. Qed.

Definition order_by `{SqlEngine} {R} (key : R -> Z) (rows : list R) : list R :=
  merge_sort (key_le key) (scan rows).

(** ** registry.rs, lines 251-285 *)

Definition is_constraint_violation (e : Sql.error) : bool :=
  match e with
  | Sql.SqliteFailure Sql.ConstraintViolation _ => true
  | _ => false
  end.

Definition row_to_sandbox `{LimitsJson} (r : sandbox_row) : Sandbox :=
  mkSandbox (r_id r) (r_name r) (default Stopped (state_parse (r_state r))) (r_backend r)
    (r_rootfs r) (r_state_dir r) (default unlimited (limits_from_json (r_limits r)))
    (r_created_at r).

Definition row_to_snapshot (q : snapshot_row) : SnapshotMeta :=
  mkSnapshot (q_id q) (q_sandbox_id q) (q_name q) (q_path q) (q_rootfs q)
    (u64_of_i64 (q_size_bytes q)) (q_created_at q).

(** ** Sandboxes *)

Definition sandbox_params (sb : Sandbox) (limits : string) : sandbox_row :=
  mkSandboxRow (sb_id sb) (sb_name sb) (state_as_str (sb_state sb)) (sb_backend sb)
    (str_lossy (sb_rootfs sb)) (str_lossy (sb_state_dir sb)) limits (sb_created_at sb).

(** PRIMARY KEY (id), UNIQUE (name): NULL names never clash. *)
Definition sandbox_clash (r r' : sandbox_row) : bool :=
  bool_decide (r_id r = r_id r') ||
  bool_decide (r_name r <> None /\ r_name r = r_name r').

Definition insert_sandbox `{LimitsJson} (sb : Sandbox) (d : db) : result Error unit * db :=
  match limits_to_json (sb_limits sb) with
  | Err e => (Err (InvalidSpec ("unserializable limits: " +:+ e)), d)
  | Ok limits =>
      let row := sandbox_params sb limits in
      match statement (fun d =>
              if existsb (sandbox_clash row) (db_sandbox d)
              then (Err (constraint_failed "UNIQUE constraint failed: sandbox"), d)
              else (Ok tt, with_tables d (db_sandbox d ++ [row]) (db_snapshot d))) d with
      | (Ok _, d') => (Ok tt, d')
      | (Err e, d') =>
          if is_constraint_violation e
          then (Err (AlreadyExists RSandbox (default (sb_id sb) (sb_name sb))), d')
          else (Err (Registry e), d')
      end
  end.

Definition get_sandbox `{SqlEngine, LimitsJson} (id_or_name : string) (d : db)
  : result Error Sandbox * db :=
  match statement (fun d =>
          (Ok (query_row (fun r => bool_decide (r_id r = id_or_name) ||
                                   bool_decide (r_name r = Some id_or_name)) (db_sandbox d)), d)) d with
  | (Ok (Some r), d') => (Ok (row_to_sandbox r), d')
  | (Ok None, d') => (Err (NotFound RSandbox id_or_name), d')
  | (Err e, d') => (Err (Registry e), d')
  end.

Definition list_sandboxes `{SqlEngine, LimitsJson} (d : db) : result Error (list Sandbox) * db :=
  match statement (fun d => (Ok (order_by r_created_at (db_sandbox d)), d)) d with
  | (Ok rows, d') => (Ok (row_to_sandbox <$> rows), d')
  | (Err e, d') => (Err (Registry e), d')
  end.

Definition set_state (st : SandboxState) (r : sandbox_row) : sandbox_row :=
  mkSandboxRow (r_id r) (r_name r) (state_as_str st) (r_backend r) (r_rootfs r)
    (r_state_dir r) (r_limits r) (r_created_at r).

Definition update_sandbox_state (id : string) (st : SandboxState) (d : db)
  : result Error unit * db :=
  match statement (fun d =>
          (Ok (length (filter (fun r => r_id r = id) (db_sandbox d))),
           with_tables d ((fun r => if decide (r_id r = id) then set_state st r else r) <$> db_sandbox d)
             (db_snapshot d))) d with
  | (Ok n, d') => if decide (n = 0%nat) then (Err (NotFound RSandbox id), d') else (Ok tt, d')
  | (Err e, d') => (Err (Registry e), d')
  end.

(** ON DELETE SET NULL *)
Definition unlink (id : string) (q : snapshot_row) : snapshot_row :=
  if decide (q_sandbox_id q = Some id)
  then mkSnapshotRow (q_id q) None (q_name q) (q_path q) (q_rootfs q) (q_size_bytes q) (q_created_at q)
  else q.

Definition remove_sandbox (id : string) (d : db) : result Error unit * db :=
  match statement (fun d =>
          (Ok tt, with_tables d (filter (fun r => r_id r <> id) (db_sandbox d))
                    (unlink id <$> db_snapshot d))) d with
  | (Ok _, d') => (Ok tt, d')
  | (Err e, d') => (Err (Registry e), d')
  end.

(** ** Snapshots *)

Definition snapshot_params (sn : SnapshotMeta) : snapshot_row :=
  mkSnapshotRow (sn_id sn) (sn_sandbox_id sn) (sn_name sn) (str_lossy (sn_path sn))
    (str_lossy (sn_rootfs sn)) (i64_of_u64 (sn_size_bytes sn)) (sn_created_at sn).

(** PRIMARY KEY (id), UNIQUE (sandbox_id, name): a NULL sandbox_id never clashes. *)
Definition snapshot_clash (q q' : snapshot_row) : bool :=
  bool_decide (q_id q = q_id q') ||
  bool_decide (q_sandbox_id q <> None /\ q_sandbox_id q = q_sandbox_id q' /\ q_name q = q_name q').

(** REFERENCES sandbox(id), with foreign_keys = ON *)
Definition dangling (q : snapshot_row) (d : db) : bool :=
  match q_sandbox_id q with
  | None => false
  | Some s => negb (bool_decide (s ∈ r_id <$> db_sandbox d))
  end.

Definition insert_snapshot (sn : SnapshotMeta) (d : db) : result Error unit * db :=
  let row := snapshot_params sn in
  match statement (fun d =>
          if existsb (snapshot_clash row) (db_snapshot d)
          then (Err (constraint_failed "UNIQUE constraint failed: snapshot"), d)
          else if dangling row d
          then (Err (constraint_failed "FOREIGN KEY constraint failed"), d)
          else (Ok tt, with_tables d (db_sandbox d) (db_snapshot d ++ [row]))) d with
  | (Ok _, d') => (Ok tt, d')
  | (Err e, d') =>
      if is_constraint_violation e
      then (Err (AlreadyExists RSnapshot (sn_name sn)), d')
      else (Err (Registry e), d')
  end.

Definition get_snapshot `{SqlEngine} (id_or_name : string) (d : db) : result Error SnapshotMeta * db :=
  match statement (fun d =>
          (Ok (query_row (fun q => bool_decide (q_id q = id_or_name) ||
                                   bool_decide (q_name q = id_or_name)) (db_snapshot d)), d)) d with
  | (Ok (Some q), d') => (Ok (row_to_snapshot q), d')
  | (Ok None, d') => (Err (NotFound RSnapshot id_or_name), d')
  | (Err e, d') => (Err (Registry e), d')
  end.

Definition list_snapshots `{SqlEngine} (sandbox : option string) (d : db)
  : result Error (list SnapshotMeta) * db :=
  match statement (fun d =>
          (Ok (order_by q_created_at
                 (filter (fun q => sandbox = None \/ q_sandbox_id q = sandbox) (db_snapshot d))), d)) d with
  | (Ok rows, d') => (Ok (row_to_snapshot <$> rows), d')
  | (Err e, d') => (Err (Registry e), d')
  end.

Definition set_size (size : Z) (q : snapshot_row) : snapshot_row :=
  mkSnapshotRow (q_id q) (q_sandbox_id q) (q_name q) (q_path q) (q_rootfs q)
    (i64_of_u64 size) (q_created_at q).

Definition set_snapshot_size (id : string) (size_bytes : Z) (d : db) : result Error unit * db :=
  match statement (fun d =>
          (Ok (length (filter (fun q => q_id q = id) (db_snapshot d))),
           with_tables d (db_sandbox d)
             ((fun q => if decide (q_id q = id) then set_size size_bytes q else q) <$> db_snapshot d))) d with
  | (Ok n, d') => if decide (n = 0%nat) then (Err (NotFound RSnapshot id), d') else (Ok tt, d')
  | (Err e, d') => (Err (Registry e), d')
  end.

Definition remove_snapshot (id : string) (d : db) : result Error unit * db :=
  match statement (fun d =>
          (Ok tt, with_tables d (db_sandbox d) (filter (fun q => q_id q <> id) (db_snapshot d)))) d with
  | (Ok _, d') => (Ok tt, d')
  | (Err e, d') => (Err (Registry e), d')
  end.

(** ** Where the database is documented to be

    XDG_DATA_HOME and HOME, as [var_os] gives them. *)
Definition default_path (xdg_data_home home : option path) : path :=
  path_join
    (match xdg_data_home with
     | Some p => p
     | None => path_join (default EmptyString home) ".local/share"
     end) "draug/registry.db".

(** ** Opening the database (lines 20-83)

    The schema of the database file: [PRAGMA user_version] and the columns of
    the snapshot table, [None] while there is no such table.  Each statement of
    [init] commits on its own: a run that dies leaves the statements before
    [alive] reached zero. *)

Record schema := mkSchema { user_version : Z; snapshot_columns : option (list string) }.

Definition SCHEMA_VERSION : Z := 2.

Definition SCHEMA_columns : list string :=
  ["id"; "sandbox_id"; "name"; "path"; "rootfs"; "size_bytes"; "created_at"].

Definition create_tables (s : schema) : schema :=
  mkSchema (user_version s) (Some (default SCHEMA_columns (snapshot_columns s))).

Definition has_column (col : string) (s : schema) : bool :=
  bool_decide (col ∈ default [] (snapshot_columns s)).

Definition add_column (col : string) (s : schema) : schema :=
  mkSchema (user_version s) ((fun cs => cs ++ [col]) <$> snapshot_columns s).

Definition set_version (s : schema) : schema := mkSchema SCHEMA_VERSION (snapshot_columns s).

(** The writes of [init], in order. *)
Definition init_steps (s : schema) : list (schema -> schema) :=
  [create_tables] ++
  (if bool_decide (user_version s = 1) && negb (has_column "rootfs" (create_tables s))
   then [add_column "rootfs"; add_column "size_bytes"] else []) ++
  [set_version].

Definition init (alive : nat) (s : schema) : schema :=
  fold_left (fun s step => step s) (take alive (init_steps s)) s.
