(* ===== verification/RegistrySpec.v ===== *)
(** * What the registry promises

    The abstract registry is a finite map of sandboxes and one of snapshots,
    by id.  [spec_step] says what each operation does to it, the failures
    included; [registry_refines] shows that the statements of Registry.v do
    exactly that and keep the tables well formed. *)

From S2P Require Import Prelude Text Types Registry.

(** ** Well-formed tables: what the schema's constraints enforce *)

Record wf (d : db) : Prop := {
  wf_ids : NoDup (r_id <$> db_sandbox d);
  wf_names r r' : r ∈ db_sandbox d -> r' ∈ db_sandbox d ->
    r_name r <> None -> r_name r = r_name r' -> r = r';
  wf_snap_ids : NoDup (q_id <$> db_snapshot d);
  wf_snap_names q q' : q ∈ db_snapshot d -> q' ∈ db_snapshot d ->
    q_sandbox_id q <> None -> q_sandbox_id q = q_sandbox_id q' -> q_name q = q_name q' -> q = q';
  wf_snap_fk q s : q ∈ db_snapshot d -> q_sandbox_id q = Some s -> s ∈ r_id <$> db_sandbox d;
}.

(** ** The abstract registry *)

Record spec_state := mkSpecState {
  s_sandboxes : gmap string Sandbox;
  s_snapshots : gmap string SnapshotMeta;
}.

Definition abstract `{LimitsJson} (d : db) : spec_state :=
  mkSpecState (table_map r_id row_to_sandbox (db_sandbox d))
              (table_map q_id row_to_snapshot (db_snapshot d)).

(** What a value is once it went through its row: paths become text. *)
Definition stored_sandbox (sb : Sandbox) : Sandbox :=
  mkSandbox (sb_id sb) (sb_name sb) (sb_state sb) (sb_backend sb) (str_lossy (sb_rootfs sb))
    (str_lossy (sb_state_dir sb)) (sb_limits sb) (sb_created_at sb).

Definition stored_snapshot (sn : SnapshotMeta) : SnapshotMeta :=
  mkSnapshot (sn_id sn) (sn_sandbox_id sn) (sn_name sn) (str_lossy (sn_path sn))
    (str_lossy (sn_rootfs sn)) (sn_size_bytes sn) (sn_created_at sn).

Definition with_state (st : SandboxState) (sb : Sandbox) : Sandbox :=
  mkSandbox (sb_id sb) (sb_name sb) st (sb_backend sb) (sb_rootfs sb) (sb_state_dir sb)
    (sb_limits sb) (sb_created_at sb).

Definition with_size (z : Z) (sn : SnapshotMeta) : SnapshotMeta :=
  mkSnapshot (sn_id sn) (sn_sandbox_id sn) (sn_name sn) (sn_path sn) (sn_rootfs sn) z (sn_created_at sn).

Definition orphaned (id : string) (sn : SnapshotMeta) : SnapshotMeta :=
  if decide (sn_sandbox_id sn = Some id)
  then mkSnapshot (sn_id sn) None (sn_name sn) (sn_path sn) (sn_rootfs sn) (sn_size_bytes sn) (sn_created_at sn)
  else sn.

Definition sandbox_taken (sb : Sandbox) (s : spec_state) : Prop :=
  is_Some (s_sandboxes s !! sb_id sb) \/
  exists id sb', s_sandboxes s !! id = Some sb' /\ sb_name sb <> None /\ sb_name sb = sb_name sb'.

Definition snapshot_taken (sn : SnapshotMeta) (s : spec_state) : Prop :=
  is_Some (s_snapshots s !! sn_id sn) \/
  exists id sn', s_snapshots s !! id = Some sn' /\ sn_sandbox_id sn <> None /\
    sn_sandbox_id sn = sn_sandbox_id sn' /\ sn_name sn = sn_name sn'.

Inductive op :=
  | OInsertSandbox (sb : Sandbox)
  | OUpdateState (id : string) (st : SandboxState)
  | ORemoveSandbox (id : string)
  | OInsertSnapshot (sn : SnapshotMeta)
  | OSetSize (id : string) (size : Z)
  | ORemoveSnapshot (id : string).

Definition run `{LimitsJson} (o : op) (d : db) : result Error unit * db :=
  match o with
  | OInsertSandbox sb => insert_sandbox sb d
  | OUpdateState id st => update_sandbox_state id st d
  | ORemoveSandbox id => remove_sandbox id d
  | OInsertSnapshot sn => insert_snapshot sn d
  | OSetSize id size => set_snapshot_size id size d
  | ORemoveSnapshot id => remove_snapshot id d
  end.

(** The sizes an operation carries are [u64]. *)
Definition op_ok (o : op) : Prop :=
  match o with
  | OInsertSnapshot sn => u64_range (sn_size_bytes sn)
  | OSetSize _ size => u64_range size
  | _ => True
  end.

(** The failure the next statement meets, if one is scheduled. *)
Definition next_fault (d : db) : option (Z * string) := mjoin (head (db_faults d)).

(** [spec_step f o s r s']: in state [s], with [f] the engine's next failure,
    [o] returns [r] and leaves [s']. *)
Inductive spec_step `{LimitsJson} :
  option (Z * string) -> op -> spec_state -> result Error unit -> spec_state -> Prop :=
  | insert_sandbox_bad f sb s e :
      limits_to_json (sb_limits sb) = Err e ->
      spec_step f (OInsertSandbox sb) s (Err (InvalidSpec ("unserializable limits: " +:+ e))) s
  | engine_failure o s n m :
      (forall sb, o = OInsertSandbox sb -> is_ok (limits_to_json (sb_limits sb)) = true) ->
      spec_step (Some (n, m)) o s (Err (Registry (Sql.SqliteFailure (Sql.OtherCode n) m))) s
  | insert_sandbox_taken sb s l :
      limits_to_json (sb_limits sb) = Ok l -> sandbox_taken sb s ->
      spec_step None (OInsertSandbox sb) s
        (Err (AlreadyExists RSandbox (default (sb_id sb) (sb_name sb)))) s
  | insert_sandbox_new sb s l :
      limits_to_json (sb_limits sb) = Ok l -> ~ sandbox_taken sb s ->
      spec_step None (OInsertSandbox sb) s (Ok tt)
        (mkSpecState (<[sb_id sb := stored_sandbox sb]> (s_sandboxes s)) (s_snapshots s))
  | update_state_missing id st s :
      s_sandboxes s !! id = None ->
      spec_step None (OUpdateState id st) s (Err (NotFound RSandbox id)) s
  | update_state_found id st s sb :
      s_sandboxes s !! id = Some sb ->
      spec_step None (OUpdateState id st) s (Ok tt)
        (mkSpecState (<[id := with_state st sb]> (s_sandboxes s)) (s_snapshots s))
  | remove_sandbox_any id s :
      spec_step None (ORemoveSandbox id) s (Ok tt)
        (mkSpecState (delete id (s_sandboxes s)) (orphaned id <$> s_snapshots s))
  | insert_snapshot_taken sn s :
      snapshot_taken sn s ->
      spec_step None (OInsertSnapshot sn) s (Err (AlreadyExists RSnapshot (sn_name sn))) s
  | insert_snapshot_dangling sn s id :
      ~ snapshot_taken sn s -> sn_sandbox_id sn = Some id -> s_sandboxes s !! id = None ->
      spec_step None (OInsertSnapshot sn) s (Err (AlreadyExists RSnapshot (sn_name sn))) s
  | insert_snapshot_new sn s :
      ~ snapshot_taken sn s ->
      (forall id, sn_sandbox_id sn = Some id -> is_Some (s_sandboxes s !! id)) ->
      spec_step None (OInsertSnapshot sn) s (Ok tt)
        (mkSpecState (s_sandboxes s) (<[sn_id sn := stored_snapshot sn]> (s_snapshots s)))
  | set_size_missing id size s :
      s_snapshots s !! id = None ->
      spec_step None (OSetSize id size) s (Err (NotFound RSnapshot id)) s
  | set_size_found id size s sn :
      s_snapshots s !! id = Some sn ->
      spec_step None (OSetSize id size) s (Ok tt)
        (mkSpecState (s_sandboxes s) (<[id := with_size size sn]> (s_snapshots s)))
  | remove_snapshot_any id s :
      spec_step None (ORemoveSnapshot id) s (Ok tt)
        (mkSpecState (s_sandboxes s) (delete id (s_snapshots s))).

(** ** Lemmas *)

(** The database after the head of the failure schedule is consumed. *)
Definition settle (d : db) : db := mkDb (db_sandbox d) (db_snapshot d) (tail (db_faults d)).

Lemma statement_fault {A} (body : db -> result Sql.error A * db) d n m :
  next_fault d = Some (n, m) ->
  statement body d = (Err (Sql.SqliteFailure (Sql.OtherCode n) m), settle d).
Proof.
  unfold next_fault, statement, settle.
  destruct d as [sbs sns [|[[]|] fs]]; simpl; intros; by simplify_eq/=.
Qed.

Lemma statement_run {A} (body : db -> result Sql.error A * db) d :
  next_fault d = None -> statement body d = body (settle d).
Proof.
  unfold next_fault, statement, settle.
  destruct d as [sbs sns [|[[]|] fs]]; simpl; intros; by simplify_eq/=.
Qed.

Lemma wf_settle d : wf d -> wf (settle d).
Proof. intros []. by split. Qed.

#[export] Hint Resolve wf_settle : draug.

Lemma existsb_false {A} (f : A -> bool) l :
  existsb f l = false <-> forall x, x ∈ l -> f x = false.
Proof.
  induction l as [|x l IH]; simpl; [set_solver|].
  rewrite orb_false_iff, IH. setoid_rewrite elem_of_cons. naive_solver.
Qed.

Lemma existsb_true {A} (f : A -> bool) l : existsb f l = true <-> exists x, x ∈ l /\ f x = true.
Proof. rewrite existsb_exists. by setoid_rewrite <- list_elem_of_In. Qed.

Section lemmas.
Context `{LimitsJsonLaws}.

Lemma row_sandbox_params sb l : limits_to_json (sb_limits sb) = Ok l ->
  row_to_sandbox (sandbox_params sb l) = stored_sandbox sb.
Proof.
  intros Hl. unfold row_to_sandbox, stored_sandbox. simpl.
  by rewrite state_parse_as_str, (limits_from_to _ _ Hl).
Qed.

Lemma row_snapshot_params sn : u64_range (sn_size_bytes sn) ->
  row_to_snapshot (snapshot_params sn) = stored_snapshot sn.
Proof. intros. unfold row_to_snapshot, stored_snapshot. simpl. by rewrite u64_i64_roundtrip. Qed.

Lemma abstract_sandbox d id sb : wf d ->
  s_sandboxes (abstract d) !! id = Some sb <->
  exists r, r ∈ db_sandbox d /\ r_id r = id /\ row_to_sandbox r = sb.
Proof. intros Hd. apply table_map_Some, wf_ids, Hd. Qed.

Lemma abstract_sandbox_None d id : s_sandboxes (abstract d) !! id = None <-> id ∉ r_id <$> db_sandbox d.
Proof. apply table_map_None. Qed.

Lemma abstract_sandbox_is_Some d id :
  is_Some (s_sandboxes (abstract d) !! id) <-> id ∈ r_id <$> db_sandbox d.
Proof.
  rewrite <- not_eq_None_Some, abstract_sandbox_None.
  destruct (decide (id ∈ r_id <$> db_sandbox d)); naive_solver.
Qed.

Lemma abstract_snapshot d id sn : wf d ->
  s_snapshots (abstract d) !! id = Some sn <->
  exists q, q ∈ db_snapshot d /\ q_id q = id /\ row_to_snapshot q = sn.
Proof. intros Hd. apply table_map_Some, wf_snap_ids, Hd. Qed.

Lemma abstract_snapshot_None d id : s_snapshots (abstract d) !! id = None <-> id ∉ q_id <$> db_snapshot d.
Proof. apply table_map_None. Qed.

Lemma abstract_snapshot_is_Some d id :
  is_Some (s_snapshots (abstract d) !! id) <-> id ∈ q_id <$> db_snapshot d.
Proof.
  rewrite <- not_eq_None_Some, abstract_snapshot_None.
  destruct (decide (id ∈ q_id <$> db_snapshot d)); naive_solver.
Qed.

(** The boolean guards of the statements decide the collisions of the spec. *)
Lemma sandbox_clash_taken d sb l : wf d ->
  existsb (sandbox_clash (sandbox_params sb l)) (db_sandbox d) = true <->
  sandbox_taken sb (abstract d).
Proof.
  intros Hd. rewrite existsb_true. unfold sandbox_taken.
  rewrite abstract_sandbox_is_Some, list_elem_of_fmap.
  setoid_rewrite abstract_sandbox; [|done].
  unfold sandbox_clash. setoid_rewrite orb_true_iff. setoid_rewrite bool_decide_eq_true.
  simpl. split.
  - intros (r & Hr & [Hid|[Hn Hname]]); [left; eauto|right]. by exists (r_id r), (row_to_sandbox r); eauto 10.
  - intros [(r & -> & Hr)|(id & sb' & (r & Hr & <- & <-) & Hn & Hname)]; [by eauto|]. by exists r; eauto.
Qed.

Lemma snapshot_clash_taken d sn : wf d ->
  existsb (snapshot_clash (snapshot_params sn)) (db_snapshot d) = true <->
  snapshot_taken sn (abstract d).
Proof.
  intros Hd. rewrite existsb_true. unfold snapshot_taken.
  rewrite abstract_snapshot_is_Some, list_elem_of_fmap.
  setoid_rewrite abstract_snapshot; [|done].
  unfold snapshot_clash. setoid_rewrite orb_true_iff. setoid_rewrite bool_decide_eq_true.
  simpl. split.
  - intros (q & Hq & [Hid|(Hn & Hs & Hname)]); [left; eauto|right].
    by exists (q_id q), (row_to_snapshot q); eauto 10.
  - intros [(q & -> & Hq)|(id & sn' & (q & Hq & <- & <-) & Hn & Hs & Hname)]; [by eauto|].
    by exists q; eauto.
Qed.

(** *** One lemma per operation that reached the tables: what it makes of them *)

Lemma insert_sandbox_tables d sb l : wf d -> limits_to_json (sb_limits sb) = Ok l ->
  ~ sandbox_taken sb (abstract d) ->
  let d' := with_tables d (db_sandbox d ++ [sandbox_params sb l]) (db_snapshot d) in
  abstract d' = mkSpecState (<[sb_id sb := stored_sandbox sb]> (s_sandboxes (abstract d)))
                  (s_snapshots (abstract d)) /\ wf d'.
Proof.
  intros Hd Hl Hnew d'.
  assert (r_id (sandbox_params sb l) ∉ r_id <$> db_sandbox d) as Hid.
  { rewrite <- abstract_sandbox_is_Some. intros ?. apply Hnew. by left. }
  split.
  - unfold abstract, d'. simpl. f_equal. rewrite table_map_snoc by done.
    by rewrite row_sandbox_params.
  - assert (forall r, r ∈ db_sandbox d -> r_name r <> None -> r_name r <> sb_name sb) as Hnames.
    { intros r Hr Hn Heq. apply Hnew. right. exists (r_id r), (row_to_sandbox r).
      rewrite abstract_sandbox by done. split_and!; [by eauto|congruence|done]. }
    destruct Hd as [Hids Hnm Hsids Hsnm Hfk]. split; simpl; try done.
    + rewrite fmap_app, NoDup_app. split_and!; [done|set_solver|apply NoDup_singleton].
    + intros r r' [Hr| ->%list_elem_of_singleton]%elem_of_app [Hr'| ->%list_elem_of_singleton]%elem_of_app
        Hn Heq; [by apply Hnm| | |done].
      * by destruct (Hnames r).
      * simpl in *. destruct (Hnames r'); congruence.
    + intros q s Hq Hs. rewrite fmap_app, elem_of_app. left. by eapply Hfk.
Qed.

Lemma insert_snapshot_tables d sn : wf d -> u64_range (sn_size_bytes sn) ->
  ~ snapshot_taken sn (abstract d) -> dangling (snapshot_params sn) d = false ->
  let d' := with_tables d (db_sandbox d) (db_snapshot d ++ [snapshot_params sn]) in
  abstract d' = mkSpecState (s_sandboxes (abstract d))
                  (<[sn_id sn := stored_snapshot sn]> (s_snapshots (abstract d))) /\ wf d'.
Proof.
  intros Hd Hsize Hnew Hdang d'.
  assert (q_id (snapshot_params sn) ∉ q_id <$> db_snapshot d) as Hid.
  { rewrite <- abstract_snapshot_is_Some. intros ?. apply Hnew. by left. }
  split.
  - unfold abstract, d'. simpl. f_equal. rewrite table_map_snoc by done.
    by rewrite row_snapshot_params.
  - assert (forall q, q ∈ db_snapshot d -> q_sandbox_id q <> None ->
        ~ (q_sandbox_id q = sn_sandbox_id sn /\ q_name q = sn_name sn)) as Hnames.
    { intros q Hq Hn [Hs Heq]. apply Hnew. right. exists (q_id q), (row_to_snapshot q).
      rewrite abstract_snapshot by done. split_and!; [by eauto|congruence|done..]. }
    destruct Hd as [Hids Hnm Hsids Hsnm Hfk]. split; simpl; try done.
    + rewrite fmap_app, NoDup_app. split_and!; [done|set_solver|apply NoDup_singleton].
    + intros q q' [Hq| ->%list_elem_of_singleton]%elem_of_app [Hq'| ->%list_elem_of_singleton]%elem_of_app
        Hn Hs Heq; [by apply Hsnm| | |done].
      * by destruct (Hnames q).
      * simpl in *. destruct (Hnames q'); [done|congruence|done].
    + intros q s [Hq| ->%list_elem_of_singleton]%elem_of_app Hs; [by eapply Hfk|].
      unfold dangling in Hdang. rewrite Hs in Hdang.
      by apply negb_false_iff, bool_decide_eq_true in Hdang.
Qed.

Lemma update_rows_tables d id st : wf d ->
  let d' := with_tables d
    ((fun r => if decide (r_id r = id) then set_state st r else r) <$> db_sandbox d) (db_snapshot d) in
  abstract d' = mkSpecState (alter (with_state st) id (s_sandboxes (abstract d)))
                  (s_snapshots (abstract d)) /\ wf d'.
Proof.
  intros Hd d'.
  assert (r_id <$> db_sandbox d' = r_id <$> db_sandbox d) as Hids'.
  { unfold d'. simpl. rewrite <- list_fmap_compose. apply list_fmap_ext.
    intros i r _. simpl. by case_decide. }
  split.
  - unfold abstract, d'. simpl. f_equal. apply table_map_update; [apply Hd|].
    intros r _ _. split; [done|]. unfold row_to_sandbox, with_state. simpl.
    by rewrite state_parse_as_str.
  - destruct Hd as [Hids Hnm Hsids Hsnm Hfk]. split; try done.
    + by rewrite Hids'.
    + intros r r' (r0 & -> & Hr)%list_elem_of_fmap (r0' & -> & Hr')%list_elem_of_fmap Hn Heq.
      assert (r0 = r0') as ->; [|done].
      apply Hnm; [done..| |]; repeat case_decide; by simpl in *.
    + intros q s Hq Hs. rewrite Hids'. by eapply Hfk.
Qed.

Lemma remove_sandbox_tables d id : wf d ->
  let d' := with_tables d (filter (fun r => r_id r <> id) (db_sandbox d)) (unlink id <$> db_snapshot d) in
  abstract d' = mkSpecState (delete id (s_sandboxes (abstract d)))
                  (orphaned id <$> s_snapshots (abstract d)) /\ wf d'.
Proof.
  intros Hd d'.
  assert (forall q, q_id (unlink id q) = q_id q) as Hq by (intros; unfold unlink; by case_decide).
  split.
  - unfold abstract, d'. simpl. f_equal; [by apply table_map_filter, wf_ids|].
    apply table_map_fmap. intros q. split; [done|].
    unfold unlink, orphaned, row_to_snapshot. by do 2 case_decide.
  - destruct Hd as [Hids Hnm Hsids Hsnm Hfk]. split; simpl.
    + by apply NoDup_filter_keys.
    + intros r r' [_ Hr]%list_elem_of_filter [_ Hr']%list_elem_of_filter. by apply Hnm.
    + rewrite <- list_fmap_compose. by rewrite (list_fmap_ext _ q_id) by (intros; apply Hq).
    + intros q q' (q0 & -> & H0q)%list_elem_of_fmap (q0' & -> & H0q')%list_elem_of_fmap Hn Hs Heq.
      f_equal. unfold unlink in *. repeat case_decide; simpl in *; try done. by apply Hsnm.
    + intros q s (q0 & -> & H0q)%list_elem_of_fmap. unfold unlink. case_decide as Hdel; [done|].
      intros Hs. pose proof (Hfk _ _ H0q Hs) as (r & -> & Hr)%list_elem_of_fmap.
      apply list_elem_of_fmap. exists r. split; [done|]. apply list_elem_of_filter. split; congruence.
Qed.

Lemma set_size_tables d id z : wf d -> u64_range z ->
  let d' := with_tables d (db_sandbox d)
    ((fun q => if decide (q_id q = id) then set_size z q else q) <$> db_snapshot d) in
  abstract d' = mkSpecState (s_sandboxes (abstract d))
                  (alter (with_size z) id (s_snapshots (abstract d))) /\ wf d'.
Proof.
  intros Hd Hz d'.
  assert (q_id <$> db_snapshot d' = q_id <$> db_snapshot d) as Hids'.
  { unfold d'. simpl. rewrite <- list_fmap_compose. apply list_fmap_ext.
    intros i q _. simpl. by case_decide. }
  split.
  - unfold abstract, d'. simpl. f_equal. apply table_map_update; [apply Hd|].
    intros q _ _. split; [done|]. unfold row_to_snapshot, with_size. simpl.
    by rewrite u64_i64_roundtrip.
  - destruct Hd as [Hids Hnm Hsids Hsnm Hfk]. split; try done.
    + by rewrite Hids'.
    + intros q q' (q0 & -> & Hq)%list_elem_of_fmap (q0' & -> & Hq')%list_elem_of_fmap Hn Hs Heq.
      assert (q0 = q0') as ->; [|done].
      apply Hsnm; [done..| | |]; repeat case_decide; by simpl in *.
    + intros q s (q0 & -> & Hq)%list_elem_of_fmap Hs.
      eapply Hfk; [done|]. by case_decide.
Qed.

Lemma remove_snapshot_tables d id : wf d ->
  let d' := with_tables d (db_sandbox d) (filter (fun q => q_id q <> id) (db_snapshot d)) in
  abstract d' = mkSpecState (s_sandboxes (abstract d)) (delete id (s_snapshots (abstract d))) /\ wf d'.
Proof.
  intros Hd d'. split.
  - unfold abstract, d'. simpl. f_equal. by apply table_map_filter, wf_snap_ids.
  - destruct Hd as [Hids Hnm Hsids Hsnm Hfk]. split; simpl; try done.
    + by apply NoDup_filter_keys.
    + intros q q' [_ Hq]%list_elem_of_filter [_ Hq']%list_elem_of_filter. by apply Hsnm.
    + intros q s [_ Hq]%list_elem_of_filter. by apply Hfk.
Qed.

(** A count of zero updated rows means that there is no such id. *)
Lemma count_zero {R} (key : R -> string) id (l : list R) :
  length (filter (fun r => key r = id) l) = 0%nat <-> id ∉ key <$> l.
Proof.
  rewrite length_zero_iff_nil. rewrite list_elem_of_fmap. split.
  - intros Hf (r & -> & Hr). assert (r ∈ filter (fun r' => key r' = key r) l) as Hin
      by (by apply list_elem_of_filter). rewrite Hf in Hin. set_solver.
  - intros Hn. destruct (filter _ l) as [|r k] eqn:E; [done|].
    assert (r ∈ filter (fun r => key r = id) l) as [??]%list_elem_of_filter
      by (rewrite E; apply list_elem_of_here). naive_solver.
Qed.

Lemma update_rows_none {R} (key : R -> string) (f : R -> R) id (l : list R) :
  id ∉ key <$> l -> (fun r => if decide (key r = id) then f r else r) <$> l = l.
Proof.
  rewrite list_elem_of_fmap. intros Hn. rewrite <- (list_fmap_id l) at 2.
  apply list_fmap_ext. intros i r Hr%list_elem_of_lookup_2. simpl.
  rewrite decide_False by naive_solver. done.
Qed.

(** Run the statement of an operation, given the engine's next failure. *)
Ltac run_statement Hf :=
  first [erewrite statement_fault by exact Hf | rewrite (statement_run _ _ Hf)];
  cbn [settle db_sandbox db_snapshot db_faults] in *.

Lemma insert_sandbox_refines sb d r d' : wf d -> insert_sandbox sb d = (r, d') ->
  spec_step (next_fault d) (OInsertSandbox sb) (abstract d) r (abstract d') /\ wf d'.
Proof.
  intros Hd. unfold insert_sandbox.
  destruct (limits_to_json (sb_limits sb)) as [l|e] eqn:Hl.
  2: { intros [= <- <-]. split; [by constructor|done]. }
  destruct (next_fault d) as [[n m]|] eqn:Hf; run_statement Hf.
  { simpl. intros [= <- <-]. split; [|by auto with draug].
    apply (engine_failure (OInsertSandbox sb) (abstract d)). intros sb' [= <-]. by rewrite Hl. }
  pose proof (sandbox_clash_taken d sb l Hd) as Hclash.
  destruct (existsb _ _); simpl; intros [= <- <-].
  - split; [|by auto with draug]. econstructor; [done|]. by apply Hclash.
  - destruct (insert_sandbox_tables (settle d) sb l) as [Habs Hwf]; [by auto with draug|done| |].
    { change (abstract (settle d)) with (abstract d). naive_solver. }
    split; [|done]. simpl in Habs. rewrite Habs. econstructor; [done|naive_solver].
Qed.

Lemma insert_snapshot_refines sn d r d' : wf d -> u64_range (sn_size_bytes sn) ->
  insert_snapshot sn d = (r, d') ->
  spec_step (next_fault d) (OInsertSnapshot sn) (abstract d) r (abstract d') /\ wf d'.
Proof.
  intros Hd Hsz. unfold insert_snapshot.
  destruct (next_fault d) as [[n m]|] eqn:Hf; run_statement Hf.
  { simpl. intros [= <- <-]. split; [|by auto with draug].
    by apply (engine_failure (OInsertSnapshot sn) (abstract d)). }
  pose proof (snapshot_clash_taken d sn Hd) as Hclash.
  destruct (existsb _ _); [|destruct (dangling _ _) eqn:Hdang]; simpl; intros [= <- <-].
  - split; [|by auto with draug]. econstructor. by apply Hclash.
  - split; [|by auto with draug]. unfold dangling in Hdang. simpl in Hdang.
    destruct (sn_sandbox_id sn) as [id|] eqn:Hid; [|done].
    eapply insert_snapshot_dangling; [naive_solver|done|].
    apply negb_true_iff, bool_decide_eq_false in Hdang. by apply abstract_sandbox_None.
  - destruct (insert_snapshot_tables (settle d) sn) as [Habs Hwf]; [by auto with draug|done| |done|].
    { change (abstract (settle d)) with (abstract d). naive_solver. }
    split; [|done]. simpl in Habs. rewrite Habs. constructor; [naive_solver|].
    intros id Hid. unfold dangling in Hdang. simpl in Hdang. rewrite Hid in Hdang.
    apply negb_false_iff, bool_decide_eq_true in Hdang. by apply abstract_sandbox_is_Some.
Qed.

(** A partial map update that hits a present key. *)
Lemma alter_found {V} (f : V -> V) id v (m : gmap string V) :
  m !! id = Some v -> alter f id m = <[id := f v]> m.
Proof.
  intros Hm. apply map_eq. intros j. destruct (decide (j = id)) as [->|].
  - by rewrite lookup_alter_eq, Hm, lookup_insert_eq.
  - by rewrite lookup_alter_ne, lookup_insert_ne.
Qed.

Lemma update_state_refines id st d r d' : wf d -> update_sandbox_state id st d = (r, d') ->
  spec_step (next_fault d) (OUpdateState id st) (abstract d) r (abstract d') /\ wf d'.
Proof.
  intros Hd. unfold update_sandbox_state.
  destruct (next_fault d) as [[n m]|] eqn:Hf; run_statement Hf.
  { simpl. intros [= <- <-]. split; [|by auto with draug].
    by apply (engine_failure (OUpdateState id st) (abstract d)). }
  pose proof (update_rows_tables (settle d) id st ltac:(by auto with draug)) as [Habs Hwf].
  simpl in Habs. change (abstract (settle d)) with (abstract d) in Habs.
  destruct (decide _) as [Hz|Hz]; intros [= <- <-]; (split; [|exact Hwf]);
    pose proof (count_zero r_id id (db_sandbox d)) as Hcount.
  - assert (id ∉ r_id <$> db_sandbox d) as Hid by tauto.
    rewrite update_rows_none by done. constructor. by apply abstract_sandbox_None.
  - destruct (s_sandboxes (abstract d) !! id) as [sb|] eqn:Hsb.
    + rewrite Habs, (alter_found _ _ sb) by done. by constructor.
    + apply abstract_sandbox_None in Hsb. tauto.
Qed.

Lemma set_size_refines id z d r d' : wf d -> u64_range z -> set_snapshot_size id z d = (r, d') ->
  spec_step (next_fault d) (OSetSize id z) (abstract d) r (abstract d') /\ wf d'.
Proof.
  intros Hd Hu. unfold set_snapshot_size.
  destruct (next_fault d) as [[n m]|] eqn:Hf; run_statement Hf.
  { simpl. intros [= <- <-]. split; [|by auto with draug].
    by apply (engine_failure (OSetSize id z) (abstract d)). }
  pose proof (set_size_tables (settle d) id z ltac:(by auto with draug) Hu) as [Habs Hwf].
  simpl in Habs. change (abstract (settle d)) with (abstract d) in Habs.
  destruct (decide _) as [Hz|Hz]; intros [= <- <-]; (split; [|exact Hwf]);
    pose proof (count_zero q_id id (db_snapshot d)) as Hcount.
  - assert (id ∉ q_id <$> db_snapshot d) as Hid by tauto.
    rewrite update_rows_none by done. constructor. by apply abstract_snapshot_None.
  - destruct (s_snapshots (abstract d) !! id) as [sn|] eqn:Hsn.
    + rewrite Habs, (alter_found _ _ sn) by done. by constructor.
    + apply abstract_snapshot_None in Hsn. tauto.
Qed.

Lemma remove_sandbox_refines id d r d' : wf d -> remove_sandbox id d = (r, d') ->
  spec_step (next_fault d) (ORemoveSandbox id) (abstract d) r (abstract d') /\ wf d'.
Proof.
  intros Hd. unfold remove_sandbox.
  destruct (next_fault d) as [[n m]|] eqn:Hf; run_statement Hf; intros [= <- <-].
  { split; [|by auto with draug]. by apply (engine_failure (ORemoveSandbox id) (abstract d)). }
  destruct (remove_sandbox_tables (settle d) id) as [Habs Hwf]; [by auto with draug|].
  split; [|done]. simpl in Habs. rewrite Habs. constructor.
Qed.

Lemma remove_snapshot_refines id d r d' : wf d -> remove_snapshot id d = (r, d') ->
  spec_step (next_fault d) (ORemoveSnapshot id) (abstract d) r (abstract d') /\ wf d'.
Proof.
  intros Hd. unfold remove_snapshot.
  destruct (next_fault d) as [[n m]|] eqn:Hf; run_statement Hf; intros [= <- <-].
  { split; [|by auto with draug]. by apply (engine_failure (ORemoveSnapshot id) (abstract d)). }
  destruct (remove_snapshot_tables (settle d) id) as [Habs Hwf]; [by auto with draug|].
  split; [|done]. simpl in Habs. rewrite Habs. constructor.
Qed.

Lemma filter_fmap_comm {A B} (f : A -> B) (P : B -> Prop) (Q : A -> Prop)
    `{forall x, Decision (P x)} `{forall x, Decision (Q x)} (l : list A) :
  (forall a, P (f a) <-> Q a) -> filter P (f <$> l) = f <$> filter Q l.
Proof.
  intros HPQ. induction l as [|a l IH]; [done|]. rewrite fmap_cons, !filter_cons.
  destruct (decide (P (f a))), (decide (Q a)); rewrite ?fmap_cons; naive_solver congruence.
Qed.

Lemma spec_insert_sandbox_ok f sb s s' : spec_step f (OInsertSandbox sb) s (Ok tt) s' ->
  s_sandboxes s' = <[sb_id sb := stored_sandbox sb]> (s_sandboxes s).
Proof. by inversion 1. Qed.

Lemma head_scan_filter `{SqlEngine} {R} (p : R -> bool) (l : list R) r :
  query_row p l = Some r -> r ∈ l /\ p r = true.
Proof.
  unfold query_row. intros Hh. destruct (scan _) as [|x k] eqn:E; [done|]. simplify_eq/=.
  assert (r ∈ filter (fun x => p x = true) l) as Hr.
  { rewrite <- (scan_perm _ (filter _ l)), E. apply list_elem_of_here. }
  apply list_elem_of_filter in Hr. tauto.
Qed.

Lemma query_row_None `{SqlEngine} {R} (p : R -> bool) (l : list R) :
  query_row p l = None -> forall r, r ∈ l -> p r = false.
Proof.
  unfold query_row. intros Hh r Hr. destruct (scan _) as [|x k] eqn:E; [|done].
  destruct (p r) eqn:Hp; [|done].
  assert (r ∈ filter (fun x => p x = true) l) as Hin by (by apply list_elem_of_filter).
  rewrite <- (scan_perm _ (filter _ l)), E in Hin. set_solver.
Qed.

(** ORDER BY only reorders what the scan delivers. *)
Lemma order_by_sorted `{SqlEngine} {R} (key : R -> Z) l :
  StronglySorted (fun a b => key a <= key b) (order_by key l) /\ Permutation (order_by key l) l.
Proof.
  split; [apply StronglySorted_merge_sort; apply _|].
  unfold order_by. by rewrite merge_sort_Permutation, scan_perm.
Qed.

Lemma StronglySorted_fmap {A B} (f : A -> B) (R : A -> A -> Prop) (S : B -> B -> Prop) l :
  (forall a b, R a b -> S (f a) (f b)) -> StronglySorted R l -> StronglySorted S (f <$> l).
Proof.
  intros HRS. induction 1 as [|a l Hl IH Ha]; simpl; constructor; [done|].
  apply Forall_fmap. eapply Forall_impl; [done|]. intros b. apply HRS.
Qed.

Lemma run_Err_tables o d e d' : run o d = (Err e, d') ->
  db_sandbox d' = db_sandbox d /\ db_snapshot d' = db_snapshot d.
Proof.
  destruct o; simpl; unfold insert_sandbox, update_sandbox_state, remove_sandbox, insert_snapshot,
    set_snapshot_size, remove_snapshot;
  try destruct (limits_to_json _); try (by intros [= _ <-]);
  destruct (next_fault d) as [[n m]|] eqn:Hf; run_statement Hf; try (by intros [= _ <-]);
  repeat case_match; simplify_eq/=; intros; simplify_eq/=; try done.
  - split; [|done]. apply update_rows_none. by apply count_zero.
  - split; [done|]. apply update_rows_none. by apply count_zero.
Qed.

Lemma get_sandbox_lookup `{SqlEngine} k d r d' : wf d -> next_fault d = None ->
  get_sandbox k d = (r, d') ->
  d' = settle d /\
  match r with
  | Ok sb => s_sandboxes (abstract d) !! sb_id sb = Some sb /\ (sb_id sb = k \/ sb_name sb = Some k)
  | Err e => e = NotFound RSandbox k /\
      forall id sb, s_sandboxes (abstract d) !! id = Some sb -> id <> k /\ sb_name sb <> Some k
  end.
Proof.
  intros Hd Hf. unfold get_sandbox. run_statement Hf.
  destruct (query_row _ _) as [row|] eqn:Hq; intros [= <- <-]; (split; [done|]).
  - apply head_scan_filter in Hq as [Hrow Hk].
    rewrite orb_true_iff, !bool_decide_eq_true in Hk. simpl. split; [|done].
    apply abstract_sandbox; eauto.
  - split; [done|]. intros id sb (row & Hrow & <- & <-)%abstract_sandbox; [|done].
    pose proof (query_row_None _ _ Hq _ Hrow) as Hk.
    rewrite orb_false_iff, !bool_decide_eq_false in Hk. done.
Qed.

(** An engine that does not fail goes on not failing. *)
Lemma run_no_faults o d r d' : run o d = (r, d') -> db_faults d = [] -> db_faults d' = [].
Proof.
  intros Hrun Hf. assert (next_fault d = None) as Hn by (unfold next_fault; by rewrite Hf).
  revert Hrun. destruct o; simpl; unfold insert_sandbox, update_sandbox_state, remove_sandbox,
    insert_snapshot, set_snapshot_size, remove_snapshot;
  try destruct (limits_to_json _); try (by intros [= _ <-]);
  rewrite (statement_run _ _ Hn); unfold settle; rewrite Hf; simpl;
  repeat case_match; intros; simplify_eq/=; done.
Qed.

(** ** The theorems *)

Lemma run_refines o d r d' : wf d -> op_ok o -> run o d = (r, d') ->
  spec_step (next_fault d) o (abstract d) r (abstract d') /\ wf d'.
Proof.
  intros Hd Ho Hrun. destruct o; simpl in *;
    eauto using insert_sandbox_refines, insert_snapshot_refines, update_state_refines,
      set_size_refines, remove_sandbox_refines, remove_snapshot_refines.
Qed.

Fixpoint run_all (os : list op) (d : db) : db :=
  match os with
  | [] => d
  | o :: os' => run_all os' (snd (run o d))
  end.

Lemma run_all_wf os : forall d, wf d -> Forall op_ok os -> wf (run_all os d).
Proof.
  induction os as [|o os IH]; intros d Hd Hos; [done|]. apply Forall_cons in Hos as [Ho Hos].
  apply IH; [|done]. destruct (run o d) as [r d'] eqn:E. exact (proj2 (run_refines _ _ _ _ Hd Ho E)).
Qed.

(** C1: every mutating operation of the registry does exactly what the abstract
    registry does, whatever it returns - success, name collision, missing row,
    dangling snapshot or engine failure - and keeps the tables well formed
    (unique ids and names, every snapshot of an existing sandbox). *)
Theorem registry_refines o d r d' : wf d -> op_ok o -> run o d = (r, d') ->
  spec_step (next_fault d) o (abstract d) r (abstract d') /\ wf d'.
Proof. apply run_refines. Qed.

(** An operation that returns an error has changed no row of either table. *)
Theorem failed_operation_changes_nothing o d e d' : run o d = (Err e, d') ->
  db_sandbox d' = db_sandbox d /\ db_snapshot d' = db_snapshot d.
Proof. apply run_Err_tables. Qed.

(** A lookup that meets no engine failure returns a registered sandbox whose
    id or name is the key, or [NotFound] exactly when no sandbox has it as id or
    name; it never changes the tables. *)
Theorem get_sandbox_correct `{SqlEngine} k d r d' : wf d -> next_fault d = None ->
  get_sandbox k d = (r, d') ->
  d' = settle d /\
  match r with
  | Ok sb => s_sandboxes (abstract d) !! sb_id sb = Some sb /\ (sb_id sb = k \/ sb_name sb = Some k)
  | Err e => e = NotFound RSandbox k /\
      forall id sb, s_sandboxes (abstract d) !! id = Some sb -> id <> k /\ sb_name sb <> Some k
  end.
Proof. apply get_sandbox_lookup. Qed.

(** What was inserted is found again, by its id, as it was given (paths
    as text), provided its id is not in use as another sandbox's name. *)
Theorem insert_get_sandbox `{SqlEngine} sb d d1 r d2 : wf d ->
  insert_sandbox sb d = (Ok tt, d1) -> next_fault d1 = None ->
  (forall id sb', s_sandboxes (abstract d) !! id = Some sb' -> sb_name sb' <> Some (sb_id sb)) ->
  get_sandbox (sb_id sb) d1 = (r, d2) -> r = Ok (stored_sandbox sb).
Proof.
  intros Hd Hins Hf Hnames Hget.
  destruct (insert_sandbox_refines _ _ _ _ Hd Hins) as [Hstep Hwf].
  apply spec_insert_sandbox_ok in Hstep as Hmap.
  revert Hget. unfold get_sandbox. run_statement Hf.
  destruct (query_row _ _) as [row|] eqn:Hq; intros [= <- <-].
  - apply head_scan_filter in Hq as [Hrow Hk]. rewrite orb_true_iff, !bool_decide_eq_true in Hk.
    assert (s_sandboxes (abstract d1) !! r_id row = Some (row_to_sandbox row)) as Hlk
      by (apply abstract_sandbox; eauto).
    rewrite Hmap in Hlk. destruct (decide (r_id row = sb_id sb)) as [Heq|Hne].
    + rewrite Heq, lookup_insert_eq in Hlk. congruence.
    + rewrite lookup_insert_ne in Hlk by done. destruct Hk as [Hk|Hk]; [done|].
      by destruct (Hnames _ _ Hlk).
  - assert (s_sandboxes (abstract d1) !! sb_id sb = Some (stored_sandbox sb)) as Hlk
      by (by rewrite Hmap, lookup_insert_eq).
    apply abstract_sandbox in Hlk as (row & Hrow & Hid & _); [|done].
    pose proof (query_row_None _ _ Hq _ Hrow) as Hk.
    rewrite orb_false_iff, !bool_decide_eq_false in Hk. tauto.
Qed.

(** [list_sandboxes] returns every registered sandbox exactly once, oldest
    first, whatever order the engine scans the table in. *)
Theorem list_sandboxes_correct `{SqlEngine} d l d' : list_sandboxes d = (Ok l, d') ->
  StronglySorted (fun a b => sb_created_at a <= sb_created_at b) l /\
  Permutation l (row_to_sandbox <$> db_sandbox d) /\
  db_sandbox d' = db_sandbox d /\ db_snapshot d' = db_snapshot d.
Proof.
  unfold list_sandboxes. destruct (next_fault d) as [[n m]|] eqn:Hf; run_statement Hf; [done|].
  intros [= <- <-]. destruct (order_by_sorted r_created_at (db_sandbox d)) as [Hs Hp].
  split_and!; [|by rewrite Hp|done..]. by eapply StronglySorted_fmap; [|exact Hs].
Qed.

(** [list_snapshots] returns the snapshots of the given sandbox, or all of
    them, each exactly once and oldest first. *)
Theorem list_snapshots_correct `{SqlEngine} sandbox d l d' : list_snapshots sandbox d = (Ok l, d') ->
  StronglySorted (fun a b => sn_created_at a <= sn_created_at b) l /\
  Permutation l (filter (fun sn => sandbox = None \/ sn_sandbox_id sn = sandbox)
                  (row_to_snapshot <$> db_snapshot d)).
Proof.
  unfold list_snapshots. destruct (next_fault d) as [[n m]|] eqn:Hf; run_statement Hf; [done|].
  intros [= <- <-]. destruct (order_by_sorted q_created_at
    (filter (fun q => sandbox = None \/ q_sandbox_id q = sandbox) (db_snapshot d))) as [Hs Hp].
  split; [by eapply StronglySorted_fmap; [|exact Hs]|].
  rewrite Hp. apply reflexive_eq. symmetry. apply filter_fmap_comm. done.
Qed.
(** A snapshot of a sandbox that is not registered is refused as an
    [AlreadyExists] of the snapshot's name, although nothing has that name:
    every constraint failure, the foreign key's included, is reported so. *)
Theorem dangling_snapshot_already_exists sn id d : wf d -> next_fault d = None ->
  sn_sandbox_id sn = Some id -> s_sandboxes (abstract d) !! id = None ->
  insert_snapshot sn d = (Err (AlreadyExists RSnapshot (sn_name sn)), settle d).
Proof.
  intros Hd Hf Hid Hnone. unfold insert_snapshot. run_statement Hf.
  assert (dangling (snapshot_params sn) (settle d) = true) as Hdang.
  { unfold dangling. simpl. rewrite Hid. apply negb_true_iff, bool_decide_eq_false.
    by apply abstract_sandbox_None in Hnone. }
  unfold settle in *. cbv zeta beta in *. rewrite Hdang. by destruct (existsb _ _).
Qed.

End lemmas.

(** ** Opening the database *)

Definition v1_columns : list string := ["id"; "sandbox_id"; "name"; "path"; "created_at"].

(** The schemas that past versions of the program leave behind. *)
Definition known_schema (s : schema) : Prop :=
  (user_version s = 0 /\ snapshot_columns s = None) \/
  (user_version s = 1 /\ snapshot_columns s = Some v1_columns) \/
  (user_version s = SCHEMA_VERSION /\ exists cs, snapshot_columns s = Some cs /\ SCHEMA_columns ⊆ cs).

Definition complete (s : schema) : Prop :=
  user_version s = SCHEMA_VERSION /\ SCHEMA_columns ⊆ default [] (snapshot_columns s).

(** Opening a fresh, a version 1 or a version 2 database to the end leaves a
    version 2 database with every column the statements name, and opening it
    again changes nothing. *)
Theorem init_complete s alive : known_schema s -> (4 <= alive)%nat ->
  complete (init alive s) /\ init alive (init alive s) = init alive s.
Proof.
  destruct s as [v cols]. intros Hs Ha.
  assert (forall s', (length (init_steps s') <= 4)%nat) as Hlen.
  { intros s'. unfold init_steps. case_match; simpl; lia. }
  unfold init. rewrite !take_ge by (by etrans; [apply Hlen|]). clear Ha Hlen.
  destruct Hs as [[??]|[[??]|(?&cs&?&Hcs)]]; simpl in *; subst.
  - split; [split; [done|]|done]. simpl. set_solver.
  - split; [split; [done|]|done]. simpl. set_solver.
  - split; [split; [done|exact Hcs]|done].
Qed.

(** The two ALTER statements of the version 1 migration do not commit
    together: a process that dies between them leaves a database that every
    later open marks as version 2 and none completes, so that the statements
    naming [size_bytes] fail for good. *)
Theorem interrupted_migration n :
  let broken := init 2 (mkSchema 1 (Some v1_columns)) in
  let reopened := Nat.iter n (init 4) (init 4 broken) in
  user_version reopened = SCHEMA_VERSION /\ has_column "rootfs" reopened = true /\
  has_column "size_bytes" reopened = false.
Proof.
  intros broken reopened.
  assert (reopened = mkSchema SCHEMA_VERSION (Some (v1_columns ++ ["rootfs"]))) as ->; [|done].
  unfold reopened. induction n as [|n IH]; [done|]. simpl in *. by rewrite IH.
Qed.

(** ** Witnesses *)
Module Witness.

#[local] Instance json : LimitsJson := {|
  limits_to_json l := if decide (l = unlimited) then Ok "{}"%string else Err "unsupported"%string;
  limits_from_json s := if decide (s = "{}"%string) then Some unlimited else None;
|}.
#[local] Instance json_laws : LimitsJsonLaws.
Proof. split. intros l s. simpl. repeat case_decide; naive_solver. Qed.

#[local] Instance in_order : SqlEngine := {| scan A l := l; scan_perm A l := reflexivity l |}.

Definition backwards : SqlEngine :=
  {| scan A l := rev l; scan_perm A l := Permutation_sym (Permutation_rev l) |}.

Definition box (id : string) (name : option string) (t : Z) : Sandbox :=
  mkSandbox id name Ready "namespace" "/" "/state" unlimited t.

Definition empty : db := mkDb [] [] [].

Definition one : db := snd (insert_sandbox (box "a" None 1) empty).

Definition two : db := snd (insert_sandbox (box "b" (Some "a"%string) 0) one).

Lemma wf_empty : wf empty.
Proof. split; simpl; try (by constructor); set_solver. Qed.

Lemma wf_one : wf one.
Proof. apply (insert_sandbox_refines (box "a" None 1) empty (Ok tt) one); [apply wf_empty|done]. Qed.

Lemma wf_two : wf two.
Proof.
  apply (insert_sandbox_refines (box "b" (Some "a"%string) 0) one (Ok tt) two); [apply wf_one|done].
Qed.

Lemma registry_refines_witness :
  spec_step None (ORemoveSandbox "a") (abstract one) (Ok tt) (abstract empty) /\ wf empty.
Proof. apply (registry_refines (ORemoveSandbox "a") one); [apply wf_one|done|done]. Defined.

Lemma failed_operation_changes_nothing_witness : db_sandbox one = db_sandbox one /\ db_snapshot one = [].
Proof.
  apply (failed_operation_changes_nothing (OInsertSandbox (box "a" None 5)) one
           (AlreadyExists RSandbox "a") one). reflexivity.
Defined.

Lemma get_sandbox_correct_witness :
  one = settle one /\ s_sandboxes (abstract one) !! "a"%string = Some (box "a" None 1) /\
  ("a" = "a" \/ None = Some "a")%string.
Proof. apply (get_sandbox_correct "a" one (Ok (box "a" None 1)) one wf_one); reflexivity. Defined.

Lemma insert_get_sandbox_witness :
  Ok (E := Error) (box "c" None 2) = Ok (stored_sandbox (box "c" None 2)).
Proof.
  apply (insert_get_sandbox (box "c" None 2) one (snd (insert_sandbox (box "c" None 2) one))
           (Ok (box "c" None 2)) (snd (insert_sandbox (box "c" None 2) one)) wf_one).
  - reflexivity.
  - reflexivity.
  - intros id sb' (r & Hr & <- & <-)%abstract_sandbox; [|apply wf_one].
    apply list_elem_of_singleton in Hr as ->. done.
  - reflexivity.
Defined.

Lemma list_sandboxes_correct_witness :
  StronglySorted (fun a b => sb_created_at a <= sb_created_at b)
    [box "b" (Some "a"%string) 0; box "a" None 1] /\
  Permutation [box "b" (Some "a"%string) 0; box "a" None 1] (row_to_sandbox <$> db_sandbox two) /\
  db_sandbox two = db_sandbox two /\ db_snapshot two = db_snapshot two.
Proof. apply (list_sandboxes_correct two _ two). reflexivity. Defined.

Lemma list_snapshots_correct_witness :
  StronglySorted (fun a b => sn_created_at a <= sn_created_at b) [] /\
  Permutation [] (filter (fun sn => Some "a"%string = None \/ sn_sandbox_id sn = Some "a"%string)
                    (row_to_snapshot <$> db_snapshot one)).
Proof. apply (list_snapshots_correct (Some "a"%string) one [] one). reflexivity. Defined.

Lemma init_complete_witness :
  complete (init 4 (mkSchema 0 None)) /\
  init 4 (init 4 (mkSchema 0 None)) = init 4 (mkSchema 0 None).
Proof. apply (init_complete (mkSchema 0 None) 4); [left; done|lia]. Defined.

(** The documented precedence - by id, or by name if no id matches - is not
    what the single [id = ?1 OR name = ?1] query guarantees: there are two
    sandboxes, one with id "a" and one named "a", and an engine's scan order,
    for which the lookup of "a" returns the one that is only named so. *)
Theorem get_sandbox_name_shadows_id :
  wf two /\
  fst (@get_sandbox in_order json "a" two) = Ok (box "a" None 1) /\
  fst (@get_sandbox backwards json "a" two) = Ok (box "b" (Some "a"%string) 0).
Proof. split; [apply wf_two|]. by vm_compute. Qed.

Lemma dangling_snapshot_already_exists_witness :
  insert_snapshot (mkSnapshot "s" (Some "gone"%string) "backup" "/p" "/" 0 0) one
  = (Err (AlreadyExists RSnapshot "backup"), settle one).
Proof.
  apply (dangling_snapshot_already_exists
           (mkSnapshot "s" (Some "gone"%string) "backup" "/p" "/" 0 0) "gone" one wf_one); reflexivity.
Defined.

End Witness.
