(* ===== verification/Diff.v ===== *)
(** * Structural diff of an overlay upper layer

    draug-ns/src/linux/diff.rs.  [walk] and its helpers are the source's
    recursion; the second half says what overlayfs shows for an upper layer
    over a base and compares. *)

From S2P Require Import Prelude Text Types FsTree.

(** ** diff.rs *)

Definition join_rel (rel name : string) : string :=
  if decide (rel = EmptyString) then name else rel +:+ "/" +:+ name.

Definition entry_for (path : string) (kind : DiffKind) (meta : stat) : DiffEntry :=
  mkDiffEntry path kind (if is_dir meta then None else Some (st_size meta))
    (Some (octal (st_mode meta))).

Definition is_whiteout (meta : stat) : bool := is_char_device meta && (st_rdev meta =? 0).

(** [fscopy::get_xattr] *)
Definition get_xattr (n : node) (name : string) : result Io.error (option (list byte)) :=
  match xattr_error (n_inode n) with
  | Some e => Err e
  | None => Ok (assoc name (i_xattrs (n_inode n)))
  end.

Definition y_value : list byte := bytes_of_string "y".

Definition opaque_names : list string := ["trusted.overlay.opaque"; "user.overlay.opaque"].

Fixpoint any_y (dir : node) (names : list string) : result Io.error bool :=
  match names with
  | [] => Ok false
  | name :: names' =>
      let? v := get_xattr dir name in
      if decide (v = Some y_value) then Ok true else any_y dir names'
  end.

Definition is_opaque (dir : node) : result Io.error bool := any_y dir opaque_names.

Fixpoint push_deleted (b : node) (rel : string) : result Io.error (list DiffEntry) :=
  let 'Node i kids := b in
  let e := entry_for rel Deleted (i_stat i) in
  if is_dir (i_stat i) then
    match dir_error i with
    | Some err => Err err
    | None =>
        let? out := collect (fun '(name, c) => push_deleted c (join_rel rel (str_lossy name))) kids in
        Ok (e :: out)
    end
  else Ok [e].

Definition push_deleted_kids (b : node) (rel : string) : result Io.error (list DiffEntry) :=
  let? kids := read_dir b in
  collect (fun '(name, c) => push_deleted c (join_rel rel (str_lossy name))) kids.

Definition report_shadowed (upper base : node) (rel : string) : result Io.error (list DiffEntry) :=
  let? kids := read_dir base in
  collect (fun '(name, c) =>
    match child upper name with
    | Some _ => Ok []
    | None => push_deleted c (join_rel rel (str_lossy name))
    end) kids.

(** What [walk] pushes for the directory [c] itself, over [bmeta]. *)
Definition dir_entry (c : node) (bmeta : option node) (rel_path : string)
  : result Io.error (list DiffEntry) :=
  match bmeta with
  | Some bm =>
      if is_dir (n_stat bm) then
        let? op := is_opaque c in
        if op then report_shadowed c bm rel_path else Ok []
      else Ok [entry_for rel_path Modified (n_stat c)]
  | None => Ok [entry_for rel_path Added (n_stat c)]
  end.

(** What it pushes for anything else that is not a whiteout. *)
Definition file_entry (c : node) (bmeta : option node) (rel_path : string)
  : result Io.error (list DiffEntry) :=
  match bmeta with
  | Some bm =>
      if is_dir (n_stat bm) then
        let? out := push_deleted_kids bm rel_path in
        Ok (entry_for rel_path Modified (n_stat c) :: out)
      else Ok [entry_for rel_path Modified (n_stat c)]
  | None => Ok [entry_for rel_path Added (n_stat c)]
  end.

Fixpoint walk (upper : node) (base : option node) (rel : string) : result Io.error (list DiffEntry) :=
  let 'Node i kids := upper in
  match dir_error i with
  | Some e => Err e
  | None =>
      collect (fun '(name, c) =>
        let rel_path := join_rel rel (str_lossy name) in
        let bmeta := base ≫= fun b => child b name in
        if is_whiteout (n_stat c) then
          match bmeta with
          | Some bm => push_deleted bm rel_path
          | None => Ok []
          end
        else if is_dir (n_stat c) then
          let? here := dir_entry c bmeta rel_path in
          let? below := walk c bmeta rel_path in
          Ok (here ++ below)
        else file_entry c bmeta rel_path) kids
  end.

Definition path_le (a b : DiffEntry) : Prop := str_le (de_path a) (de_path b).

#[export] Instance path_le_dec : RelDecision path_le.
Proof. intros a b. unfold path_le. apply _. Defined.
#[export] Instance path_le_trans : Transitive path_le.
Proof. intros a b c. unfold path_le. by etrans. Qed.
#[export] Instance path_le_total : Total path_le.
Proof. intros a b. apply str_le_total. Qed.

Definition diff_upper (upper : node) (base : option node) : result Error (list DiffEntry) :=
  let? out := map_err (Error_io "diff upper layer") (walk upper base EmptyString) in
  Ok (merge_sort path_le out).

(** ** What overlayfs shows

    The kernel's rules: an upper entry hides the base's; a whiteout hides it
    without a replacement; two directories merge, unless the upper one is
    marked opaque, and then nothing of the base is looked at from there
    down.  [true] in the result: the node comes from the upper layer. *)

Definition opaque (n : node) : bool :=
  bool_decide (Exists (fun name => assoc name (i_xattrs (n_inode n)) = Some (bytes_of_string "y"))
    ["trusted.overlay.opaque"; "user.overlay.opaque"]%string).

(** A character device with device number 0:0. *)
Definition marks_deleted (s : stat) : bool := bool_decide (file_type s = S_IFCHR /\ st_rdev s = 0).

(** A path below a node of one layer. *)
Fixpoint lookup_path (n : node) (p : list string) : option node :=
  match p with
  | [] => Some n
  | name :: p' => child n name ≫= fun c => lookup_path c p'
  end.

Definition lookup_base (base : option node) (p : list string) : option node :=
  base ≫= fun b => lookup_path b p.

Definition lower_child (lower : option node) (name : string) : option node :=
  lower ≫= fun b => if is_dir (n_stat b) then child b name else None.

Fixpoint merged (u : node) (lower : option node) (p : list string) : option (bool * node) :=
  match p with
  | [] => Some (true, u)
  | name :: p' =>
      if is_dir (n_stat u) then
        let below := if opaque u then None else lower_child lower name in
        match child u name with
        | Some c => if marks_deleted (n_stat c) then None else merged c below p'
        | None => pair false <$> lookup_base below p'
        end
      else None
  end.

(** The difference between the base and what is shown, at one path: a
    directory on both sides is no change. *)
Definition difference (before : option node) (after : option (bool * node)) : option (DiffKind * stat) :=
  match before, after with
  | None, None => None
  | Some x, None => Some (Deleted, n_stat x)
  | None, Some (_, y) => Some (Added, n_stat y)
  | Some x, Some (from_upper, y) =>
      if from_upper && negb (is_dir (n_stat x) && is_dir (n_stat y))
      then Some (Modified, n_stat y) else None
  end.

Definition change (u : node) (base : option node) (p : list string) : option (DiffKind * stat) :=
  difference (lookup_base base p) (merged u base p).

(** The path as it is reported. *)
Definition rel_path (rel : string) (p : list string) : string :=
  fold_left (fun r name => join_rel r (str_lossy name)) p rel.

(** ** Lemmas *)

Lemma any_y_correct dir names v : any_y dir names = Ok v ->
  v = bool_decide (Exists (fun name => assoc name (i_xattrs (n_inode dir)) = Some y_value) names).
Proof.
  revert v. induction names as [|name names IH]; intros v; cbn [any_y].
  { by intros [= <-]. }
  unfold get_xattr at 1. destruct (xattr_error _); [done|]. case_decide as Hv.
  - intros [= <-]. symmetry. apply bool_decide_eq_true_2. by left.
  - intros ->%IH. apply bool_decide_ext. rewrite Exists_cons. tauto.
Qed.

Lemma is_whiteout_correct s : is_whiteout s = marks_deleted s.
Proof. unfold is_whiteout, is_char_device, marks_deleted. case_bool_decide; lia. Qed.

Lemma is_opaque_correct dir v : is_opaque dir = Ok v -> v = opaque dir.
Proof. apply any_y_correct. Qed.

Lemma is_opaque_readable dir : readable dir -> is_opaque dir = Ok (opaque dir).
Proof.
  intros Hr. assert (exists v, is_opaque dir = Ok v) as [v Hv].
  { destruct Hr as [i kids _ Hx _]. unfold is_opaque, opaque_names. simpl. unfold get_xattr. simpl.
    rewrite Hx. repeat case_decide; eauto. }
  by rewrite Hv, (is_opaque_correct _ _ Hv).
Qed.

(** Paths of the reported entries: a name, then the rest. *)
Definition entries_at (f : list string -> option (DiffKind * stat)) (rel : string) (e : DiffEntry) : Prop :=
  exists p k m, f p = Some (k, m) /\ e = entry_for (rel_path rel p) k m.

Definition below (f : list string -> option (DiffKind * stat)) (p : list string) :=
  match p with [] => None | _ => f p end.

(** Everything at and under a base node, deleted. *)
Definition gone (b : node) (p : list string) : option (DiffKind * stat) :=
  (fun x => (Deleted, n_stat x)) <$> lookup_path b p.

Lemma entries_split f rel e :
  entries_at f rel e <->
  (exists k m, f [] = Some (k, m) /\ e = entry_for rel k m) \/ entries_at (below f) rel e.
Proof.
  unfold entries_at. split.
  - intros ([|name p] & k & m & Hf & ->); [left; eauto|right].
    by exists (name :: p), k, m.
  - intros [(k & m & Hf & ->)|(p & k & m & Hf & ->)]; [by exists [], k, m|].
    destruct p as [|name p]; [done|]. by exists (name :: p), k, m.
Qed.

Lemma entries_below f rel e :
  entries_at (below f) rel e <->
  exists name, entries_at (fun p => f (name :: p)) (join_rel rel (str_lossy name)) e.
Proof.
  unfold entries_at. split.
  - intros ([|name p] & k & m & Hf & ->); [done|]. by exists name, p, k, m.
  - intros (name & p & k & m & Hf & ->). by exists (name :: p), k, m.
Qed.

Lemma entries_ext f g rel e : (forall p, f p = g p) -> entries_at f rel e <-> entries_at g rel e.
Proof. intros H. unfold entries_at. by setoid_rewrite H. Qed.

Lemma entries_none f rel e : (forall p, f p = None) -> ~ entries_at f rel e.
Proof. intros H (p & k & m & Hf & _). by rewrite H in Hf. Qed.

Lemma entries_top f rel e k m : f [] = Some (k, m) -> (forall name p, f (name :: p) = None) ->
  entries_at f rel e <-> e = entry_for rel k m.
Proof.
  intros H0 H. rewrite entries_split, entries_below. split.
  - intros [(k' & m' & ? & ->)|(name & He)]; [congruence|]. by apply entries_none in He.
  - intros ->. left. eauto.
Qed.

(** [collect] over the children of a directory reports, for every name, what
    its body reports for that child. *)
Lemma collect_children {E} (F : string * node -> result E (list DiffEntry)) kids out
    (f : list string -> option (DiffKind * stat)) rel :
  NoDup kids.*1 -> collect F kids = Ok out ->
  (forall name, name ∉ kids.*1 -> forall p, f (name :: p) = None) ->
  (forall name c o, (name, c) ∈ kids -> F (name, c) = Ok o ->
     forall e, e ∈ o <-> entries_at (fun p => f (name :: p)) (join_rel rel (str_lossy name)) e) ->
  forall e, e ∈ out <-> entries_at (below f) rel e.
Proof.
  intros Hnd Hout Hnone Hkid e. rewrite (collect_Ok _ _ _ Hout), entries_below. split.
  - intros ([name c] & o & Hc & Ho & He). exists name. by eapply Hkid.
  - intros (name & He). destruct (decide (name ∈ kids.*1)) as [Hin|Hout'].
    + apply list_elem_of_fmap in Hin as ([name' c] & -> & Hc). simpl in He.
      destruct (collect_Ok_each _ _ _ Hout _ Hc) as [o Ho].
      exists (name', c), o. split_and!; [done..|]. by eapply Hkid.
    + by apply (entries_none _ _ _ (Hnone _ Hout')) in He.
Qed.

Lemma push_deleted_correct b : wf_tree b -> plain b -> forall rel out, push_deleted b rel = Ok out ->
  forall e, e ∈ out <-> entries_at (gone b) rel e.
Proof.
  induction b as [i kids IH] using node_ind'. intros Hwf Hplain rel out Hout e.
  inversion Hwf as [? ? Hnd Hwfk]; subst. inversion Hplain as [? ? Hfile Hplk]; subst.
  rewrite entries_split. cbn [push_deleted] in Hout.
  assert (exists below', out = entry_for rel Deleted (i_stat i) :: below' /\
    (e ∈ below' <-> entries_at (below (gone (Node i kids))) rel e)) as (b' & -> & Hb).
  { destruct (is_dir (i_stat i)).
    - destruct (dir_error i); [done|]. destruct (collect _ kids) as [o|] eqn:Ho; [|done].
      injection Hout as <-. eexists. split; [done|]. eapply collect_children; [done|exact Ho| |].
      + intros name Hname p. unfold gone. simpl. unfold child. simpl.
        by apply assoc_None in Hname as ->.
      + intros name c o' Hc Ho' e'. rewrite (IH name c Hc (Hwfk _ _ Hc) (Hplk _ _ Hc) _ _ Ho').
        apply entries_ext. intros p. unfold gone. simpl. unfold child. simpl.
        apply assoc_Some in Hc as ->; done.
    - injection Hout as <-. exists []. split; [done|]. rewrite entries_below. split; [set_solver|].
      intros (name & He). apply entries_none in He; [done|]. intros p. unfold gone. simpl.
      unfold child. simpl. by rewrite Hfile. }
  rewrite elem_of_cons, Hb. split.
  - intros [->|?]; [left; by exists Deleted, (i_stat i)|by right].
  - intros [(k & m & [= <- <-] & ->)|?]; [by left|by right].
Qed.

Lemma push_deleted_kids_correct b : wf_tree b -> plain b -> is_dir (n_stat b) = true ->
  forall rel out, push_deleted_kids b rel = Ok out ->
  forall e, e ∈ out <-> entries_at (below (gone b)) rel e.
Proof.
  intros Hwf Hplain Hdir rel out. unfold push_deleted_kids, read_dir. destruct b as [i kids].
  inversion Hwf as [? ? Hnd Hwfk]; subst. inversion Hplain as [? ? Hfile Hplk]; subst. simpl.
  destruct (dir_error i); [done|]. intros Hout. eapply collect_children; [done|exact Hout| |].
  - intros name Hname p. unfold gone. simpl. unfold child. simpl. by apply assoc_None in Hname as ->.
  - intros name c o' Hc Ho' e'. rewrite (push_deleted_correct c (Hwfk _ _ Hc) (Hplk _ _ Hc) _ _ Ho').
    apply entries_ext. intros p. unfold gone. simpl. unfold child. simpl.
    apply assoc_Some in Hc as ->; done.
Qed.

(** What an opaque directory hides: the children of the base that have no entry
    in the upper directory. *)
Definition shadowed (upper base : node) (p : list string) : option (DiffKind * stat) :=
  match p with
  | [] => None
  | name :: _ => match child upper name with Some _ => None | None => gone base p end
  end.

Lemma report_shadowed_correct u b : wf_tree b -> plain b ->
  forall rel out, report_shadowed u b rel = Ok out ->
  forall e, e ∈ out <-> entries_at (shadowed u b) rel e.
Proof.
  intros Hwf Hplain rel out. unfold report_shadowed, read_dir. destruct b as [i kids].
  inversion Hwf as [? ? Hnd Hwfk]; subst. inversion Hplain as [? ? Hfile Hplk]; subst. simpl.
  destruct (dir_error i); [done|]. intros Hout e.
  transitivity (entries_at (below (shadowed u (Node i kids))) rel e).
  2: { apply entries_ext. by intros []. }
  eapply collect_children; [done|exact Hout| |].
  - intros name Hname p. simpl. destruct (child u name); [done|]. unfold gone. simpl.
    unfold child. simpl. by apply assoc_None in Hname as ->.
  - intros name c o' Hc Ho' e'. simpl in *. destruct (child u name) eqn:Hu.
    + injection Ho' as <-. split; [set_solver|]. intros He. by apply entries_none in He.
    + rewrite (push_deleted_correct c (Hwfk _ _ Hc) (Hplk _ _ Hc) _ _ Ho').
      apply entries_ext. intros p. unfold gone. simpl. unfold child. simpl.
      apply assoc_Some in Hc as ->; done.
Qed.

(** ** The walk

    What [walk] takes the merged tree to be: it consults the base again below
    every directory, also below an opaque one. *)

Fixpoint revisited (u : node) (base : option node) (p : list string) : option (bool * node) :=
  match p with
  | [] => Some (true, u)
  | name :: p' =>
      if is_dir (n_stat u) then
        let bn := base ≫= fun b => child b name in
        match child u name with
        | Some c => if marks_deleted (n_stat c) then None else revisited c bn p'
        | None => if opaque u then None else pair false <$> lookup_base bn p'
        end
      else None
  end.

Definition seen (u : node) (base : option node) (p : list string) : option (DiffKind * stat) :=
  difference (lookup_base base p) (revisited u base p).

(** The part of [seen] that [walk] itself reports: under the upper's entries. *)
Definition own (u : node) (base : option node) (p : list string) : option (DiffKind * stat) :=
  match p with
  | [] => None
  | name :: _ => match child u name with Some _ => seen u base p | None => None end
  end.

Definition good_base (base : option node) : Prop :=
  forall b, base = Some b -> wf_tree b /\ plain b.

Lemma good_child base name : good_base base -> good_base (base ≫= fun b => child b name).
Proof.
  intros Hb c Hc. destruct base as [b|]; [|done]. destruct (Hb b eq_refl) as [Hwf Hp].
  simpl in Hc. eauto with draug.
Qed.

Lemma lookup_base_cons base name p :
  lookup_base base (name :: p) = lookup_base (base ≫= fun b => child b name) p.
Proof. by destruct base. Qed.

Lemma difference_same x : difference x (pair false <$> x) = None.
Proof. by destruct x. Qed.

Lemma difference_gone base : difference base None = (fun x => (Deleted, n_stat x)) <$> base.
Proof. by destruct base. Qed.

(** [seen] under a directory: the upper's own entries and what opacity hides. *)
Lemma seen_dir c bm rel e : plain bm -> is_dir (n_stat c) = true ->
  entries_at (below (seen c (Some bm))) rel e <->
  entries_at (own c (Some bm)) rel e \/
  (opaque c = true /\ is_dir (n_stat bm) = true /\ entries_at (shadowed c bm) rel e).
Proof.
  intros Hp Hdir. assert (forall name p, child c name = None -> seen c (Some bm) (name :: p) =
    if opaque c then gone bm (name :: p) else None) as Hmiss.
  { intros name p Hc. unfold seen. cbn [revisited]. rewrite Hdir, Hc. destruct (opaque c).
    - by rewrite difference_gone.
    - rewrite lookup_base_cons. apply difference_same. }
  unfold entries_at. split.
  - intros ([|name p] & k & m & Hf & ->); [done|]. simpl in Hf.
    destruct (child c name) as [y|] eqn:Hy.
    + left. exists (name :: p), k, m. simpl. by rewrite Hy.
    + right. rewrite (Hmiss _ _ Hy) in Hf. destruct (opaque c); [|done].
      destruct (is_dir (n_stat bm)) eqn:Hbd.
      * split_and!; [done..|]. exists (name :: p), k, m. simpl. by rewrite Hy.
      * unfold gone in Hf. simpl in Hf. by rewrite child_plain_file in Hf.
  - intros [(p & k & m & Hf & ->)|(Ho & Hbd & (p & k & m & Hf & ->))];
      (destruct p as [|name p]; [done|]); simpl in Hf;
      exists (name :: p), k, m; destruct (child c name) eqn:Hy; try done.
    split; [|done]. simpl. by rewrite Hmiss, Ho.
Qed.

Lemma seen_dir_new c rel e : is_dir (n_stat c) = true ->
  entries_at (below (seen c None)) rel e <-> entries_at (own c None) rel e.
Proof.
  intros Hdir. apply entries_ext. intros [|name p]; [done|]. simpl.
  destruct (child c name) eqn:Hy; [done|]. unfold seen. cbn [revisited]. rewrite Hdir, Hy.
  by destruct (opaque c).
Qed.

(** The entries of one child: its own, then those under it. *)
Lemma dir_entry_correct c bn rel here : good_base bn -> is_dir (n_stat c) = true ->
  dir_entry c bn rel = Ok here -> forall e,
  (e ∈ here \/ entries_at (own c bn) rel e) <-> entries_at (seen c bn) rel e.
Proof.
  intros Hb Hdir Hhere e. rewrite (entries_split (seen c bn)). unfold dir_entry in Hhere.
  destruct bn as [bm|]; [destruct (Hb bm eq_refl) as [Hwf Hplain]|].
  - rewrite seen_dir by done. unfold seen. simpl. rewrite Hdir.
    destruct (is_dir (n_stat bm)) eqn:Hbd.
    + destruct (is_opaque c) as [op|] eqn:Hop; [|done]. apply is_opaque_correct in Hop as ->.
      destruct (opaque c) eqn:Ho.
      * rewrite (report_shadowed_correct c bm Hwf Hplain rel here Hhere). naive_solver.
      * injection Hhere as <-. set_solver.
    + injection Hhere as <-. rewrite list_elem_of_singleton. split.
      * intros [->|?]; [left; by eexists _, _|tauto].
      * intros [(k & m & [= <- <-] & ->)|[?|(_ & ? & _)]]; [tauto..|done].
  - rewrite seen_dir_new by done. unfold seen. simpl. injection Hhere as <-.
    rewrite list_elem_of_singleton. split.
    + intros [->|?]; [left; by eexists _, _|tauto].
    + intros [(k & m & [= <- <-] & ->)|?]; tauto.
Qed.

Lemma seen_file_below c bn p : is_dir (n_stat c) = false -> p <> [] ->
  seen c bn p = (fun x => (Deleted, n_stat x)) <$> lookup_base bn p.
Proof.
  intros Hf Hp. destruct p as [|name p]; [done|]. unfold seen. cbn [revisited].
  by rewrite Hf, difference_gone.
Qed.

Lemma file_entry_correct c bn rel out : good_base bn -> is_dir (n_stat c) = false ->
  file_entry c bn rel = Ok out -> forall e, e ∈ out <-> entries_at (seen c bn) rel e.
Proof.
  intros Hb Hdir Hout e. rewrite entries_split.
  assert (forall p, below (seen c bn) p =
    below (fun p => (fun x => (Deleted, n_stat x)) <$> lookup_base bn p) p) as Hbelow.
  { intros [|name p]; [done|]. by apply seen_file_below. }
  rewrite (entries_ext _ _ _ _ Hbelow). unfold file_entry in Hout.
  destruct bn as [bm|]; [destruct (Hb bm eq_refl) as [Hwf Hplain]|].
  - unfold seen. simpl. rewrite Hdir, andb_false_r. simpl. destruct (is_dir (n_stat bm)) eqn:Hbd.
    + destruct (push_deleted_kids bm rel) as [o|] eqn:Ho; [|done]. injection Hout as <-.
      rewrite elem_of_cons, (push_deleted_kids_correct bm Hwf Hplain Hbd _ _ Ho). split.
      * intros [->|?]; [left; by eexists _, _|tauto].
      * intros [(k & m & [= <- <-] & ->)|?]; tauto.
    + injection Hout as <-. rewrite list_elem_of_singleton. split.
      * intros ->. left. by eexists _, _.
      * intros [(k & m & [= <- <-] & ->)|He]; [done|]. apply entries_none in He; [done|].
        intros [|name p]; [done|]. simpl. by rewrite child_plain_file.
  - unfold seen. simpl. injection Hout as <-. rewrite list_elem_of_singleton. split.
    + intros ->. left. by eexists _, _.
    + intros [(k & m & [= <- <-] & ->)|He]; [done|]. apply entries_none in He; [done|].
      by intros [|name p].
Qed.

Lemma walk_correct u : wf_tree u -> is_dir (n_stat u) = true -> forall base rel out,
  good_base base -> walk u base rel = Ok out ->
  forall e, e ∈ out <-> entries_at (own u base) rel e.
Proof.
  induction u as [i kids IH] using node_ind'. intros Hwf Hdir base rel out Hb Hout e.
  inversion Hwf as [? ? Hnd Hwfk]; subst. cbn [walk] in Hout. destruct (dir_error i); [done|].
  transitivity (entries_at (below (own (Node i kids) base)) rel e).
  2: { apply entries_ext. by intros []. }
  eapply collect_children; [done|exact Hout| |].
  { intros name Hname p. simpl. unfold child. simpl. by apply assoc_None in Hname as ->. }
  intros name c o Hc Ho e'. simpl in Ho. rewrite is_whiteout_correct in Ho.
  assert (child (Node i kids) name = Some c) as Hchild by (by apply assoc_Some).
  set (bn := base ≫= fun b => child b name) in *.
  assert (good_base bn) as Hbn by (by apply good_child).
  assert (forall p, own (Node i kids) base (name :: p) =
    difference (lookup_base bn p) (if marks_deleted (n_stat c) then None else revisited c bn p)) as Hown.
  { intros p. unfold own, seen. cbn [revisited]. by rewrite Hdir, Hchild, lookup_base_cons. }
  rewrite (entries_ext _ _ _ _ Hown). destruct (marks_deleted (n_stat c)).
  - destruct bn as [bm|] eqn:Hbm.
    + destruct (Hbn bm eq_refl) as [Hwfb Hplain].
      rewrite (push_deleted_correct bm Hwfb Hplain _ _ Ho). apply entries_ext. intros p.
      by rewrite difference_gone.
    + injection Ho as <-. split; [set_solver|]. intros He. by apply entries_none in He.
  - change (e' ∈ o <-> entries_at (seen c bn) (join_rel rel (str_lossy name)) e').
    destruct (is_dir (n_stat c)) eqn:Hcd; [|by apply file_entry_correct].
    destruct (dir_entry c bn _) as [here|] eqn:Hhere; [|done].
    destruct (walk c bn _) as [below'|] eqn:Hbelow; [|done]. injection Ho as <-.
    rewrite elem_of_app, (IH name c Hc (Hwfk _ _ Hc) Hcd _ _ _ Hbn Hbelow).
    by apply dir_entry_correct.
Qed.

(** ** From what the walk revisits to what overlayfs shows *)

Section overlay.

(** [dropped]: an opaque directory above has cut the base off.  From there
    down, every upper directory that stands where the base has one must be
    opaque itself for the walk to see that the base is gone. *)
Inductive cut_off : bool -> node -> option node -> Prop :=
  | cut_off_Node dropped i kids base :
      (forall name c bm, (name, c) ∈ kids -> is_dir (n_stat c) = true ->
         base ≫= (fun b => child b name) = Some bm -> is_dir (n_stat bm) = true ->
         (dropped || opaque (Node i kids) = true -> opaque c = true) /\
         cut_off (dropped || opaque (Node i kids)) c (Some bm)) ->
      cut_off dropped (Node i kids) base.

Lemma merged_nothing u p lower base :
  (forall name, lower_child lower name = None) -> (forall name, base ≫= (fun b => child b name) = None) ->
  merged u lower p = revisited u base p.
Proof.
  revert u lower base. induction p as [|name p IH]; intros u lower base Hl Hb; [done|].
  cbn [merged revisited]. rewrite Hl, Hb. destruct (is_dir (n_stat u)); [|done].
  destruct (opaque u), (child u name) as [c|]; try done;
    (destruct (marks_deleted (n_stat c)); [done|]); by apply IH.
Qed.

Lemma revisited_file u base p name : is_dir (n_stat u) = false -> revisited u base (name :: p) = None.
Proof. intros H. cbn [revisited]. by rewrite H. Qed.

Lemma merged_file u base p name : is_dir (n_stat u) = false -> merged u base (name :: p) = None.
Proof. intros H. cbn [merged]. by rewrite H. Qed.

Lemma lower_child_plain base name : good_base base ->
  lower_child base name = base ≫= fun b => child b name.
Proof.
  intros Hb. destruct base as [b|]; [|done]. unfold lower_child. simpl.
  destruct (is_dir (n_stat b)) eqn:Hd; [done|]. symmetry. apply child_plain_file; [|done]. by apply Hb.
Qed.

Lemma merged_revisited u : wf_tree u -> forall dropped base p, good_base base ->
  cut_off dropped u base -> (dropped = true -> opaque u = true) ->
  merged u (if dropped then None else base) p = revisited u base p.
Proof.
  induction u as [i kids IH] using node_ind'. intros Hwf dropped base p Hb Hcut Hd.
  destruct p as [|name p]; [done|]. cbn [merged revisited].
  destruct (is_dir (n_stat (Node i kids))) eqn:Hdir; [|done].
  inversion Hwf as [? ? Hnd Hwfk]; subst. inversion Hcut as [? ? ? ? Hkid]; subst.
  assert ((if opaque (Node i kids) then None else lower_child (if dropped then None else base) name)
    = if dropped || opaque (Node i kids) then None else base ≫= fun b => child b name) as Hbelow.
  { destruct dropped; simpl; [by rewrite Hd|]. by rewrite lower_child_plain. }
  cbv zeta. rewrite Hbelow. destruct (child (Node i kids) name) as [c|] eqn:Hchild.
  - destruct (marks_deleted (n_stat c)); [done|]. apply child_Some in Hchild; [|done]. simpl in Hchild.
    pose proof (good_child base name Hb) as Hgood.
    destruct (is_dir (n_stat c)) eqn:Hcd.
    2: { destruct p; [done|]. by rewrite merged_file, revisited_file. }
    destruct (base ≫= fun b => child b name) as [bm|] eqn:Hbm.
    + destruct (is_dir (n_stat bm)) eqn:Hbd.
      * destruct (Hkid name c bm) as [Hop Hcut']; [done..|]. eauto.
      * apply merged_nothing.
        { intros nm. destruct (dropped || _); [done|]. simpl. by rewrite Hbd. }
        { intros nm. simpl. apply child_plain_file; [by apply Hgood|done]. }
    + apply merged_nothing; [|done]. by destruct (dropped || _).
  - destruct dropped; simpl; [by rewrite Hd|]. by destruct (opaque _).
Qed.

Lemma seen_change u base p : wf_tree u -> good_base base -> cut_off false u base ->
  seen u base p = change u base p.
Proof.
  intros Hwf Hb Hcut. unfold seen, change.
  by rewrite <- (merged_revisited u Hwf false base p Hb Hcut).
Qed.

(** At the root, which is never opaque, [walk] reports all there is. *)
Lemma root_entries u base rel e : is_dir (n_stat u) = true -> opaque u = false -> good_base base ->
  entries_at (own u base) rel e <-> entries_at (below (seen u base)) rel e.
Proof.
  intros Hdir Ho Hb. destruct base as [b|]; [|by rewrite seen_dir_new].
  rewrite seen_dir by (done || by apply Hb). rewrite Ho. naive_solver.
Qed.

End overlay.

(** A successful diff, unfolded. *)
Lemma diff_upper_Ok u base out : diff_upper u base = Ok out ->
  exists o, walk u base EmptyString = Ok o /\ out = merge_sort path_le o.
Proof. unfold diff_upper. destruct (walk _ _ _) as [o|]; simpl; [|done]. intros [= <-]. eauto. Qed.

Lemma elem_of_merge_sort {A} (R : A -> A -> Prop) `{forall x y, Decision (R x y)} l x :
  x ∈ merge_sort R l <-> x ∈ l.
Proof. by rewrite merge_sort_Permutation. Qed.

(** *** Readable trees never fail *)

Lemma push_deleted_readable b : readable b -> forall rel, exists out, push_deleted b rel = Ok out.
Proof.
  induction b as [i kids IH] using node_ind'. intros Hr rel. inversion Hr as [? ? Hde Hxe Hk]; subst.
  cbn [push_deleted]. destruct (is_dir (i_stat i)); [|by eexists]. rewrite Hde.
  destruct (collect_total (fun '(name, c) => push_deleted c (join_rel rel (str_lossy name))) kids)
    as [o ->]; [|by eexists].
  intros [name c] Hc. eauto.
Qed.

Lemma collect_deleted_readable kids rel : (forall name c, (name, c) ∈ kids -> readable c) ->
  exists out, collect (fun '(name, c) => push_deleted c (join_rel rel (str_lossy name))) kids = Ok out.
Proof. intros H. apply collect_total. intros [name c] Hc. by eapply push_deleted_readable, H. Qed.

Lemma walk_readable u : readable u -> forall base rel, (forall b, base = Some b -> readable b) ->
  exists out, walk u base rel = Ok out.
Proof.
  induction u as [i kids IH] using node_ind'. intros Hr base rel Hb.
  inversion Hr as [? ? Hde Hxe Hk]; subst. cbn [walk]. rewrite Hde. apply collect_total.
  intros [name c] Hc. set (bn := base ≫= fun b => child b name).
  assert (forall b, bn = Some b -> readable b) as Hbn.
  { intros bm Hbm. destruct base as [b|]; [|done]. eapply child_readable; [by apply Hb|exact Hbm]. }
  rewrite is_whiteout_correct. destruct (marks_deleted (n_stat c)).
  { destruct bn as [bm|]; [by apply push_deleted_readable, Hbn|by eexists]. }
  assert (forall bm, bn = Some bm -> read_dir bm = Ok (n_kids bm) /\
    forall name c, (name, c) ∈ n_kids bm -> readable c) as Hread.
  { intros bm Hbm. specialize (Hbn bm Hbm). destruct Hbn as [i' kids' Hde' _ Hk'].
    unfold read_dir. simpl. by rewrite Hde'. }
  destruct (is_dir (n_stat c)).
  - assert (exists here, dir_entry c bn (join_rel rel (str_lossy name)) = Ok here) as [here ->].
    { unfold dir_entry. destruct bn as [bm|]; [|by eexists]. destruct (is_dir (n_stat bm)); [|by eexists].
      rewrite is_opaque_readable by eauto. destruct (opaque c); [|by eexists].
      unfold report_shadowed. destruct (Hread bm eq_refl) as [-> Hk']. apply collect_total.
      intros [nm y] Hy. destruct (child c nm); [by eexists|]. by eapply push_deleted_readable, Hk'. }
    destruct (IH name c Hc (Hk _ _ Hc) bn (join_rel rel (str_lossy name)) Hbn) as [o ->]. by eexists.
  - unfold file_entry. destruct bn as [bm|]; [|by eexists]. destruct (is_dir (n_stat bm)); [|by eexists].
    unfold push_deleted_kids. destruct (Hread bm eq_refl) as [-> Hk'].
    destruct (collect_deleted_readable (n_kids bm) (join_rel rel (str_lossy name)) Hk') as [o ->].
    by eexists.
Qed.

(** ** The theorems *)

(** C2: when [diff_upper] succeeds, an entry is reported exactly when some path
    differs between the base and the tree overlayfs shows for the layers:
    deleted when only the base has it, added when only the merged tree has it,
    modified when the upper layer replaced it, with the size and mode of the
    side that has it.  Under three conditions on the layers: no base path is
    looked up through a symbolic link ([plain]); the root of the upper layer
    is a directory that is not marked opaque; and below a directory marked
    opaque no upper directory has the name of a base directory ([cut_off]).
    Without the last the claim fails: the code forgets that a directory above
    was opaque, as [Example_trees.opaque_not_inherited] shows. *)
Theorem diff_upper_exact u base out : wf_tree u -> wf_tree base -> plain base ->
  is_dir (n_stat u) = true -> opaque u = false -> cut_off false u (Some base) ->
  diff_upper u (Some base) = Ok out ->
  forall e, e ∈ out <->
    exists p k m, p <> [] /\ change u (Some base) p = Some (k, m) /\
      e = entry_for (rel_path EmptyString p) k m.
Proof.
  intros Hu Hbase Hplain Hdir Ho Hcut (o & Hwalk & ->)%diff_upper_Ok e.
  assert (good_base (Some base)) as Hb by (by intros ? [= <-]).
  rewrite elem_of_merge_sort, (walk_correct u Hu Hdir _ _ _ Hb Hwalk).
  rewrite root_entries by done. unfold entries_at. split.
  - intros (p & k & m & Hf & ->). exists p, k, m. destruct p as [|name p]; [done|].
    split_and!; [done| |done]. by rewrite <- seen_change.
  - intros (p & k & m & Hp & Hf & ->). exists p, k, m. split; [|done].
    destruct p as [|name p]; [done|]. simpl. by rewrite seen_change.
Qed.

(** The entries come back sorted by path, and sorting loses, adds and
    duplicates nothing of what the walk pushed. *)
Theorem diff_upper_sorted u base out : diff_upper u base = Ok out ->
  StronglySorted path_le out /\
  exists o, walk u base EmptyString = Ok o /\ Permutation out o.
Proof.
  intros (o & Hwalk & ->)%diff_upper_Ok. split; [apply StronglySorted_merge_sort; apply _|].
  exists o. split; [done|]. apply merge_sort_Permutation.
Qed.

(** On trees whose directories and attributes can be read, the diff never
    fails, whatever the layers hold. *)
Theorem diff_upper_total u base : readable u -> (forall b, base = Some b -> readable b) ->
  exists out, diff_upper u base = Ok out.
Proof.
  intros Hu Hb. unfold diff_upper. destruct (walk_readable u Hu base EmptyString Hb) as [o ->].
  by eexists.
Qed.

(** ** Examples and witnesses *)
Module Example_trees.

Definition leaf (mode size : Z) : node :=
  Node (mkInode (mkStat mode 0 0 size 0) [] [] None None) [].
Definition file : node := leaf 33188 3.
Definition whiteout : node := leaf 8192 0.
Definition dir (kids : list (string * node)) : node :=
  Node (mkInode (mkStat 16877 0 0 4096 0) [] [] None None) kids.
Definition opaque_dir (kids : list (string * node)) : node :=
  Node (mkInode (mkStat 16877 0 0 4096 0) [("user.overlay.opaque"%string, y_value)] [] None None) kids.

(** A file edited, one added, a directory deleted. *)
Definition base1 : node :=
  dir [("keepdir", dir [("stable.txt", file)]); ("edit.txt", file);
       ("gonedir", dir [("nested", dir [("b.txt", file)]); ("a.txt", file)])]%string.
Definition upper1 : node :=
  dir [("edit.txt", leaf 33188 16); ("gonedir", whiteout); ("added.txt", file)]%string.

Lemma wf_leaf m s : wf_tree (leaf m s).
Proof. constructor; [constructor|set_solver]. Qed.

Lemma plain_leaf m s : plain (leaf m s).
Proof. constructor; [done|set_solver]. Qed.

Lemma readable_leaf m s : readable (leaf m s).
Proof. constructor; [done..|set_solver]. Qed.

Lemma dir_kids (P : node -> Prop) (kids : list (string * node)) :
  Forall (fun '(_, c) => P c) kids -> forall s c, (s, c) ∈ kids -> P c.
Proof. intros H s c Hc. rewrite Forall_forall in H. by apply (H (s, c)). Qed.

Lemma wf_dir kids : NoDup kids.*1 -> Forall (fun '(_, c) => wf_tree c) kids -> wf_tree (dir kids).
Proof. intros Hn Hk. constructor; [done|]. by apply dir_kids. Qed.

Lemma plain_dir kids : Forall (fun '(_, c) => plain c) kids -> plain (dir kids).
Proof. intros Hk. constructor; [done|]. by apply dir_kids. Qed.

Lemma readable_dir kids : Forall (fun '(_, c) => readable c) kids -> readable (dir kids).
Proof. intros Hk. constructor; [done..|]. by apply dir_kids. Qed.

Ltac tree :=
  repeat first
    [ apply wf_leaf | apply plain_leaf | apply readable_leaf | apply wf_dir | apply plain_dir
    | apply readable_dir | apply List.Forall_cons | apply List.Forall_nil ];
  try (apply NoDup_ListNoDup; repeat constructor; set_solver).

Lemma wf_upper1 : wf_tree upper1.
Proof. unfold upper1. tree. Qed.
Lemma wf_base1 : wf_tree base1.
Proof. unfold base1. tree. Qed.
Lemma plain_base1 : plain base1.
Proof. unfold base1. tree. Qed.

Lemma cut_off_upper1 : cut_off false upper1 (Some base1).
Proof.
  constructor. intros name c bm Hc Hd. exfalso.
  rewrite !elem_of_cons in Hc. destruct Hc as [?|[?|[?|?%not_elem_of_nil]]]; by simplify_eq/=.
Qed.

Lemma diff_upper_exact_witness : exists out, diff_upper upper1 (Some base1) = Ok out /\
  forall e, e ∈ out <->
    exists p k m, p <> [] /\ change upper1 (Some base1) p = Some (k, m) /\
      e = entry_for (rel_path EmptyString p) k m.
Proof.
  eexists. split; [by vm_compute|].
  apply (diff_upper_exact upper1 base1 _ wf_upper1 wf_base1 plain_base1);
    [done|done|apply cut_off_upper1|by vm_compute].
Defined.

Lemma diff_upper_sorted_witness : exists out, diff_upper upper1 (Some base1) = Ok out /\
  StronglySorted path_le out /\
  exists o, walk upper1 (Some base1) EmptyString = Ok o /\ Permutation out o.
Proof. eexists. split; [by vm_compute|]. apply diff_upper_sorted. by vm_compute. Defined.

Lemma diff_upper_total_witness : exists out, diff_upper upper1 None = Ok out.
Proof. apply diff_upper_total; [unfold upper1; tree|done]. Defined.

(** A directory that was removed and made again, with a subdirectory of the
    old name: the new [d] is opaque, the kernel has no reason to mark [d/sub]. *)
Definition remade_base : node := dir [("d", dir [("sub", dir [("file", file)])])]%string.
Definition remade_upper : node := dir [("d", opaque_dir [("sub", dir [])])]%string.

(** Opacity is not inherited by the walk: after a directory is removed and
    made again with an empty subdirectory of an old name, the base's files in
    that subdirectory are gone from the merged tree, but not in the diff. *)
Theorem opaque_not_inherited :
  change remade_upper (Some remade_base) ["d"; "sub"; "file"]%string = Some (Deleted, n_stat file) /\
  diff_upper remade_upper (Some remade_base) = Ok [].
Proof. by vm_compute. Qed.

End Example_trees.
