(* ===== verification/FsCopy.v ===== *)
(** * Copying overlayfs layers

    draug-ns/src/linux/fscopy.rs.  The source tree does not change during the
    copy.  What the kernel decides is a schedule in the state: the error of the
    next system call, of the next reading of an attribute, how many bytes the
    next transfer moves, where the next directory stream breaks off.  What a failed copy leaves in the destination
    is not modelled: every caller discards it, or tries to. *)

From S2P Require Import Prelude Text Types FsTree.

(** ** The kernel *)

Record kernel := mkKernel {
  k_faults : list (option Io.error);  (* the next system calls: an error, or none *)
  k_attrs : list (option Io.error);   (* the next calls that read attributes *)
  k_counts : list N;                  (* what the next transfers would like to move *)
  k_readdir : list (option nat);      (* the entry at which the next streams break off *)
  k_bytes : N;                        (* [bytes: &mut u64] *)
}.

Definition K := ST kernel Io.error.

(** A system call: the next error of the schedule, or success. *)
Definition call : K unit := fun k =>
  let k' := mkKernel (tail (k_faults k)) (k_attrs k) (k_counts k) (k_readdir k) (k_bytes k) in
  match k_faults k with
  | Some e :: _ => (Err e, k')
  | _ => (Ok tt, k')
  end.

(** [flistxattr] or [fgetxattr]. *)
Definition attr_call : K unit := fun k =>
  let k' := mkKernel (k_faults k) (tail (k_attrs k)) (k_counts k) (k_readdir k) (k_bytes k) in
  match k_attrs k with
  | Some e :: _ => (Err e, k')
  | _ => (Ok tt, k')
  end.

(** A read, write or copy of up to [limit] bytes: at least one, if there are any. *)
Definition count (limit : N) : K N := fun k =>
  (Ok (N.min limit (N.max 1 (default limit (head (k_counts k))))),
   mkKernel (k_faults k) (k_attrs k) (tail (k_counts k)) (k_readdir k) (k_bytes k)).

Definition transfer (limit : N) : K N := do! _ := call in count limit.

Definition add_bytes (n : N) : K unit := fun k =>
  (Ok tt, mkKernel (k_faults k) (k_attrs k) (k_counts k) (k_readdir k) (k_bytes k + n)).

Definition next_stream : K (option nat) := fun k =>
  (Ok (default None (head (k_readdir k))),
   mkKernel (k_faults k) (k_attrs k) (k_counts k) (tail (k_readdir k)) (k_bytes k)).

Definition ENODATA : Z := 61.
Definition EOPNOTSUPP : Z := 95.
Definition EINVAL : Z := 22.
Definition ERANGE : Z := 34.
Definition EXDEV : Z := 18.
Definition ENOSYS : Z := 38.
Definition EEXIST : Io.error := Io.mk Io.AlreadyExists (Some 17) "File exists (os error 17)".

Definition errno_in (e : Io.error) (l : list Z) : bool :=
  existsb (fun n => bool_decide (Io.raw_os_error e = Some n)) l.
#[global] Arguments errno_in : simpl never.

(** ** File contents *)

Definition taken (n : N) (l : list byte) : list byte := take (N.to_nat n) l.
Definition dropped (n : N) (l : list byte) : list byte := drop (N.to_nat n) l.

Definition COPY_BUF : N := 2 ^ 20.
Definition RANGE_MAX : N := 2 ^ 24.

(** [while off < n { write }]; every write moves at least a byte. *)
Fixpoint write_loop (fuel : nat) (buf out : list byte) : K (list byte) :=
  match fuel with
  | O => st_ret out
  | S fuel' =>
      match buf with
      | [] => st_ret out
      | _ => do! w := transfer (len buf) in write_loop fuel' (dropped w buf) (out ++ taken w buf)
      end
  end.

Fixpoint copy_loop_from (fuel : nat) (rest out : list byte) (total : N) : K (list byte * N) :=
  match fuel with
  | O => st_ret (out, total)
  | S fuel' =>
      do! n := transfer (N.min COPY_BUF (len rest)) in
      if (n =? 0)%N then st_ret (out, total)
      else
        do! out := write_loop (N.to_nat n) (taken n rest) out in
        copy_loop_from fuel' (dropped n rest) out (total + n)
  end.

Definition copy_loop (data : list byte) : K (list byte * N) :=
  copy_loop_from (S (length data)) data [] 0.

Definition falls_back (e : Io.error) : bool := errno_in e [EINVAL; EXDEV; ENOSYS; EOPNOTSUPP].

(** The [copy_file_range] loop. *)
Fixpoint range_loop (fuel : nat) (data rest out : list byte) (copied : N) : K (list byte * N) :=
  match fuel with
  | O => st_ret (out, copied)
  | S fuel' => fun k =>
      match transfer (N.min RANGE_MAX (len rest)) k with
      | (Ok n, k') =>
          if (n =? 0)%N then (Ok (out, copied), k')
          else range_loop fuel' data (dropped n rest) (out ++ taken n rest) (copied + n) k'
      | (Err e, k') =>
          if falls_back e && (copied =? 0)%N then copy_loop data k' else (Err e, k')
      end
  end.

(** What the file at [writer] then holds, and the count that is returned. *)
Definition copy_file_contents (data : list byte) (size : N) : K (list byte * N) := fun k =>
  match call k with
  | (Ok _, k') => (Ok (data, size), k')
  | (Err _, k') => range_loop (S (length data)) data data [] 0 k'
  end.

(** ** Buffers that grow *)

(** [readlinkat]: a target that fills the buffer may have been truncated. *)
Fixpoint readlink_loop (fuel : nat) (cap : N) (target : list byte) : K (list byte) :=
  match fuel with
  | O => st_ret []
  | S fuel' =>
      do! _ := call in
      let n := N.min cap (len target) in
      if (n <? cap)%N then st_ret (taken n target) else readlink_loop fuel' (cap * 2) target
  end.

Definition readlinkat (target : list byte) (size_hint : Z) : K (list byte) :=
  let cap := if 0 <? size_hint then (Z.to_N size_hint + 1)%N else 256%N in
  readlink_loop (S (length target)) cap target.

(** [fgetxattr]: ERANGE, because the value does not fit or for no reason,
    doubles the buffer. *)
Fixpoint getxattr_loop (fuel : nat) (i : inode) (name : string) (cap : N) : K (option (list byte)) :=
  match fuel with
  | O => st_ret None
  | S fuel' => fun k =>
      match attr_call k with
      | (Err e, k') =>
          if errno_in e [ENODATA; EOPNOTSUPP] then (Ok None, k')
          else if errno_in e [ERANGE] then getxattr_loop fuel' i name (cap * 2) k'
          else (Err e, k')
      | (Ok _, k') =>
          match assoc name (i_xattrs i) with
          | None => (Ok None, k')
          | Some v => if (len v <=? cap)%N then (Ok (Some v), k') else getxattr_loop fuel' i name (cap * 2) k'
          end
      end
  end.

Definition value_size (i : inode) (name : string) : nat := length (default [] (assoc name (i_xattrs i))).

Definition fgetxattr (i : inode) (name : string) : K (option (list byte)) := fun k =>
  getxattr_loop (S (length (k_attrs k) + value_size i name)) i name 256 k.

(** ** Extended attributes *)

(** The buffer of [flistxattr]: every name and a NUL. *)
Definition names_buffer (l : list (string * list byte)) : list byte :=
  concat ((fun '(n, _) => bytes_of_string n ++ [Byte.x00]) <$> l).

Definition parse_names (buf : list byte) : list string :=
  string_of_bytes <$> filter (fun s => s <> []) (split_at (is_byte 0) buf).

Definition flistxattr (i : inode) : K (list string) := fun k =>
  match attr_call k with
  | (Err e, k') => if errno_in e [EOPNOTSUPP] then (Ok [], k') else (Err e, k')
  | (Ok _, k') => (do! _ := attr_call in st_ret (parse_names (names_buffer (i_xattrs i)))) k'
  end.

Definition is_overlay (name : string) : bool :=
  starts_with "user.overlay." name || starts_with "trusted.overlay." name.

Fixpoint set_assoc {V} (k : string) (v : V) (l : list (string * V)) : list (string * V) :=
  match l with
  | [] => [(k, v)]
  | (k', v') :: l' => if decide (k = k') then (k, v) :: l' else (k', v') :: set_assoc k v l'
  end.

Definition with_stat (s : stat) (i : inode) : inode :=
  mkInode s (i_xattrs i) (i_data i) (dir_error i) (xattr_error i).
Definition with_xattrs x (i : inode) : inode :=
  mkInode (i_stat i) x (i_data i) (dir_error i) (xattr_error i).

Definition fsetxattr (out : inode) (name : string) (value : list byte) : K inode :=
  do! _ := call in st_ret (with_xattrs (set_assoc name value (i_xattrs out)) out).

(** Its failure only matters for overlay attributes. *)
Definition set_or_skip (name : string) (value : list byte) (out : inode) : K inode := fun k =>
  match fsetxattr out name value k with
  | (Err e, k') => if is_overlay name then (Err e, k') else (Ok out, k')
  | x => x
  end.

Fixpoint copy_names (i : inode) (names : list string) (out : inode) : K inode :=
  match names with
  | [] => st_ret out
  | name :: names' =>
      do! value := fgetxattr i name in
      do! out := (match value with Some v => set_or_skip name v out | None => st_ret out end) in
      copy_names i names' out
  end.

Definition copy_xattrs_fd (i out : inode) : K inode :=
  do! names := flistxattr i in copy_names i names out.

(** ** Owner and mode *)

Section copy.
(** The mode a chown leaves (it may drop set-id bits), the umask, and the ids
    that new nodes are created with. *)
Context (chown_mode : Z -> Z) (umask euid egid : Z).

Definition PERMS : Z := 4095.

Definition chown (u g : Z) (s : stat) : stat :=
  mkStat (chown_mode (st_mode s)) u g (st_size s) (st_rdev s).
Definition lchown (u g : Z) (s : stat) : stat :=
  mkStat (st_mode s) u g (st_size s) (st_rdev s).
Definition chmod (perms : Z) (s : stat) : stat :=
  mkStat (Z.lor (Z.land (st_mode s) S_IFMT) perms) (st_uid s) (st_gid s) (st_size s) (st_rdev s).

(** The mode bits a creation with [perms] gives a node of type [type]. *)
Definition created (type perms size rdev : Z) : stat :=
  mkStat (Z.lor type (Z.ldiff perms umask)) euid egid size rdev.

Definition bare (s : stat) (data : list byte) : inode := mkInode s [] data None None.

Definition set_fd_owner_mode (st : stat) (out : inode) : K inode :=
  do! _ := call in
  let out := with_stat (chown (st_uid st) (st_gid st) (i_stat out)) out in
  do! _ := call in
  st_ret (with_stat (chmod (Z.land (st_mode st) PERMS) (i_stat out)) out).

(** A call that creates a directory entry. *)
Definition create_call (present : bool) : K unit :=
  do! _ := call in if present then st_fail EEXIST else st_ret tt.

Definition copy_symlink (i : inode) (present : bool) : K node :=
  do! target := readlinkat (i_data i) (st_size (i_stat i)) in
  do! _ := create_call present in
  do! _ := call in
  st_ret (Node (bare (lchown (st_uid (i_stat i)) (st_gid (i_stat i))
    (mkStat (Z.lor S_IFLNK 511) euid egid (Z.of_N (len target)) 0)) target) []).

Definition copy_regular (i : inode) (present : bool) : K node :=
  do! _ := call in
  do! _ := create_call present in
  do! (data, n) := copy_file_contents (i_data i) (Z.to_N (st_size (i_stat i))) in
  do! _ := add_bytes n in
  do! out := set_fd_owner_mode (i_stat i) (bare (created S_IFREG 384 (Z.of_N (len data)) 0) data) in
  do! out := copy_xattrs_fd i out in
  st_ret (Node out []).

Definition copy_special (i : inode) (present : bool) : K node :=
  do! _ := create_call present in
  do! _ := call in
  let s := created (file_type (i_stat i)) (Z.land (st_mode (i_stat i)) PERMS) 0 (st_rdev (i_stat i)) in
  do! _ := call in
  st_ret (Node (bare (chmod (Z.land (st_mode (i_stat i)) PERMS)
    (chown (st_uid (i_stat i)) (st_gid (i_stat i)) s)) []) []).

(** The entries of a stream that breaks off at [stop] - which [read_entries]
    does not tell from its end - copied after those in [out]. *)
Definition copy_entries (copy_node : node -> bool -> K node)
  : option nat -> list (string * node) -> list (string * node) -> K (list (string * node)) :=
  fix go stop kids out {struct kids} :=
    match kids with
    | [] => st_ret out
    | (name, c) :: kids' =>
        if decide (stop = Some O) then st_ret out
        else
          do! _ := call in
          do! n := copy_node c (bool_decide (name ∈ out.*1)) in
          go (pred <$> stop) kids' (out ++ [(name, n)])
    end.

(** [read_entries]: dup, fdopendir, and the readdir loop. *)
Definition open_stream : K (option nat) :=
  do! _ := call in do! _ := call in next_stream.

Fixpoint copy_node (c : node) (present : bool) : K node :=
  let 'Node i kids := c in
  if is_dir (i_stat i) then
    do! _ := create_call present in
    do! _ := call in
    do! _ := call in
    do! stop := open_stream in
    do! kids' := copy_entries copy_node stop kids [] in
    do! out := set_fd_owner_mode (i_stat i) (bare (created S_IFDIR 448 0 0) []) in
    do! out := copy_xattrs_fd i out in
    st_ret (Node out kids')
  else if is_lnk (i_stat i) then copy_symlink i present
  else if file_type (i_stat i) =? S_IFREG then copy_regular i present
  else copy_special i present.

(** [copy_dir] *)
Definition copy_dir (kids out : list (string * node)) : K (list (string * node)) :=
  do! stop := open_stream in copy_entries copy_node stop kids out.

(** [copy_tree]; [dst] is what is there, if anything. *)
Definition copy_tree (src : node) (dst : option node) : K node :=
  let 'Node i kids := src in
  do! _ := call in
  let 'Node o okids := default (Node (bare (created S_IFDIR 511 0 0) []) []) dst in
  do! _ := call in
  do! _ := call in
  do! kids' := copy_dir kids okids in
  do! _ := call in
  do! out := set_fd_owner_mode (i_stat i) o in
  do! out := copy_xattrs_fd i out in
  st_ret (Node out kids').

End copy.
