(* ===== verification/FsCopySpec.v ===== *)
(** * A copied layer is the layer

    Whatever the kernel does - failed calls, partial transfers, reflinks or not,
    fallbacks - a copy that succeeds holds the source's entries, types, modes,
    owners, contents, devices and overlay attributes, if the kernel lists
    directories to their end and does not report an attribute absent that is
    there. *)

From S2P Require Import Prelude Text Types FsTree FsCopy.

(** ** What a call may change *)

Definition kframe (k k' : kernel) : Prop :=
  k_faults k' `suffix_of` k_faults k /\ k_readdir k' = k_readdir k /\ k_bytes k' = k_bytes k /\
  k_attrs k' `suffix_of` k_attrs k.

Lemma kframe_refl k : kframe k k.
Proof. by split_and!. Qed.

Lemma kframe_trans k1 k2 k3 : kframe k1 k2 -> kframe k2 k3 -> kframe k1 k3.
Proof.
  intros (Hs & Hr & Hb & Ha) (Hs' & Hr' & Hb' & Ha'). split_and!; [by etrans|congruence..|by etrans].
Qed.

#[local] Hint Resolve kframe_refl : core.

Lemma call_inv k r k' : call k = (r, k') -> kframe k k' /\
  (forall e, r = Err e -> Some e ∈ k_faults k) /\ (k_faults k = [] -> r = Ok tt /\ k_faults k' = []).
Proof.
  unfold call, kframe. destruct k as [[|[e|] fs] ats ct rd b]; simpl; intros [= <- <-]; split_and!; try done.
  - by exists [Some e].
  - intros e' [= <-]. left.
  - by exists [None].
Qed.

Lemma attr_call_inv k r k' : attr_call k = (r, k') -> kframe k k' /\ k_attrs k' = tail (k_attrs k) /\
  (forall e, r = Err e -> Some e ∈ k_attrs k).
Proof.
  unfold attr_call, kframe. destruct k as [fs [|[e|] ats] ct rd b]; simpl; intros [= <- <-]; split_and!; try done.
  - by exists [Some e].
  - intros e' [= <-]. left.
  - by exists [None].
Qed.

Lemma attr_call_Ok k u k' : attr_call k = (Ok u, k') -> kframe k k'.
Proof. intros E. apply (attr_call_inv _ _ _ E). Qed.

Lemma call_Ok k u k' : call k = (Ok u, k') -> kframe k k'.
Proof. intros E. apply (call_inv _ _ _ E). Qed.

Lemma count_inv lim k n k' : count lim k = (Ok n, k') ->
  kframe k k' /\ (n <= lim)%N /\ (n = 0%N <-> lim = 0%N).
Proof.
  unfold count, kframe. intros [= <- <-]. split_and!; simpl; try done; lia.
Qed.

Lemma transfer_Ok lim k n k' : transfer lim k = (Ok n, k') ->
  kframe k k' /\ (n <= lim)%N /\ (n = 0%N <-> lim = 0%N).
Proof.
  intros (u & k1 & E1 & E2)%st_bind_Ok. apply call_Ok in E1. apply count_inv in E2 as (Hf & H).
  split; [by eapply kframe_trans|done].
Qed.

(** ** Contents *)

Lemma len_taken n l : (n <= len l)%N -> len (taken n l) = n.
Proof. unfold len, taken. intros. rewrite length_take. lia. Qed.

Lemma length_dropped n l : length (dropped n l) = (length l - N.to_nat n)%nat.
Proof. unfold dropped. by rewrite length_drop. Qed.

Lemma taken_dropped n l : taken n l ++ dropped n l = l.
Proof. apply take_drop. Qed.

Lemma taken_all l : taken (len l) l = l.
Proof. unfold taken, len. apply take_ge. lia. Qed.

Lemma write_loop_Ok fuel : forall buf out k out' k', (length buf <= fuel)%nat ->
  write_loop fuel buf out k = (Ok out', k') -> kframe k k' /\ out' = out ++ buf.
Proof.
  induction fuel as [|fuel IH]; intros buf out k out' k' Hlen E; simpl in E.
  { injection E as <- <-. split; [done|]. destruct buf; simpl in Hlen; [by rewrite app_nil_r|lia]. }
  destruct buf as [|b buf]; [injection E as <- <-; by rewrite app_nil_r|].
  apply st_bind_Ok in E as (w & k1 & E1 & E2). apply transfer_Ok in E1 as (Hf1 & Hle & Hz).
  apply IH in E2 as [Hf2 ->].
  - split; [by eapply kframe_trans|]. by rewrite <- app_assoc, taken_dropped.
  - rewrite length_dropped. assert (len (b :: buf) <> 0%N) by (unfold len; simpl; lia). simpl in *. lia.
Qed.

Lemma copy_loop_from_Ok fuel : forall rest out total k out' n k', (length rest < fuel)%nat ->
  copy_loop_from fuel rest out total k = (Ok (out', n), k') ->
  kframe k k' /\ out' = out ++ rest /\ n = (total + len rest)%N.
Proof.
  induction fuel as [|fuel IH]; intros rest out total k out' n k' Hlen E; [lia|]. simpl in E.
  apply st_bind_Ok in E as (m & k1 & E1 & E2). apply transfer_Ok in E1 as (Hf1 & Hle & Hz).
  destruct (N.eqb_spec m 0) as [->|Hm].
  - injection E2 as <- <- <-. assert (rest = []) as ->.
    { destruct rest; [done|]. exfalso. cbv [len COPY_BUF] in Hz. simpl length in Hz. lia. }
    rewrite app_nil_r. split_and!; [done..|unfold len; simpl; lia].
  - apply st_bind_Ok in E2 as (out1 & k2 & E2 & E3). apply write_loop_Ok in E2 as [Hf2 ->].
    2: { unfold taken. rewrite length_take. lia. }
    apply IH in E3 as (Hf3 & -> & ->).
    + split_and!; [by do 2 (eapply kframe_trans; [done|])| |].
      * by rewrite <- app_assoc, taken_dropped.
      * rewrite <- (taken_dropped m rest) at 2. rewrite len_app, len_taken by lia. lia.
    + rewrite length_dropped. unfold len in *. lia.
Qed.

Lemma range_loop_Ok fuel data : forall rest out k out' n k', (length rest < fuel)%nat -> data = out ++ rest ->
  range_loop fuel data rest out (len out) k = (Ok (out', n), k') ->
  kframe k k' /\ out' = data /\ n = len data.
Proof.
  induction fuel as [|fuel IH]; intros rest out k out' n k' Hlen Hdata E; [lia|]. simpl in E.
  destruct (transfer _ k) as [[m|e] k1] eqn:E1.
  - apply transfer_Ok in E1 as (Hf1 & Hle & Hz). destruct (N.eqb_spec m 0) as [->|Hm].
    + injection E as <- <- <-. assert (rest = []) as ->.
      { destruct rest; [done|]. exfalso. cbv [len RANGE_MAX] in Hz. simpl length in Hz. lia. }
      rewrite app_nil_r in Hdata. by subst.
    + assert ((len out + m)%N = len (out ++ taken m rest)) as Hl by (rewrite len_app, len_taken by lia; done).
      rewrite Hl in E. apply IH in E as (Hf & -> & ->).
      * split; [by eapply kframe_trans|done].
      * rewrite length_dropped. unfold len in *. lia.
      * by rewrite <- app_assoc, taken_dropped.
  - destruct (falls_back e && _); [|done]. apply copy_loop_from_Ok in E as (Hf & -> & ->); [|lia].
    split; [|done]. eapply kframe_trans; [|done]. unfold transfer, st_bind in E1.
    destruct (call k) as [[[]|] k2] eqn:E2; [done|]. injection E1 as _ <-. apply (call_inv _ _ _ E2).
Qed.

Lemma copy_file_contents_Ok data size k out n k' : size = len data ->
  copy_file_contents data size k = (Ok (out, n), k') -> kframe k k' /\ out = data /\ n = len data.
Proof.
  intros -> E. unfold copy_file_contents in E. destruct (call k) as [[u|e] k1] eqn:E1.
  - injection E as <- <- <-. split; [by eapply call_Ok|done].
  - apply (range_loop_Ok _ _ _ []) in E as (Hf & H); [|lia|done]. split; [|done].
    eapply kframe_trans; [|exact Hf]. apply (call_inv _ _ _ E1).
Qed.

(** ** Buffers that grow *)

Lemma readlink_loop_Ok fuel : forall cap t k r k', (len t < cap * 2 ^ (N.of_nat fuel - 1))%N -> (0 < fuel)%nat ->
  readlink_loop fuel cap t k = (Ok r, k') -> kframe k k' /\ r = t.
Proof.
  induction fuel as [|fuel IH]; intros cap t k r k' Hlen Hf E; [lia|]. simpl in E.
  apply st_bind_Ok in E as (u & k1 & E1%call_Ok & E2).
  destruct (N.ltb_spec (N.min cap (len t)) cap).
  - injection E2 as <- <-. split; [done|]. rewrite N.min_r by lia. apply taken_all.
  - assert (0 < fuel)%nat as Hf'.
    { destruct fuel; [|lia]. change (N.of_nat 1 - 1)%N with 0%N in Hlen. simpl in Hlen. lia. }
    apply IH in E2 as [Hf2 ->]; [|  |done]; [split; [by eapply kframe_trans|done]|].
    replace (N.of_nat (S fuel) - 1)%N with (N.succ (N.of_nat fuel - 1)) in Hlen by lia.
    rewrite N.pow_succ_r' in Hlen. lia.
Qed.

Lemma pow_bound (c : N) (l : list byte) : (0 < c)%N -> (len l < c * 2 ^ (N.of_nat (S (length l)) - 1))%N.
Proof.
  intros Hc. replace (N.of_nat (S (length l)) - 1)%N with (len l) by (unfold len; lia).
  pose proof (N.pow_gt_lin_r 2 (len l) ltac:(lia)). nia.
Qed.

Lemma readlinkat_Ok t hint k r k' : readlinkat t hint k = (Ok r, k') -> kframe k k' /\ r = t.
Proof. apply readlink_loop_Ok; [apply pow_bound|lia]. destruct (0 <? hint); lia. Qed.

(** No error of a call that reads attributes passes for a missing attribute. *)
Definition honest (k : kernel) : Prop :=
  forall e, Some e ∈ k_attrs k -> errno_in e [ENODATA; EOPNOTSUPP] = false.

Lemma kframe_honest k k' : kframe k k' -> honest k -> honest k'.
Proof. intros (_ & _ & _ & l & Hl) Hh e He. apply Hh. rewrite Hl. set_solver. Qed.

Lemma getxattr_loop_Ok fuel i name : forall cap k r k', (0 < cap)%N ->
  (length (k_attrs k) + (value_size i name - N.to_nat cap) < fuel)%nat ->
  honest k -> getxattr_loop fuel i name cap k = (Ok r, k') -> kframe k k' /\ r = assoc name (i_xattrs i).
Proof.
  induction fuel as [|fuel IH]; intros cap k r k' Hc Hf Hh E; [lia|]. cbn [getxattr_loop] in E.
  destruct (attr_call k) as [[u|e] k1] eqn:E1;
    pose proof (attr_call_inv _ _ _ E1) as (Hf1 & Ht & He).
  - unfold value_size in *. destruct (assoc name _) as [v|]; [|by injection E as <- <-].
    destruct (N.leb_spec (len v) cap); [by injection E as <- <-|].
    apply IH in E as [Hf2 ->]; [split; [by eapply kframe_trans|done]|lia| |by eapply kframe_honest].
    rewrite Ht. simpl in Hf |- *. unfold len in *. destruct (k_attrs k); simpl in *; lia.
  - rewrite (Hh e (He e eq_refl)) in E. destruct (errno_in e [ERANGE]); [|done].
    apply IH in E as [Hf2 ->]; [split; [by eapply kframe_trans|done]|lia| |by eapply kframe_honest].
    pose proof (He e eq_refl) as Hin. rewrite Ht. destruct (k_attrs k); [by apply elem_of_nil in Hin|].
    simpl in *. lia.
Qed.

Lemma fgetxattr_Ok i name k r k' : honest k -> fgetxattr i name k = (Ok r, k') ->
  kframe k k' /\ r = assoc name (i_xattrs i).
Proof. intros Hh E. apply getxattr_loop_Ok in E; [done|lia|lia|done]. Qed.

(** ** Extended attributes *)

Definition xattr_name (n : string) : Prop :=
  n <> EmptyString /\ Byte.x00 ∉ bytes_of_string n.

Lemma parse_names_buffer l : Forall xattr_name l.*1 -> parse_names (names_buffer l) = l.*1.
Proof.
  unfold parse_names, names_buffer. induction l as [|[n v] l IH]; intros Hl; [done|].
  apply Forall_cons in Hl as [[Hne Hz] Hl]. rewrite fmap_cons. cbn [concat fmap list_fmap]. rewrite <- app_assoc. simpl.
  rewrite split_at_sep; [|apply list.Forall_forall; intros a Ha|done].
  - rewrite filter_cons_True, fmap_cons, (IH Hl), string_of_bytes_of_string; [done|].
    intros E. apply Hne. rewrite <- (string_of_bytes_of_string n), E. done.
  - unfold is_byte. apply N.eqb_neq. intros E. apply Hz.
    assert (a = Byte.x00) as <-; [|done]. by destruct a.
Qed.

Lemma assoc_set {V} k k' (v : V) l : assoc k (set_assoc k' v l) = if decide (k = k') then Some v else assoc k l.
Proof.
  induction l as [|[k1 v1] l IH]; simpl; [done|]. destruct (decide (k' = k1)) as [->|]; simpl.
  - by destruct (decide (k = k1)).
  - rewrite IH. destruct (decide (k = k1)) as [->|]; [|done]. by rewrite decide_False by congruence.
Qed.

(** The attributes [kept] says are all there; every attribute is the source's. *)
Definition xattrs_copied (kept : string -> Prop) (src dst : list (string * list byte)) : Prop :=
  (forall n, kept n -> assoc n dst = assoc n src) /\
  forall n v, assoc n dst = Some v -> assoc n src = Some v.

Section copied.
Context (kept : string -> Prop).

(** What the kernel's schedule must be for [kept] attributes to survive. *)
Record fair (k : kernel) : Prop := {
  fair_honest : honest k;
  fair_streams : k_readdir k = [];
  fair_kept n : kept n -> is_overlay n = true \/ k_faults k = [];
}.

Lemma kframe_fair k k' : kframe k k' -> fair k -> fair k'.
Proof.
  intros Hf [Hh Hs Hk]. pose proof (kframe_honest _ _ Hf Hh) as Hh'. destruct Hf as ((l & Hl) & Hr & _).
  split; [done|congruence|]. intros n [?|E]%Hk; [by left|]. right.
  rewrite E in Hl. symmetry in Hl. by apply app_nil in Hl as [_ ?].
Qed.

Lemma set_or_skip_Ok name v out k r k' : fair k -> set_or_skip name v out k = (Ok r, k') ->
  kframe k k' /\ (r = with_xattrs (set_assoc name v (i_xattrs out)) out \/ (r = out /\ ~ kept name)).
Proof.
  intros Hfair E. unfold set_or_skip, fsetxattr, st_bind, st_ret in E. destruct (call k) as [[u|e] k1] eqn:E1;
    apply call_inv in E1 as (Hf & _ & Hn).
  - injection E as <- <-. by split; [|left].
  - destruct (is_overlay name) eqn:Ho; [done|]. injection E as <- <-. split; [done|]. right. split; [done|].
    intros Hk. destruct (fair_kept _ Hfair name Hk) as [?|Hnil]; [congruence|]. by destruct (Hn Hnil).
Qed.

Lemma copy_names_Ok i names : forall out k r k', fair k -> copy_names i names out k = (Ok r, k') ->
  kframe k k' /\ i_stat r = i_stat out /\ i_data r = i_data out /\
  (forall n, kept n -> assoc n (i_xattrs r) =
     if decide (n ∈ names /\ is_Some (assoc n (i_xattrs i))) then assoc n (i_xattrs i) else assoc n (i_xattrs out)) /\
  (forall n v, assoc n (i_xattrs r) = Some v -> assoc n (i_xattrs i) = Some v \/ assoc n (i_xattrs out) = Some v).
Proof.
  induction names as [|name names IH]; intros out k r k' Hfair E; simpl in E.
  { injection E as <- <-. split_and!; try done. by right. }
  apply st_bind_Ok in E as (v & k1 & E1 & E2). apply fgetxattr_Ok in E1 as [Hf1 ->]; [|apply Hfair].
  apply st_bind_Ok in E2 as (out1 & k2 & E2 & E3). pose proof (kframe_fair _ _ Hf1 Hfair) as Hfair1.
  assert (kframe k1 k2 /\ i_stat out1 = i_stat out /\ i_data out1 = i_data out /\
    (forall n, kept n -> assoc n (i_xattrs out1) =
       if decide (n = name /\ is_Some (assoc n (i_xattrs i))) then assoc n (i_xattrs i) else assoc n (i_xattrs out)) /\
    (forall n v, assoc n (i_xattrs out1) = Some v -> assoc n (i_xattrs i) = Some v \/ assoc n (i_xattrs out) = Some v))
    as (Hf2 & Hst & Hda & Hk & Hs).
  { destruct (assoc name (i_xattrs i)) as [v|] eqn:Hv.
    - apply set_or_skip_Ok in E2 as [Hf2 [->|[-> Hno]]]; [| |done]; split_and!; try done; simpl.
      + intros n _. rewrite assoc_set. destruct (decide (n = name)) as [->|].
        * rewrite decide_True by (split; [done|by rewrite Hv]). by rewrite Hv.
        * rewrite decide_False; [done|]. by intros [? _].
      + intros n w. rewrite assoc_set. case_decide; [subst; intros; left; congruence|by right].
      + intros n Hn. rewrite decide_False; [done|]. by intros [-> _].
      + by right.
    - injection E2 as <- <-. split_and!; try done; [|by right]. intros n _. rewrite decide_False; [done|].
      intros [-> H]. rewrite Hv in H. by destruct H. }
  apply IH in E3 as (Hf3 & Hst' & Hda' & Hk' & Hs'); [|by eapply kframe_fair].
  split_and!; [by do 2 (eapply kframe_trans; [done|])|congruence..| |].
  - intros n Hn. rewrite (Hk' n Hn), (Hk n Hn).
    destruct (decide (n = name)) as [->|]; repeat case_decide; set_solver.
  - intros n w [?|?%Hs]%Hs'; tauto.
Qed.

Lemma flistxattr_Ok i k r k' : fair k -> Forall xattr_name (i_xattrs i).*1 ->
  flistxattr i k = (Ok r, k') -> kframe k k' /\ r = (i_xattrs i).*1.
Proof.
  intros Hfair Hn E. unfold flistxattr in E. destruct (attr_call k) as [[u|e] k1] eqn:E1.
  - apply attr_call_Ok in E1. apply st_bind_Ok in E as (u' & k2 & E2%attr_call_Ok & E3).
    unfold st_ret in E3. injection E3 as <- <-. rewrite parse_names_buffer by done.
    split; [by eapply kframe_trans|done].
  - apply attr_call_inv in E1 as (_ & _ & He). pose proof (fair_honest _ Hfair e (He e eq_refl)) as H.
    unfold errno_in in *. simpl in *. apply orb_false_iff in H as [_ H]. by rewrite H in E.
Qed.

Lemma copy_xattrs_Ok i out k r k' : fair k -> Forall xattr_name (i_xattrs i).*1 -> i_xattrs out = [] ->
  copy_xattrs_fd i out k = (Ok r, k') ->
  kframe k k' /\ i_stat r = i_stat out /\ i_data r = i_data out /\ xattrs_copied kept (i_xattrs i) (i_xattrs r).
Proof.
  intros Hfair Hn Hout E. unfold copy_xattrs_fd in E. apply st_bind_Ok in E as (names & k1 & E1 & E2).
  apply flistxattr_Ok in E1 as [Hf1 ->]; [|done..].
  apply copy_names_Ok in E2 as (Hf2 & Hst & Hda & Hk & Hs); [|by eapply kframe_fair].
  split_and!; [by eapply kframe_trans|done..|]. rewrite Hout in Hk, Hs. split.
  - intros n Hkn. rewrite (Hk n Hkn). case_decide as Hd; [done|]. simpl. symmetry.
    apply assoc_None. intros Hin. apply Hd. split; [done|].
    destruct (assoc n (i_xattrs i)) eqn:Ha; [by eexists|]. by apply assoc_None in Ha.
  - intros n v [?|?]%Hs; [done|]. done.
Qed.


(** ** Copies *)

Definition is_reg (s : stat) : bool := file_type s =? S_IFREG.

(** A tree as a file system has it. *)
Inductive sound : node -> Prop :=
  | sound_Node i kids :
      Forall xattr_name (i_xattrs i).*1 -> 0 <= st_mode (i_stat i) < 65536 ->
      (is_reg (i_stat i) = true -> st_size (i_stat i) = Z.of_N (len (i_data i))) ->
      (is_lnk (i_stat i) = true -> st_mode (i_stat i) = Z.lor S_IFLNK 511) ->
      (is_dir (i_stat i) = false -> kids = []) ->
      (forall s c, (s, c) ∈ kids -> sound c) -> sound (Node i kids).

Record inode_copied (i i' : inode) : Prop := {
  copied_mode : st_mode (i_stat i') = st_mode (i_stat i);
  copied_uid : st_uid (i_stat i') = st_uid (i_stat i);
  copied_gid : st_gid (i_stat i') = st_gid (i_stat i);
  copied_data : is_reg (i_stat i) || is_lnk (i_stat i) = true -> i_data i' = i_data i;
  copied_rdev : is_dir (i_stat i) || is_reg (i_stat i) || is_lnk (i_stat i) = false ->
    st_rdev (i_stat i') = st_rdev (i_stat i);
  copied_xattrs : is_dir (i_stat i) || is_reg (i_stat i) = true ->
    xattrs_copied kept (i_xattrs i) (i_xattrs i');
}.

(** The same entries in the same order, each one copied. *)
Inductive copied : node -> node -> Prop :=
  | copied_Node i i' kids kids' : inode_copied i i' ->
      Forall2 (fun p q => p.1 = q.1 /\ copied p.2 q.2) kids kids' ->
      copied (Node i kids) (Node i' kids').

(** The bytes of the regular files of a tree. *)
Fixpoint regular_bytes (n : node) : N :=
  let 'Node i kids := n in
  if is_dir (i_stat i) then foldr (fun '(_, c) acc => (regular_bytes c + acc)%N) 0%N kids
  else if is_reg (i_stat i) then len (i_data i) else 0.

Definition kids_bytes (kids : list (string * node)) : N :=
  foldr (fun '(_, c) acc => (regular_bytes c + acc)%N) 0%N kids.

(** [k'] follows [k] after [n] more bytes were counted. *)
Definition advanced (n : N) (k k' : kernel) : Prop :=
  k_faults k' `suffix_of` k_faults k /\ (k_readdir k = [] -> k_readdir k' = []) /\ k_bytes k' = (k_bytes k + n)%N /\
  k_attrs k' `suffix_of` k_attrs k.

Lemma kframe_advanced k k' : kframe k k' -> advanced 0 k k'.
Proof. intros (? & ? & ? & ?). split_and!; [done|congruence|lia|done]. Qed.

Lemma advanced_trans n m k1 k2 k3 : advanced n k1 k2 -> advanced m k2 k3 -> advanced (n + m) k1 k3.
Proof. intros (? & ? & ? & ?) (? & ? & ? & ?). split_and!; [by etrans|auto|lia|by etrans]. Qed.

Lemma advanced_fair n k k' : advanced n k k' -> fair k -> fair k'.
Proof.
  intros ([l Hl] & Hr & _ & [l' Hl']) [Hh Hs Hk]. split; [|auto|].
  - intros e He. apply Hh. rewrite Hl'. set_solver.
  - intros x [?|E]%Hk; [by left|]. right. rewrite E in Hl. symmetry in Hl. by apply app_nil in Hl as [_ ?].
Qed.

Lemma kframe_advanced_trans n k1 k2 k3 : kframe k1 k2 -> advanced n k2 k3 -> advanced n k1 k3.
Proof. intros Hf%kframe_advanced Ha. replace n with (0 + n)%N by lia. by eapply advanced_trans. Qed.

Lemma advanced_kframe_trans n k1 k2 k3 : advanced n k1 k2 -> kframe k2 k3 -> advanced n k1 k3.
Proof. intros Ha Hf%kframe_advanced. replace n with (n + 0)%N by lia. by eapply advanced_trans. Qed.

(** *** Owner and mode *)

Context (chown_mode : Z -> Z) (umask euid egid : Z).
Hypothesis chown_type : forall m, Z.land (chown_mode m) S_IFMT = Z.land m S_IFMT.

Lemma mode_split m : 0 <= m < 65536 -> Z.lor (Z.land m S_IFMT) (Z.land m PERMS) = m.
Proof.
  intros Hm. rewrite <- Z.land_lor_distr_r. change (Z.lor S_IFMT PERMS) with (Z.ones 16).
  rewrite Z.land_ones by lia. apply Z.mod_small. done.
Qed.

Lemma created_type type perms size rdev : Z.land type S_IFMT = type -> Z.land perms S_IFMT = 0 ->
  Z.land (st_mode (created umask euid egid type perms size rdev)) S_IFMT = type.
Proof.
  intros Ht Hp. simpl. rewrite Z.land_lor_distr_l, Ht. rewrite Z.ldiff_land.
  rewrite <- Z.land_assoc, (Z.land_comm (Z.lnot umask)), Z.land_assoc, Hp. apply Z.lor_0_r.
Qed.

Lemma set_fd_owner_mode_Ok st out k r k' : set_fd_owner_mode chown_mode st out k = (Ok r, k') ->
  kframe k k' /\ r = with_stat (chmod (Z.land (st_mode st) PERMS) (chown chown_mode (st_uid st) (st_gid st) (i_stat out))) out.
Proof.
  intros E. unfold set_fd_owner_mode in E. apply st_bind_Ok in E as (u & k1 & E1%call_Ok & E2).
  apply st_bind_Ok in E2 as (u' & k2 & E2%call_Ok & E3). injection E3 as <- <-.
  split; [by eapply kframe_trans|done].
Qed.

(** The mode that a creation, a chown and a chmod give, in this order. *)
Lemma final_mode st s : 0 <= st_mode st < 65536 -> Z.land (st_mode s) S_IFMT = file_type st ->
  st_mode (chmod (Z.land (st_mode st) PERMS) (chown chown_mode (st_uid st) (st_gid st) s)) = st_mode st.
Proof. intros Hm Ht. simpl. rewrite chown_type, Ht. by apply mode_split. Qed.

Lemma create_call_Ok b k u k' : create_call b k = (Ok u, k') -> kframe k k' /\ b = false.
Proof.
  intros E. unfold create_call in E. apply st_bind_Ok in E as (u' & k1 & E1%call_Ok & E2).
  destruct b; [done|]. by injection E2 as _ <-.
Qed.

Lemma owner_copied st s out : 0 <= st_mode st < 65536 -> Z.land (st_mode s) S_IFMT = file_type st ->
  i_stat out = s -> let s' := i_stat (with_stat (chmod (Z.land (st_mode st) PERMS)
    (chown chown_mode (st_uid st) (st_gid st) (i_stat out))) out) in
  st_mode s' = st_mode st /\ st_uid s' = st_uid st /\ st_gid s' = st_gid st.
Proof. intros Hm Ht <-. split; [by apply final_mode|done]. Qed.

Lemma copy_symlink_Ok i kids present k r k' : sound (Node i kids) -> is_lnk (i_stat i) = true ->
  is_dir (i_stat i) = false -> is_reg (i_stat i) = false ->
  copy_symlink euid egid i present k = (Ok r, k') -> kframe k k' /\ copied (Node i kids) r.
Proof.
  intros Hs Hl Hd Hr E. inversion_clear Hs as [? ? _ _ _ Hlm Hk _]. unfold copy_symlink in E.
  apply st_bind_Ok in E as (t & k1 & [E1 ->]%readlinkat_Ok & E2).
  apply st_bind_Ok in E2 as (u & k2 & [E2 ->]%create_call_Ok & E3).
  apply st_bind_Ok in E3 as (u' & k3 & E3%call_Ok & E4). injection E4 as <- <-.
  split; [by do 2 (eapply kframe_trans; [done|])|]. rewrite (Hk Hd). constructor; [|done].
  split; simpl; try done; rewrite ?Hd, ?Hr, ?Hl; try done. by rewrite (Hlm Hl).
Qed.

Lemma copy_regular_Ok i kids present k r k' : fair k -> sound (Node i kids) -> is_lnk (i_stat i) = false ->
  is_dir (i_stat i) = false -> is_reg (i_stat i) = true ->
  copy_regular chown_mode umask euid egid i present k = (Ok r, k') ->
  advanced (len (i_data i)) k k' /\ copied (Node i kids) r.
Proof.
  intros Hfair Hs Hl Hd Hr E. inversion_clear Hs as [? ? Hx Hm Hsz _ Hk _]. unfold copy_regular in E.
  apply st_bind_Ok in E as (u & k1 & E1%call_Ok & E2).
  apply st_bind_Ok in E2 as (u' & k2 & [E2 ->]%create_call_Ok & E3).
  apply st_bind_Ok in E3 as ([d n] & k3 & E3 & E4).
  apply copy_file_contents_Ok in E3 as (E3 & -> & ->); [|rewrite (Hsz Hr); lia].
  apply st_bind_Ok in E4 as (u'' & k4 & E4 & E5).
  assert (advanced (len (i_data i)) k3 k4) as Ha by (injection E4 as _ <-; by split_and!).
  apply st_bind_Ok in E5 as (o1 & k5 & [E5 ->]%set_fd_owner_mode_Ok & E6).
  apply st_bind_Ok in E6 as (o2 & k6 & E6 & E7). injection E7 as <- <-.
  assert (advanced (len (i_data i)) k k5) as Hk5.
  { eapply advanced_kframe_trans; [|exact E5]. do 3 (eapply kframe_advanced_trans; [eassumption|]). done. }
  apply copy_xattrs_Ok in E6 as (E6 & Hst & Hda & Hxc); [|by eapply advanced_fair|done|done].
  split; [by eapply advanced_kframe_trans|]. rewrite (Hk Hd). constructor; [|done].
  set (s := created umask euid egid S_IFREG 384 (Z.of_N (len (i_data i))) 0) in *.
  assert (Z.land (st_mode s) S_IFMT = file_type (i_stat i)) as Ht.
  { apply Z.eqb_eq in Hr. rewrite Hr. by apply created_type. }
  destruct (owner_copied (i_stat i) s (bare s (i_data i)) Hm Ht eq_refl) as (? & ? & ?).
  split; rewrite ?Hst, ?Hda, ?Hd, ?Hr, ?Hl; done.
Qed.

Lemma copy_special_Ok i kids present k r k' : sound (Node i kids) -> is_lnk (i_stat i) = false ->
  is_dir (i_stat i) = false -> is_reg (i_stat i) = false ->
  copy_special chown_mode umask euid egid i present k = (Ok r, k') -> kframe k k' /\ copied (Node i kids) r.
Proof.
  intros Hs Hl Hd Hr E. inversion_clear Hs as [? ? _ Hm _ _ Hk _]. unfold copy_special in E.
  apply st_bind_Ok in E as (u & k1 & [E1 ->]%create_call_Ok & E2).
  apply st_bind_Ok in E2 as (u' & k2 & E2%call_Ok & E3).
  apply st_bind_Ok in E3 as (u'' & k3 & E3%call_Ok & E4). injection E4 as <- <-.
  split; [by do 2 (eapply kframe_trans; [done|])|]. rewrite (Hk Hd). constructor; [|done].
  split; rewrite ?Hd, ?Hr, ?Hl; try done. apply final_mode; [done|]. apply created_type.
  - unfold file_type. by rewrite <- Z.land_assoc.
  - by rewrite <- Z.land_assoc, Z.land_0_r.
Qed.

Lemma open_stream_Ok k r k' : k_readdir k = [] -> open_stream k = (Ok r, k') -> kframe k k' /\ r = None.
Proof.
  intros Hr E. unfold open_stream in E. apply st_bind_Ok in E as (u & k1 & E1%call_Ok & E2).
  apply st_bind_Ok in E2 as (u' & k2 & E2%call_Ok & E3). pose proof (kframe_trans _ _ _ E1 E2) as Hf.
  assert (k_readdir k2 = []) as Hk2 by (destruct Hf as (_ & -> & _); done).
  unfold next_stream in E3. rewrite Hk2 in E3. injection E3 as <- <-. split; [|done].
  eapply kframe_trans; [exact Hf|]. by split_and!.
Qed.

Abbreviation copy_node' := (copy_node chown_mode umask euid egid).

Lemma copy_entries_Ok kids : (forall s c, (s, c) ∈ kids -> forall present k r k', fair k ->
    copy_node' c present k = (Ok r, k') -> advanced (regular_bytes c) k k' /\ copied c r) ->
  forall out k r k', fair k -> copy_entries copy_node' None kids out k = (Ok r, k') ->
  advanced (kids_bytes kids) k k' /\ exists kids', r = out ++ kids' /\
    Forall2 (fun p q => p.1 = q.1 /\ copied p.2 q.2) kids kids'.
Proof.
  induction kids as [|[s c] kids IH]; intros Hall out k r k' Hfair E; simpl in E.
  { injection E as <- <-. split; [split_and!; [done|done|simpl; lia|done]|]. exists []. by rewrite app_nil_r. }
  apply st_bind_Ok in E as (u & k1 & E1%call_Ok & E2).
  apply st_bind_Ok in E2 as (n & k2 & E2 & E3).
  apply (Hall s c) in E2 as [Ha Hc]; [|left|by eapply kframe_fair].
  apply IH in E3 as (Ha' & kids' & -> & HF).
  - split; [eapply kframe_advanced_trans; [done|]; by eapply advanced_trans|].
    exists ((s, n) :: kids'). rewrite <- app_assoc. split; [done|]. by constructor.
  - intros s' c' Hin. apply (Hall s'). by right.
  - eapply advanced_fair; [exact Ha|]. by eapply kframe_fair.
Qed.

Lemma dir_copied i o k r k' : fair k -> Forall xattr_name (i_xattrs i).*1 -> 0 <= st_mode (i_stat i) < 65536 ->
  is_dir (i_stat i) = true -> i_xattrs o = [] -> Z.land (st_mode (i_stat o)) S_IFMT = S_IFDIR ->
  (do! out := set_fd_owner_mode chown_mode (i_stat i) o in copy_xattrs_fd i out) k = (Ok r, k') ->
  kframe k k' /\ inode_copied i r.
Proof.
  intros Hfair Hx Hm Hd Ho Ht E. apply st_bind_Ok in E as (o1 & k1 & [E1 ->]%set_fd_owner_mode_Ok & E2).
  apply copy_xattrs_Ok in E2 as (E2 & Hst & Hda & Hxc); [|by eapply kframe_fair|done|done].
  split; [by eapply kframe_trans|].
  assert (file_type (i_stat i) = S_IFDIR) as Hft by (by apply Z.eqb_eq).
  destruct (owner_copied (i_stat i) (i_stat o) o Hm ltac:(by rewrite Hft) eq_refl) as (? & ? & ?).
  assert (is_reg (i_stat i) = false /\ is_lnk (i_stat i) = false) as [Hr Hl].
  { unfold is_reg, is_lnk. by rewrite Hft. }
  split; rewrite ?Hst, ?Hda, ?Hd, ?Hr, ?Hl; done.
Qed.

Lemma copy_node_Ok c : sound c -> forall present k r k', fair k ->
  copy_node' c present k = (Ok r, k') -> advanced (regular_bytes c) k k' /\ copied c r.
Proof.
  induction c as [i kids IH] using node_ind'. intros Hs present k r k' Hfair E.
  pose proof Hs as Hs'. inversion_clear Hs' as [? ? Hx Hm _ _ Hk Hkids]. simpl in E. simpl.
  destruct (is_dir (i_stat i)) eqn:Hd.
  - apply st_bind_Ok in E as (u & k1 & [E1 ->]%create_call_Ok & E2).
    apply st_bind_Ok in E2 as (u1 & k2 & E2%call_Ok & E3).
    apply st_bind_Ok in E3 as (u2 & k3 & E3%call_Ok & E4).
    assert (kframe k k3) as Hf3 by (do 2 (eapply kframe_trans; [done|]); done).
    apply st_bind_Ok in E4 as (stop & k4 & E4 & E5).
    apply open_stream_Ok in E4 as [E4 ->]; [|apply (kframe_fair _ _ Hf3 Hfair)].
    assert (kframe k k4) as Hf4 by (by eapply kframe_trans).
    apply st_bind_Ok in E5 as (kids' & k5 & E5 & E6).
    apply copy_entries_Ok in E5 as (E5 & kids2 & -> & HF); [|by eauto|by eapply kframe_fair].
    pose proof (kframe_advanced_trans _ _ _ _ Hf4 E5) as Ha5.
    rewrite st_bind_assoc in E6. apply st_bind_Ok in E6 as (o & k6 & E6 & E7). injection E7 as <- <-.
    apply dir_copied in E6 as [E6 Hi]; [|by eapply advanced_fair|done|done|done|done|by apply created_type].
    split; [by eapply advanced_kframe_trans|by constructor].
  - destruct (is_lnk (i_stat i)) eqn:Hl.
    + assert (is_reg (i_stat i) = false) as Hr.
      { unfold is_reg, is_lnk in *. apply Z.eqb_eq in Hl. by rewrite Hl. }
      rewrite Hr. apply (copy_symlink_Ok i kids) in E as [Hf Hc]; [|done..]. split; [by apply kframe_advanced|done].
    + fold (is_reg (i_stat i)) in E. destruct (is_reg (i_stat i)) eqn:Hr.
      * by apply (copy_regular_Ok i kids) in E.
      * apply (copy_special_Ok i kids) in E as [Hf Hc]; [|done..]. split; [by apply kframe_advanced|done].
Qed.

(** [dst] is not there, or an empty directory without attributes. *)
Definition fresh_dir (dst : option node) : Prop :=
  dst = None \/ exists o, dst = Some (Node o []) /\ i_xattrs o = [] /\ Z.land (st_mode (i_stat o)) S_IFMT = S_IFDIR.

Lemma copy_tree_Ok src dst k r k' : sound src -> is_dir (n_stat src) = true -> fresh_dir dst -> fair k ->
  copy_tree chown_mode umask euid egid src dst k = (Ok r, k') ->
  copied src r /\ k_bytes k' = (k_bytes k + regular_bytes src)%N.
Proof.
  intros Hs Hd Hdst Hfair E. destruct src as [i kids]. change (is_dir (i_stat i) = true) in Hd. unfold copy_tree in E.
  assert (exists o, default (Node (bare (created umask euid egid S_IFDIR 511 0 0) []) []) dst = Node o [] /\
    i_xattrs o = [] /\ Z.land (st_mode (i_stat o)) S_IFMT = S_IFDIR) as (o & Ho & Hox & Hot).
  { destruct Hdst as [->|(o & -> & ? & ?)]; [|by exists o]. eexists. split; [done|]. split; [done|].
    by apply created_type. }
  rewrite Ho in E. apply st_bind_Ok in E as (u & k1 & E1%call_Ok & E2).
  apply st_bind_Ok in E2 as (u1 & k2 & E2%call_Ok & E3).
  apply st_bind_Ok in E3 as (u2 & k3 & E3%call_Ok & E4).
  assert (kframe k k3) as Hf3 by (do 2 (eapply kframe_trans; [done|]); done).
  apply st_bind_Ok in E4 as (kids' & k4 & E4 & E5). unfold copy_dir in E4.
  apply st_bind_Ok in E4 as (stop & k4' & E4 & E4').
  apply open_stream_Ok in E4 as [E4 ->]; [|apply (kframe_fair _ _ Hf3 Hfair)].
  inversion_clear Hs as [? ? Hx Hm _ _ Hk Hkids].
  assert (kframe k k4') as Hf4 by (by eapply kframe_trans).
  apply copy_entries_Ok in E4' as (Ha & kids2 & -> & HF); [| |by eapply kframe_fair].
  2: { intros s c Hin. by apply copy_node_Ok, (Hkids s). }
  pose proof (kframe_advanced_trans _ _ _ _ Hf4 Ha) as Ha4.
  apply st_bind_Ok in E5 as (u3 & k5 & E5%call_Ok & E6).
  pose proof (advanced_kframe_trans _ _ _ _ Ha4 E5) as Ha5.
  rewrite st_bind_assoc in E6. apply st_bind_Ok in E6 as (o' & k6 & E6 & E7). injection E7 as <- <-.
  apply dir_copied in E6 as [E6 Hi]; [|by eapply advanced_fair|done..].
  split; [by constructor|]. pose proof (advanced_kframe_trans _ _ _ _ Ha5 E6) as (_ & _ & -> & _).
  simpl. by rewrite Hd.
Qed.

End copied.

(** ** A copy that nothing disturbs succeeds *)

Definition quiet (k : kernel) : Prop := k_faults k = [] /\ k_readdir k = [] /\ k_attrs k = [].

Definition succeeds {A} (m : K A) : Prop := forall k, quiet k -> exists a k', m k = (Ok a, k') /\ quiet k'.

Create HintDb succeeds.

Lemma succeeds_ret {A} (a : A) : succeeds (st_ret a).
Proof. intros k Hk. by exists a, k. Qed.

Lemma succeeds_bind {A B} (m : K A) (f : A -> K B) :
  succeeds m -> (forall a, succeeds (f a)) -> succeeds (st_bind m f).
Proof.
  intros Hm Hf k Hk. destruct (Hm k Hk) as (a & k1 & E & Hk1). destruct (Hf a k1 Hk1) as (b & k2 & E2 & Hk2).
  exists b, k2. unfold st_bind. by rewrite E.
Qed.

Lemma succeeds_call : succeeds call.
Proof.
  intros [fs ats ct rd b] (Hf & Hd & Ha). simpl in *. subst. by eexists _, _.
Qed.

Lemma succeeds_attr_call : succeeds attr_call.
Proof.
  intros [fs ats ct rd b] (Hf & Hd & Ha). simpl in *. subst. by eexists _, _.
Qed.

#[export] Hint Resolve succeeds_ret succeeds_bind succeeds_call succeeds_attr_call : succeeds.

Ltac undisturbed := intros k Hk; destruct (succeeds_call k Hk) as (u & k1 & E & Hk1).
Ltac undisturbed_attr := intros k Hk; destruct (succeeds_attr_call k Hk) as (u & k1 & E & Hk1).

Lemma succeeds_add_bytes n : succeeds (add_bytes n).
Proof. intros k Hk. by eexists _, _. Qed.

Lemma succeeds_next_stream k : quiet k -> exists k', next_stream k = (Ok None, k') /\ quiet k'.
Proof. intros (Hf & Hr & Ha). unfold next_stream. rewrite Hr. eexists. split; [done|]. by split_and!. Qed.

Lemma succeeds_copy_file_contents data size : succeeds (copy_file_contents data size).
Proof. undisturbed. unfold copy_file_contents. rewrite E. by eexists _, _. Qed.

Lemma succeeds_readlink_loop fuel : forall cap t, succeeds (readlink_loop fuel cap t).
Proof.
  induction fuel as [|fuel IH]; intros cap t; simpl; [auto with succeeds|].
  apply succeeds_bind; [auto with succeeds|]. intros _. destruct (_ <? _)%N; auto with succeeds.
Qed.

Lemma succeeds_getxattr_loop fuel i name : forall cap, succeeds (getxattr_loop fuel i name cap).
Proof.
  induction fuel as [|fuel IH]; intros cap; simpl; [auto with succeeds|]. undisturbed_attr. rewrite E.
  destruct (assoc _ _) as [v|]; [|by eexists _, _]. destruct (_ <=? _)%N; [by eexists _, _|by apply IH].
Qed.

Lemma succeeds_copy_names i names : forall out, succeeds (copy_names i names out).
Proof.
  induction names as [|n names IH]; intros out; simpl; [auto with succeeds|]. apply succeeds_bind.
  - intros k. apply succeeds_getxattr_loop.
  - intros [v|]; (apply succeeds_bind; [|intros; apply IH]); [|auto with succeeds].
    undisturbed. unfold set_or_skip, fsetxattr, st_bind. rewrite E. by eexists _, _.
Qed.

Lemma succeeds_flistxattr i : succeeds (flistxattr i).
Proof. undisturbed_attr. unfold flistxattr. rewrite E. by apply (succeeds_bind attr_call); auto with succeeds. Qed.

#[export] Hint Resolve succeeds_add_bytes succeeds_copy_file_contents succeeds_readlink_loop
  succeeds_copy_names succeeds_flistxattr : succeeds.

Ltac step_succeeds := first
  [ solve [auto with succeeds]
  | apply succeeds_bind; [step_succeeds | intros; step_succeeds]
  | case_match; step_succeeds ].

Section total.
Context (chown_mode : Z -> Z) (umask euid egid : Z).
Abbreviation copy_node' := (copy_node chown_mode umask euid egid).

Lemma succeeds_set_fd_owner_mode st out : succeeds (set_fd_owner_mode chown_mode st out).
Proof. unfold set_fd_owner_mode. step_succeeds. Qed.

Lemma succeeds_create_call : succeeds (create_call false).
Proof. unfold create_call. step_succeeds. Qed.

Lemma copy_entries_succeeds kids : (forall s c, (s, c) ∈ kids -> succeeds (copy_node' c false)) ->
  forall out, NoDup (out.*1 ++ kids.*1) -> succeeds (copy_entries copy_node' None kids out).
Proof.
  induction kids as [|[s c] kids IH]; intros Hall out Hnd; simpl; [auto with succeeds|].
  apply succeeds_bind; [auto with succeeds|]. intros _.
  assert (s ∉ out.*1) as Hs.
  { intros Hin. apply NoDup_app in Hnd as (_ & Hd & _). apply (Hd s Hin). left. }
  rewrite (bool_decide_eq_false_2 _ Hs). apply succeeds_bind; [apply (Hall s); left|].
  intros n. apply IH; [intros s' c' Hin; apply (Hall s'); by right|].
  rewrite fmap_app, <- app_assoc. done.
Qed.

Lemma dir_succeeds kids out : (forall s c, (s, c) ∈ kids -> succeeds (copy_node' c false)) ->
  NoDup (out.*1 ++ kids.*1) -> succeeds (copy_dir chown_mode umask euid egid kids out).
Proof.
  intros Hall Hnd k Hk. unfold copy_dir, open_stream.
  destruct (succeeds_call k Hk) as (u & k1 & E1 & Hk1). destruct (succeeds_call k1 Hk1) as (u2 & k2 & E2 & Hk2).
  destruct (succeeds_next_stream k2 Hk2) as (k3 & E3 & Hk3).
  destruct (copy_entries_succeeds kids Hall out Hnd k3 Hk3) as (r & k4 & E4 & Hk4).
  exists r, k4. unfold st_bind. by rewrite E1, E2, E3.
Qed.

Lemma copy_node_succeeds c : wf_tree c -> succeeds (copy_node' c false).
Proof.
  induction c as [i kids IH] using node_ind'. intros Hwf. inversion_clear Hwf as [? ? Hnd Hk]. simpl.
  pose proof succeeds_set_fd_owner_mode. pose proof succeeds_create_call.
  destruct (is_dir (i_stat i)).
  - do 3 (apply succeeds_bind; [auto with succeeds|intros _]).
    intros k Hq. rewrite (st_bind_assoc open_stream).
    revert k Hq. apply succeeds_bind; [|intros; step_succeeds].
    apply dir_succeeds; [|done]. intros s c Hin. apply (IH s); [done|by apply (Hk s)].
  - destruct (is_lnk _); [|case_match].
    + unfold copy_symlink, readlinkat. step_succeeds.
    + unfold copy_regular. step_succeeds.
    + unfold copy_special. step_succeeds.
Qed.
End total.

(** ** Theorems *)

Section theorems.
Context (chown_mode : Z -> Z) (umask euid egid : Z).
Hypothesis chown_type : forall m, Z.land (chown_mode m) S_IFMT = Z.land m S_IFMT.
Abbreviation copy_tree' := (copy_tree chown_mode umask euid egid).

(** C3: whatever calls fail or fall back and however the kernel splits the
    transfers, a [copy_tree] that succeeds has made a copy: the same entries in
    the same order, each with the source's type, mode, owner, content, link
    target or device number, and with every overlay attribute - no attribute of
    another value - and it returns the bytes of the regular files; provided that
    no directory stream breaks off, and that reading an attribute that is there
    does not fail with ENODATA or EOPNOTSUPP, which the code takes for one that
    is not. *)
Theorem copy_tree_exact src dst k r k' : sound src -> is_dir (n_stat src) = true -> fresh_dir dst ->
  honest k -> k_readdir k = [] -> copy_tree' src dst k = (Ok r, k') ->
  copied (fun n => is_overlay n = true) src r /\ k_bytes k' = (k_bytes k + regular_bytes src)%N.
Proof.
  intros Hs Hd Hdst Hh Hr. apply copy_tree_Ok; [done..|]. split; [done|done|by left].
Qed.

(** C34: a copy that no call fails succeeds, and then no attribute at all is lost. *)
Theorem copy_tree_total src k : sound src -> wf_tree src -> is_dir (n_stat src) = true ->
  k_faults k = [] -> k_attrs k = [] -> k_readdir k = [] ->
  exists r k', copy_tree' src None k = (Ok r, k') /\ copied (fun _ => True) src r /\
    k_bytes k' = (k_bytes k + regular_bytes src)%N.
Proof.
  intros Hs Hwf Hd Hf Hat Hr.
  assert (succeeds (copy_tree' src None)) as Hok.
  { destruct src as [i kids]. inversion_clear Hwf as [? ? Hnd Hk]. unfold copy_tree.
    apply succeeds_bind; [auto with succeeds|intros _]. cbn [default].
    do 2 (apply succeeds_bind; [auto with succeeds|intros _]).
    apply succeeds_bind; [|pose proof (succeeds_set_fd_owner_mode chown_mode); intros; step_succeeds].
    apply dir_succeeds; [|done]. intros s c Hin. by apply copy_node_succeeds, (Hk s). }
  destruct (Hok k (conj Hf (conj Hr Hat))) as (r & k' & E & _). exists r, k'. split; [done|].
  eapply copy_tree_Ok; [exact chown_type|done..| | |exact E]; [by left|].
  split; [|done|by right]. intros e He. rewrite Hat in He. by apply elem_of_nil in He.
Qed.

(** An error of [readdir] is taken for the end of the directory: the copy
    succeeds without the entries that were not read. *)
Theorem readdir_error_truncates i kids : exists o k',
  copy_tree' (Node i kids) None (mkKernel [] [] [] [Some O] 0) = (Ok (Node o []), k').
Proof.
  set (o0 := bare (created umask euid egid S_IFDIR 511 0 0) []).
  assert (succeeds (do! out := set_fd_owner_mode chown_mode (i_stat i) o0 in
    do! out := copy_xattrs_fd i out in st_ret (Node out []))) as Hok.
  { pose proof (succeeds_set_fd_owner_mode chown_mode). step_succeeds. }
  destruct (Hok (mkKernel [] [] [] [] 0) (conj eq_refl (conj eq_refl eq_refl))) as (n & k' & E & _).
  assert (exists o, n = Node o []) as [o ->].
  { apply st_bind_Ok in E as (? & ? & _ & E). apply st_bind_Ok in E as (o & ? & _ & E).
    injection E as <- _. by exists o. }
  exists o, k'. destruct kids as [|[s c] kids]; exact E.
Qed.

End theorems.

(** ** Examples and witnesses *)
Module Witness.

Definition drop_setid (m : Z) : Z := Z.ldiff m 3072.

Lemma drop_setid_type m : Z.land (drop_setid m) S_IFMT = Z.land m S_IFMT.
Proof. unfold drop_setid. rewrite Z.ldiff_land, <- Z.land_assoc. reflexivity. Qed.

Definition leaf (mode size rdev : Z) (data : list byte) : node :=
  Node (mkInode (mkStat mode 1000 1000 size rdev) [] data None None) [].

Definition opaque_dir : inode :=
  mkInode (mkStat 16832 1000 1000 4096 0)
    [("trusted.overlay.opaque"%string, [Byte.x79]); ("user.note"%string, [Byte.x00])] [] None None.

(** A layer with a set-uid file, a whiteout, a link and an opaque directory. *)
Definition layer : node :=
  Node (mkInode (mkStat 16877 1000 1000 4096 0) [] [] None None)
    [("su"%string, leaf 35309 2 0 [Byte.x68; Byte.x69]); ("gone"%string, leaf 8192 0 0 []);
     ("link"%string, leaf 41471 2 0 [Byte.x73; Byte.x75]); ("dir"%string, Node opaque_dir [])].

Lemma sound_leaf mode size rdev data : 0 <= mode < 65536 -> size = Z.of_N (len data) \/ file_type (mkStat mode 0 0 0 0) <> S_IFREG ->
  (Z.land mode S_IFMT = S_IFLNK -> mode = 41471) -> sound (leaf mode size rdev data).
Proof.
  intros Hm Hs Hl. constructor; [constructor|done| | |done|by intros ?? ?%elem_of_nil].
  - intros Hr%Z.eqb_eq. destruct Hs as [?|Hs]; [done|]. by destruct Hs.
  - intros Hr%Z.eqb_eq. by apply Hl.
Qed.

Lemma xattr_name_lit n : n <> EmptyString -> forallb (fun b => negb (is_byte 0 b)) (bytes_of_string n) = true ->
  xattr_name n.
Proof.
  intros Hn Hb. split; [done|]. intros Hin. rewrite forallb_forall in Hb.
  by specialize (Hb _ (proj1 (list_elem_of_In _ _) Hin)).
Qed.

Lemma layer_sound : sound layer.
Proof.
  constructor; [constructor|simpl; lia|done..|]. intros s c.
  repeat (intros [[= -> ->]|Hin]%elem_of_cons; [|revert Hin]); [..|by intros ?%elem_of_nil].
  all: try (apply sound_leaf; [lia|by left|done]).
  constructor; [|simpl; lia|done..|by intros ?? ?%elem_of_nil].
  repeat (apply Forall_cons; split; [apply xattr_name_lit; [discriminate|reflexivity]|]). constructor.
Qed.

Definition fails (n : Z) : option Io.error := Some (Io.mk Io.Other (Some n) "failed").

(** No reflink, the range copy is not supported, reads and writes move one byte
    at a time, and setting [user.note] is refused. *)
Definition rough : kernel :=
  mkKernel (replicate 8 None ++ [fails EOPNOTSUPP; fails EXDEV] ++ replicate 24 None ++ [fails 1]) [] [1; 1; 1; 1]%N [] 0.

Definition rough_copy : node :=
  match copy_tree drop_setid 18 0 0 layer None rough with (Ok n, _) => n | (Err _, _) => layer end.
Definition after_rough : kernel := snd (copy_tree drop_setid 18 0 0 layer None rough).

Lemma honest_dec k : forallb (fun f => match f with
    | Some e => negb (errno_in e [ENODATA; EOPNOTSUPP])
    | None => true
    end) (k_attrs k) = true -> honest k.
Proof.
  intros Hk e He. rewrite forallb_forall in Hk. specialize (Hk _ (proj1 (list_elem_of_In _ _) He)).
  by apply negb_true_iff in Hk.
Qed.

Lemma copy_tree_exact_witness :
  copy_tree drop_setid 18 0 0 layer None rough = (Ok rough_copy, after_rough) /\
  copied (fun n => is_overlay n = true) layer rough_copy /\ k_bytes after_rough = 2%N.
Proof.
  assert (copy_tree drop_setid 18 0 0 layer None rough = (Ok rough_copy, after_rough)) as E by (by vm_compute).
  split; [exact E|].
  exact (copy_tree_exact drop_setid 18 0 0 drop_setid_type layer None rough rough_copy after_rough layer_sound
    eq_refl (or_introl eq_refl) (honest_dec rough ltac:(by vm_compute)) eq_refl E).
Defined.

Lemma layer_wf : wf_tree layer.
Proof.
  constructor; [apply (bool_decide_unpack _); by vm_compute|]. intros s c.
  repeat (intros [[= -> ->]|Hin]%elem_of_cons; [|revert Hin]); [..|by intros ?%elem_of_nil].
  all: constructor; [constructor|by intros ?? ?%elem_of_nil].
Qed.

Lemma copy_tree_total_witness : exists r k', copy_tree drop_setid 18 0 0 layer None (mkKernel [] [] [] [] 0) = (Ok r, k') /\
  copied (fun _ => True) layer r /\ k_bytes k' = 2%N.
Proof.
  exact (copy_tree_total drop_setid 18 0 0 drop_setid_type layer (mkKernel [] [] [] [] 0) layer_sound layer_wf
    eq_refl eq_refl eq_refl eq_refl).
Defined.

End Witness.
