(* ===== verification/FdCopy.v ===== *)
(** * Copying a live layer: the descriptor discipline

    draug-ns/src/linux/fscopy.rs again, call by call, on a file system that
    others change while the copy runs.  Objects are found by inode number; a
    descriptor is the inode it was opened on.  Before every system call the
    sandbox's processes do what they like ([writer]); the kernel may fail the
    call.  An object is only looked at with [peek] and only changed with
    [poke] and [make], which log it. *)

From S2P Require Import Prelude Text Types FsTree FsCopy.

(** ** The file system *)

Notation ino := N (only parsing).

Inductive body :=
  | BDir (parent : ino) (entries : gmap string ino)
  | BData (data : list byte)
  | BLink (target : path)
  | BSpecial (type rdev : Z).

Record file := mkFile {
  f_body : body;
  f_perms : Z;
  f_uid : Z;
  f_gid : Z;
  f_attrs : list (string * list byte);
}.

Notation fs := (gmap ino file) (only parsing).

Definition S_IFIFO : Z := 4096.
Definition S_IFSOCK : Z := 49152.

Definition type_of (b : body) : Z :=
  match b with BDir _ _ => S_IFDIR | BData _ => S_IFREG | BLink _ => S_IFLNK | BSpecial t _ => t end.

Definition stat_of (f : file) : stat :=
  mkStat (Z.lor (type_of (f_body f)) (f_perms f)) (f_uid f) (f_gid f)
    (match f_body f with
     | BData d => Z.of_N (len d)
     | BLink t => Z.of_N (str_len t)
     | _ => 0
     end)
    (match f_body f with BSpecial _ r => r | _ => 0 end).

Definition set_body (b : body) (f : file) : file := mkFile b (f_perms f) (f_uid f) (f_gid f) (f_attrs f).
Definition set_perms (p : Z) (f : file) : file := mkFile (f_body f) p (f_uid f) (f_gid f) (f_attrs f).
Definition set_owner (u g : Z) (f : file) : file := mkFile (f_body f) (f_perms f) u g (f_attrs f).
Definition set_attrs (a : list (string * list byte)) (f : file) : file :=
  mkFile (f_body f) (f_perms f) (f_uid f) (f_gid f) a.

(** ** The world around the copy *)

Record env := mkEnv {
  writer : nat -> fs -> fs;                    (* before the nth call *)
  faults : nat -> option Io.error;             (* how the nth call fails, if it does *)
  amounts : nat -> N;                          (* what the nth transfer would like to move *)
  listing : nat -> list string -> list string; (* what a directory stream yields *)
  peer : nat -> list byte;                     (* what a pipe or a device yields *)
  pipe_writer : nat -> bool;                   (* somebody opens the pipe's other end *)
  resolve : fs -> ino -> path -> option ino;   (* a path, links followed *)
  make_dirs : path -> fs -> fs;                (* [create_dir_all] *)
  alloc : fs -> ino;                           (* the number of a new object *)
  chown_perms : Z -> Z;                        (* what a chown leaves of the permissions *)
  ids : Z * Z;                                 (* the copier's uid and gid *)
}.

Inductive access := Reads (i : ino) | Writes (i : ino).

Record world := mkWorld {
  w_fs : fs;
  w_clock : nat;
  w_log : list access;
  w_bytes : N;             (* [bytes: &mut u64] *)
}.

(** How a copy ends without a result: an error, a call that does not return, or
    the bound on the model's recursion. *)
Inductive stop := Failed (e : Io.error) | Blocked | Spent.

Definition W := ST world stop.

Definition os_error (k : Io.ErrorKind) (n : Z) (m : string) : stop := Failed (Io.mk k (Some n) m).
Definition ENOENT : stop := os_error Io.NotFound 2 "No such file or directory".
Definition EEXISTS : stop := Failed EEXIST.
Definition ENOTDIR : stop := os_error Io.Other 20 "Not a directory".
Definition EISDIR : stop := os_error Io.Other 21 "Is a directory".
Definition ENXIO : stop := os_error Io.Other 6 "No such device or address".
Definition ELOOP : stop := os_error Io.Other 40 "Too many levels of symbolic links".
Definition EINVAL_stop : stop := os_error Io.InvalidInput 22 "Invalid argument".
Definition ESTALE : stop := os_error Io.Other 116 "Stale file handle".
Definition ERANGE_stop : stop := os_error Io.Other ERANGE "Numerical result out of range".

Section copy.
Context (env : env).

(** ** Access *)

Definition look : W fs := fun w => (Ok (w_fs w), w).

Definition peek (i : ino) : W file := fun w =>
  let w' := mkWorld (w_fs w) (w_clock w) (w_log w ++ [Reads i]) (w_bytes w) in
  match w_fs w !! i with Some f => (Ok f, w') | None => (Err ESTALE, w') end.

Definition poke (i : ino) (g : file -> file) : W unit := fun w =>
  match w_fs w !! i with
  | Some f => (Ok tt, mkWorld (<[i := g f]> (w_fs w)) (w_clock w) (w_log w ++ [Writes i]) (w_bytes w))
  | None => (Err ESTALE, w)
  end.

(** A new object under a name that is free. *)
Definition make (d : ino) (name : string) (f : file) : W ino := fun w =>
  match w_fs w !! d with
  | Some df =>
      match f_body df with
      | BDir parent entries =>
          let i := alloc env (w_fs w) in
          (Ok i, mkWorld (<[i := f]> (<[d := set_body (BDir parent (<[name := i]> entries)) df]> (w_fs w)))
                   (w_clock w) (w_log w ++ [Writes d; Writes i]) (w_bytes w))
      | _ => (Err ENOTDIR, w)
      end
  | None => (Err ESTALE, w)
  end.

Definition add_bytes (n : N) : W unit := fun w =>
  (Ok tt, mkWorld (w_fs w) (w_clock w) (w_log w) (w_bytes w + n)).

Definition now : W nat := fun w => (Ok (w_clock w), w).

(** A system call: the others move, then the kernel may refuse; [attempt] for
    a caller that looks at the error. *)
Definition attempt : W (result Io.error unit) := fun w =>
  (Ok (match faults env (w_clock w) with Some e => Err e | None => Ok tt end),
   mkWorld (writer env (w_clock w) (w_fs w)) (S (w_clock w)) (w_log w) (w_bytes w)).

Definition call : W unit := do! r := attempt in st_lift (map_err Failed r).

(** What a directory has under one component. *)
Definition entry (d : ino) (name : string) : W (option ino) :=
  do! f := peek d in
  match f_body f with
  | BDir parent entries =>
      st_ret (if decide (name = ".") then Some d
              else if decide (name = "..") then Some parent
              else entries !! name)
  | _ => st_fail ENOTDIR
  end.

Definition found (d : ino) (name : string) : W ino :=
  do! e := entry d name in
  match e with Some i => st_ret i | None => st_fail ENOENT end.

Definition follow (d : ino) (target : path) : W ino :=
  do! fs := look in
  match resolve env fs d target with Some i => st_ret i | None => st_fail ENOENT end.

Record oflags := mkFlags { o_directory : bool; o_nofollow : bool; o_write : bool; o_creat_excl : bool }.

(** Whether a special file has something to read: a pipe or a device, but no
    socket and no whiteout. *)
Definition streams (type rdev : Z) : bool :=
  (type =? S_IFIFO) || negb ((type =? S_IFSOCK) || (rdev =? 0)).

(** Opening an object that is not a link.  A pipe blocks until its other end
    is opened. *)
Definition open_object (fl : oflags) (i : ino) : W ino :=
  do! f := peek i in
  match f_body f with
  | BDir _ _ => if o_write fl then st_fail EISDIR else st_ret i
  | BData _ => if o_directory fl then st_fail ENOTDIR else st_ret i
  | BLink _ => st_fail ELOOP
  | BSpecial type rdev =>
      if o_directory fl then st_fail ENOTDIR
      else if type =? S_IFIFO then
        do! n := now in if pipe_writer env n then st_ret i else st_fail Blocked
      else if streams type rdev then st_ret i else st_fail ENXIO
  end.

Definition openat (fl : oflags) (d : ino) (name : string) : W ino :=
  do! _ := call in
  do! e := entry d name in
  match e with
  | None =>
      if o_creat_excl fl then make d name (mkFile (BData []) 384 (ids env).1 (ids env).2 [])
      else st_fail ENOENT
  | Some i =>
      if o_creat_excl fl then st_fail EEXISTS
      else
        do! f := peek i in
        match f_body f with
        | BLink target =>
            if o_nofollow fl then st_fail (if o_directory fl then ENOTDIR else ELOOP)
            else do! j := follow d target in open_object fl j
        | _ => open_object fl i
        end
  end.

(** ** The wrappers *)

(** [open_dir_path] *)
Definition open_dir_path (p : path) : W ino :=
  do! _ := call in
  do! i := follow 0 p in
  open_object (mkFlags true false false false) i.

Definition create_dir_all (p : path) : W unit :=
  do! _ := call in
  fun w => (Ok tt, mkWorld (make_dirs env p (w_fs w)) (w_clock w) (w_log w) (w_bytes w)).

Definition openat_dir (parent : ino) (name : string) : W ino :=
  openat (mkFlags true true false false) parent name.

(** [O_RDONLY], and [O_WRONLY | O_CREAT | O_EXCL]. *)
Definition openat_file (parent : ino) (name : string) (create : bool) : W ino :=
  openat (mkFlags false true create create) parent name.

Definition fstat (fd : ino) : W stat := do! _ := call in do! f := peek fd in st_ret (stat_of f).

Definition fstatat_nofollow (d : ino) (name : string) : W stat :=
  do! _ := call in do! i := found d name in do! f := peek i in st_ret (stat_of f).

(** [dup], [fdopendir], and the stream to its end, which also yields the two
    names every directory has. *)
Definition read_entries (d : ino) : W (list string) :=
  do! _ := call in
  do! _ := call in
  do! _ := call in
  do! f := peek d in
  do! n := now in
  match f_body f with
  | BDir _ entries =>
      st_ret (filter (fun name => name <> "." /\ name <> "..")
                (listing env n ("." :: ".." :: (map_to_list entries).*1)))%string
  | _ => st_fail ENOTDIR
  end.

(** A call that makes a name: refused when the name is taken. *)
Definition make_new (d : ino) (name : string) (b : body) (perms : Z) : W unit :=
  do! _ := call in
  do! e := entry d name in
  match e with
  | Some _ => st_fail EEXISTS
  | None => do! _ := make d name (mkFile b perms (ids env).1 (ids env).2 []) in st_ret tt
  end.

Definition mkdirat (d : ino) (name : string) (mode : Z) : W unit := make_new d name (BDir d ∅) mode.

Definition mknodat (d : ino) (name : string) (mode rdev : Z) : W unit :=
  make_new d name (BSpecial (Z.land mode S_IFMT) rdev) (Z.land mode PERMS).

Definition symlinkat (target : path) (d : ino) (name : string) : W unit :=
  make_new d name (BLink target) 511.

Fixpoint readlink_loop (rounds : nat) (d : ino) (name : string) (cap : N) : W path :=
  match rounds with
  | O => st_fail Spent
  | S rounds' =>
      do! _ := call in
      do! i := found d name in
      do! f := peek i in
      match f_body f with
      | BLink target =>
          if (str_len target <? cap)%N then st_ret target
          else readlink_loop rounds' d name (cap * 2)
      | _ => st_fail EINVAL_stop
      end
  end.

Definition readlinkat (rounds : nat) (d : ino) (name : string) (size_hint : Z) : W path :=
  readlink_loop rounds d name (if 0 <? size_hint then (Z.to_N size_hint + 1)%N else 256%N).

Definition fchownat_nofollow (d : ino) (name : string) (uid gid : Z) : W unit :=
  do! _ := call in
  do! i := found d name in
  poke i (fun f => set_perms (chown_perms env (f_perms f)) (set_owner uid gid f)).

(** With flags 0: a link would be followed. *)
Definition fchmodat_nofollow (d : ino) (name : string) (mode : Z) : W unit :=
  do! _ := call in
  do! i := found d name in
  do! f := peek i in
  do! i := (match f_body f with BLink target => follow d target | _ => st_ret i end) in
  poke i (set_perms mode).

Definition set_fd_owner_mode (fd : ino) (st : stat) : W unit :=
  do! _ := call in
  do! _ := poke fd (fun f => set_perms (chown_perms env (f_perms f)) (set_owner (st_uid st) (st_gid st) f)) in
  do! _ := call in
  poke fd (set_perms (Z.land (st_mode st) PERMS)).

(** ** Contents *)

(** Up to [limit] bytes at [off]; at least one, if there are any. *)
Definition read_at (fd : ino) (off : nat) (limit : N) : W (list byte) :=
  do! f := peek fd in
  do! n := now in
  let rest := match f_body f with
              | BData d => drop off d
              | BSpecial type rdev => if streams type rdev then peer env n else []
              | _ => []
              end in
  st_ret (take (N.to_nat (N.min limit (N.max 1 (amounts env n)))) rest).

Definition append (fd : ino) (bytes : list byte) : W unit :=
  poke fd (fun f => match f_body f with BData d => set_body (BData (d ++ bytes)) f | _ => f end).

Fixpoint write_loop (rounds : nat) (fd : ino) (buf : list byte) : W unit :=
  match rounds, buf with
  | O, _ | _, [] => st_ret tt
  | S rounds', _ =>
      do! _ := call in
      do! n := now in
      let w := N.to_nat (N.min (len buf) (N.max 1 (amounts env n))) in
      do! _ := append fd (take w buf) in
      write_loop rounds' fd (drop w buf)
  end.

Fixpoint copy_loop (rounds : nat) (reader writer : ino) (off : nat) (total : N) : W N :=
  match rounds with
  | O => st_fail Spent
  | S rounds' =>
      do! _ := call in
      do! bytes := read_at reader off COPY_BUF in
      if decide (bytes = []) then st_ret total
      else
        do! _ := write_loop (length bytes) writer bytes in
        copy_loop rounds' reader writer (off + length bytes) (total + len bytes)%N
  end.

(** Only a regular file can be cloned or copied in the kernel. *)
Definition is_data (b : body) : bool := match b with BData _ => true | _ => false end.

Definition in_kernel (reader : ino) : W (result Io.error file) :=
  do! r := attempt in
  do! f := peek reader in
  st_ret (match r with
          | Err e => Err e
          | Ok _ => if is_data (f_body f) then Ok f
                    else Err (Io.mk Io.InvalidInput (Some EINVAL) "Invalid argument")
          end).

Fixpoint range_loop (rounds total : nat) (reader writer : ino) (off : nat) (copied : N) : W N :=
  match rounds with
  | O => st_fail Spent
  | S rounds' =>
      do! r := in_kernel reader in
      match r with
      | Ok _ =>
          do! bytes := read_at reader off RANGE_MAX in
          if decide (bytes = []) then st_ret copied
          else
            do! _ := append writer bytes in
            range_loop rounds' total reader writer (off + length bytes) (copied + len bytes)%N
      | Err e =>
          if falls_back e && (copied =? 0)%N then copy_loop total reader writer off 0
          else st_fail (Failed e)
      end
  end.

Definition copy_file_contents (rounds : nat) (reader writer : ino) (size : N) : W N :=
  do! r := in_kernel reader in
  match r with
  | Ok f =>
      do! _ := (match f_body f with BData d => append writer d | _ => st_ret tt end) in
      st_ret size
  | Err _ => range_loop rounds rounds reader writer 0 0
  end.

(** ** Extended attributes *)

(** The list may have grown between the call that asks for its size and the
    one that reads it. *)
Definition flistxattr (fd : ino) : W (list string) :=
  do! r := attempt in
  match r with
  | Err e => if errno_in e [EOPNOTSUPP] then st_ret [] else st_fail (Failed e)
  | Ok _ =>
      do! f := peek fd in
      let size := len (names_buffer (f_attrs f)) in
      do! _ := call in
      do! f := peek fd in
      let buf := names_buffer (f_attrs f) in
      if (size <? len buf)%N then st_fail ERANGE_stop else st_ret (parse_names buf)
  end.

Fixpoint getxattr_loop (rounds : nat) (fd : ino) (name : string) (cap : N) : W (option (list byte)) :=
  match rounds with
  | O => st_fail Spent
  | S rounds' =>
      do! r := attempt in
      match r with
      | Err e =>
          if errno_in e [ENODATA; EOPNOTSUPP] then st_ret None
          else if errno_in e [ERANGE] then getxattr_loop rounds' fd name (cap * 2)
          else st_fail (Failed e)
      | Ok _ =>
          do! f := peek fd in
          match assoc name (f_attrs f) with
          | None => st_ret None
          | Some v => if (len v <=? cap)%N then st_ret (Some v) else getxattr_loop rounds' fd name (cap * 2)
          end
      end
  end.

Definition fgetxattr (rounds : nat) (fd : ino) (name : string) : W (option (list byte)) :=
  getxattr_loop rounds fd name 256.

Definition set_or_skip (fd : ino) (name : string) (value : list byte) : W unit :=
  do! r := attempt in
  match r with
  | Ok _ => poke fd (fun f => set_attrs (set_assoc name value (f_attrs f)) f)
  | Err e => if is_overlay name then st_fail (Failed e) else st_ret tt
  end.

Fixpoint copy_attrs (rounds : nat) (src dst : ino) (names : list string) : W unit :=
  match names with
  | [] => st_ret tt
  | name :: names' =>
      do! value := fgetxattr rounds src name in
      do! _ := (match value with Some v => set_or_skip dst name v | None => st_ret tt end) in
      copy_attrs rounds src dst names'
  end.

Definition copy_xattrs_fd (rounds : nat) (src dst : ino) : W unit :=
  do! names := flistxattr src in copy_attrs rounds src dst names.

(** ** The walk *)

Definition copy_symlink (rounds : nat) (src dst : ino) (name : string) (st : stat) : W unit :=
  do! target := readlinkat rounds src name (st_size st) in
  do! _ := symlinkat target dst name in
  fchownat_nofollow dst name (st_uid st) (st_gid st).

Definition copy_regular (rounds : nat) (src dst : ino) (name : string) (st : stat) : W unit :=
  do! sfd := openat_file src name false in
  do! dfd := openat_file dst name true in
  do! n := copy_file_contents rounds sfd dfd (Z.to_N (st_size st)) in
  do! _ := add_bytes n in
  do! _ := set_fd_owner_mode dfd st in
  copy_xattrs_fd rounds sfd dfd.

Definition copy_special (dst : ino) (name : string) (st : stat) : W unit :=
  do! _ := mknodat dst name (st_mode st) (st_rdev st) in
  do! _ := fchownat_nofollow dst name (st_uid st) (st_gid st) in
  fchmodat_nofollow dst name (Z.land (st_mode st) PERMS).

Definition copy_subdir (copy_dir : ino -> ino -> W unit) (rounds : nat) (src dst : ino) (name : string)
    (st : stat) : W unit :=
  do! _ := mkdirat dst name 448 in
  do! cs := openat_dir src name in
  do! cd := openat_dir dst name in
  do! _ := copy_dir cs cd in
  do! _ := set_fd_owner_mode cd st in
  copy_xattrs_fd rounds cs cd.

Definition copy_entry (copy_dir : ino -> ino -> W unit) (rounds : nat) (src dst : ino) (name : string) : W unit :=
  do! st := fstatat_nofollow src name in
  if is_dir st then copy_subdir copy_dir rounds src dst name st
  else if is_lnk st then copy_symlink rounds src dst name st
  else if file_type st =? S_IFREG then copy_regular rounds src dst name st
  else copy_special dst name st.

Fixpoint copy_entries (copy_dir : ino -> ino -> W unit) (rounds : nat) (src dst : ino) (names : list string) : W unit :=
  match names with
  | [] => st_ret tt
  | name :: names' =>
      do! _ := copy_entry copy_dir rounds src dst name in
      copy_entries copy_dir rounds src dst names'
  end.

Fixpoint copy_dir (depth rounds : nat) (src dst : ino) : W unit :=
  match depth with
  | O => st_fail Spent
  | S depth' =>
      do! names := read_entries src in
      copy_entries (copy_dir depth' rounds) rounds src dst names
  end.

Definition copy_tree (depth rounds : nat) (src dst : path) : W N :=
  do! _ := create_dir_all dst in
  do! src_root := open_dir_path src in
  do! dst_root := open_dir_path dst in
  do! _ := copy_dir depth rounds src_root dst_root in
  do! st := fstat src_root in
  do! _ := set_fd_owner_mode dst_root st in
  do! _ := copy_xattrs_fd rounds src_root dst_root in
  fun w => (Ok (w_bytes w), w).

End copy.
