(* ===== verification/FdCopySpec.v ===== *)
(** * A live layer is copied from within

    Whatever the sandbox does to its layer while FdCopy.v copies it, the copy
    looks at nothing outside the layer and the destination and changes nothing
    outside the destination; and it comes to an end when the layer stays
    bounded. *)

From S2P Require Import Prelude Text Types FsTree FsCopy FdCopy.

(** ** Who owns what

    Every object belongs to the layer, to the destination, or to neither, for
    its whole life: a sandbox process cannot link a foreign object into its
    layer, but it can make symbolic links that name one. *)

Inductive zone := Inside | Dest | Outside.

#[global] Instance zone_eq_dec : EqDecision zone.
Proof. solve_decision. Defined.

Section confinement.
Context (env : env) (zone_of : N -> zone) (src dst : path).

Definition entries_in (z : zone) (fs : gmap N file) : Prop :=
  forall i f parent es name j, zone_of i = z -> fs !! i = Some f ->
    f_body f = BDir parent es -> es !! name = Some j -> zone_of j = z.

(** What the copy relies on: the sandbox keeps off the destination, and leaves
    the layer's entries in the layer; the two roots are what they should be;
    new objects are new, and the copier's. *)
Record rely : Prop := {
  rely_dest : forall n fs i, zone_of i = Dest -> writer env n fs !! i = fs !! i;
  rely_layer : forall n fs, entries_in Inside fs -> entries_in Inside (writer env n fs);
  rely_alloc : forall fs, zone_of (alloc env fs) = Dest;
  rely_fresh : forall fs, fs !! alloc env fs = None;
  rely_src : forall fs i, resolve env fs 0 src = Some i -> zone_of i = Inside;
  rely_dst : forall fs i, resolve env fs 0 dst = Some i -> zone_of i = Dest;
  rely_dirs_layer : forall fs i, zone_of i = Inside -> make_dirs env dst fs !! i = fs !! i;
  rely_dirs : forall fs, entries_in Dest fs -> entries_in Dest (make_dirs env dst fs);
}.

(** A layer of bounded depth - every directory has a rank its entries stay
    below -, of bounded sizes, and without pipes and devices. *)
Definition small_file (rank : N -> nat) (size : nat) (i : N) (f : file) : Prop :=
  match f_body f with
  | BDir _ es => forall name j, es !! name = Some j -> (rank j < rank i)%nat
  | BData d => (length d <= size)%nat
  | BLink t => (String.length t <= size)%nat
  | BSpecial type rdev => streams type rdev = false
  end /\ Forall (fun a => length a.2 <= size)%nat (f_attrs f).

Definition small (rank : N -> nat) (size : nat) (fs : gmap N file) : Prop :=
  forall i f, zone_of i = Inside -> fs !! i = Some f -> small_file rank size i f.

Record calm (rank : N -> nat) (size depth rounds : nat) : Prop := {
  calm_writer : forall n fs, small rank size fs -> small rank size (writer env n fs);
  calm_root : forall fs i, resolve env fs 0 src = Some i -> (rank i < depth)%nat;
  calm_rounds : (size < rounds)%nat;
  calm_faults : forall n e, faults env n = Some e -> errno_in e [ERANGE] = false;
}.

(** ** Triples

    [bounded] says whether the bounds are assumed: one proof gives confinement
    without them and termination with them. *)

Section triples.
Context (bounded : Prop) (rank : N -> nat) (size depth rounds : nat).
Context (Hrely : rely) (Hcalm : bounded -> calm rank size depth rounds).

Definition allowed (a : access) : Prop :=
  match a with Reads i => zone_of i <> Outside | Writes i => zone_of i = Dest end.

Definition inv (w : world) : Prop :=
  entries_in Inside (w_fs w) /\ entries_in Dest (w_fs w) /\ (bounded -> small rank size (w_fs w)) /\
  Forall allowed (w_log w).

Definition tame (s : stop) : Prop := bounded -> exists e, s = Failed e.

Definition triple {A} (P : world -> Prop) (m : W A) (Q : A -> world -> Prop) : Prop :=
  forall w r w', inv w -> P w -> m w = (r, w') ->
    inv w' /\ match r with Ok a => Q a w' | Err s => tame s end.

Definition safe {A} (m : W A) (Q : A -> Prop) : Prop := triple (fun _ => True) m (fun a _ => Q a).

Lemma triple_bind {A B} P (m : W A) Q (k : A -> W B) R :
  triple P m Q -> (forall a, triple (Q a) (k a) R) -> triple P (st_bind m k) R.
Proof.
  intros Hm Hk w r w' Hi HP E. unfold st_bind in E. destruct (m w) as [[a|s] w1] eqn:E1.
  - destruct (Hm _ _ _ Hi HP E1) as [Hi1 HQ]. by apply (Hk a w1).
  - injection E as <- <-. by apply (Hm _ _ _ Hi HP E1).
Qed.

Lemma safe_bind {A B} (m : W A) Q (k : A -> W B) R :
  safe m Q -> (forall a, Q a -> safe (k a) R) -> safe (st_bind m k) R.
Proof.
  intros Hm Hk. eapply triple_bind; [exact Hm|]. intros a w r w' Hi HQ E. by eapply Hk.
Qed.

Lemma safe_weaken {A} (m : W A) (Q R : A -> Prop) : safe m Q -> (forall a, Q a -> R a) -> safe m R.
Proof. intros Hm Hi w r w' Hw _ E. destruct (Hm w r w' Hw I E). destruct r; auto. Qed.

Lemma safe_ret {A} (a : A) (Q : A -> Prop) : Q a -> safe (st_ret a) Q.
Proof. intros HQ w r w' Hi _ [= <- <-]. done. Qed.

Lemma tame_failed e : tame (Failed e).
Proof. intros _. eauto. Qed.

Lemma safe_fail {A} s (Q : A -> Prop) : tame s -> safe (st_fail s) Q.
Proof. intros Hs w r w' Hi _ [= <- <-]. done. Qed.

Lemma safe_failed {A} e (Q : A -> Prop) : safe (st_fail (Failed e)) Q.
Proof. apply safe_fail, tame_failed. Qed.

Lemma safe_lift {A} (x : result stop A) (Q : A -> Prop) :
  match x with Ok a => Q a | Err s => tame s end -> safe (st_lift x) Q.
Proof. intros HQ w r w' Hi _ [= <- <-]. done. Qed.

(** ** The primitives *)

Lemma entries_in_same z fs fs' : (forall i, zone_of i = z -> fs' !! i = fs !! i) ->
  entries_in z fs -> entries_in z fs'.
Proof. intros Hsame H i f parent es name j Hi Hf. rewrite Hsame in Hf by done. by eapply H. Qed.

Lemma small_same fs fs' : (forall i, zone_of i = Inside -> fs' !! i = fs !! i) ->
  small rank size fs -> small rank size fs'.
Proof. intros Hsame H i f Hi Hf. rewrite Hsame in Hf by done. by apply H. Qed.

(** A change of the destination only. *)
Lemma inv_dest w fs' log' : inv w -> (forall i, zone_of i = Inside -> fs' !! i = w_fs w !! i) ->
  entries_in Dest fs' -> Forall allowed log' ->
  inv (mkWorld fs' (w_clock w) (w_log w ++ log') (w_bytes w)).
Proof.
  intros (Hin & _ & Hs & Hl) Hsame Hd Hlog. split_and!; simpl.
  - by eapply entries_in_same.
  - done.
  - intros Hb. eapply small_same; [exact Hsame|auto].
  - by apply Forall_app.
Qed.

Definition honest (r : result Io.error unit) : Prop :=
  bounded -> forall e, r = Err e -> errno_in e [ERANGE] = false.

Lemma safe_attempt : safe (attempt env) honest.
Proof.
  intros w r w' (Hin & Hd & Hs & Hl) _ [= <- <-]. split; [split_and!; simpl|].
  - by apply rely_layer.
  - eapply entries_in_same; [|exact Hd]. intros. by apply rely_dest.
  - intros Hb. eapply calm_writer; [by apply Hcalm|auto].
  - done.
  - intros Hb e. destruct (faults env (w_clock w)) eqn:E; [|done]. intros [= <-].
    by eapply calm_faults; [apply Hcalm|].
Qed.

Lemma safe_call : safe (call env) (fun _ => True).
Proof.
  eapply safe_bind; [apply safe_attempt|]. intros [u|e] _; apply safe_lift; [done|apply tame_failed].
Qed.

Definition file_ok (i : N) (f : file) : Prop :=
  (forall parent es name j, f_body f = BDir parent es -> es !! name = Some j -> zone_of j = zone_of i) /\
  (bounded -> zone_of i = Inside -> small_file rank size i f).

Lemma inv_file w i f : inv w -> zone_of i <> Outside -> w_fs w !! i = Some f -> file_ok i f.
Proof.
  intros (Hin & Hd & Hs & _) Hz Hf. split.
  - intros parent es name j Hb Hj. destruct (zone_of i) eqn:E; [|..|done].
    + by eapply (Hin i f).
    + by eapply (Hd i f).
  - intros Hb Hi. by apply Hs.
Qed.

Lemma safe_peek i : zone_of i <> Outside -> safe (peek i) (file_ok i).
Proof.
  intros Hz w r w' Hi _ E.
  assert (inv (mkWorld (w_fs w) (w_clock w) (w_log w ++ [Reads i]) (w_bytes w))) as Hi'.
  { apply inv_dest; [done..|by apply Hi|by repeat constructor]. }
  unfold peek in E. destruct (w_fs w !! i) as [f|] eqn:Hf; injection E as <- <-; split; try done.
  - by eapply inv_file.
  - apply tame_failed.
Qed.

(** A change that makes no entries. *)
Definition plain_change (g : file -> file) : Prop :=
  forall f parent es, f_body (g f) = BDir parent es -> exists parent', f_body f = BDir parent' es.

Lemma safe_poke i g : zone_of i = Dest -> plain_change g -> safe (poke i g) (fun _ => True).
Proof.
  intros Hz Hg w r w' Hi _ E. unfold poke in E. destruct (w_fs w !! i) as [f|] eqn:Hf;
    injection E as <- <-; (split; [|try done; apply tame_failed]); [|done].
  apply inv_dest; [done|..|by repeat constructor].
  - intros j Hj. rewrite lookup_insert_ne; [done|]. congruence.
  - intros j f' parent es name k Hj Hf' Hb Hk. destruct Hi as (_ & Hd & _).
    destruct (decide (i = j)) as [<-|Hne].
    + rewrite lookup_insert_eq in Hf'. injection Hf' as <-. apply Hg in Hb as [parent' Hb]. by eapply Hd.
    + rewrite lookup_insert_ne in Hf' by done. by eapply Hd.
Qed.

Lemma safe_make d name f : zone_of d = Dest ->
  (forall parent es, f_body f = BDir parent es -> es = ∅) ->
  safe (make env d name f) (fun i => zone_of i = Dest).
Proof.
  intros Hz Hempty w r w' Hi _ E. unfold make in E.
  destruct (w_fs w !! d) as [df|] eqn:Hd; [|by injection E as <- <-; split; [|apply tame_failed]].
  pose proof (rely_alloc Hrely (w_fs w)) as Hnew. set (i := alloc env (w_fs w)) in *.
  destruct (f_body df) as [parent es| | |] eqn:Hb;
    try (injection E as <- <-; split; [done|apply tame_failed]).
  injection E as <- <-. split; [|done]. apply inv_dest; [done|..|by repeat constructor].
  - intros j Hj. rewrite !lookup_insert_ne by congruence. done.
  - destruct Hi as (_ & Hdest & _). intros j f' parent' es' n k Hj Hf' Hb' Hk.
    destruct (decide (i = j)) as [<-|Hni].
    { rewrite lookup_insert_eq in Hf'. injection Hf' as <-. apply Hempty in Hb' as ->. done. }
    rewrite lookup_insert_ne in Hf' by done. destruct (decide (d = j)) as [<-|Hnd].
    + rewrite lookup_insert_eq in Hf'. injection Hf' as <-. injection Hb' as <- <-.
      destruct (decide (name = n)) as [<-|Hnn]; [rewrite lookup_insert_eq in Hk; by injection Hk as <-|].
      rewrite lookup_insert_ne in Hk by done. by eapply Hdest.
    + rewrite lookup_insert_ne in Hf' by done. by eapply Hdest.
Qed.

(** ** Names and descriptors *)

(** A name a directory gives itself, unlike [.] and [..]. *)
Definition own_name (name : string) : Prop := name <> "."%string /\ name <> ".."%string.

(** What is found under such a name: of the same owner, and further down. *)
Definition under (d i : N) : Prop :=
  zone_of i = zone_of d /\ (bounded -> zone_of d = Inside -> (rank i < rank d)%nat).

Lemma safe_entry d name : zone_of d <> Outside -> own_name name ->
  safe (entry d name) (fun o => forall i, o = Some i -> under d i).
Proof.
  intros Hz [Hdot Hdots]. eapply safe_bind; [by apply safe_peek|]. intros f [Hent Hsmall].
  destruct (f_body f) as [parent es| | |] eqn:Hb; [|apply safe_failed..].
  apply safe_ret. rewrite !decide_False by done. intros i Hi. split; [by eapply Hent|].
  intros HB Hd. destruct (Hsmall HB Hd) as [Hs _]. rewrite Hb in Hs. by eapply Hs.
Qed.

Lemma safe_found d name : zone_of d <> Outside -> own_name name -> safe (found d name) (under d).
Proof.
  intros Hz Hn. eapply safe_bind; [by apply safe_entry|]. intros [i|] Hi; [|apply safe_failed].
  apply safe_ret. auto.
Qed.

Lemma safe_open_object fl i : zone_of i <> Outside ->
  zone_of i = Inside \/ o_directory fl = true -> safe (open_object env fl i) (fun j => j = i).
Proof.
  intros Hz Hfl. eapply safe_bind; [by apply safe_peek|]. intros f [_ Hsmall].
  destruct (f_body f) as [parent es|d|t|type rdev] eqn:Hb.
  - case_match; [apply safe_failed|by apply safe_ret].
  - case_match; [apply safe_failed|by apply safe_ret].
  - apply safe_failed.
  - destruct (o_directory fl) eqn:Ed; [apply safe_failed|]. destruct Hfl as [Hin|]; [|done].
    destruct (type =? S_IFIFO) eqn:Et; [|case_match; [by apply safe_ret|apply safe_failed]].
    intros w r w' Hi _ E. unfold now, st_bind in E.
    destruct (pipe_writer env (w_clock w)); injection E as <- <-; (split; [done|]); [done|].
    intros HB. destruct (Hsmall HB Hin) as [Hs _]. rewrite Hb in Hs. unfold streams in Hs. by rewrite Et in Hs.
Qed.

Lemma safe_openat_dir d name : zone_of d <> Outside -> own_name name ->
  safe (openat_dir env d name) (under d).
Proof.
  intros Hz Hn. eapply safe_bind; [apply safe_call|]. intros _ _.
  eapply safe_bind; [by apply safe_entry|]. intros [i|] Hi; simpl; [|apply safe_failed].
  pose proof (Hi i eq_refl) as Hu. assert (zone_of i <> Outside) as Hzi by (destruct Hu as [-> _]; done).
  eapply safe_bind; [by apply safe_peek|]. intros f _.
  assert (safe (open_object env (mkFlags true true false false) i) (under d)) as Hopen.
  { eapply safe_weaken; [by apply safe_open_object; [done|right]|]. by intros j ->. }
  destruct (f_body f); [done|done|apply safe_failed|done].
Qed.

Lemma safe_openat_read d name : zone_of d = Inside -> own_name name ->
  safe (openat_file env d name false) (fun i => zone_of i = Inside).
Proof.
  intros Hz Hn. eapply safe_bind; [apply safe_call|]. intros _ _.
  eapply safe_bind; [apply safe_entry; [by rewrite Hz|done]|]. intros [i|] Hi; simpl; [|apply safe_failed].
  destruct (Hi i eq_refl) as [Hzi _]. rewrite Hz in Hzi.
  eapply safe_bind; [apply safe_peek; by rewrite Hzi|]. intros f _.
  assert (safe (open_object env (mkFlags false true false false) i) (fun i => zone_of i = Inside)) as Hopen.
  { eapply safe_weaken; [apply safe_open_object; [by rewrite Hzi|by left]|]. by intros j ->. }
  destruct (f_body f); [done|done|apply safe_failed|done].
Qed.

Lemma safe_openat_create d name : zone_of d = Dest -> own_name name ->
  safe (openat_file env d name true) (fun i => zone_of i = Dest).
Proof.
  intros Hz Hn. eapply safe_bind; [apply safe_call|]. intros _ _.
  eapply safe_bind; [apply safe_entry; [by rewrite Hz|done]|]. intros [i|] Hi; simpl; [apply safe_failed|].
  by apply safe_make.
Qed.

Lemma safe_read_entries d : zone_of d <> Outside -> safe (read_entries env d) (Forall own_name).
Proof.
  intros Hz. do 3 (eapply safe_bind; [apply safe_call|]; intros _ _).
  eapply safe_bind; [by apply safe_peek|]. intros f _.
  intros w r w' Hi _ E. unfold now, st_bind in E. destruct (f_body f); injection E as <- <-;
    (split; [done|]); [|apply tame_failed..].
  apply list.Forall_forall. intros name Hname. by apply list_elem_of_filter in Hname as [Hname _].
Qed.

Lemma safe_fstatat d name : zone_of d <> Outside -> own_name name ->
  safe (fstatat_nofollow env d name) (fun _ => True).
Proof.
  intros Hz Hn. eapply safe_bind; [apply safe_call|]. intros _ _.
  eapply safe_bind; [by apply safe_found|]. intros i [Hi _].
  eapply safe_bind; [apply safe_peek; by rewrite Hi|]. intros f _. by apply safe_ret.
Qed.

Lemma safe_fstat fd : zone_of fd <> Outside -> safe (fstat env fd) (fun _ => True).
Proof.
  intros Hz. eapply safe_bind; [apply safe_call|]. intros _ _.
  eapply safe_bind; [by apply safe_peek|]. intros f _. by apply safe_ret.
Qed.

Lemma safe_make_new d name b perms : zone_of d = Dest -> own_name name ->
  (forall parent es, b = BDir parent es -> es = ∅) ->
  safe (make_new env d name b perms) (fun _ => True).
Proof.
  intros Hz Hn Hb. eapply safe_bind; [apply safe_call|]. intros _ _.
  eapply safe_bind; [apply safe_entry; [by rewrite Hz|done]|]. intros [i|] _; [apply safe_failed|].
  eapply safe_bind; [by apply safe_make|]. intros i _. by apply safe_ret.
Qed.

Lemma plain_owner u g h : plain_change (fun f => set_perms (h f) (set_owner u g f)).
Proof. intros f parent es Hb. eauto. Qed.

Lemma plain_perms p : plain_change (set_perms p).
Proof. intros f parent es Hb. eauto. Qed.

Lemma safe_set_fd fd st : zone_of fd = Dest -> safe (set_fd_owner_mode env fd st) (fun _ => True).
Proof.
  intros Hz. eapply safe_bind; [apply safe_call|]. intros _ _.
  eapply safe_bind; [apply safe_poke; [done|apply plain_owner]|]. intros _ _.
  eapply safe_bind; [apply safe_call|]. intros _ _. apply safe_poke; [done|apply plain_perms].
Qed.

Lemma safe_fchownat d name u g : zone_of d = Dest -> own_name name ->
  safe (fchownat_nofollow env d name u g) (fun _ => True).
Proof.
  intros Hz Hn. eapply safe_bind; [apply safe_call|]. intros _ _.
  eapply safe_bind; [apply safe_found; [by rewrite Hz|done]|]. intros i [Hi _].
  apply safe_poke; [congruence|apply plain_owner].
Qed.

(** ** Device nodes

    [fchmodat] would follow a link, but the name was made by the copy just
    before and nobody else touches the destination. *)

Definition not_link (fs : gmap N file) (i : N) : Prop :=
  forall g t, fs !! i = Some g -> f_body g <> BLink t.

Definition no_link_at (d : N) (name : string) (w : world) : Prop :=
  forall df parent es i, w_fs w !! d = Some df -> f_body df = BDir parent es -> es !! name = Some i ->
    not_link (w_fs w) i.

Lemma mknodat_at d name mode rdev w u w' : mknodat env d name mode rdev w = (Ok u, w') ->
  no_link_at d name w'.
Proof.
  intros (? & w1 & _ & E)%st_bind_Ok. apply st_bind_Ok in E as (o & w2 & _ & E).
  destruct o; [done|]. apply st_bind_Ok in E as (i & w3 & E & [= _ <-]).
  unfold make in E. destruct (w_fs w2 !! d) as [df|] eqn:Hd; [|done].
  destruct (f_body df) as [parent es| | |] eqn:Hb; try done. injection E as <- <-.
  pose proof (rely_fresh Hrely (w_fs w2)) as Hnew. set (i := alloc env (w_fs w2)) in *.
  assert (i <> d) as Hne by congruence. intros df' parent' es' j. simpl.
  rewrite lookup_insert_ne by done. rewrite lookup_insert_eq. intros [= <-] [= <- <-].
  rewrite lookup_insert_eq. intros [= <-] g t. rewrite lookup_insert_eq. by intros [= <-].
Qed.

Lemma attempt_at d name w r w' : zone_of d = Dest -> inv w -> attempt env w = (r, w') ->
  no_link_at d name w -> no_link_at d name w'.
Proof.
  intros Hz (_ & Hd & _) [= <- <-] H df parent es i Hdf Hb Hi. simpl in *.
  rewrite (rely_dest Hrely) in Hdf by done. pose proof (Hd _ _ _ _ _ _ Hz Hdf Hb Hi) as Hzi.
  intros g t. rewrite (rely_dest Hrely) by done. by apply (H df parent es i).
Qed.

Lemma triple_call d name : zone_of d = Dest -> triple (no_link_at d name) (call env) (fun _ => no_link_at d name).
Proof.
  intros Hz w r w' Hi HP E. destruct (safe_call _ _ _ Hi I E) as [Hi' Hr]. split; [done|].
  destruct r as [u|e]; [|done]. apply st_bind_Ok in E as (x & w1 & E1 & [= _ <-]). exact (attempt_at d name w _ _ Hz Hi E1 HP).
Qed.

Lemma triple_found d name : zone_of d = Dest -> own_name name ->
  triple (no_link_at d name) (found d name)
    (fun i w => zone_of i = Dest /\ not_link (w_fs w) i /\ no_link_at d name w).
Proof.
  intros Hz Hn w r w' Hi HP E. destruct (safe_found d name ltac:(by rewrite Hz) Hn _ _ _ Hi I E) as [Hi' Hr].
  split; [done|]. destruct r as [i|e]; [|done]. destruct Hr as [Hzi _].
  apply st_bind_Ok in E as (o & w1 & E & E'). destruct o as [j|]; [|done]. injection E' as <- <-.
  apply st_bind_Ok in E as (f & w2 & E & E'). unfold peek in E.
  destruct (w_fs w !! d) as [df|] eqn:Hd; [|done]. injection E as <- <-.
  destruct (f_body df) as [parent es| | |] eqn:Hb; try done. destruct Hn as [H1 H2].
  rewrite !decide_False in E' by done. injection E' as Ej <-. split_and!; [congruence| |done].
  by apply (HP df parent es j).
Qed.

Lemma safe_copy_special d name st : zone_of d = Dest -> own_name name ->
  safe (copy_special env d name st) (fun _ => True).
Proof.
  intros Hz Hn. eapply triple_bind with (Q := fun _ => no_link_at d name).
  { intros w r w' Hi _ E.
    edestruct (safe_make_new d name (BSpecial (Z.land (st_mode st) S_IFMT) (st_rdev st)))
      as [Hi' Hr]; [exact Hz|exact Hn|done|exact Hi|exact I|exact E|].
    split; [done|]. destruct r as [u|]; [|done]. by eapply mknodat_at. }
  intros _. eapply triple_bind with (Q := fun _ => no_link_at d name).
  { eapply triple_bind; [by apply triple_call|]. intros ?. eapply triple_bind; [by apply triple_found|].
    intros i w r w' Hi (Hzi & Hnl & Hat) E.
    destruct (safe_poke i _ Hzi (plain_owner (st_uid st) (st_gid st) (fun f => chown_perms env (f_perms f))) _ _ _ Hi I E)
      as [Hi' Hr]. split; [done|]. destruct r; [|done]. unfold poke in E.
    destruct (w_fs w !! i) as [f|] eqn:Hf; [|done]. injection E as _ <-.
    intros df parent es j Hdf Hb Hj g t Hg. simpl in *.
    assert (forall k h, <[i := set_perms (chown_perms env (f_perms f)) (set_owner (st_uid st) (st_gid st) f)]>
      (w_fs w) !! k = Some h -> exists h', w_fs w !! k = Some h' /\ f_body h' = f_body h) as Hback.
    { intros k h. destruct (decide (i = k)) as [<-|]; [rewrite lookup_insert_eq; intros [= <-]; by exists f|].
      rewrite lookup_insert_ne by done. eauto. }
    apply Hback in Hdf as (df' & Hdf & Hb'). apply Hback in Hg as (g' & Hg & <-).
    eapply (Hat df' parent es j); [done|congruence|done|done]. }
  intros _. eapply triple_bind; [by apply triple_call|]. intros ?. eapply triple_bind; [by apply triple_found|].
  intros i w r w' Hi (Hzi & Hnl & Hat) E.
  assert (zone_of i <> Outside) as Hzo by (by rewrite Hzi). unfold st_bind in E at 1.
  destruct (peek i w) as [[f|e] w1] eqn:E1; destruct (safe_peek i Hzo _ _ _ Hi I E1) as [Hi1 Hr];
    [|by injection E as <- <-].
  unfold peek in E1. destruct (w_fs w !! i) as [f'|] eqn:Hf; [|done]. injection E1 as -> <-.
  assert ((match f_body f with BLink target => follow env d target | _ => st_ret i end) = st_ret i) as Hst.
  { destruct (f_body f) eqn:Hb; [done..| |done]. by destruct (Hnl f target). }
  rewrite Hst in E. by apply (safe_poke i _ Hzi (plain_perms (Z.land (st_mode st) PERMS)) _ _ _ Hi1 I).
Qed.

(** ** Links *)

Lemma safe_spent {A} (Q : A -> Prop) : ~ bounded -> safe (st_fail Spent) Q.
Proof. intros Hb. apply safe_fail. by intros ?. Qed.

Lemma safe_readlink_loop fuel d name : zone_of d = Inside -> own_name name -> forall cap,
  (0 < cap)%N -> (bounded -> (size + 1 - N.to_nat cap < fuel)%nat) ->
  safe (readlink_loop env fuel d name cap) (fun _ => True).
Proof.
  intros Hz Hn. induction fuel as [|fuel IH]; intros cap Hcap Hfuel; [apply safe_spent; intros Hb; specialize (Hfuel Hb); lia|].
  eapply safe_bind; [apply safe_call|]. intros _ _.
  eapply safe_bind; [apply safe_found; [by rewrite Hz|done]|]. intros i [Hi _]. rewrite Hz in Hi.
  eapply safe_bind; [apply safe_peek; by rewrite Hi|]. intros f [_ Hsmall].
  destruct (f_body f) as [| |t|] eqn:Hb; try apply safe_failed.
  case_match eqn:Et; [by apply safe_ret|]. apply IH; [lia|]. intros HB. specialize (Hfuel HB).
  destruct (Hsmall HB Hi) as [Hs _]. rewrite Hb in Hs. unfold str_len in Et. lia.
Qed.

Lemma safe_copy_symlink s d name st : zone_of s = Inside -> zone_of d = Dest -> own_name name ->
  (bounded -> (size < rounds)%nat) -> safe (copy_symlink env rounds s d name st) (fun _ => True).
Proof.
  intros Hs Hd Hn Hr. eapply safe_bind.
  { apply safe_readlink_loop; [done..| |]; [case_match; lia|].
    intros HB. specialize (Hr HB). case_match; lia. }
  intros t _. eapply safe_bind; [by apply safe_make_new|]. intros _ _. by apply safe_fchownat.
Qed.

(** ** Contents *)

Definition chunk_ok (off : nat) (bytes : list byte) : Prop :=
  bounded -> bytes <> [] -> (off + length bytes <= size)%nat.

Lemma safe_read_at fd off limit : zone_of fd = Inside -> safe (read_at env fd off limit) (chunk_ok off).
Proof.
  intros Hz. eapply safe_bind; [apply safe_peek; by rewrite Hz|]. intros f [_ Hsmall].
  intros w r w' Hi _ [= <- <-]. split; [done|]. intros HB Hne.
  destruct (Hsmall HB Hz) as [Hs _]. destruct (f_body f) as [|d| |type rdev].
  - by rewrite take_nil in Hne.
  - destruct (decide (length d <= off)%nat); [by rewrite drop_ge, take_nil in Hne|].
    rewrite length_take, length_drop. lia.
  - by rewrite take_nil in Hne.
  - by rewrite Hs, take_nil in Hne.
Qed.

Lemma plain_append bytes : plain_change
  (fun f => match f_body f with BData d => set_body (BData (d ++ bytes)) f | _ => f end).
Proof. intros f parent es. destruct (f_body f) eqn:Hb; simpl; try done; rewrite ?Hb; eauto. Qed.

Lemma safe_append fd bytes : zone_of fd = Dest -> safe (append fd bytes) (fun _ => True).
Proof. intros Hz. apply safe_poke; [done|apply plain_append]. Qed.

Lemma safe_write_loop fuel fd : zone_of fd = Dest -> forall buf, safe (write_loop env fuel fd buf) (fun _ => True).
Proof.
  intros Hz. induction fuel as [|fuel IH]; intros buf; [by apply safe_ret|].
  destruct buf as [|b buf]; [by apply safe_ret|]. eapply safe_bind; [apply safe_call|]. intros _ _.
  eapply safe_bind with (Q := fun _ => True); [by intros w r w' Hi _ [= <- <-]|]. intros n _.
  eapply safe_bind; [by apply safe_append|]. intros _ _. apply IH.
Qed.

Lemma chunk_progress fuel off bytes : chunk_ok off bytes -> bytes <> [] ->
  (bounded -> (size - off < S fuel)%nat) -> bounded -> (size - (off + length bytes) < fuel)%nat.
Proof.
  intros Hc Hne Hf HB. specialize (Hc HB Hne). specialize (Hf HB). destruct bytes; [done|]. simpl in *. lia.
Qed.

Lemma safe_copy_loop fuel r wr : zone_of r = Inside -> zone_of wr = Dest -> forall off total,
  (bounded -> (size - off < fuel)%nat) -> safe (copy_loop env fuel r wr off total) (fun _ => True).
Proof.
  intros Hr Hw. induction fuel as [|fuel IH]; intros off total Hf.
  { apply safe_spent. intros HB. specialize (Hf HB). lia. }
  eapply safe_bind; [apply safe_call|]. intros _ _.
  eapply safe_bind; [by apply safe_read_at|]. intros bytes Hc. case_decide; [by apply safe_ret|].
  eapply safe_bind; [by apply safe_write_loop|]. intros _ _. apply IH. by eapply chunk_progress.
Qed.

Lemma safe_in_kernel r : zone_of r = Inside -> safe (in_kernel env r) (fun _ => True).
Proof.
  intros Hz. eapply safe_bind; [apply safe_attempt|]. intros x _.
  eapply safe_bind; [apply safe_peek; by rewrite Hz|]. intros f _. by apply safe_ret.
Qed.

Lemma safe_range_loop total fuel r wr : zone_of r = Inside -> zone_of wr = Dest ->
  (bounded -> (size < total)%nat) -> forall off copied,
  (bounded -> (size - off < fuel)%nat) -> safe (range_loop env fuel total r wr off copied) (fun _ => True).
Proof.
  intros Hr Hw Ht. induction fuel as [|fuel IH]; intros off copied Hf.
  { apply safe_spent. intros HB. specialize (Hf HB). lia. }
  eapply safe_bind; [by apply safe_in_kernel|]. intros [f|e] _.
  - eapply safe_bind; [by apply safe_read_at|]. intros bytes Hc. case_decide; [by apply safe_ret|].
    eapply safe_bind; [by apply safe_append|]. intros _ _. apply IH. by eapply chunk_progress.
  - case_match; [|apply safe_failed]. apply safe_copy_loop; [done..|]. intros HB. specialize (Ht HB). lia.
Qed.

Lemma safe_copy_file_contents r wr n : zone_of r = Inside -> zone_of wr = Dest ->
  (bounded -> (size < rounds)%nat) -> safe (copy_file_contents env rounds r wr n) (fun _ => True).
Proof.
  intros Hr Hw Hb. eapply safe_bind; [by apply safe_in_kernel|]. intros [f|e] _.
  - eapply safe_bind with (Q := fun _ => True); [|intros _ _; by apply safe_ret].
    destruct (f_body f); [by apply safe_ret|by apply safe_append|by apply safe_ret..].
  - apply safe_range_loop; [done..|]. intros HB. specialize (Hb HB). lia.
Qed.

(** ** Attributes *)

Lemma safe_flistxattr fd : zone_of fd <> Outside -> safe (flistxattr env fd) (fun _ => True).
Proof.
  intros Hz. eapply safe_bind; [apply safe_attempt|]. intros [u|e] _.
  - eapply safe_bind; [by apply safe_peek|]. intros f _. eapply safe_bind; [apply safe_call|]. intros _ _.
    eapply safe_bind; [by apply safe_peek|]. intros f' _. cbv zeta. case_match; [apply safe_failed|by apply safe_ret].
  - case_match; [by apply safe_ret|apply safe_failed].
Qed.

Lemma assoc_size name (l : list (string * list byte)) v : Forall (fun a => length a.2 <= size)%nat l ->
  assoc name l = Some v -> (length v <= size)%nat.
Proof. induction 1 as [|[k x] l Hx Hl IH]; simpl; [done|]. case_decide; [by intros [= <-]|done]. Qed.

Lemma safe_getxattr_loop fuel fd name : zone_of fd = Inside -> forall cap, (0 < cap)%N ->
  (bounded -> (size - N.to_nat cap < fuel)%nat) -> safe (getxattr_loop env fuel fd name cap) (fun _ => True).
Proof.
  intros Hz. induction fuel as [|fuel IH]; intros cap Hcap Hf.
  { apply safe_spent. intros HB. specialize (Hf HB). lia. }
  eapply safe_bind; [apply safe_attempt|]. intros [u|e] Hhonest.
  - eapply safe_bind; [apply safe_peek; by rewrite Hz|]. intros f [_ Hsmall].
    destruct (assoc name (f_attrs f)) as [v|] eqn:Hv; [|by apply safe_ret].
    case_match eqn:Ec; [by apply safe_ret|]. apply IH; [lia|]. intros HB. specialize (Hf HB).
    destruct (Hsmall HB Hz) as [_ Ha]. pose proof (assoc_size _ _ _ Ha Hv). unfold len in Ec. lia.
  - case_match; [by apply safe_ret|]. case_match eqn:Er; [|apply safe_failed].
    apply IH; [lia|]. intros HB. by rewrite (Hhonest HB e eq_refl) in Er.
Qed.

Lemma safe_copy_attrs s d : zone_of s = Inside -> zone_of d = Dest -> (bounded -> (size < rounds)%nat) ->
  forall names, safe (copy_attrs env rounds s d names) (fun _ => True).
Proof.
  intros Hs Hd Hr. induction names as [|name names IH]; [by apply safe_ret|].
  eapply safe_bind.
  { apply safe_getxattr_loop; [done|lia|]. intros HB. specialize (Hr HB). lia. }
  intros v _. eapply safe_bind with (Q := fun _ => True); [|intros _ _; exact IH].
  destruct v as [v|]; [|by apply safe_ret].
  eapply safe_bind; [apply safe_attempt|]. intros [u|e] _.
  - apply safe_poke; [done|]. intros f parent es Hb. eauto.
  - case_match; [apply safe_failed|by apply safe_ret].
Qed.

Lemma safe_copy_xattrs s d : zone_of s = Inside -> zone_of d = Dest -> (bounded -> (size < rounds)%nat) ->
  safe (copy_xattrs_fd env rounds s d) (fun _ => True).
Proof.
  intros Hs Hd Hr. eapply safe_bind; [apply safe_flistxattr; by rewrite Hs|]. intros names _.
  by apply safe_copy_attrs.
Qed.

(** ** The walk *)

Lemma safe_copy_regular s d name st : zone_of s = Inside -> zone_of d = Dest -> own_name name ->
  (bounded -> (size < rounds)%nat) -> safe (copy_regular env rounds s d name st) (fun _ => True).
Proof.
  intros Hs Hd Hn Hr. eapply safe_bind; [by apply safe_openat_read|]. intros sfd Hsfd.
  eapply safe_bind; [by apply safe_openat_create|]. intros dfd Hdfd.
  eapply safe_bind; [by apply safe_copy_file_contents|]. intros n _.
  eapply safe_bind with (Q := fun _ => True); [by intros w r w' Hi _ [= <- <-]|]. intros _ _.
  eapply safe_bind; [by apply safe_set_fd|]. intros _ _. by apply safe_copy_xattrs.
Qed.

Lemma safe_copy_entry (rec : N -> N -> W unit) s d name :
  (forall s' d', zone_of s' = Inside -> zone_of d' = Dest -> (bounded -> (rank s' < rank s)%nat) ->
     safe (rec s' d') (fun _ => True)) ->
  zone_of s = Inside -> zone_of d = Dest -> own_name name -> (bounded -> (size < rounds)%nat) ->
  safe (copy_entry env rec rounds s d name) (fun _ => True).
Proof.
  intros Hrec Hs Hd Hn Hr. eapply safe_bind; [apply safe_fstatat; [by rewrite Hs|done]|]. intros st _.
  case_match; [|case_match; [by apply safe_copy_symlink|case_match; [by apply safe_copy_regular|by apply safe_copy_special]]].
  eapply safe_bind; [by apply safe_make_new; [..|intros ?? [= _ <-]]|]. intros _ _.
  eapply safe_bind; [apply safe_openat_dir; [by rewrite Hs|done]|]. intros cs [Hcs Hrank]. rewrite Hs in Hcs.
  eapply safe_bind; [apply safe_openat_dir; [by rewrite Hd|done]|]. intros cd [Hcd _]. rewrite Hd in Hcd.
  eapply safe_bind; [apply Hrec; [done..|auto]|]. intros _ _.
  eapply safe_bind; [by apply safe_set_fd|]. intros _ _. by apply safe_copy_xattrs.
Qed.

Lemma safe_copy_dir fuel : (bounded -> (size < rounds)%nat) -> forall s d,
  zone_of s = Inside -> zone_of d = Dest -> (bounded -> (rank s < fuel)%nat) ->
  safe (copy_dir env fuel rounds s d) (fun _ => True).
Proof.
  intros Hr. induction fuel as [|fuel IH]; intros s d Hs Hd Hf.
  { apply safe_spent. intros HB. specialize (Hf HB). lia. }
  eapply safe_bind; [apply safe_read_entries; by rewrite Hs|]. intros names Hnames.
  induction Hnames as [|name names Hname Hnames IHn]; [by apply safe_ret|].
  eapply safe_bind; [|intros _ _; exact IHn]. apply safe_copy_entry; [|done..].
  intros s' d' Hs' Hd' Hrank. apply IH; [done..|]. intros HB. specialize (Hf HB). specialize (Hrank HB). lia.
Qed.

Lemma safe_open_root p z : z <> Outside -> (forall fs i, resolve env fs 0 p = Some i -> zone_of i = z) ->
  safe (open_dir_path env p) (fun i => zone_of i = z /\ exists fs, resolve env fs 0 p = Some i).
Proof.
  intros Hz Hp. eapply safe_bind; [apply safe_call|]. intros _ _.
  eapply safe_bind with (Q := fun i => zone_of i = z /\ exists fs, resolve env fs 0 p = Some i).
  { intros w r w' Hi _ E. unfold follow, look, st_bind in E.
    destruct (resolve env (w_fs w) 0 p) as [i|] eqn:Hr; injection E as <- <-;
      (split; [done|]); [|apply tame_failed]. eauto. }
  intros i [Hi Hex]. eapply safe_weaken; [apply safe_open_object; [congruence|by right]|]. by intros j ->.
Qed.

Lemma safe_create_dirs : safe (create_dir_all env dst) (fun _ => True).
Proof.
  eapply safe_bind; [apply safe_call|]. intros _ _ w r w' Hi _ [= <- <-]. split; [|done].
  destruct Hi as (Hin & Hd & Hs & Hl). split_and!; simpl.
  - eapply entries_in_same; [|exact Hin]. by apply rely_dirs_layer.
  - by apply rely_dirs.
  - intros HB. eapply small_same; [by apply rely_dirs_layer|auto].
  - done.
Qed.

Lemma safe_copy_tree : safe (copy_tree env depth rounds src dst) (fun _ => True).
Proof.
  assert (bounded -> (size < rounds)%nat) as Hr by (intros HB; eapply calm_rounds; by apply Hcalm).
  eapply safe_bind; [apply safe_create_dirs|]. intros _ _.
  eapply safe_bind; [by apply (safe_open_root src Inside); [|apply rely_src]|]. intros s (Hs & fs & Hfs).
  eapply safe_bind; [by apply (safe_open_root dst Dest); [|apply rely_dst]|]. intros d (Hd & _).
  eapply safe_bind; [apply safe_copy_dir; [done..|]|].
  { intros HB. by eapply calm_root; [apply Hcalm|]. }
  intros _ _. eapply safe_bind; [apply safe_fstat; by rewrite Hs|]. intros st _.
  eapply safe_bind; [by apply safe_set_fd|]. intros _ _. eapply safe_bind; [by apply safe_copy_xattrs|].
  intros _ _ w r w' Hi _ [= <- <-]. done.
Qed.

End triples.
(** ** The theorems *)

Definition world_of (fs : gmap N file) : world := mkWorld fs 0 [] 0.

Lemma copy_tree_inv bounded rank size depth rounds fs r w' :
  rely -> (bounded -> calm rank size depth rounds) -> (bounded -> small rank size fs) ->
  entries_in Inside fs -> entries_in Dest fs ->
  copy_tree env depth rounds src dst (world_of fs) = (r, w') ->
  inv bounded rank size w' /\ match r with Ok _ => True | Err s => tame bounded s end.
Proof.
  intros Hrely Hcalm Hs Hi Hd E. eapply safe_copy_tree; [exact Hrely|exact Hcalm| |exact I|exact E].
  by split_and!.
Qed.

(** C5: The copy of a live layer stays in it.  Whatever the sandbox's processes
    do to the layer between and during the system calls - rename, replace a
    directory or a file by a symbolic link to anywhere, and so on -, and
    whatever fails, the copy looks at no object outside the layer and the
    destination, and creates and changes objects in the destination only. *)
Theorem copy_confined depth rounds fs r w' : rely -> entries_in Inside fs -> entries_in Dest fs ->
  copy_tree env depth rounds src dst (world_of fs) = (r, w') ->
  Forall allowed (w_log w') /\ entries_in Dest (w_fs w').
Proof.
  intros Hrely Hi Hd E. eapply (copy_tree_inv False (fun _ => O) 0) in E as [(_ & ? & _ & ?) _]; done.
Qed.

(** C35: The copy of a live layer comes to an end.  While the sandbox keeps every
    directory above its entries in some fixed ranking and every file, link and
    attribute below some size, and has no pipe or device in the layer, the copy
    returns: with its result or with an error of a call.  The recursion bounds
    are that rank and one more than that size. *)
Theorem copy_returns rank size depth rounds fs : rely -> calm rank size depth rounds ->
  small rank size fs -> entries_in Inside fs -> entries_in Dest fs ->
  exists w', (exists n, copy_tree env depth rounds src dst (world_of fs) = (Ok n, w')) \/
             (exists e, copy_tree env depth rounds src dst (world_of fs) = (Err (Failed e), w')).
Proof.
  intros Hrely Hcalm Hs Hi Hd. destruct (copy_tree _ _ _ _ _ _) as [r w'] eqn:E. exists w'.
  apply (copy_tree_inv True rank size) in E as [_ Hr]; [|done..].
  destruct r as [n|s]; [eauto|]. destruct (Hr I) as [e ->]. eauto.
Qed.

End confinement.

(** ** An attack

    Objects are numbered 3k in the layer, 3k+1 in the destination and 3k+2
    elsewhere.  The layer has a directory [d] with a file, and a file [f]; just
    before the nth call the sandbox puts something else in the place of a name. *)

Module Witness.

Definition zone3 (i : N) : zone :=
  if (i mod 3 =? 0)%N then Inside else if (i mod 3 =? 1)%N then Dest else Outside.

Definition fresh_dest (fs : gmap N file) : N := (3 * fresh (set_map (fun i => i / 3) (dom fs) : gset N) + 1)%N.

Definition plain (b : body) : file := mkFile b 420 1000 1000 [].
Definition secret : list byte := bytes_of_string "secret".
Definition note : list byte := bytes_of_string "note".

Definition layer : gmap N file :=
  <[0%N := plain (BDir 2 (<["d"%string := 3%N]> (<["f"%string := 6%N]> ∅)))]>
  (<[3%N := plain (BDir 0 (<["g"%string := 9%N]> ∅))]>
  (<[6%N := plain (BData note)]> (<[9%N := plain (BData note)]>
  (<[1%N := plain (BDir 2 ∅)]> (<[2%N := plain (BDir 2 (<["shadow"%string := 5%N]> ∅))]>
  (<[5%N := plain (BData secret)]> ∅)))))).

(** At the nth call the name becomes object 12 with the given body. *)
Definition swap (n : nat) (name : string) (b : body) (m : nat) (fs : gmap N file) : gmap N file :=
  if decide (m = n) then
    match fs !! 0%N with
    | Some f =>
        match f_body f with
        | BDir parent es => <[0%N := set_body (BDir parent (<[name := 12%N]> es)) f]> (<[12%N := plain b]> fs)
        | _ => fs
        end
    | None => fs
    end
  else fs.

Definition host (w : nat -> gmap N file -> gmap N file) : env :=
  mkEnv w (fun _ => None) (fun _ => 2%N) (fun _ names => names) (fun _ => []) (fun _ => false)
    (fun _ _ p => if decide (p = "/layer") then Some 0%N else if decide (p = "/copy") then Some 1%N
                  else if decide (p = "/etc") then Some 2%N else None)
    (fun _ fs => fs) fresh_dest (fun p => p) (0, 0).

Definition quiet : env := host (fun _ fs => fs).

(** The directory becomes a link to /etc between the stat and the open. *)
Definition linked : env := host (swap 15 "d" (BLink "/etc")).

(** The file becomes a pipe between the stat and the open. *)
Definition piped : env := host (swap 7 "f" (BSpecial S_IFIFO 0)).

Definition entryless (b : body) : Prop := forall parent es, b = BDir parent es -> es = ∅.

Lemma zone_dest k : zone3 (3 * k + 1) = Dest.
Proof.
  unfold zone3. replace ((3 * k + 1) mod 3)%N with 1%N; [done|].
  rewrite N.add_comm, N.mul_comm, N.Div0.mod_add. done.
Qed.

Lemma fresh_dest_fresh fs : fs !! fresh_dest fs = None.
Proof.
  apply not_elem_of_dom. intros H.
  pose proof (is_fresh (set_map (fun i => i / 3)%N (dom fs) : gset N)) as Hf.
  apply Hf. apply elem_of_map. exists (fresh_dest fs). split; [|done]. unfold fresh_dest.
  set (k := fresh _). rewrite N.add_comm, N.mul_comm, N.div_add by done. done.
Qed.

Lemma swap_other n name b m fs i : i <> 0%N -> i <> 12%N -> swap n name b m fs !! i = fs !! i.
Proof.
  intros H0 H12. unfold swap. case_decide; [|done].
  destruct (fs !! 0%N) as [f|]; [|done]. destruct (f_body f); try done.
  by rewrite !lookup_insert_ne by done.
Qed.

Lemma swap_layer n name b m fs : entryless b ->
  entries_in zone3 Inside fs -> entries_in zone3 Inside (swap n name b m fs).
Proof.
  intros Hb H. unfold swap. case_decide; [|done].
  destruct (fs !! 0%N) as [f|] eqn:Hf; [|done]. destruct (f_body f) as [parent es| | |] eqn:Hbody; try done.
  intros i g parent' es' nm j Hi Hg Hb' Hj. destruct (decide (i = 0%N)) as [->|].
  { rewrite lookup_insert_eq in Hg. injection Hg as <-. injection Hb' as <- <-.
    destruct (decide (nm = name)) as [->|]; [rewrite lookup_insert_eq in Hj; by injection Hj as <-|].
    rewrite lookup_insert_ne in Hj by done. by eapply (H 0%N f). }
  rewrite lookup_insert_ne in Hg by done. destruct (decide (i = 12%N)) as [->|].
  { rewrite lookup_insert_eq in Hg. injection Hg as <-. by rewrite (Hb _ _ Hb') in Hj. }
  rewrite lookup_insert_ne in Hg by done. by eapply (H i g).
Qed.

Lemma host_rely n name b : entryless b -> rely (host (swap n name b)) zone3 "/layer" "/copy".
Proof.
  intros Hb. split; try done; simpl.
  - intros m fs i Hi. apply swap_other; intros ->; by vm_compute in Hi.
  - intros m fs. by apply swap_layer.
  - intros fs. apply zone_dest.
  - apply fresh_dest_fresh.
  - intros _ i [= <-]. done.
  - intros _ i [= <-]. done.
Qed.

Lemma layer_entries z : z <> Outside -> entries_in zone3 z layer.
Proof.
  intros Hz i f parent es name j Hi Hf Hb Hj. unfold layer in Hf.
  repeat (rewrite lookup_insert in Hf; case_decide; [injection Hf as <-|]); try done.
  all: injection Hb as <- <-; repeat (rewrite lookup_insert in Hj; case_decide; [injection Hj as <-|]); try done.
  all: subst; try (by vm_compute); by destruct Hz.
Qed.

Definition copy (e : env) := copy_tree e 3 9 "/layer" "/copy" (world_of layer).

Lemma copy_confined_witness : exists w',
  copy linked = (Err ENOTDIR, w') /\
  Forall (allowed zone3) (w_log w') /\ entries_in zone3 Dest (w_fs w').
Proof.
  exists (copy linked).2. split; [by vm_compute|].
  eapply (copy_confined linked zone3 "/layer" "/copy" 3 9 layer (copy linked).1).
  - by apply host_rely.
  - by apply layer_entries.
  - by apply layer_entries.
  - apply surjective_pairing.
Defined.

(** The layer's depth. *)
Definition depth_rank (i : N) : nat := if decide (i = 0%N) then 2 else if decide (i = 3%N) then 1 else 0.

Lemma layer_small : small zone3 depth_rank 8 layer.
Proof.
  intros i f Hi Hf. unfold layer in Hf.
  repeat (rewrite lookup_insert in Hf; case_decide; [injection Hf as <-|]); try done; subst; try (by vm_compute in Hi);
    (split; [|constructor]); simpl; try lia;
    intros name j Hj; repeat (rewrite lookup_insert in Hj; case_decide; [injection Hj as <-|]); try done; by vm_compute; lia.
Qed.

Lemma linked_small n fs : small zone3 depth_rank 8 fs -> small zone3 depth_rank 8 (swap 15 "d" (BLink "/etc") n fs).
Proof.
  intros H. unfold swap. case_decide; [|done].
  destruct (fs !! 0%N) as [f|] eqn:Hf; [|done]. destruct (f_body f) as [parent es| | |] eqn:Hbody; try done.
  intros i g Hi Hg. destruct (decide (i = 0%N)) as [->|].
  { rewrite lookup_insert_eq in Hg. injection Hg as <-. destruct (H 0%N f Hi Hf) as [Hs Ha].
    rewrite Hbody in Hs. split; [|done]. simpl. intros nm j Hj. destruct (decide (nm = "d"%string)) as [->|].
    - rewrite lookup_insert_eq in Hj. injection Hj as <-. by vm_compute; lia.
    - rewrite lookup_insert_ne in Hj by done. by eapply Hs. }
  rewrite lookup_insert_ne in Hg by done. destruct (decide (i = 12%N)) as [->|].
  { rewrite lookup_insert_eq in Hg. injection Hg as <-. split; [simpl; lia|constructor]. }
  rewrite lookup_insert_ne in Hg by done. by apply H.
Qed.

Lemma linked_calm : calm linked zone3 "/layer" depth_rank 8 3 9.
Proof.
  split; try done; simpl.
  - intros n fs. apply linked_small.
  - intros _ i [= <-]. by vm_compute; lia.
  - lia.
Qed.

Lemma copy_returns_witness : exists w', (exists n, copy linked = (Ok n, w')) \/
  (exists e, copy linked = (Err (Failed e), w')).
Proof.
  apply (copy_returns linked zone3 "/layer" "/copy" depth_rank 8 3 9 layer).
  - by apply host_rely.
  - apply linked_calm.
  - apply layer_small.
  - by apply layer_entries.
  - by apply layer_entries.
Defined.

(** Left alone, the layer is copied. *)
Example copied_quietly : (copy quiet).1 = Ok 8%N.
Proof. by vm_compute. Qed.

End Witness.

(** The copy can be made to wait for ever.  [openat_file] refuses links but
    not pipes: a sandbox that keeps to its own layer, and puts a pipe in the
    place of a file just before it is opened, has the copy block in open. *)
Theorem pipe_swap_blocks : exists env zone_of fs,
  rely env zone_of "/layer" "/copy" /\ entries_in zone_of Inside fs /\ entries_in zone_of Dest fs /\
  (copy_tree env 3 9 "/layer" "/copy" (world_of fs)).1 = Err Blocked.
Proof.
  exists Witness.piped, Witness.zone3, Witness.layer. split_and!.
  - by apply Witness.host_rely.
  - by apply Witness.layer_entries.
  - by apply Witness.layer_entries.
  - by vm_compute.
Qed.
