(* ===== verification/FdExact.v ===== *)
(** * The copy of a frozen layer, descriptor by descriptor

    FdCopy.v when nobody else writes - the sandbox is frozen - against the
    contract of FsCopySpec.v: the objects below a descriptor are a tree as
    FsTree.v has it, and a copy that succeeds leaves, below the destination,
    a tree that is a copy of the source's, in objects that did not exist
    before, with everything else as it was. *)

From S2P Require Import Prelude Text Types FsTree FsCopy FsCopySpec FdCopy FdCopySpec.

(** ** The tree below an object *)

(** A file as a file system has it: permissions, the attributes' names, a
    link's mode, and a special file's type. *)
Definition proper (f : file) : Prop :=
  0 <= f_perms f < 4096 /\ Forall xattr_name (f_attrs f).*1 /\
  match f_body f with
  | BLink _ => f_perms f = 511
  | BSpecial type _ => Z.land type S_IFMT = type /\ type <> S_IFDIR /\ type <> S_IFLNK /\ type <> S_IFREG
  | _ => True
  end.

Definition data_of (b : body) : list byte :=
  match b with BData d => d | BLink t => bytes_of_string t | _ => [] end.

Definition inode_of (f : file) : inode := mkInode (stat_of f) (f_attrs f) (data_of (f_body f)) None None.

Section tree.
(** The objects it is made of. *)
Context (P : N -> Prop) (fs : gmap N file).

Inductive tree_at : N -> node -> Prop :=
  | tree_dir i f parent es kids : P i -> fs !! i = Some f -> proper f -> f_body f = BDir parent es ->
      NoDup kids.*1 -> (forall name, is_Some (es !! name) <-> name ∈ kids.*1) ->
      (forall name c, (name, c) ∈ kids -> name <> "."%string /\ name <> ".."%string) ->
      (forall name c j, (name, c) ∈ kids -> es !! name = Some j -> tree_at j c) ->
      tree_at i (Node (inode_of f) kids)
  | tree_leaf i f : P i -> fs !! i = Some f -> proper f -> (forall parent es, f_body f <> BDir parent es) ->
      tree_at i (Node (inode_of f) []).

Lemma tree_at_lookup i n : tree_at i n -> exists f, P i /\ fs !! i = Some f /\ proper f /\ n_inode n = inode_of f.
Proof. destruct 1; eauto 10. Qed.
End tree.

Lemma tree_at_mono (P Q : N -> Prop) fs fs' i n : tree_at P fs i n -> (forall k, P k -> is_Some (fs !! k) -> Q k /\
  fs' !! k = fs !! k) ->
  tree_at Q fs' i n.
Proof.
  intros H Hk. induction H as [i f parent es kids Hi Hf Hp Hb Hnd Hdom Hown Hsub IH|i f Hi Hf Hp Hb];
    destruct (Hk i Hi ltac:(by rewrite Hf)) as [HQ E]; rewrite <- E in Hf; [by eapply tree_dir|by eapply tree_leaf].
Qed.

(** *** The type in the mode *)

Lemma perms_no_type p : 0 <= p < 4096 -> Z.land p S_IFMT = 0.
Proof.
  intros Hp. rewrite <- (Z.mod_small p (2 ^ 12)) by done. rewrite <- Z.land_ones by done.
  rewrite <- Z.land_assoc. apply Z.land_0_r.
Qed.

Lemma type_land f : proper f -> Z.land (type_of (f_body f)) S_IFMT = type_of (f_body f).
Proof. intros (_ & _ & Ht). destruct (f_body f); try done. by destruct Ht. Qed.

Lemma file_type_of f : proper f -> file_type (stat_of f) = type_of (f_body f).
Proof.
  intros Hp. unfold file_type, stat_of. simpl.
  rewrite Z.land_lor_distr_l, (type_land f Hp), perms_no_type by apply Hp. apply Z.lor_0_r.
Qed.

Lemma type_perms f : proper f -> Z.land (type_of (f_body f)) PERMS = 0.
Proof.
  intros Hp. rewrite <- (type_land f Hp), <- Z.land_assoc. apply Z.land_0_r.
Qed.

Lemma perms_of f : proper f -> Z.land (st_mode (stat_of f)) PERMS = f_perms f.
Proof.
  intros Hp. unfold stat_of. simpl. rewrite Z.land_lor_distr_l, (type_perms f Hp), Z.lor_0_l.
  change PERMS with (Z.ones 12). rewrite Z.land_ones by done. apply Z.mod_small. apply Hp.
Qed.

(** The kind a stat shows. *)
Lemma kinds f : proper f ->
  is_dir (stat_of f) = (match f_body f with BDir _ _ => true | _ => false end) /\
  is_lnk (stat_of f) = (match f_body f with BLink _ => true | _ => false end) /\
  is_reg (stat_of f) = (match f_body f with BData _ => true | _ => false end).
Proof.
  intros Hp. unfold is_dir, is_lnk, is_reg. rewrite (file_type_of f Hp). destruct Hp as (_ & _ & Ht).
  destruct (f_body f) as [| | |type rdev]; try done. simpl. destruct Ht as (_ & H1 & H2 & H3).
  split_and!; by apply Z.eqb_neq.
Qed.

Notation kept := (fun n => is_overlay n = true) (only parsing).

(** When one file is a copy of another. *)
Lemma inode_copied_of f f' : proper f -> f_perms f' = f_perms f -> f_uid f' = f_uid f -> f_gid f' = f_gid f ->
  match f_body f, f_body f' with
  | BDir _ _, BDir _ _ => xattrs_copied kept (f_attrs f) (f_attrs f')
  | BData d, BData d' => d' = d /\ xattrs_copied kept (f_attrs f) (f_attrs f')
  | BLink t, BLink t' => t' = t
  | BSpecial t r, BSpecial t' r' => t' = t /\ r' = r
  | _, _ => False
  end -> inode_copied kept (inode_of f) (inode_of f').
Proof.
  intros Hp E1 E2 E3 Hb. destruct (kinds f Hp) as (Hd & Hl & Hr).
  assert (type_of (f_body f') = type_of (f_body f)) as Ht.
  { destruct (f_body f), (f_body f'); try done. simpl. by destruct Hb. }
  split; simpl; rewrite ?Hd, ?Hl, ?Hr; try done.
  - by rewrite Ht, E1.
  - destruct (f_body f), (f_body f'); try done; simpl; [by destruct Hb as [-> _]|by rewrite Hb].
  - destruct (f_body f), (f_body f'); try done. by destruct Hb.
  - destruct (f_body f), (f_body f'); try done. by destruct Hb.
Qed.

(** ** Nobody else writes *)

Section quiet.
Context (env : env).

(** What the kernel and the frozen sandbox do: they change nothing, a directory
  stream yields the entries in some order, new objects are new, errors about
  attributes are not made up, and a chown leaves a link's mode alone. *)
Record quiet : Prop := {
  q_writer : forall n fs, writer env n fs = fs;
  q_listing : forall n l, listing env n l ≡ₚ l;
  q_fresh : forall fs, fs !! alloc env fs = None;
  q_honest : forall n e, faults env n = Some e -> errno_in e [ENODATA; EOPNOTSUPP] = false;
  q_link : chown_perms env 511 = 511;
}.
Context (Hq : quiet).

(** Only the clock and the log moved. *)
Definition still (w w' : world) : Prop := w_fs w' = w_fs w /\ w_bytes w' = w_bytes w.

Lemma still_trans w1 w2 w3 : still w1 w2 -> still w2 w3 -> still w1 w3.
Proof. intros [? ?] [? ?]. split; congruence. Qed.

(** The objects become [fs']. *)
Definition becomes (fs' : gmap N file) (w w' : world) : Prop := w_fs w' = fs' /\ w_bytes w' = w_bytes w.

Lemma becomes_id i f w : w_fs w !! i = Some f -> becomes (<[i := f]> (w_fs w)) w w.
Proof. intros Hf. split; [by rewrite insert_id|done]. Qed.

Lemma set_body_id f : set_body (f_body f) f = f.
Proof. by destruct f. Qed.

Lemma set_attrs_id f : set_attrs (f_attrs f) f = f.
Proof. by destruct f. Qed.

Lemma attempt_quiet w r w' : attempt env w = (Ok r, w') ->
  still w w' /\ forall e, r = Err e -> errno_in e [ENODATA; EOPNOTSUPP] = false.
Proof.
  unfold attempt. intros [= <- <-]. split; [by split; [apply q_writer|]|]. intros e.
  destruct (faults env (w_clock w)) eqn:E; [|done]. intros [= <-]. by eapply q_honest.
Qed.

Lemma call_quiet w u w' : call env w = (Ok u, w') -> still w w'.
Proof.
  unfold call. intros (r & w1 & E1 & E2)%st_bind_Ok. apply attempt_quiet in E1 as [Hs _].
  unfold st_lift in E2. destruct r; simpl in E2; [by injection E2 as _ <-|done].
Qed.

Lemma peek_quiet i w f w' : peek i w = (Ok f, w') -> still w w' /\ w_fs w !! i = Some f.
Proof. unfold peek. destruct (w_fs w !! i); intros [= <- <-]. by repeat split. Qed.

Lemma now_quiet w n w' : now w = (Ok n, w') -> w' = w.
Proof. by intros [= _ <-]. Qed.

Lemma poke_quiet i g w u w' f : w_fs w !! i = Some f -> poke i g w = (Ok u, w') ->
  becomes (<[i := g f]> (w_fs w)) w w'.
Proof. intros Hf. unfold poke. rewrite Hf. intros [= _ <-]. by split. Qed.

Lemma make_quiet d name f w i w' : make env d name f w = (Ok i, w') ->
  exists df parent es, w_fs w !! d = Some df /\ f_body df = BDir parent es /\ w_fs w !! i = None /\
    becomes (<[i := f]> (<[d := set_body (BDir parent (<[name := i]> es)) df]> (w_fs w))) w w'.
Proof.
  unfold make. destruct (w_fs w !! d) as [df|] eqn:Hd; [|done].
  destruct (f_body df) as [parent es| | |] eqn:Hb; try done.
  intros [= <- <-]. exists df, parent, es. split_and!; [done|done|by apply q_fresh|done].
Qed.

Definition own (name : string) : Prop := name <> "."%string /\ name <> ".."%string.

Lemma entry_quiet d name w o w' : own name -> entry d name w = (Ok o, w') ->
  still w w' /\ exists df parent es, w_fs w !! d = Some df /\ f_body df = BDir parent es /\ o = es !! name.
Proof.
  intros [H1 H2]. unfold entry. intros (f & w1 & E1 & E2)%st_bind_Ok. apply peek_quiet in E1 as [Hs Hf].
  destruct (f_body f) as [parent es| | |] eqn:Hb; try done. rewrite !decide_False in E2 by done.
  injection E2 as <- <-. split; [done|]. by exists f, parent, es.
Qed.

(** The entry [name] of the directory [d]. *)
Definition at_name (fs : gmap N file) (d : N) (name : string) (i : N) : Prop :=
  exists df parent es, fs !! d = Some df /\ f_body df = BDir parent es /\ es !! name = Some i.

Lemma at_name_fun fs d name i j : at_name fs d name i -> at_name fs d name j -> i = j.
Proof. intros (? & ? & ? & ? & ? & ?) (? & ? & ? & ? & ? & ?). congruence. Qed.

Lemma at_name_insert fs d name j i f : at_name fs d name j -> i <> d -> at_name (<[i := f]> fs) d name j.
Proof. intros (df & parent & es & Hd & H) Hne. exists df, parent, es. by rewrite lookup_insert_ne. Qed.

Lemma found_quiet d name w i w' : own name -> found d name w = (Ok i, w') -> still w w' /\ at_name (w_fs w) d name i.
Proof.
  intros Hn. unfold found. intros (o & w1 & E1 & E2)%st_bind_Ok.
  apply entry_quiet in E1 as (Hs & df & parent & es & Hd & Hb & ->); [|done].
  destruct (es !! name) eqn:He; [|done]. injection E2 as <- <-. split; [done|]. by exists df, parent, es.
Qed.

Lemma fstatat_quiet d name w st w' : own name -> fstatat_nofollow env d name w = (Ok st, w') ->
  still w w' /\ exists i f, at_name (w_fs w) d name i /\ w_fs w !! i = Some f /\ st = stat_of f.
Proof.
  intros Hn. unfold fstatat_nofollow. intros (u & w1 & E1%call_quiet & E2)%st_bind_Ok.
  apply st_bind_Ok in E2 as (i & w2 & E2 & E3). apply found_quiet in E2 as (Hs2 & Hi); [|done].
  apply st_bind_Ok in E3 as (f & w3 & E3 & E4). apply peek_quiet in E3 as [Hs3 Hf]. injection E4 as <- <-.
  split; [by eapply still_trans; [|eapply still_trans]|]. destruct E1 as [E1 _], Hs2 as [Hs2 _].
  rewrite E1 in Hi. rewrite Hs2, E1 in Hf. by exists i, f.
Qed.

Lemma fstat_quiet fd w st w' : fstat env fd w = (Ok st, w') ->
  still w w' /\ exists f, w_fs w !! fd = Some f /\ st = stat_of f.
Proof.
  unfold fstat. intros (u & w1 & E1%call_quiet & E2)%st_bind_Ok.
  apply st_bind_Ok in E2 as (f & w2 & E2 & E3). apply peek_quiet in E2 as [Hs Hf]. injection E3 as <- <-.
  split; [by eapply still_trans|]. destruct E1 as [E1 _]. rewrite E1 in Hf. by exists f.
Qed.

(** *** Opening *)

Lemma open_object_quiet fl i w j w' : open_object env fl i w = (Ok j, w') -> still w w' /\ j = i /\
  (o_directory fl = true -> exists f parent es, w_fs w !! i = Some f /\ f_body f = BDir parent es).
Proof.
  unfold open_object. intros (f & w1 & E1 & E2)%st_bind_Ok. apply peek_quiet in E1 as [Hs Hf].
  destruct (f_body f) as [parent es| | |type rdev] eqn:Hb.
  - destruct (o_write fl); [done|]. injection E2 as -> ->. split_and!; [done|done|eauto].
  - destruct (o_directory fl); [done|]. injection E2 as -> ->. by split_and!.
  - done.
  - destruct (o_directory fl); [done|]. destruct (type =? S_IFIFO).
    + unfold now, st_bind in E2. destruct (pipe_writer env (w_clock w1)); [|done]. injection E2 as -> ->. by split_and!.
    + destruct (streams type rdev); [|done]. injection E2 as -> ->. by split_and!.
Qed.

(** An existing object, links refused. *)
Lemma openat_quiet fl d name w i w' : o_nofollow fl = true -> o_creat_excl fl = false -> own name ->
  openat env fl d name w = (Ok i, w') -> still w w' /\ at_name (w_fs w) d name i.
Proof.
  intros Hnf Hex Hn. unfold openat. intros (u & w1 & E1%call_quiet & E2)%st_bind_Ok.
  apply st_bind_Ok in E2 as (o & w2 & E2 & E3).
  apply entry_quiet in E2 as (Hs2 & df & parent & es & Hd & Hb & ->); [|done].
  rewrite Hex in E3. destruct (es !! name) as [j|] eqn:He; [|done].
  apply st_bind_Ok in E3 as (f & w3 & E3 & E4). apply peek_quiet in E3 as [Hs3 _].
  assert (open_object env fl j w3 = (Ok i, w')) as Eo.
  { destruct (f_body f); try done. by rewrite Hnf in E4. }
  apply open_object_quiet in Eo as (Hs4 & -> & _).
  split; [by do 3 (eapply still_trans; [eassumption|])|]. destruct E1 as [E1 _]. rewrite E1 in Hd.
  by exists df, parent, es.
Qed.

(** A name is taken, and a new object with it. *)
Definition enters (d : N) (name : string) (i : N) (f : file) (w w' : world) : Prop :=
  exists df parent es, w_fs w !! d = Some df /\ f_body df = BDir parent es /\ es !! name = None /\ w_fs w !! i = None /\
    becomes (<[i := f]> (<[d := set_body (BDir parent (<[name := i]> es)) df]> (w_fs w))) w w'.

Lemma create_quiet d name w i w' : own name -> openat_file env d name true w = (Ok i, w') ->
  enters d name i (mkFile (BData []) 384 (ids env).1 (ids env).2 []) w w'.
Proof.
  intros Hn. unfold openat_file, openat. intros (u & w1 & [E1 Eb]%call_quiet & E2)%st_bind_Ok.
  apply st_bind_Ok in E2 as (o & w2 & E2 & E3).
  apply entry_quiet in E2 as ([Hs2 Hb2] & df & parent & es & Hd & Hb & ->); [|done].
  simpl in E3. destruct (es !! name) eqn:He; [done|].
  apply make_quiet in E3 as (df' & parent' & es' & Hd' & Hb' & Hi & E3 & Hb3).
  rewrite Hs2, E1 in Hd', Hi, E3. rewrite E1 in Hd.
  rewrite Hd in Hd'. injection Hd' as <-. rewrite Hb in Hb'. injection Hb' as <- <-.
  exists df, parent, es. split_and!; [done..|]. split; [done|congruence].
Qed.

Lemma make_new_quiet d name b perms w u w' : own name -> make_new env d name b perms w = (Ok u, w') ->
  exists i, enters d name i (mkFile b perms (ids env).1 (ids env).2 []) w w'.
Proof.
  intros Hn. unfold make_new. intros (u1 & w1 & [E1 Eb]%call_quiet & E2)%st_bind_Ok.
  apply st_bind_Ok in E2 as (o & w2 & E2 & E3).
  apply entry_quiet in E2 as ([Hs2 Hb2] & df & parent & es & Hd & Hb & ->); [|done].
  destruct (es !! name) eqn:He; [done|]. apply st_bind_Ok in E3 as (i & w3 & E3 & E4). injection E4 as _ <-.
  apply make_quiet in E3 as (df' & parent' & es' & Hd' & Hb' & Hi & E3 & Hb3).
  rewrite Hs2, E1 in Hd', Hi, E3. rewrite E1 in Hd.
  rewrite Hd in Hd'. injection Hd' as <-. rewrite Hb in Hb'. injection Hb' as <- <-.
  exists i, df, parent, es. split_and!; [done..|]. split; [done|congruence].
Qed.

(** What existed is as it was, but for [d]. *)
Definition frame (d : N) (fs fs' : gmap N file) : Prop :=
  forall k, is_Some (fs !! k) -> k <> d -> fs' !! k = fs !! k.

Lemma enters_inv d name i f w w' : enters d name i f w w' ->
  w_fs w' !! i = Some f /\ i <> d /\ w_fs w !! i = None /\ frame d (w_fs w) (w_fs w') /\ at_name (w_fs w') d name i.
Proof.
  intros (df & parent & es & Hd & Hb & He & Hi & E & _). rewrite E.
  assert (i <> d) as Hne by congruence. split_and!; [by rewrite lookup_insert_eq|done|done| |].
  - intros k [g Hk] Hkd. rewrite !lookup_insert_ne; [done|congruence..].
  - eexists _, _, _. rewrite lookup_insert_ne, lookup_insert_eq by done. split_and!; [done..|apply lookup_insert_eq].
Qed.

(** *** Owner and mode *)

Definition restat (perms u g : Z) (f : file) : file := mkFile (f_body f) perms u g (f_attrs f).

Lemma set_fd_quiet fd st w u w' f : w_fs w !! fd = Some f -> set_fd_owner_mode env fd st w = (Ok u, w') ->
  becomes (<[fd := restat (Z.land (st_mode st) PERMS) (st_uid st) (st_gid st) f]> (w_fs w)) w w'.
Proof.
  intros Hf. unfold set_fd_owner_mode. intros (u1 & w1 & [E1 B1]%call_quiet & E2)%st_bind_Ok.
  apply st_bind_Ok in E2 as (u2 & w2 & E2 & E3). rewrite <- E1 in Hf.
  apply (poke_quiet _ _ _ _ _ _ Hf) in E2 as [E2 B2].
  apply st_bind_Ok in E3 as (u3 & w3 & [E3 B3]%call_quiet & E4).
  eapply poke_quiet in E4 as [E4 B4]; [|rewrite E3, E2; apply lookup_insert_eq].
  split; [|congruence]. by rewrite E4, E3, E2, insert_insert_eq, E1.
Qed.

Lemma fchownat_quiet d name ow g w u w' i f : own name -> fchownat_nofollow env d name ow g w = (Ok u, w') ->
  at_name (w_fs w) d name i ->
  w_fs w !! i = Some f -> becomes (<[i := restat (chown_perms env (f_perms f)) ow g f]> (w_fs w)) w w'.
Proof.
  intros Hn E Hi Hf. unfold fchownat_nofollow in E. apply st_bind_Ok in E as (u1 & w1 & [E1 B1]%call_quiet & E2).
  apply st_bind_Ok in E2 as (j & w2 & E2 & E3). apply found_quiet in E2 as ([E2 B2] & Hj); [|done].
  rewrite E1 in Hj. pose proof (at_name_fun _ _ _ _ _ Hi Hj) as <-. rewrite <- E1, <- E2 in Hf.
  apply (poke_quiet _ _ _ _ _ _ Hf) in E3 as [E3 B3]. split; [|congruence]. by rewrite E3, E2, E1.
Qed.

Lemma fchmodat_quiet d name p w u w' i f : own name -> fchmodat_nofollow env d name p w = (Ok u, w') ->
  at_name (w_fs w) d name i ->
  w_fs w !! i = Some f -> (forall t, f_body f <> BLink t) -> becomes (<[i := set_perms p f]> (w_fs w)) w w'.
Proof.
  intros Hn E Hi Hf Hl. unfold fchmodat_nofollow in E. apply st_bind_Ok in E as (u1 & w1 & [E1 B1]%call_quiet & E2).
  apply st_bind_Ok in E2 as (j & w2 & E2 & E3). apply found_quiet in E2 as ([E2 B2] & Hj); [|done].
  rewrite E1 in Hj. pose proof (at_name_fun _ _ _ _ _ Hi Hj) as <-. rewrite <- E1, <- E2 in Hf.
  apply st_bind_Ok in E3 as (g & w3 & E3 & E4). apply peek_quiet in E3 as [[E3 B3] Hg].
  rewrite Hf in Hg. injection Hg as <-.
  assert ((match f_body f with BLink target => follow env d target | _ => st_ret i end) w3 = (Ok i, w3)) as Est.
  { destruct (f_body f) eqn:Hb; try done. by destruct (Hl target). }
  apply st_bind_Ok in E4 as (j & w4 & E4 & E5). rewrite Est in E4. injection E4 as <- <-. rewrite <- E3 in Hf.
  apply (poke_quiet _ _ _ _ _ _ Hf) in E5 as [E5 B5]. split; [|congruence]. by rewrite E5, E3, E2, E1.
Qed.

(** *** Contents *)

Lemma append_quiet fd bytes d w u w' f : w_fs w !! fd = Some f -> f_body f = BData d ->
  append fd bytes w = (Ok u, w') -> becomes (<[fd := set_body (BData (d ++ bytes)) f]> (w_fs w)) w w'.
Proof.
  intros Hf Hb E. apply (poke_quiet _ _ _ _ _ _ Hf) in E as [E B]. rewrite Hb in E. by split.
Qed.

Lemma read_at_quiet fd off limit w bytes w' f d : w_fs w !! fd = Some f -> f_body f = BData d -> (0 < limit)%N ->
  read_at env fd off limit w = (Ok bytes, w') ->
  still w w' /\ (exists k, bytes = take k (drop off d)) /\ (bytes = [] -> drop off d = []).
Proof.
  intros Hf Hb Hl E. unfold read_at in E. apply st_bind_Ok in E as (g & w1 & E1 & E2).
  apply peek_quiet in E1 as [Hs Hg]. rewrite Hf in Hg. injection Hg as <-.
  apply st_bind_Ok in E2 as (n & w2 & ->%now_quiet & E3). rewrite Hb in E3. injection E3 as <- <-.
  split_and!; [done|by eexists|]. intros Hnil. destruct (drop off d); [done|].
  destruct (N.to_nat _) eqn:Hk in Hnil; [|done]. lia.
Qed.

Lemma write_loop_quiet fd rounds : forall buf w u w' f d, (length buf <= rounds)%nat ->
  w_fs w !! fd = Some f -> f_body f = BData d -> write_loop env rounds fd buf w = (Ok u, w') ->
  becomes (<[fd := set_body (BData (d ++ buf)) f]> (w_fs w)) w w'.
Proof.
  induction rounds as [|rounds IH]; intros buf w u w' f d Hlen Hf Hb E.
  { destruct buf; [|simpl in Hlen; lia]. injection E as _ <-. rewrite app_nil_r, <- Hb, set_body_id.
    by apply becomes_id. }
  destruct buf as [|b buf].
  { injection E as _ <-. rewrite app_nil_r, <- Hb, set_body_id. by apply becomes_id. }
  cbn [write_loop] in E. apply st_bind_Ok in E as (u1 & w1 & [E1 B1]%call_quiet & E2).
  apply st_bind_Ok in E2 as (n & w2 & ->%now_quiet & E3). cbv zeta in E3.
  apply st_bind_Ok in E3 as (u2 & w3 & E3 & E4). rewrite <- E1 in Hf.
  apply (append_quiet _ _ _ _ _ _ _ Hf Hb) in E3 as [E3 B3].
  eapply IH in E4 as [E4 B4]; [| |rewrite E3; apply lookup_insert_eq|done].
  - split; [|congruence]. rewrite E4, E3, insert_insert_eq, E1. cbn [set_body f_perms f_uid f_gid f_attrs].
    unfold set_body. simpl. by rewrite <- app_assoc, take_drop.
  - rewrite length_drop. assert (len (b :: buf) <> 0%N) by (unfold len; simpl; lia). simpl in *. lia.
Qed.

Section contents.
Context (r wr : N) (fr : file) (D : list byte) (Hne : r <> wr) (HD : f_body fr = BData D).

(** The writer has the first [off] bytes of the reader's file. *)
Definition part (off : nat) (fw : file) (w : world) : Prop :=
    w_fs w !! r = Some fr /\ w_fs w !! wr = Some fw /\ f_body fw = BData (take off D) /\ (off <= length D)%nat.

Definition full (fw : file) (w w' : world) : Prop := becomes (<[wr := set_body (BData D) fw]> (w_fs w)) w w'.

Lemma part_full off fw w : part off fw w -> drop off D = [] -> full fw w w /\ N.of_nat off = len D.
Proof.
  intros (_ & Hw & Hb & Hle) Hd. assert (off = length D) as ->.
  { apply (f_equal length) in Hd. rewrite length_drop in Hd. simpl in Hd. lia. }
  rewrite firstn_all in Hb. split; [|done]. unfold full. rewrite <- Hb, set_body_id. by apply becomes_id.
Qed.

(** The step of both loops: [k] more bytes. *)
Lemma part_step off fw w k w1 w2 : part off fw w -> still w w1 -> take k (drop off D) <> [] ->
  becomes (<[wr := set_body (BData (take off D ++ take k (drop off D))) fw]> (w_fs w1)) w1 w2 ->
  exists fw', part (off + length (take k (drop off D))) fw' w2 /\
  forall w', full fw' w2 w' -> full fw w w'.
Proof.
  intros (Hr & Hw & Hb & Hle) [E1 B1] Hk [E2 B2]. set (bs := take k (drop off D)) in *.
  assert (take off D ++ bs = take (off + length bs) D) as Happ.
  { unfold bs. rewrite <- (take_take_drop D off). f_equal. rewrite length_take, length_drop.
  destruct (decide (k <= length D - off)%nat); [by rewrite Nat.min_l by lia|].
  rewrite Nat.min_r by lia. rewrite !take_ge; [done|rewrite length_drop; lia..]. }
  eexists. split.
  - split_and!; [rewrite E2, lookup_insert_ne, E1 by done; exact Hr|rewrite E2; apply lookup_insert_eq|simpl; by
      rewrite Happ|].
    unfold bs. rewrite length_take, length_drop. lia.
  - intros w' [E3 B3]. split; [|congruence]. by rewrite E3, E2, insert_insert_eq, E1.
Qed.

Lemma copy_loop_quiet rounds : forall off w n w' fw, part off fw w ->
    copy_loop env rounds r wr off (N.of_nat off) w = (Ok n, w') -> full fw w w' /\ n = len D.
Proof.
  induction rounds as [|rounds IH]; intros off w n w' fw Hp E; [done|]. cbn [copy_loop] in E.
  apply st_bind_Ok in E as (u & w1 & H1%call_quiet & E2). pose proof Hp as (Hr & Hw & Hb & Hle).
  apply st_bind_Ok in E2 as (bs & w2 & E2 & E3). pose proof H1 as [F1 _].
  eapply (read_at_quiet _ _ _ _ _ _ fr D) in E2 as (H2 & (k & ->) & Hnil); [|by rewrite F1|done|done].
  pose proof (still_trans _ _ _ H1 H2) as Hs. case_decide as Hd.
  - injection E3 as <- <-. destruct (part_full _ _ _ Hp (Hnil Hd)) as [[Hf ?] ?]. split; [|done].
    destruct Hs as [S1 S2]. split; [by rewrite S1|done].
  - apply st_bind_Ok in E3 as (u' & w3 & E3 & E4). pose proof Hs as [S1 S2].
    eapply write_loop_quiet in E3 as H3; [|done|by rewrite S1|exact Hb].
    destruct (part_step _ _ _ _ _ _ Hp Hs Hd H3) as (fw' & Hp' & Hfull).
    unfold len in E4. rewrite <- Nat2N.inj_add in E4. apply (IH _ _ _ _ _ Hp') in E4 as [Hf ->]. auto.
Qed.

Lemma in_kernel_quiet w x w' : in_kernel env r w = (Ok x, w') -> w_fs w !! r = Some fr ->
    still w w' /\ forall f, x = Ok f -> f = fr.
Proof.
  intros E Hr. unfold in_kernel in E. apply st_bind_Ok in E as (y & w1 & [H1 _]%attempt_quiet & E2).
  apply st_bind_Ok in E2 as (f & w2 & [H2 Hf]%peek_quiet & E3). injection E3 as <- <-.
  split; [by eapply still_trans|]. destruct H1 as [H1 _]. rewrite H1, Hr in Hf. injection Hf as <-.
  intros f. destruct y; [|done]. destruct (is_data _); [|done]. by intros [= <-].
Qed.

Lemma range_loop_quiet total rounds : forall off w n w' fw, part off fw w ->
  range_loop env rounds total r wr off (N.of_nat off) w = (Ok n, w') -> full fw w w' /\ n = len D.
Proof.
  induction rounds as [|rounds IH]; intros off w n w' fw Hp E; [done|]. cbn [range_loop] in E.
  pose proof Hp as (Hr & Hw & Hb & Hle). apply st_bind_Ok in E as (x & w1 & E1 & E2).
  apply in_kernel_quiet in E1 as [H1 _]; [|done]. pose proof H1 as [F1 F2]. destruct x as [f|e].
  - apply st_bind_Ok in E2 as (bs & w2 & E2 & E3).
    eapply (read_at_quiet _ _ _ _ _ _ fr D) in E2 as (H2 & (k & ->) & Hnil); [|by rewrite F1|done|done].
    pose proof (still_trans _ _ _ H1 H2) as Hs. case_decide as Hd.
    + injection E3 as <- <-. destruct (part_full _ _ _ Hp (Hnil Hd)) as [[Hf ?] ?]. split; [|done].
      destruct Hs as [S1 S2]. split; [by rewrite S1|done].
    + apply st_bind_Ok in E3 as (u' & w3 & E3 & E4). pose proof Hs as [S1 S2].
      eapply append_quiet in E3 as H3; [|by rewrite S1|exact Hb].
      destruct (part_step _ _ _ _ _ _ Hp Hs Hd H3) as (fw' & Hp' & Hfull).
      unfold len in E4. rewrite <- Nat2N.inj_add in E4. apply (IH _ _ _ _ _ Hp') in E4 as [Hf ->]. auto.
  - destruct (falls_back e && (N.of_nat off =? 0)%N) eqn:Ec; [|done]. apply andb_true_iff in Ec as [_ Ho].
    assert (off = O) as -> by lia. apply (copy_loop_quiet _ O _ _ _ fw) in E2 as [[E2 B2] ->].
    + split; [|done]. split; [by rewrite E2, F1|congruence].
    + by split_and!; rewrite ?F1.
Qed.

Lemma contents_quiet rounds w n w' fw : w_fs w !! r = Some fr -> w_fs w !! wr = Some fw -> f_body fw = BData [] ->
    copy_file_contents env rounds r wr (len D) w = (Ok n, w') -> full fw w w' /\ n = len D.
Proof.
  intros Hr Hw Hb E. unfold copy_file_contents in E. apply st_bind_Ok in E as (x & w1 & E1 & E2).
  apply in_kernel_quiet in E1 as [[F1 F2] Hf]; [|done]. destruct x as [f|e].
  - rewrite (Hf f eq_refl), HD in E2. apply st_bind_Ok in E2 as (u & w2 & E2 & E3). injection E3 as <- <-.
    eapply append_quiet in E2 as [E2 B2]; [|by rewrite F1|exact Hb]. split; [|done].
    split; [by rewrite E2, F1|congruence].
  - change 0%N with (N.of_nat 0) in E2 at 1. apply (range_loop_quiet _ _ O _ _ _ fw) in E2 as [[E2 B2] ->].
    + split; [|done]. split; [by rewrite E2, F1|congruence].
    + split_and!; rewrite ?F1; [done..|lia].
Qed.
End contents.

(** *** Extended attributes *)

Lemma getxattr_quiet rounds fd name f : forall cap w v w', w_fs w !! fd = Some f ->
  getxattr_loop env rounds fd name cap w = (Ok v, w') -> still w w' /\ v = assoc name (f_attrs f).
Proof.
  induction rounds as [|rounds IH]; intros cap w v w' Hf E; [done|]. cbn [getxattr_loop] in E.
  apply st_bind_Ok in E as (y & w1 & [H1 Hh]%attempt_quiet & E2). pose proof H1 as [F1 _].
  destruct y as [u|e].
  - apply st_bind_Ok in E2 as (g & w2 & [H2 Hg]%peek_quiet & E3). rewrite F1, Hf in Hg. injection Hg as <-.
    pose proof (still_trans _ _ _ H1 H2) as Hs. destruct (assoc name (f_attrs f)) as [x|] eqn:Ha.
    + destruct (len x <=? cap)%N; [by injection E3 as <- <-|].
      apply IH in E3 as [Hs3 ->]; [|by rewrite (proj1 Hs)]. split; [by eapply still_trans|done].
    + by injection E3 as <- <-.
  - rewrite (Hh e eq_refl) in E2. destruct (errno_in e [ERANGE]); [|done].
    apply IH in E2 as [Hs2 ->]; [|by rewrite F1]. split; [by eapply still_trans|done].
Qed.

Lemma flistxattr_quiet fd f w names w' : w_fs w !! fd = Some f -> Forall xattr_name (f_attrs f).*1 ->
  flistxattr env fd w = (Ok names, w') -> still w w' /\ names = (f_attrs f).*1.
Proof.
  intros Hf Hn E. unfold flistxattr in E. apply st_bind_Ok in E as (y & w1 & [H1 Hh]%attempt_quiet & E2).
  pose proof H1 as [F1 _]. destruct y as [u|e].
  - apply st_bind_Ok in E2 as (g & w2 & [H2 Hg]%peek_quiet & E3). rewrite F1, Hf in Hg. injection Hg as <-.
    apply st_bind_Ok in E3 as (u' & w3 & H3%call_quiet & E4).
    apply st_bind_Ok in E4 as (g & w4 & [H4 Hg]%peek_quiet & E5).
    rewrite (proj1 H3), (proj1 H2), F1, Hf in Hg. injection Hg as <-. cbv zeta in E5.
    rewrite N.ltb_irrefl, parse_names_buffer in E5 by done. injection E5 as <- <-.
    split; [|done]. by do 3 (eapply still_trans; [eassumption|]).
  - pose proof (Hh e eq_refl) as He. unfold errno_in in *. simpl in *. apply orb_false_iff in He as [_ He].
    by rewrite He in E2.
Qed.

(** What copying the attributes called [names] makes of [a]. *)
Definition attrs_after (names : list string) (src a a' : list (string * list byte)) : Prop :=
  (forall n, is_overlay n = true ->
     assoc n a' = if decide (n ∈ names /\ is_Some (assoc n src)) then assoc n src else assoc n a) /\
  (forall n v, assoc n a' = Some v -> assoc n src = Some v \/ assoc n a = Some v).

Lemma attrs_after_nil src a : attrs_after [] src a a.
Proof. split; [|by right]. intros n _. rewrite decide_False; [done|]. by intros [?%elem_of_nil _]. Qed.

Lemma attrs_after_cons name names src a a1 a' : attrs_after [name] src a a1 -> attrs_after names src a1 a' ->
  attrs_after (name :: names) src a a'.
Proof.
  intros [H1 S1] [H2 S2]. split; [|intros n v [?|?%S1]%S2; tauto].
  intros n Hn. rewrite (H2 n Hn), (H1 n Hn). repeat case_decide; set_solver.
Qed.

Lemma attrs_after_none name src a : assoc name src = None -> attrs_after [name] src a a.
Proof.
  intros Hs. split; [|by right]. intros n _. rewrite decide_False; [done|].
  intros [->%list_elem_of_singleton [x Hx]]. congruence.
Qed.

Lemma attrs_after_set name src a v : assoc name src = Some v -> attrs_after [name] src a (set_assoc name v a).
Proof.
  intros Hs. split.
  - intros n _. rewrite assoc_set. destruct (decide (n = name)) as [->|Hne].
    + rewrite decide_True by (split; [left|by rewrite Hs]). done.
    + rewrite decide_False; [done|]. by intros [->%list_elem_of_singleton _].
  - intros n w. rewrite assoc_set. case_decide; [subst; intros; left; congruence|by right].
Qed.

Lemma attrs_after_skip name src a : is_overlay name = false -> attrs_after [name] src a a.
Proof.
  intros Ho. split; [|by right]. intros n Hn. rewrite decide_False; [done|].
  intros [->%list_elem_of_singleton _]. congruence.
Qed.

Lemma attrs_after_copied src a : attrs_after src.*1 src [] a -> xattrs_copied kept src a.
Proof.
  intros [H S]. split; [|by intros n v [?|?]%S]. intros n Hn. rewrite (H n Hn). case_decide as Hd; [done|].
  symmetry. apply assoc_None. intros Hin. apply Hd. split; [done|].
  destruct (assoc n src) eqn:Ha; [by eexists|]. by apply assoc_None in Ha.
Qed.

Lemma copied_names src a : Forall xattr_name src.*1 -> xattrs_copied kept src a -> Forall xattr_name a.*1.
Proof.
  intros Hs [_ Hc]. apply list.Forall_forall. intros n Hn. destruct (assoc n a) as [v|] eqn:Ha.
  - apply Hc, assoc_In in Ha. rewrite list.Forall_forall in Hs. apply Hs, list_elem_of_fmap. by exists (n, v).
  - by apply assoc_None in Ha.
Qed.

Lemma set_or_skip_quiet d name v src w u w' f : w_fs w !! d = Some f -> assoc name src = Some v ->
  set_or_skip env d name v w = (Ok u, w') ->
  exists a, becomes (<[d := set_attrs a f]> (w_fs w)) w w' /\ attrs_after [name] src (f_attrs f) a.
Proof.
  intros Hf Hv E. unfold set_or_skip in E. apply st_bind_Ok in E as (y & w1 & [[F1 F2] _]%attempt_quiet & E2).
  destruct y as [u'|e].
  - rewrite <- F1 in Hf. apply (poke_quiet _ _ _ _ _ _ Hf) in E2 as [E2 B2].
    exists (set_assoc name v (f_attrs f)). split; [|by apply attrs_after_set]. split; [by rewrite E2, F1|congruence].
  - destruct (is_overlay name) eqn:Ho; [done|]. injection E2 as _ <-. exists (f_attrs f).
    split; [|by apply attrs_after_skip]. rewrite set_attrs_id.
    split; [by rewrite F1, insert_id|done].
Qed.

Lemma copy_attrs_quiet rounds s d fsrc names : s <> d -> forall w u w' f,
  w_fs w !! s = Some fsrc -> w_fs w !! d = Some f -> copy_attrs env rounds s d names w = (Ok u, w') ->
  exists a, becomes (<[d := set_attrs a f]> (w_fs w)) w w' /\ attrs_after names (f_attrs fsrc) (f_attrs f) a.
Proof.
  intros Hne. induction names as [|name names IH]; intros w u w' f Hs Hd E.
  { injection E as _ <-. exists (f_attrs f). split; [|apply attrs_after_nil]. rewrite set_attrs_id.
    by apply becomes_id. }
  cbn [copy_attrs] in E. apply st_bind_Ok in E as (v & w1 & E1 & E2).
  apply (getxattr_quiet _ _ _ fsrc) in E1 as [[F1 F2] ->]; [|exact Hs].
  apply st_bind_Ok in E2 as (u1 & w2 & E2 & E3).
  assert (exists a, becomes (<[d := set_attrs a f]> (w_fs w)) w w2 /\ attrs_after [name] (f_attrs fsrc) (f_attrs f) a)
    as (a & [E4 B4] & Ha).
  { destruct (assoc name (f_attrs fsrc)) as [v|] eqn:Hv.
    - eapply set_or_skip_quiet in E2 as (a & [E2 B2] & Ha); [|by rewrite F1|exact Hv].
      exists a. split; [|done]. split; [by rewrite E2, F1|congruence].
    - injection E2 as _ <-. exists (f_attrs f). split; [|by apply attrs_after_none]. rewrite set_attrs_id.
      split; [by rewrite F1, insert_id|done]. }
  eapply IH in E3 as (a' & [E3 B3] & Ha'); [|rewrite E4, lookup_insert_ne by done; exact Hs|rewrite E4; apply
    lookup_insert_eq].
  exists a'. split; [|by eapply attrs_after_cons].
  split; [|congruence]. by rewrite E3, E4, insert_insert_eq.
Qed.

Lemma copy_xattrs_quiet rounds s d fsrc w u w' f : s <> d -> w_fs w !! s = Some fsrc -> w_fs w !! d = Some f ->
  Forall xattr_name (f_attrs fsrc).*1 -> f_attrs f = [] -> copy_xattrs_fd env rounds s d w = (Ok u, w') ->
  exists a, becomes (<[d := set_attrs a f]> (w_fs w)) w w' /\ xattrs_copied kept (f_attrs fsrc) a /\
    Forall xattr_name a.*1.
Proof.
  intros Hne Hs Hd Hn Hnil E. unfold copy_xattrs_fd in E. apply st_bind_Ok in E as (names & w1 & E1 & E2).
  apply (flistxattr_quiet _ fsrc) in E1 as [[F1 F2] ->]; [|exact Hs|done].
  eapply copy_attrs_quiet in E2 as (a & [E2 B2] & Ha); [|done|rewrite F1; exact Hs|rewrite F1; exact Hd].
  rewrite Hnil in Ha. apply attrs_after_copied in Ha. exists a.
  split_and!; [split; [by rewrite E2, F1|congruence]|done|by eapply copied_names].
Qed.

(** ** One entry *)

(** [name] was free in [d] and is now a copy of [c], in new objects. *)
Definition copied_at (d : N) (name : string) (c : node) (w w' : world) : Prop :=
  exists df parent es j c', w_fs w !! d = Some df /\ f_body df = BDir parent es /\ es !! name = None /\
    w_fs w !! j = None /\ w_fs w' !! d = Some (set_body (BDir parent (<[name := j]> es)) df) /\
    tree_at (fun k => w_fs w !! k = None) (w_fs w') j c' /\ copied kept c c' /\
    frame d (w_fs w) (w_fs w') /\ w_bytes w' = (w_bytes w + regular_bytes c)%N.

Lemma copied_at_still d name c w w1 w2 : still w w1 -> copied_at d name c w1 w2 -> copied_at d name c w w2.
Proof. intros [E1 E2]. unfold copied_at. by rewrite E1, E2. Qed.

(** A new object that ends as the copy of a file that is no directory. *)
Lemma leaf_copied d name i f0 f f' w w1 w2 : enters d name i f0 w w1 -> w_fs w2 = <[i := f']> (w_fs w1) ->
  w_bytes w2 = (w_bytes w + regular_bytes (Node (inode_of f) []))%N -> proper f' ->
  (forall parent es, f_body f' <> BDir parent es) -> inode_copied kept (inode_of f) (inode_of f') ->
  copied_at d name (Node (inode_of f) []) w w2.
Proof.
  intros He E B Hp Hb Hc. destruct (enters_inv _ _ _ _ _ _ He) as (_ & Hne & Hi & Hframe & _).
  destruct He as (df & parent & es & Hd & Hbd & Hes & _ & E1 & _).
  exists df, parent, es, i, (Node (inode_of f') []). split_and!; try done.
  - rewrite E, lookup_insert_ne, E1, lookup_insert_ne, lookup_insert_eq by done. done.
  - apply (tree_leaf _ _ i f'); [done|rewrite E; apply lookup_insert_eq|done|done].
  - intros k Hk Hkd. rewrite E, lookup_insert_ne; [by apply Hframe|]. intros ->. rewrite Hi in Hk. by destruct Hk.
Qed.

Lemma readlink_quiet rounds d name i f t : own name -> f_body f = BLink t -> forall cap w r w',
  at_name (w_fs w) d name i -> w_fs w !! i = Some f -> readlink_loop env rounds d name cap w = (Ok r, w') ->
  still w w' /\ r = t.
Proof.
  intros Hn Hb. induction rounds as [|rounds IH]; intros cap w r w' Hi Hf E; [done|]. cbn [readlink_loop] in E.
  apply st_bind_Ok in E as (u & w1 & H1%call_quiet & E2).
  apply st_bind_Ok in E2 as (j & w2 & [H2 Hj]%found_quiet & E3); [|done].
  rewrite (proj1 H1) in Hj. pose proof (at_name_fun _ _ _ _ _ Hi Hj) as <-.
  apply st_bind_Ok in E3 as (g & w3 & [H3 Hg]%peek_quiet & E4).
  pose proof (still_trans _ _ _ H1 (still_trans _ _ _ H2 H3)) as Hs.
  rewrite (proj1 H2), (proj1 H1), Hf in Hg. injection Hg as <-. rewrite Hb in E4.
  destruct (str_len t <? cap)%N; [by injection E4 as <- <-|].
  apply IH in E4 as [H4 ->]; [|by rewrite (proj1 Hs)..]. split; [by eapply still_trans|done].
Qed.

Section entry.
(** The file that is copied: [name] in [s]. *)
Context (rounds : nat) (s d : N) (name : string) (Hn : own name).
Context (i : N) (f : file) (Hp : proper f) (Hid : i <> d).

Definition here (w : world) : Prop := at_name (w_fs w) s name i /\ w_fs w !! i = Some f.

Lemma symlink_copied t w u w' : here w -> f_body f = BLink t ->
  copy_symlink env rounds s d name (stat_of f) w = (Ok u, w') -> copied_at d name (Node (inode_of f) []) w w'.
Proof.
  intros [Hi Hf] Hb E. unfold copy_symlink, readlinkat in E. apply st_bind_Ok in E as (t' & w1 & E1 & E2).
  apply (readlink_quiet _ _ _ i f t) in E1 as [H1 ->]; [|done..]. apply (copied_at_still _ _ _ _ _ _ H1).
  apply st_bind_Ok in E2 as (u1 & w2 & E2 & E3). apply make_new_quiet in E2 as [j He]; [|done].
  destruct (enters_inv _ _ _ _ _ _ He) as (Hj & _ & _ & _ & Hat).
  eapply fchownat_quiet in E3 as [E3 B3]; [|done|exact Hat|exact Hj].
  destruct (kinds f Hp) as (Kd & Kl & Kr). rewrite Hb in Kd, Kr. destruct Hp as (Hr & Ha & Hpb). rewrite Hb in Hpb.
  eapply leaf_copied; [exact He|exact E3| | |done|].
  - simpl. rewrite Kd, Kr, B3. destruct He as (? & ? & ? & _ & _ & _ & _ & _ & ->). lia.
  - unfold proper. simpl. rewrite (q_link Hq). split_and!; [done|done|constructor|done].
  - apply inode_copied_of; try done; simpl; [by rewrite (q_link Hq)|by rewrite Hb].
Qed.

Lemma regular_copied D w u w' : here w -> f_body f = BData D ->
    copy_regular env rounds s d name (stat_of f) w = (Ok u, w') -> copied_at d name (Node (inode_of f) []) w w'.
Proof.
  intros [Hi Hf] Hb E. unfold copy_regular in E. apply st_bind_Ok in E as (sfd & w1 & E1 & E2).
  apply openat_quiet in E1 as [H1 Hj]; [|done..]. pose proof (at_name_fun _ _ _ _ _ Hi Hj) as <-. clear Hj.
  apply (copied_at_still _ _ _ _ _ _ H1). rewrite <- (proj1 H1) in Hf. clear Hi H1.
  apply st_bind_Ok in E2 as (dfd & w2 & E2 & E3). apply create_quiet in E2 as He; [|done].
  destruct (enters_inv _ _ _ _ _ _ He) as (Hdfd & _ & Hnew & Hframe & _).
  assert (i <> dfd) as Hne by congruence.
  assert (w_fs w2 !! i = Some f) as Hf2 by (rewrite Hframe; [done|by rewrite Hf|done]).
  apply st_bind_Ok in E3 as (n & w3 & E3 & E4).
  replace (Z.to_N (st_size (stat_of f))) with (len D) in E3 by (simpl; rewrite Hb; lia).
  apply (contents_quiet i dfd f D Hne Hb rounds _ _ _ _ Hf2 Hdfd eq_refl) in E3 as [[E3 B3] ->].
  apply st_bind_Ok in E4 as (u4 & w4 & E4 & E5). injection E4 as _ E4.
  apply st_bind_Ok in E5 as (u5 & w5 & E5 & E6).
  eapply set_fd_quiet in E5 as [E5 B5]; [|rewrite <- E4; simpl; rewrite E3; apply lookup_insert_eq].
  eapply copy_xattrs_quiet in E6 as (a & [E6 B6] & Hxa & Hxn); [|exact Hne| | | |].
  3: { rewrite E5. apply lookup_insert_eq. }
  2: { rewrite E5, lookup_insert_ne by done. rewrite <- E4. simpl. rewrite E3, lookup_insert_ne by done. exact Hf2. }
  2: { apply Hp. }
  2: { done. }
  rewrite (perms_of f Hp) in *. destruct (kinds f Hp) as (Kd & Kl & Kr). rewrite Hb in Kd, Kr.
  eapply leaf_copied; [exact He| | | |..].
  - rewrite E6, E5, insert_insert_eq, <- E4. simpl. rewrite E3, insert_insert_eq. reflexivity.
  - simpl. rewrite Kd, Kr, B6, B5, <- E4. simpl. rewrite B3, Hb. destruct He as (? & ? & ? & _ & _ & _ & _ & _ & ->).
      done.
  - split; [apply Hp|by split].
  - done.
  - apply inode_copied_of; try done. simpl. by rewrite Hb.
Qed.

Lemma special_copied type rdev w u w' : here w -> f_body f = BSpecial type rdev ->
    copy_special env d name (stat_of f) w = (Ok u, w') -> copied_at d name (Node (inode_of f) []) w w'.
Proof.
  intros [Hi Hf] Hb E. unfold copy_special in E. apply st_bind_Ok in E as (u1 & w1 & E1 & E2).
  apply make_new_quiet in E1 as [j He]; [|done]. destruct (enters_inv _ _ _ _ _ _ He) as (Hj & _ & _ & _ & Hat).
  apply st_bind_Ok in E2 as (u2 & w2 & E2 & E3).
  eapply fchownat_quiet in E2 as [E2 B2]; [|done|exact Hat|exact Hj].
  destruct (enters_inv _ _ _ _ _ _ He) as (_ & Hjd & _).
  eapply (fchmodat_quiet _ _ _ _ _ _ j) in E3 as [E3 B3];
  [|done|rewrite E2; by apply at_name_insert|rewrite E2; apply lookup_insert_eq|done].
  rewrite E2, insert_insert_eq in E3. rewrite (perms_of f Hp) in E3. unfold set_perms, restat in E3. simpl in E3.
  destruct (kinds f Hp) as (Kd & Kl & Kr). rewrite Hb in Kd, Kr.
  assert (Z.land (Z.lor (type_of (f_body f)) (f_perms f)) S_IFMT = type) as Ht.
  { pose proof (file_type_of f Hp) as Ht. rewrite Hb in Ht. exact Ht. }
  rewrite Hb in Ht, E3. simpl in Ht, E3. rewrite Ht in E3.
  eapply leaf_copied; [exact He|exact E3| | |done|].
  - simpl. rewrite Kd, Kr, B3, B2. destruct He as (? & ? & ? & _ & _ & _ & _ & _ & ->). lia.
  - destruct Hp as (H1 & H2 & H3). rewrite Hb in H3. split; [exact H1|]. split; [constructor|done].
  - apply inode_copied_of; try done. simpl. by rewrite Hb.
Qed.
End entry.

(** ** Directories *)

Lemma at_name_frame fs fs' s d name i : at_name fs s name i -> frame d fs fs' -> s <> d -> at_name fs' s name i.
Proof. intros (df & parent & es & Hs & H) Hf Hne. exists df, parent, es. by rewrite Hf by (by rewrite ?Hs). Qed.

Lemma frame_None d fs fs' k : frame d fs fs' -> is_Some (fs' !! d) -> fs' !! k = None -> fs !! k = None.
Proof.
  intros Hf Hd Hk. destruct (fs !! k) as [g|] eqn:Hg; [|done]. destruct (decide (k = d)) as [->|Hne].
  - rewrite Hk in Hd. by destruct Hd.
  - rewrite Hf, Hg in Hk by (by rewrite ?Hg). done.
Qed.

Lemma frame_chain d fs1 fs2 fs3 : frame d fs1 fs2 -> frame d fs2 fs3 -> frame d fs1 fs3.
Proof. intros H1 H2 k Hk Hd. rewrite H2; [by apply H1| |done]. by rewrite H1. Qed.

(** A tree whose objects existed, none of them [d]. *)
Lemma tree_frame P d fs fs' i n : tree_at P fs i n -> (forall k, P k -> k <> d) -> frame d fs fs' ->
    tree_at P fs' i n.
Proof. intros Ht Hd Hf. eapply tree_at_mono; [exact Ht|]. intros k Hk Hs. split; [done|]. apply Hf; auto. Qed.

(** The directory entries [es] are the trees [kids]. *)
Definition holds (P : N -> Prop) (fs : gmap N file) (es : gmap string N) (kids : list (string * node)) : Prop :=
  (forall name, is_Some (es !! name) <-> name ∈ kids.*1) /\
  forall name c j, (name, c) ∈ kids -> es !! name = Some j -> tree_at P fs j c.

Notation kids_copied := (Forall2 (fun p q => p.1 = q.1 /\ copied kept p.2 q.2)).

Lemma kids_copied_names (kids kids' : list (string * node)) : kids_copied kids kids' -> kids'.*1 = kids.*1.
Proof. induction 1 as [|p q kids kids' [E _] _ IH]; [done|]. rewrite !fmap_cons. congruence. Qed.

Lemma kids_bytes_perm l l' : l ≡ₚ l' -> kids_bytes l = kids_bytes l'.
Proof. unfold kids_bytes. induction 1 as [|[s c]|[s c] [t d]|]; simpl in *; try done; lia. Qed.

(** [rec] copies the tree [n] into an empty directory. *)
Definition dir_ok (rec : N -> N -> W unit) (n : node) : Prop :=
  forall P s d w u w' df parent, tree_at P (w_fs w) s n -> (forall k, P k -> k <> d) ->
  w_fs w !! d = Some df -> f_body df = BDir parent ∅ -> rec s d w = (Ok u, w') ->
  exists es kids', w_fs w' !! d = Some (set_body (BDir parent es) df) /\
    holds (fun k => w_fs w !! k = None) (w_fs w') es kids' /\ kids_copied (n_kids n) kids' /\
    frame d (w_fs w) (w_fs w') /\ w_bytes w' = (w_bytes w + kids_bytes (n_kids n))%N.

Lemma tree_kids P fs i n f parent es : tree_at P fs i n -> fs !! i = Some f -> f_body f = BDir parent es ->
  NoDup (n_kids n).*1 /\ (forall name, is_Some (es !! name) <-> name ∈ (n_kids n).*1) /\
  forall name c, (name, c) ∈ n_kids n -> own name /\ forall j, es !! name = Some j -> tree_at P fs j c.
Proof.
  intros Ht Hf Hb. inversion Ht as [? g parent' es' kids HP Hg Hp Hb' Hnd Hdom Hown Hsub|? g HP Hg Hp Hb']; subst.
  - rewrite Hf in Hg. injection Hg as <-. rewrite Hb in Hb'. injection Hb' as <- <-.
    split_and!; [done|done|]. intros name c Hc. split; [by eapply Hown|]. intros j. by apply Hsub.
  - rewrite Hf in Hg. injection Hg as <-. by destruct (Hb' parent es).
Qed.

(** What the copy of a directory's own attributes makes of it. *)
Lemma dir_done rounds s d f df parent es w u1 w1 u w' : s <> d -> w_fs w !! s = Some f -> proper f ->
  (exists sp ses, f_body f = BDir sp ses) ->
  w_fs w !! d = Some df -> f_body df = BDir parent es -> f_attrs df = [] ->
  set_fd_owner_mode env d (stat_of f) w = (Ok u1, w1) -> copy_xattrs_fd env rounds s d w1 = (Ok u, w') ->
  exists f', becomes (<[d := f']> (w_fs w)) w w' /\ f_body f' = BDir parent es /\ proper f' /\
    inode_copied kept (inode_of f) (inode_of f').
Proof.
  intros Hne Hs Hp (sp & ses & Hsb) Hd Hb Ha E1 E2. eapply set_fd_quiet in E1 as [E1 B1]; [|exact Hd].
  rewrite (perms_of f Hp) in E1.
  eapply copy_xattrs_quiet in E2 as (a & [E2 B2] & Hxa & Hxn); [|exact Hne| | | |].
  3: { rewrite E1. apply lookup_insert_eq. }
  2: { rewrite E1, lookup_insert_ne by done. exact Hs. }
  2: { apply Hp. }
  2: { exact Ha. }
  eexists. split; [split; [by rewrite E2, E1, insert_insert_eq|congruence]|]. split; [exact Hb|]. split.
  - split; [apply Hp|]. split; [done|]. simpl. by rewrite Hb.
  - apply inode_copied_of; try done. simpl. by rewrite Hsb, Hb.
Qed.

(** A directory whose entries are copies is a copy. *)
Lemma dir_tree P Q fs fs' j f f' parent es n kids' : Q j -> fs' !! j = Some f' -> proper f' ->
    f_body f' = BDir parent es ->
  n_inode n = inode_of f -> inode_copied kept (inode_of f) (inode_of f') ->
  NoDup (n_kids n).*1 -> (forall name c, (name, c) ∈ n_kids n -> own name) ->
  kids_copied (n_kids n) kids' -> holds P fs es kids' ->
  (forall k, P k -> is_Some (fs !! k) -> Q k /\ fs' !! k = fs !! k) ->
  tree_at Q fs' j (Node (inode_of f') kids') /\ copied kept n (Node (inode_of f') kids').
Proof.
  intros HQ Hj Hp Hb Hn Hc Hnd Hown Hcop [Hdom Hkids] Hk. split.
  - apply (tree_dir _ _ j f' parent es); [done|done|done|done|by rewrite (kids_copied_names _ _ Hcop)|done|..].
    + intros name c' Hin. assert (name ∈ (n_kids n).*1) as Hin'.
      { rewrite <- (kids_copied_names _ _ Hcop). apply list_elem_of_fmap. by exists (name, c'). }
      apply list_elem_of_fmap in Hin' as ([? c0] & -> & Hin'). by apply (Hown _ c0).
    + intros name c' k Hin Hx. eapply tree_at_mono; [by eapply Hkids|exact Hk].
  - destruct n as [i kids]. simpl in Hn. subst i. by constructor.
Qed.

Lemma subdir_copied rec rounds P s d name i c f sp ses w u w' : dir_ok rec c -> own name -> s <> d ->
  at_name (w_fs w) s name i -> tree_at P (w_fs w) i c -> (forall k, P k -> k <> d) ->
  w_fs w !! i = Some f -> f_body f = BDir sp ses ->
  copy_subdir env rec rounds s d name (stat_of f) w = (Ok u, w') -> copied_at d name c w w'.
Proof.
  intros Hrec Hn Hsd Hi Ht HP Hf Hb E. unfold copy_subdir in E.
  destruct (tree_at_lookup _ _ _ _ Ht) as (g & Pi & Hg & Hp & Hino). rewrite Hf in Hg. injection Hg as <-.
  apply st_bind_Ok in E as (u1 & w1 & E1 & E). apply make_new_quiet in E1 as [j He]; [|done].
  destruct (enters_inv _ _ _ _ _ _ He) as (Hj & Hjd & Hnew & Hf1 & Hat).
  assert (i <> j) as Hij by congruence.
  apply st_bind_Ok in E as (cs & w2 & [H2 Hcs]%openat_quiet & E); [|done..].
  pose proof (at_name_fun _ _ _ _ _ (at_name_frame _ _ _ _ _ _ Hi Hf1 Hsd) Hcs) as <-.
  apply st_bind_Ok in E as (cd & w3 & [H3 Hcd]%openat_quiet & E); [|done..].
  rewrite (proj1 H2) in Hcd. pose proof (at_name_fun _ _ _ _ _ Hat Hcd) as <-.
  pose proof (still_trans _ _ _ H2 H3) as [S1 S2]. rewrite <- S1 in Hj, Hf1. clear H2 H3 Hcs Hcd.
  apply st_bind_Ok in E as (u4 & w4 & E4 & E).
  eapply (Hrec (fun k => P k /\ is_Some (w_fs w !! k))) in E4 as (es & kids' & Hj4 & Hholds & Hcop & Hf4 & B4);
    [| |intros k [_ Hk] ->; rewrite Hnew in Hk; by destruct Hk|exact Hj|done].
  2: { eapply tree_at_mono; [exact Ht|]. intros k Hk Hs. split; [done|]. apply Hf1; auto. }
  assert (i <> d) as Hid by auto.
  assert (w_fs w4 !! i = Some f) as Hi4 by (rewrite Hf4, Hf1; rewrite ?Hf1, ?Hf; by eauto).
  apply st_bind_Ok in E as (u5 & w5 & E5 & E6).
  destruct (dir_done _ _ _ _ _ _ _ _ _ _ _ _ Hij Hi4 Hp (ex_intro _ sp (ex_intro _ ses Hb)) Hj4 eq_refl eq_refl E5 E6)
    as (f' & [E7 B7] & Hb' & Hp' & Hc').
  destruct He as (df & parent & es0 & Hd & Hbd & Hes & _ & Eh & Bh).
  assert (w_fs w3 !! d = Some (set_body (BDir parent (<[name := j]> es0)) df)) as Hd3.
  { rewrite S1, Eh, lookup_insert_ne by done. apply lookup_insert_eq. }
  pose proof (tree_kids _ _ _ _ _ _ _ Ht Hf Hb) as (Hnd & _ & Hsub).
  destruct (dir_tree (fun k => w_fs w3 !! k = None) (fun k => w_fs w !! k = None) (w_fs w4) (w_fs w')
    j f f' d es c kids') as [Htree Hcopied]; try done.
  { by rewrite E7, lookup_insert_eq. }
  { intros name' c' Hc. by apply (Hsub _ c'). }
  { intros x Hx _. assert (x <> j) as Hxj by congruence. split; [|by rewrite E7, lookup_insert_ne].
    eapply frame_None; [exact Hf1|by rewrite Hd3|done]. }
  exists df, parent, es0, j, (Node (inode_of f') kids'). split_and!; try done.
  - rewrite E7, lookup_insert_ne, Hf4 by (by rewrite ?Hd3). done.
  - intros k Hk Hkd. assert (k <> j) by (intros ->; rewrite Hnew in Hk; by destruct Hk).
    rewrite E7, lookup_insert_ne, Hf4, Hf1 by (rewrite ?Hf1; done). done.
  - destruct (kinds f Hp) as (Kd & _). rewrite Hb in Kd. destruct c as [ic kids]. simpl in Hino. subst ic.
    rewrite B7, B4, S2, Bh. cbn [n_kids regular_bytes]. simpl i_stat. by rewrite Kd.
Qed.

Lemma tree_leaf_inv P fs i n f : tree_at P fs i n -> fs !! i = Some f ->
  (forall parent es, f_body f <> BDir parent es) -> n = Node (inode_of f) [].
Proof.
  intros Ht Hf Hb. inversion Ht as [? g parent es kids HP Hg Hp Hb'|? g HP Hg]; subst; rewrite Hf in Hg;
    injection Hg as <-; [by destruct (Hb parent es)|done].
Qed.

Lemma entry_copied rec rounds P s d name i c w u w' : dir_ok rec c -> own name -> s <> d ->
  at_name (w_fs w) s name i -> tree_at P (w_fs w) i c -> (forall k, P k -> k <> d) ->
  copy_entry env rec rounds s d name w = (Ok u, w') -> copied_at d name c w w'.
Proof.
  intros Hrec Hn Hsd Hi Ht HP E. unfold copy_entry in E. apply st_bind_Ok in E as (st & w1 & E1 & E2).
  apply fstatat_quiet in E1 as (H1 & j & f & Hj & Hf & ->); [|done].
  pose proof (at_name_fun _ _ _ _ _ Hi Hj) as <-. apply (copied_at_still _ _ _ _ _ _ H1).
  destruct (tree_at_lookup _ _ _ _ Ht) as (g & Pi & Hg & Hp & _). rewrite Hf in Hg. injection Hg as <-.
  assert (i <> d) as Hid by auto. destruct H1 as [F1 _]. rewrite <- F1 in Hi, Hf, Ht. clear Hj F1.
  destruct (kinds f Hp) as (Kd & Kl & Kr). unfold is_reg in Kr. rewrite Kd, Kl, Kr in E2.
  destruct (f_body f) as [sp ses|D|t|type rdev] eqn:Hb;
    [exact (subdir_copied _ _ _ _ _ _ _ _ _ _ _ _ _ _ Hrec Hn Hsd Hi Ht HP Hf Hb E2)|..];
    (rewrite (tree_leaf_inv _ _ _ _ _ Ht Hf) by (by rewrite Hb)).
  - by eapply regular_copied; [..|exact E2].
  - by eapply symlink_copied; [..|exact E2].
  - by eapply special_copied; [..|exact E2].
Qed.

(** *** All entries *)

Lemma entries_copied rec rounds P s d l : forall w u w' df parent es, s <> d -> (forall k, P k -> k <> d) ->
  w_fs w !! d = Some df -> f_body df = BDir parent es ->
  (forall name c, (name, c) ∈ l -> dir_ok rec c /\ own name /\
     exists i, at_name (w_fs w) s name i /\ tree_at P (w_fs w) i c) ->
  copy_entries env rec rounds s d l.*1 w = (Ok u, w') ->
  exists es', w_fs w' !! d = Some (set_body (BDir parent es') df) /\
    (forall name, is_Some (es' !! name) <-> is_Some (es !! name) \/ name ∈ l.*1) /\
    (forall name j, es !! name = Some j -> es' !! name = Some j) /\
    (forall name c, (name, c) ∈ l -> exists j c', es' !! name = Some j /\
       tree_at (fun k => w_fs w !! k = None) (w_fs w') j c' /\ copied kept c c') /\
    frame d (w_fs w) (w_fs w') /\ w_bytes w' = (w_bytes w + kids_bytes l)%N.
Proof.
  induction l as [|[name c] l IH]; intros w u w' df parent es Hsd HP Hd Hb Hl E.
  { injection E as _ <-. exists es. rewrite <- Hb, set_body_id. split_and!; try done; [set_solver| |simpl; lia].
    by intros ?? ?%elem_of_nil. }
  rewrite fmap_cons in E. cbn [copy_entries fst] in E. apply st_bind_Ok in E as (u1 & w1 & E1 & E2).
  destruct (Hl name c ltac:(left)) as (Hrec & Hn & i & Hi & Ht).
  eapply entry_copied in E1 as (df' & parent' & es0 & j & c' & Hd' & Hb' & Hfree & Hj & Hd1 & Ht1 & Hc & Hf1 & B1);
    [|done|done|exact Hsd|exact Hi|exact Ht|exact HP].
  rewrite Hd in Hd'. injection Hd' as <-. rewrite Hb in Hb'. injection Hb' as <- <-.
  assert (forall nm c1, (nm, c1) ∈ l -> dir_ok rec c1 /\ own nm /\
    exists i, at_name (w_fs w1) s nm i /\ tree_at P (w_fs w1) i c1) as Hl1.
  { intros nm c1 Hin. destruct (Hl nm c1 ltac:(by right)) as (Hr' & Hn' & i' & Hi' & Ht').
    split_and!; [done|apply Hn'..|]. exists i'. split; [by eapply at_name_frame|by eapply tree_frame]. }
  destruct (IH _ _ _ _ parent (<[name := j]> es) Hsd HP Hd1 eq_refl Hl1 E2) as (es' & Hd2 & Hdom & Hkeep & Hall & Hf2
    & B2).
  exists es'. split_and!; [done| | | |by eapply frame_chain|rewrite B2, B1; simpl; lia].
  - intros nm. rewrite Hdom, fmap_cons, elem_of_cons. simpl. destruct (decide (nm = name)) as [->|Hne].
    + rewrite lookup_insert_eq. split; [by right; left|]. intros _. left. eauto.
    + rewrite lookup_insert_ne by done. set_solver.
  - intros nm k Hk. apply Hkeep. rewrite lookup_insert_ne; [done|congruence].
  - intros nm c1 [[= -> ->]|Hin]%elem_of_cons.
    + exists j, c'. split_and!; [apply Hkeep, lookup_insert_eq| |done]. eapply tree_at_mono; [exact Ht1|].
      intros k Hk Hs. split; [done|]. apply Hf2; [done|]. congruence.
    + destruct (Hall _ _ Hin) as (j' & c1' & Hj' & Ht' & Hc'). exists j', c1'. split_and!; [done| |done].
      eapply tree_at_mono; [exact Ht'|]. intros k Hk _. split; [|done].
      eapply frame_None; [exact Hf1|by rewrite Hd1|done].
Qed.

Lemma read_entries_quiet s w names w' : read_entries env s w = (Ok names, w') ->
  still w w' /\ exists f parent es, w_fs w !! s = Some f /\ f_body f = BDir parent es /\
    ((forall name, is_Some (es !! name) -> own name) -> NoDup names /\
      forall name, name ∈ names <-> is_Some (es !! name)).
Proof.
  unfold read_entries. intros (u1 & w1 & H1%call_quiet & E)%st_bind_Ok.
  apply st_bind_Ok in E as (u2 & w2 & H2%call_quiet & E). apply st_bind_Ok in E as (u3 & w3 & H3%call_quiet & E).
  apply st_bind_Ok in E as (f & w4 & [H4 Hf]%peek_quiet & E). apply st_bind_Ok in E as (n & w5 & ->%now_quiet & E).
  destruct (f_body f) as [parent es| | |] eqn:Hb; try done. injection E as <- <-.
  rewrite (proj1 H3), (proj1 H2), (proj1 H1) in Hf.
  split; [by do 3 (eapply still_trans; [eassumption|])|]. exists f, parent, es. split_and!; [done|done|].
  intros Hown. set (l := listing env n _).
  assert (l ≡ₚ "."%string :: ".."%string :: (map_to_list es).*1) as Hl by apply (q_listing Hq).
  assert (forall name, name ∈ (map_to_list es).*1 <-> is_Some (es !! name)) as Hdom.
  { intros name. rewrite list_elem_of_fmap. split.
    - intros ([k v] & -> & Hkv%elem_of_map_to_list). by exists v.
    - intros [v Hv]. exists (name, v). split; [done|]. by apply elem_of_map_to_list. }
  split.
  - apply NoDup_filter. rewrite Hl. repeat (apply NoDup_cons; split).
    + intros [?|Hd%Hdom%Hown]%elem_of_cons; [done|by destruct Hd].
    + intros Hd%Hdom%Hown. by destruct Hd.
    + apply NoDup_fst_map_to_list.
  - intros name. rewrite list_elem_of_filter, Hl, !elem_of_cons, Hdom. split; [tauto|].
    intros Hs. destruct (Hown name Hs) as [? ?]. tauto.
Qed.

(** The copies, in the order of the tree. *)
Lemma pick_copies P fs (es : gmap string N) kids : (forall name c, (name, c) ∈ kids ->
    exists j c', es !! name = Some j /\
    tree_at P fs j c' /\ copied kept c c') ->
  exists kids', kids_copied kids kids' /\ forall name c', (name, c') ∈ kids' -> forall j, es !! name = Some j ->
    tree_at P fs j c'.
Proof.
  induction kids as [|[name c] kids IH]; intros Hall.
  { exists []. split; [constructor|]. by intros ?? ?%elem_of_nil. }
  destruct IH as (kids' & Hc & Ht); [by intros ???; apply Hall; right|].
  destruct (Hall name c ltac:(left)) as (j & c' & Hj & Ht' & Hcc). exists ((name, c') :: kids').
  split; [by constructor|].
  intros nm c1 [[= -> ->]|Hin]%elem_of_cons; [intros k Hk; congruence|by apply Ht].
Qed.

Lemma copy_dir_ok rounds depth : forall n, dir_ok (copy_dir env depth rounds) n.
Proof.
  induction depth as [|depth IH]; intros n P s d w u w' df parent Ht HP Hd Hb E; [done|]. cbn [copy_dir] in E.
  apply st_bind_Ok in E as (names & w1 & E1 & E2).
  apply read_entries_quiet in E1 as ([F1 B1] & f & sp & ses & Hs & Hsb & Hnames).
  destruct (tree_kids _ _ _ _ _ _ _ Ht Hs Hsb) as (Hnd & Hdom & Hsub).
  destruct Hnames as [Hnn Hin].
  { intros name [[? c] [-> Hc]]%Hdom%list_elem_of_fmap. by apply (Hsub _ c). }
  assert (names ≡ₚ (n_kids n).*1) as Hperm by (apply NoDup_Permutation; [done|done|intros; by rewrite Hin, Hdom]).
  apply Permutation_map_inv in Hperm as (l & -> & Hl). rewrite <- F1 in Hd, Hs, Ht.
  assert (s <> d) as Hsd by (destruct (tree_at_lookup _ _ _ _ Ht) as (? & Ps & _); auto).
  assert (forall name c, (name, c) ∈ l -> dir_ok (copy_dir env depth rounds) c /\ own name /\
    exists i, at_name (w_fs w1) s name i /\ tree_at P (w_fs w1) i c) as Hall.
  { intros name c Hc. rewrite <- Hl in Hc. destruct (Hsub _ _ Hc) as [Hown Hk]. split_and!; [apply IH|apply Hown..|].
    destruct (proj2 (Hdom name)) as [i Hi]; [apply list_elem_of_fmap; by exists (name, c)|].
    exists i. split; [by exists f, sp, ses|]. rewrite F1. by apply Hk. }
  destruct (entries_copied _ _ _ _ _ _ _ _ _ _ _ _ Hsd HP Hd Hb Hall E2) as (es' & Hd2 & Hdom' & _ & Hc & Hf2 & B2).
  assert (forall name c, (name, c) ∈ n_kids n -> exists j c', es' !! name = Some j /\
    tree_at (fun k => w_fs w1 !! k = None) (w_fs w') j c' /\ copied kept c c') as Hc'.
  { intros name c Hk. apply Hc. by rewrite <- Hl. }
  destruct (pick_copies _ _ _ _ Hc') as (kids' & Hcop & Htrees). exists es', kids'. rewrite F1 in *.
  split_and!; [done| |done|done|by rewrite B2, B1, (kids_bytes_perm _ _ Hl)]. split.
  - intros name. rewrite Hdom', lookup_empty, (kids_copied_names _ _ Hcop), Hl.
    split; [intros [[? [=]]|?]; done|by right].
  - intros name c j Hk Hj. by eapply Htrees.
Qed.

(** *** The whole tree *)

Lemma open_root_quiet p w i w' : open_dir_path env p w = (Ok i, w') ->
  still w w' /\ resolve env (w_fs w) 0 p = Some i /\
  exists f parent es, w_fs w !! i = Some f /\ f_body f = BDir parent es.
Proof.
  unfold open_dir_path. intros (u & w1 & H1%call_quiet & E)%st_bind_Ok. apply st_bind_Ok in E as (j & w2 & E1 & E2).
  unfold follow, look, st_bind in E1. destruct (resolve env (w_fs w1) 0 p) as [k|] eqn:Hr; [|done].
  injection E1 as -> <-.
  apply open_object_quiet in E2 as (H2 & -> & Hdir). rewrite (proj1 H1) in Hr, Hdir.
  split_and!; [by eapply still_trans|done|by apply Hdir].
Qed.

End quiet.

(** ** A frozen sandbox

    A set-uid file, and an opaque directory with a link and a whiteout; the
    destination is object 1.  The file system has no clones, the copy crosses
    devices, transfers move a byte, directories are read backwards, and a user
    attribute may not be set. *)

Module Witness.

Definition root_dir : file := mkFile (BDir 2 (<["d"%string := 3%N]> (<["su"%string := 6%N]> ∅))) 493 1000 1000 [].
Definition opaque_dir : file := mkFile (BDir 0 (<["link"%string := 9%N]> (<["gone"%string := 12%N]> ∅))) 448 1000 1000
  [("trusted.overlay.opaque"%string, [Byte.x79]); ("user.note"%string, [Byte.x00])].
Definition su : file := mkFile (BData (bytes_of_string "note")) 2541 1000 1000 [].
Definition link : file := mkFile (BLink "../su") 511 1000 1000 [].
Definition whiteout : file := mkFile (BSpecial S_IFCHR 0) 0 1000 1000 [].
Definition empty_dir : file := mkFile (BDir 2 ∅) 493 0 0 [].

Definition heap : gmap N file :=
  <[0%N := root_dir]> (<[3%N := opaque_dir]> (<[6%N := su]> (<[9%N := link]>
  (<[12%N := whiteout]> (<[1%N := empty_dir]> ∅))))).

Definition faulty (n : nat) : option Io.error :=
  if decide (n = 28%nat) then Some (Io.mk Io.PermissionDenied (Some 1) "no user attributes")
  else if decide (n = 32%nat) then Some (Io.mk Io.InvalidInput (Some EINVAL) "no clones")
  else if decide (n = 33%nat) then Some (Io.mk Io.Other (Some EXDEV) "across devices")
  else None.

Definition frozen : env :=
  mkEnv (fun _ fs => fs) faulty (fun _ => 1%N) (fun _ names => rev names) (fun _ => []) (fun _ => false)
    (fun _ _ p => if decide (p = "/layer") then Some 0%N else if decide (p = "/copy") then Some 1%N else None)
    (fun _ fs => fs) FdCopySpec.Witness.fresh_dest (fun p => Z.ldiff p 3072) (0, 0).

Lemma frozen_quiet : quiet frozen.
Proof.
  split; simpl; try done.
  - intros _ l. symmetry. apply Permutation_rev.
  - intros fs. apply FdCopySpec.Witness.fresh_dest_fresh.
  - intros n e. unfold faulty. repeat (case_decide; [by intros [= <-]|]). done.
Qed.

Definition leaf (f : file) : node := Node (inode_of f) [].
Definition tree : node :=
  Node (inode_of root_dir)
    [("d"%string, Node (inode_of opaque_dir) [("gone"%string, leaf whiteout); ("link"%string, leaf link)]);
     ("su"%string, leaf su)].

Lemma heap_leaf i f : i <> 1%N -> heap !! i = Some f -> proper f -> (forall parent es, f_body f <> BDir parent es) ->
  tree_at (fun k => k <> 1%N) heap i (leaf f).
Proof. intros. by apply tree_leaf. Qed.

Lemma entries_two (a b : string) (i j : N) name :
  is_Some ((<[a := i]> (<[b := j]> ∅) : gmap string N) !! name) <-> name = a \/ name = b.
Proof. rewrite !lookup_insert_is_Some', lookup_empty, is_Some_alt. naive_solver. Qed.

Lemma heap_opaque : tree_at (fun k => k <> 1%N) heap 3%N
  (Node (inode_of opaque_dir) [("gone"%string, leaf whiteout); ("link"%string, leaf link)]).
Proof.
  eapply tree_dir; [done|by vm_compute| |reflexivity| | | |].
  - split; [simpl; lia|]. split; [|done]. simpl.
    repeat constructor; try done; apply FsCopySpec.Witness.xattr_name_lit; done.
  - apply (bool_decide_unpack _). by vm_compute.
  - intros name. rewrite entries_two. simpl. set_solver.
  - intros name c [[= -> ->]|[[= -> ->]|[]%elem_of_nil]%elem_of_cons]%elem_of_cons; done.
  - intros name c j [[= -> ->]|[[= -> ->]|[]%elem_of_nil]%elem_of_cons]%elem_of_cons Hj; vm_compute in Hj;
      injection Hj as <-; apply heap_leaf; try done; (split; [simpl; lia|]); (split; [constructor|by split_and?]).
Qed.

Lemma heap_tree : tree_at (fun k => k <> 1%N) heap 0%N tree.
Proof.
  eapply tree_dir; [done|by vm_compute| |reflexivity| | | |].
  - split; [simpl; lia|]. by split; [constructor|].
  - apply (bool_decide_unpack _). by vm_compute.
  - intros name. rewrite entries_two. simpl. set_solver.
  - intros name c [[= -> ->]|[[= -> ->]|[]%elem_of_nil]%elem_of_cons]%elem_of_cons; done.
  - intros name c j [[= -> ->]|[[= -> ->]|[]%elem_of_nil]%elem_of_cons]%elem_of_cons Hj; vm_compute in Hj;
      injection Hj as <-; [exact heap_opaque|by apply heap_leaf].
Qed.

Definition after : world := (copy_tree frozen 3 9 "/layer" "/copy" (mkWorld heap 0 [] 0)).2.

Lemma frozen_run : copy_tree frozen 3 9 "/layer" "/copy" (mkWorld heap 0 [] 0) = (Ok 4%N, after).
Proof.
  rewrite (surjective_pairing (copy_tree _ _ _ _ _ _)). f_equal.
Qed.


End Witness.
