(* ===== verification/Xattr.v ===== *)
(** * Reading an attribute by path

    draug-ns/src/linux/fscopy.rs, [get_xattr], which the diff walker calls with
    the path of every directory.  Diff.v asks a tree for the attribute; here is
    the call sequence that gets it from the kernel, with a buffer that grows
    until the value fits, and the proof that the two agree. *)

From S2P Require Import Prelude Text Types FsTree FsCopy.
From S2P Require Diff.

(** ** The code *)

(** A string for the kernel ends at its first NUL. *)
Definition has_nul (s : string) : bool := existsb (is_byte 0) (bytes_of_string s).

(** [cstring] *)
Definition cstring (p : path) : result Io.error path :=
  if has_nul p then Err (Io.new Io.InvalidInput "path contains NUL") else Ok p.

(** [CString::new(name)], its error turned into an [ErrorKind]. *)
Definition cname (name : string) : result Io.error string :=
  if has_nul name then Err (Io.new Io.InvalidInput "invalid input parameter") else Ok name.

Definition ENOENT : Io.error := Io.mk Io.NotFound (Some 2) "No such file or directory (os error 2)".

(** How one [lgetxattr] ends, for a buffer of [cap] bytes: the value, its
    absence, or that it does not fit; [found] is what is at the path. *)
Inductive got := Value (v : list byte) | NoData | Range.

Definition lgetxattr (found : option inode) (name : string) (cap : N) : K got := fun k =>
  match call k with
  | (Err e, k') =>
      if errno_in e [ENODATA; EOPNOTSUPP] then (Ok NoData, k')
      else if errno_in e [ERANGE] then (Ok Range, k') else (Err e, k')
  | (Ok _, k') =>
      match found with
      | None => (Err ENOENT, k')
      | Some i =>
          match assoc name (i_xattrs i) with
          | None => (Ok NoData, k')
          | Some v => (Ok (if (len v <=? cap)%N then Value v else Range), k')
          end
      end
  end.

(** [None]: the bound on the rounds was too small. *)
Fixpoint get_loop (rounds : nat) (found : option inode) (name : string) (cap : N) : K (option (option (list byte))) :=
  match rounds with
  | O => st_ret None
  | S rounds' =>
      do! g := lgetxattr found name cap in
      match g with
      | Value v => st_ret (Some (Some v))
      | NoData => st_ret (Some None)
      | Range => get_loop rounds' found name (cap * 2)
      end
  end.

Definition get_xattr (rounds : nat) (p : path) (found : option inode) (name : string)
  : K (option (option (list byte))) :=
  do! _ := st_lift (cstring p) in
  do! name := st_lift (cname name) in
  get_loop rounds found name 256.

(** ** The loop ends *)

(** The size of the value, if there is one. *)
Definition size_at (found : option inode) (name : string) : nat :=
  match found ≫= fun i => assoc name (i_xattrs i) with Some v => length v | None => 0 end.

(** A round that finds the buffer too small either met a failure of the
    schedule or doubles a buffer smaller than the value. *)
Lemma lgetxattr_range found name cap k k' : lgetxattr found name cap k = (Ok Range, k') ->
  k_faults k' = tail (k_faults k) /\
  ((length (k_faults k') < length (k_faults k))%nat \/ (N.to_nat cap < size_at found name)%nat).
Proof.
  unfold lgetxattr, call, size_at. destruct (k_faults k) as [|[e|] fs] eqn:Hf; simpl.
  - destruct found as [i|]; [|done]. simpl. destruct (assoc name (i_xattrs i)) as [v|]; [|done].
    destruct (N.leb_spec (len v) cap); [done|]. intros [= <-]. simpl. split; [done|]. right. unfold len in *. lia.
  - destruct (errno_in e [ENODATA; EOPNOTSUPP]); [done|]. destruct (errno_in e [ERANGE]); [|done].
    intros [= <-]. simpl. split; [done|left; lia].
  - destruct found as [i|]; [|done]. simpl. destruct (assoc name (i_xattrs i)) as [v|]; [|done].
    destruct (len v <=? cap)%N; [done|]. intros [= <-]. simpl. split; [done|left; lia].
Qed.

Lemma get_loop_ends rounds found name : forall cap k, (0 < cap)%N ->
  (length (k_faults k) + (size_at found name - N.to_nat cap) < rounds)%nat ->
  (get_loop rounds found name cap k).1 <> Ok None.
Proof.
  induction rounds as [|rounds IH]; intros cap k Hc Hr; [lia|]. cbn [get_loop]. unfold st_bind.
  destruct (lgetxattr found name cap k) as [[[v| |]|e] k'] eqn:E; try done.
  apply lgetxattr_range in E as [Hk Hor]. apply IH; [lia|]. rewrite Hk in *. destruct (k_faults k); simpl in *; lia.
Qed.

(** ** It reads what is there *)

Lemma get_loop_whole rounds i name : forall cap k, k_faults k = [] -> (0 < cap)%N ->
  (size_at (Some i) name - N.to_nat cap < rounds)%nat ->
  (get_loop rounds (Some i) name cap k).1 = Ok (Some (assoc name (i_xattrs i))).
Proof.
  induction rounds as [|rounds IH]; intros cap k Hk Hc Hr; [lia|]. cbn [get_loop]. unfold st_bind.
  unfold lgetxattr, call. rewrite Hk. unfold size_at in *. simpl in Hr.
  destruct (assoc name (i_xattrs i)) as [v|] eqn:Hv; [|done]. destruct (N.leb_spec (len v) cap); [done|].
  rewrite IH; [done|done|lia|]. cbn [mbind option_bind]. rewrite Hv. unfold len in *. lia.
Qed.

(** An attribute of any size is read whole, in finitely many rounds: what
    the system calls deliver for a path is what Diff.v reads off the tree, an
    attribute that cannot be read included. *)
Theorem get_xattr_faithful p n name k : has_nul p = false -> has_nul name = false ->
  (forall e, xattr_error (n_inode n) = Some e ->
     errno_in e [ENODATA; EOPNOTSUPP] = false /\ errno_in e [ERANGE] = false) ->
  k_faults k = (match xattr_error (n_inode n) with Some e => [Some e] | None => [] end) ->
  exists rounds, forall more, (rounds <= more)%nat ->
  (get_xattr more p (Some (n_inode n)) name k).1 =
    match Diff.get_xattr n name with Ok v => Ok (Some v) | Err e => Err e end.
Proof.
  intros Hp Hn He Hk. exists (S (size_at (Some (n_inode n)) name)). intros more Hmore.
  unfold get_xattr, st_bind, st_lift, cstring, cname. rewrite Hp, Hn. unfold Diff.get_xattr.
  destruct (xattr_error (n_inode n)) as [e|] eqn:Hx.
  - destruct more as [|more]; [lia|]. cbn [get_loop]. unfold st_bind, lgetxattr, call. rewrite Hk.
    by destruct (He e eq_refl) as [-> ->].
  - apply get_loop_whole; [done|lia|lia].
Qed.

(** A bound on the rounds that is enough for every schedule of failures, the
    spurious ones included. *)
Theorem get_xattr_returns p found name k :
  (get_xattr (S (length (k_faults k) + size_at found name)) p found name k).1 <> Ok None.
Proof.
  unfold get_xattr, st_bind, st_lift, cstring, cname. destruct (has_nul p); [done|]. destruct (has_nul name); [done|].
  apply get_loop_ends; lia.
Qed.

(** ** Witness *)

(** An attribute of 600 bytes: the buffer grows twice. *)
Definition tagged : node :=
  Node (mkInode (mkStat 16877 0 0 4096 0) [("user.note"%string, replicate 600 Byte.x79)] [] None None) [].

Lemma get_xattr_faithful_witness : exists rounds, forall more, (rounds <= more)%nat ->
  (get_xattr more "/d" (Some (n_inode tagged)) "user.note" (mkKernel [] [] [] [] 0)).1 =
    Ok (Some (Some (replicate 600 Byte.x79))).
Proof.
  exact (get_xattr_faithful "/d" tagged "user.note" (mkKernel [] [] [] [] 0) eq_refl eq_refl
    (fun e (H : None = Some e) => match H with eq_refl => I end) eq_refl).
Defined.
