(* ===== verification/Router.v ===== *)
(** * Exit-status routing in the guest

    draug-guest/src/server.rs, lines 87-199.  One reaper thread waits for every
    child and routes its status to the thread that called [wait_child], or
    parks it until somebody does.  The state is the [Router] behind the mutex;
    an operation is what happens under one lock of it, so the interleavings of
    the threads are the sequences of operations.  A waiter's channel is a
    number; a status sent on it is the [Some] that [route] returns. *)

From S2P Require Import Prelude Types.

Record ExitInfo := mkExitInfo { code : option Z; signal : option Z }.

Definition MAX_ORPHANS : nat := 4096.

Record Router := mkRouter {
  waiters : gmap Z N;
  orphans : gmap Z ExitInfo;
  orphan_order : list Z;
}.

Definition Router_default : Router := mkRouter ∅ ∅ [].

(** The [while] loop of [route]: pop until the map is within the cap. *)
Fixpoint evict (order : list Z) (parked : gmap Z ExitInfo) : list Z * gmap Z ExitInfo :=
  if decide (size parked <= MAX_ORPHANS)%nat then (order, parked)
  else match order with
       | old :: order' => evict order' (delete old parked)
       | [] => ([], parked)
       end.

Definition route (pid : Z) (info : ExitInfo) (r : Router) : Router * option (N * ExitInfo) :=
  match waiters r !! pid with
  | Some tx => (mkRouter (delete pid (waiters r)) (orphans r) (orphan_order r), Some (tx, info))
  | None =>
      let order := match orphans r !! pid with
                   | None => orphan_order r ++ [pid]
                   | Some _ => orphan_order r
                   end in
      let '(order, parked) := evict order (<[pid := info]> (orphans r)) in
      (mkRouter (waiters r) parked order, None)
  end.

(** [wait_child] under the lock: the parked status, or [None] and a registered
    waiter that blocks on the channel [tx]. *)
Definition wait_child (pid : Z) (tx : N) (r : Router) : Router * option ExitInfo :=
  match orphans r !! pid with
  | Some info => (mkRouter (waiters r) (delete pid (orphans r)) (orphan_order r), Some info)
  | None => (mkRouter (<[pid := tx]> (waiters r)) (orphans r) (orphan_order r), None)
  end.

(** The reaper: what one return of [waitpid] makes it do. *)
Inductive WaitStatus :=
  | WExited (pid code : Z)
  | WSignaled (pid sig : Z)
  | WOther.

Inductive Errno := ECHILD | EINTR | EOther.

Inductive reaper_action := RouteStatus (pid : Z) (info : ExitInfo) | Sleep50ms | Retry.

Definition reaper (w : result Errno WaitStatus) : reaper_action :=
  match w with
  | Ok (WExited pid c) => RouteStatus pid (mkExitInfo (Some c) None)
  | Ok (WSignaled pid s) => RouteStatus pid (mkExitInfo None (Some s))
  | Ok WOther => Retry
  | Err ECHILD => Sleep50ms
  | Err EINTR => Retry
  | Err EOther => Sleep50ms
  end.

(** ** Interleavings *)

Inductive event :=
  | Route (pid : Z) (info : ExitInfo)
  | Wait (pid : Z) (tx : N).

(** The router after the events, and the statuses that reached a waiter. *)
Definition step (e : event) (s : Router * list (N * ExitInfo)) : Router * list (N * ExitInfo) :=
  let '(r, out) := s in
  match e with
  | Route pid info =>
      let '(r', sent) := route pid info r in (r', out ++ option_list sent)
  | Wait pid tx =>
      let '(r', got) := wait_child pid tx r in (r', out ++ option_list (pair tx <$> got))
  end.

Definition run (es : list event) : Router * list (N * ExitInfo) :=
  fold_left (fun s e => step e s) es (Router_default, []).

Definition routes (es : list event) : list (Z * ExitInfo) :=
  omap (fun e => match e with Route p i => Some (p, i) | _ => None end) es.
Definition waits (es : list event) : list (Z * N) :=
  omap (fun e => match e with Wait p tx => Some (p, tx) | _ => None end) es.

Lemma run_snoc es e : run (es ++ [e]) = step e (run es).
Proof. unfold run. by rewrite fold_left_app. Qed.

Lemma routes_snoc es e : routes (es ++ [e]) = routes es ++ routes [e].
Proof. apply omap_app. Qed.
Lemma waits_snoc es e : waits (es ++ [e]) = waits es ++ waits [e].
Proof. apply omap_app. Qed.

(** ** Bounds *)

Lemma evict_small order parked : (size parked <= MAX_ORPHANS)%nat -> evict order parked = (order, parked).
Proof. intros. destruct order; cbn [evict]; by rewrite decide_True. Qed.

(** Enough of [orphan_order] is left to bring the map back under the cap. *)
Lemma evict_bound order parked : (forall p, is_Some (parked !! p) -> p ∈ order) ->
  let '(order', parked') := evict order parked in
  (size parked' <= MAX_ORPHANS)%nat /\ (forall p, is_Some (parked' !! p) -> p ∈ order') /\
  parked' ⊆ parked.
Proof.
  revert parked. induction order as [|old order IH]; intros parked Hp; cbn [evict].
  - assert (parked = ∅) as ->.
    { apply map_empty. intros p. apply eq_None_not_Some. intros H%Hp. by apply not_elem_of_nil in H. }
    case_decide as H; [|by rewrite map_size_empty in H; unfold MAX_ORPHANS in H; lia].
    split_and!; [done|by intros p [? ?]|done].
  - case_decide; [by split_and!|]. specialize (IH (delete old parked)).
    destruct (evict order (delete old parked)) as [order' parked'].
    destruct IH as (H1 & H2 & H3).
    + intros p Hsome. destruct (decide (p = old)) as [->|Hne].
      { rewrite lookup_delete_eq in Hsome. by destruct Hsome. }
      rewrite lookup_delete_ne in Hsome by done.
      apply Hp, elem_of_cons in Hsome as [|]; done.
    + split_and!; [done..|]. etrans; [exact H3|]. apply delete_subseteq.
Qed.

Definition router_ok (r : Router) : Prop :=
  (size (orphans r) <= MAX_ORPHANS)%nat /\
  (forall p, is_Some (orphans r !! p) -> p ∈ orphan_order r).

Lemma route_ok p i r : router_ok r -> router_ok (fst (route p i r)).
Proof.
  intros [Hs Ho]. unfold route. destruct (waiters r !! p); [done|].
  set (order := match orphans r !! p with None => _ | _ => _ end).
  pose proof (evict_bound order (<[p := i]> (orphans r))) as Hev.
  destruct (evict _ _) as [order' parked']. simpl.
  destruct Hev as (H1 & H2 & _); [|by split].
  intros q Hq. subst order. destruct (decide (q = p)) as [->|Hne].
  - destruct (orphans r !! p) eqn:E; [by apply Ho|]. apply elem_of_app. right. by left.
  - rewrite lookup_insert_ne in Hq by done. specialize (Ho q Hq).
    destruct (orphans r !! p); [done|]. apply elem_of_app. by left.
Qed.

Lemma wait_child_ok p tx r : router_ok r -> router_ok (fst (wait_child p tx r)).
Proof.
  intros [Hs Ho]. unfold wait_child. destruct (orphans r !! p) eqn:E; simpl; [|done].
  split; simpl.
  - etrans; [|exact Hs]. apply map_subseteq_size, delete_subseteq.
  - intros q Hq. apply Ho. destruct (decide (q = p)) as [->|]; [by eexists|].
    by rewrite lookup_delete_ne in Hq.
Qed.

Lemma run_router_ok es : router_ok (fst (run es)).
Proof.
  induction es as [|e es IH] using rev_ind.
  - split; simpl; [rewrite map_size_empty; lia|]. intros p [? Hp]. by rewrite lookup_empty in Hp.
  - rewrite run_snoc. destruct (run es) as [r out], e as [p i|p tx]; simpl in *.
    + pose proof (route_ok p i r IH). by destruct (route p i r).
    + pose proof (wait_child_ok p tx r IH). by destruct (wait_child p tx r).
Qed.

(** ** Delivery *)

(** No pid is reused and nothing was evicted. *)
Definition one_shot (es : list event) : Prop :=
  NoDup (routes es).*1 /\ NoDup (waits es).*1 /\ (length (routes es) <= MAX_ORPHANS)%nat.

Definition tracks (es : list event) (r : Router) (out : list (N * ExitInfo)) : Prop :=
  (forall p i, orphans r !! p = Some i <-> (p, i) ∈ routes es /\ p ∉ (waits es).*1) /\
  (forall p tx, waiters r !! p = Some tx <-> (p, tx) ∈ waits es /\ p ∉ (routes es).*1) /\
  (forall tx i, (tx, i) ∈ out <-> exists p, (p, i) ∈ routes es /\ (p, tx) ∈ waits es).

(** A map whose bindings are in a list is no larger than the list. *)
Lemma map_size_list (m : gmap Z ExitInfo) (l : list (Z * ExitInfo)) :
  (forall p i, m !! p = Some i -> (p, i) ∈ l) -> (size m <= length l)%nat.
Proof.
  intros H. etrans; [|apply submseteq_length, NoDup_submseteq; [apply (NoDup_map_to_list m)|]].
  - by rewrite length_map_to_list.
  - intros [p i] Hp%elem_of_map_to_list. by apply H.
Qed.

Lemma elem_of_keys {V} (p : Z) (l : list (Z * V)) : p ∈ l.*1 <-> exists v, (p, v) ∈ l.
Proof.
  rewrite list_elem_of_fmap. split; [intros ([? v] & -> & ?); eauto|]. intros [v Hv]. by exists (p, v).
Qed.

Lemma route_tracks es p i r out : one_shot (es ++ [Route p i]) -> tracks es r out ->
  let '(r', sent) := route p i r in tracks (es ++ [Route p i]) r' (out ++ option_list sent).
Proof.
  intros (Hr & Hw & Hlen) (Hor & Hwa & Hout). unfold tracks.
  rewrite routes_snoc, waits_snoc in *. simpl in *. rewrite ?app_nil_r in *.
  rewrite fmap_app, NoDup_app in Hr. destruct Hr as (_ & Hfresh & _).
  assert (p ∉ (routes es).*1) as Hp by (intros H; apply (Hfresh p H); simpl; by left).
  unfold route. destruct (waiters r !! p) as [tx|] eqn:E.
  - pose proof (proj1 (Hwa _ _) E) as [Hpw _]. split_and!; simpl.
    + intros q j. rewrite Hor, elem_of_app, list_elem_of_singleton. split; [tauto|].
      intros [[?|[= -> ->]] Hn]; [tauto|]. destruct Hn. apply elem_of_keys. eauto.
    + intros q tx'. rewrite fmap_app, not_elem_of_app. simpl. rewrite not_elem_of_cons.
      destruct (decide (q = p)) as [->|Hq].
      * rewrite lookup_delete_eq. naive_solver.
      * rewrite lookup_delete_ne by done. rewrite Hwa. set_solver.
    + intros tx' j. rewrite elem_of_app, list_elem_of_singleton, Hout. setoid_rewrite elem_of_app.
      setoid_rewrite list_elem_of_singleton. split.
      * intros [(q & ? & ?)|[= -> ->]]; eauto.
      * intros (q & [?|[= -> ->]] & Hq); [eauto|]. right.
        apply elem_of_list_to_map in Hpw, Hq; [|done..]. congruence.
  - assert (orphans r !! p = None) as Hop.
    { apply eq_None_not_Some. intros [j Hj]. apply Hor in Hj as [Hj _]. apply Hp, elem_of_keys. eauto. }
    rewrite Hop. assert (p ∉ (waits es).*1) as Hpw.
    { intros [tx Htx]%elem_of_keys. assert (waiters r !! p = Some tx) by (by apply Hwa). congruence. }
    assert (forall q j, <[p:=i]> (orphans r) !! q = Some j <->
      (q, j) ∈ routes es ++ [(p, i)] /\ q ∉ (waits es).*1) as Hor'.
    { intros q j. rewrite elem_of_app, list_elem_of_singleton. destruct (decide (q = p)) as [->|Hq].
      - rewrite lookup_insert_eq. split; [naive_solver|]. intros [[Hin|[= ->]] _]; [|done].
        destruct Hp. apply elem_of_keys. eauto.
      - rewrite lookup_insert_ne, Hor by done. naive_solver. }
    rewrite evict_small.
    2: { etrans; [|exact Hlen]. apply map_size_list. intros q j Hq. by apply Hor' in Hq as [? _]. }
    split_and!; simpl; [done| |].
    + intros q tx. rewrite Hwa, fmap_app, not_elem_of_app. simpl. rewrite not_elem_of_cons.
      split; [|naive_solver]. intros [Hq ?]. split_and!; [done..| |apply not_elem_of_nil].
      intros ->. apply Hpw, elem_of_keys. eauto.
    + intros tx j. rewrite app_nil_r, Hout. setoid_rewrite elem_of_app.
      setoid_rewrite list_elem_of_singleton. split; [naive_solver|].
      intros (q & [?|[= -> ->]] & Hq); [eauto|]. destruct Hpw. apply elem_of_keys. eauto.
Qed.

Lemma wait_tracks es p tx r out : one_shot (es ++ [Wait p tx]) -> tracks es r out ->
  let '(r', got) := wait_child p tx r in
  tracks (es ++ [Wait p tx]) r' (out ++ option_list (pair tx <$> got)).
Proof.
  intros (Hr & Hw & Hlen) (Hor & Hwa & Hout). unfold tracks.
  rewrite routes_snoc, waits_snoc in *. simpl in *. rewrite ?app_nil_r in *.
  rewrite fmap_app, NoDup_app in Hw. destruct Hw as (_ & Hfresh & _).
  assert (p ∉ (waits es).*1) as Hp by (intros H; apply (Hfresh p H); simpl; by left).
  unfold wait_child. destruct (orphans r !! p) as [i|] eqn:E; simpl.
  - pose proof (proj1 (Hor _ _) E) as [Hpr _]. split_and!.
    + intros q j. rewrite fmap_app, not_elem_of_app. simpl. rewrite not_elem_of_cons.
      destruct (decide (q = p)) as [->|Hq].
      * rewrite lookup_delete_eq. naive_solver.
      * rewrite lookup_delete_ne by done. rewrite Hor. set_solver.
    + intros q tx'. rewrite Hwa, elem_of_app, list_elem_of_singleton. split; [tauto|].
      intros [[?|[= -> ->]] Hn]; [tauto|]. destruct Hn. apply elem_of_keys. eauto.
    + intros tx' j. rewrite elem_of_app, list_elem_of_singleton, Hout. setoid_rewrite elem_of_app.
      setoid_rewrite list_elem_of_singleton. split.
      * intros [(q & ? & ?)|[= -> ->]]; eauto.
      * intros (q & Hq & [?|[= -> ->]]); [eauto|]. right.
        apply elem_of_list_to_map in Hpr, Hq; [|done..]. congruence.
  - assert (p ∉ (routes es).*1) as Hpr.
    { intros [i Hi]%elem_of_keys. assert (orphans r !! p = Some i) by (by apply Hor). congruence. }
    split_and!.
    + intros q j. rewrite Hor, fmap_app, not_elem_of_app. simpl. rewrite not_elem_of_cons.
      split; [|naive_solver]. intros [Hq ?]. split_and!; [done..| |apply not_elem_of_nil].
      intros ->. apply Hpr, elem_of_keys. eauto.
    + intros q tx'. rewrite elem_of_app, list_elem_of_singleton. destruct (decide (q = p)) as [->|Hq].
      * rewrite lookup_insert_eq. split; [naive_solver|]. intros [[Hin|[= ->]] _]; [|done].
        destruct Hp. apply elem_of_keys. eauto.
      * rewrite lookup_insert_ne, Hwa by done. naive_solver.
    + intros tx' j. rewrite app_nil_r, Hout. setoid_rewrite elem_of_app.
      setoid_rewrite list_elem_of_singleton. split; [naive_solver|].
      intros (q & Hq & [?|[= -> ->]]); [eauto|]. destruct Hpr. apply elem_of_keys. eauto.
Qed.

Lemma one_shot_snoc es e : one_shot (es ++ [e]) -> one_shot es.
Proof.
  intros (Hr & Hw & Hl). rewrite routes_snoc, waits_snoc in *.
  rewrite fmap_app, NoDup_app in Hr. rewrite fmap_app, NoDup_app in Hw. rewrite length_app in Hl.
  destruct Hr as [? _], Hw as [? _]. split_and!; [done..|lia].
Qed.

Lemma run_tracks es : one_shot es -> tracks es (fst (run es)) (snd (run es)).
Proof.
  induction es as [|e es IH] using rev_ind.
  - intros _. split_and!; simpl; intros; rewrite ?lookup_empty; set_solver.
  - intros Hes. pose proof (IH (one_shot_snoc _ _ Hes)) as Ht. rewrite run_snoc.
    destruct (run es) as [r out], e as [p i|p tx]; simpl in *.
    + pose proof (route_tracks _ _ _ _ _ Hes Ht). by destruct (route p i r).
    + pose proof (wait_tracks _ _ _ _ _ Hes Ht). by destruct (wait_child p tx r).
Qed.

(** ** The theorems *)

(** C11: every exec thread is given the status of its own child, and only that,
    in whatever order the reaper and the thread take the lock - as long as no
    pid is used twice and no more than MAX_ORPHANS children are reaped. *)
Theorem every_wait_answered es tx i : one_shot es ->
  (tx, i) ∈ snd (run es) <-> exists p, (p, i) ∈ routes es /\ (p, tx) ∈ waits es.
Proof. intros Hes. apply (run_tracks es Hes). Qed.

(** No sequence of exits and waits makes the router park more than
    MAX_ORPHANS statuses, and every parked one can still be evicted. *)
Theorem orphans_bounded es : router_ok (fst (run es)).
Proof. apply run_router_ok. Qed.

(** [n] short-lived execs whose status was parked before they waited. *)
Definition quick_execs (p : Z) (i : ExitInfo) (n : nat) : list event :=
  concat (replicate n [Route p i; Wait p 0%N]).

Lemma evict_one order (p : Z) (i : ExitInfo) : evict order (<[p := i]> ∅) = (order, <[p := i]> ∅).
Proof.
  apply evict_small. rewrite map_size_insert, lookup_empty, map_size_empty. unfold MAX_ORPHANS. lia.
Qed.

Lemma route_alone order (p : Z) (i : ExitInfo) :
  route p i (mkRouter ∅ ∅ order) = (mkRouter ∅ (<[p := i]> ∅) (order ++ [p]), None).
Proof. unfold route. simpl. by rewrite !lookup_empty, evict_one. Qed.

Lemma wait_alone order (p : Z) tx (i : ExitInfo) :
  wait_child p tx (mkRouter ∅ (<[p := i]> ∅) order) = (mkRouter ∅ ∅ order, Some i).
Proof. unfold wait_child. simpl. by rewrite lookup_insert_eq, delete_insert_eq, delete_empty. Qed.

Lemma quick_execs_run p i n : fst (run (quick_execs p i n)) = mkRouter ∅ ∅ (replicate n p).
Proof.
  unfold quick_execs. induction n as [|n IH]; [done|].
  replace (concat (replicate (S n) [Route p i; Wait p 0%N]))
    with ((concat (replicate n [Route p i; Wait p 0%N]) ++ [Route p i]) ++ [Wait p 0%N]).
  2: { rewrite (replicate_S_end n [Route p i; Wait p 0%N]), concat_app. by rewrite <- (assoc_L (++)). }
  rewrite !run_snoc. destruct (run _) as [r out]. simpl in IH. subst r. unfold step.
  rewrite route_alone, wait_alone. simpl. f_equal. symmetry. apply (replicate_S_end n p).
Qed.

(** What the bound does not cover is the queue of pids: a status that is
    parked and then claimed leaves its pid behind, so [n] execs that exit
    before their thread waits leave [n] entries, with nothing parked. *)
Theorem orphan_order_unbounded p i n :
  let r := fst (run (quick_execs p i n)) in
  orphans r = ∅ /\ length (orphan_order r) = n.
Proof. cbv zeta. rewrite quick_execs_run. split; [done|]. apply length_replicate. Qed.

(** A parked status outlives its process: when the kernel gives an exec's
    child the pid of an orphan whose status is still parked, the exec is told
    the orphan's status, at once, and never its own child's. *)
Theorem pid_reuse_stale_status p tx orphan child :
  snd (run [Route p orphan; Wait p tx; Route p child]) = [(tx, orphan)].
Proof.
  unfold run, Router_default. cbn [fold_left]. unfold step.
  by rewrite route_alone, wait_alone, route_alone.
Qed.

(** ** Examples and witnesses *)

Definition exited (c : Z) : ExitInfo := mkExitInfo (Some c) None.

Lemma every_wait_answered_witness : (7%N, exited 3) ∈ snd (run [Wait 10 7%N; Route 10 (exited 3)]) <->
  exists p, (p, exited 3) ∈ routes [Wait 10 7%N; Route 10 (exited 3)] /\
    (p, 7%N) ∈ waits [Wait 10 7%N; Route 10 (exited 3)].
Proof.
  apply (every_wait_answered [Wait 10 7%N; Route 10 (exited 3)]).
  split_and!; [apply NoDup_singleton..|]. by vm_compute; lia.
Defined.

(** Pid 1 is parked and claimed, pids 2 to 4096 are parked, pid 1 is reused and
    parked again, and one more orphan makes the map overflow. *)
Definition fifo_trace : list event :=
  [Route 1 (exited 0); Wait 1 0%N] ++ ((fun n => Route (Z.of_nat n) (exited 0)) <$> seq 2 4095)
  ++ [Route 1 (exited 9); Route 5000 (exited 0)].

(** Eviction is not first in, first out: the entry a claimed pid left in
    the queue stands for its next status, which is evicted although 4095
    statuses parked before it stay. *)
Theorem eviction_not_fifo :
  let r := fst (run fifo_trace) in
  orphans r !! 1 = None /\ orphans r !! 2 = Some (exited 0) /\ size (orphans r) = 4096%nat.
Proof. by vm_compute. Qed.
