(* ===== verification/GuestConn.v ===== *)
(** * One exec connection in the guest

    draug-guest/src/server.rs, lines 201-384.  [handle_conn] is two parts: what
    it does with the first frame up to [Started], a function; then five
    concurrent activities - two pumps, the watchdog, the completion thread and
    the stdin loop - over shared flags and the socket, a state machine whose
    actions are the threads' atomic steps and the moves of the child. *)

From S2P Require Import Prelude Types Proto Router.

Record GuestConfig := mkGuestConfig {
  default_cwd : path;
  cfg_env : list (string * string);
}.

(** [std::process::Command], as far as it is configured. *)
Record Command := mkCommand {
  program : string;
  args : list string;
  cmd_env : gmap string string;
  current_dir : path;
  piped_stdin : bool;
}.

Definition protocol_error (message : string) : GuestMessage := ErrorMsg PROTOCOL message.

(** What the first frame makes [handle_conn] do. *)
Inductive opening :=
  | OpenErr (e : Io.error)
  | Close
  | Reply (m : GuestMessage)
  | Spawn (cmd : Command) (timeout_ms : option Z).

Definition insert_env (env : gmap string string) (kv : string * string) : gmap string string :=
  <[fst kv := snd kv]> env.

Definition open_request (cfg : GuestConfig) (first : result Io.error (option HostMessage)) : opening :=
  match first with
  | Err e => OpenErr e
  | Ok None => Close
  | Ok (Some (Stdin _)) => Reply (protocol_error "first frame must be ExecRequest")
  | Ok (Some (ExecRequestMsg argv env cwd want_stdin tty timeout_ms)) =>
      match argv with
      | [] => Reply (protocol_error "empty argv")
      | prog :: rest =>
          if tty then Reply (protocol_error "tty allocation not implemented yet")
          else Spawn (mkCommand prog rest
                        (fold_left insert_env env (fold_left insert_env (cfg_env cfg) ∅))
                        (default (default_cwd cfg) cwd) want_stdin)
                     timeout_ms
      end
  end.

(** ** The running connection *)

(** One output pipe of the child with its pump. *)
Record stream := mkStream {
  pending : list byte;   (* written, not yet read by the pump *)
  writers : bool;        (* some process holds the write end *)
  pumping : bool;        (* the pump thread runs *)
  all : list byte;       (* everything ever written *)
}.

Inductive watchdog_state := WOff | WWaiting | WFired | WKilling | WEnded.

Inductive completion_state :=
  | CWaiting
  | CReaped (info : ExitInfo)
  | CJoining (info : ExitInfo)
  | CLoading (info : ExitInfo)
  | CSending (terminal : GuestMessage)
  | CEnded.

Inductive input_state := Reading | Leaving | Joining | Returned.

Record conn := mkConn {
  wire : list GuestMessage;         (* frames the host receives, in order *)
  closed : bool;                    (* the socket was shut down *)
  child : option ExitInfo;          (* the status the reaper delivers *)
  killed : bool;                    (* kill(-pid, SIGKILL) was called *)
  out : stream;
  err : stream;
  lost : bool;                      (* a pump stopped on an error *)
  done : bool;
  timed_out : bool;
  watchdog : watchdog_state;
  completion : completion_state;
  input : input_state;
  child_stdin : option (list byte); (* what was written to it; None: closed *)
}.

Definition set_wire w c := mkConn w (closed c) (child c) (killed c) (out c) (err c) (lost c) (done c)
  (timed_out c) (watchdog c) (completion c) (input c) (child_stdin c).
Definition set_closed c := mkConn (wire c) true (child c) (killed c) (out c) (err c) (lost c) (done c)
  (timed_out c) (watchdog c) (completion c) (input c) (child_stdin c).
Definition set_child i c := mkConn (wire c) (closed c) (Some i) (killed c) (out c) (err c) (lost c)
  (done c) (timed_out c) (watchdog c) (completion c) (input c) (child_stdin c).
Definition kill_group c := mkConn (wire c) (closed c) (child c) true (out c) (err c) (lost c) (done c)
  (timed_out c) (watchdog c) (completion c) (input c) (child_stdin c).
Definition set_stream (is_stdout : bool) s c := mkConn (wire c) (closed c) (child c) (killed c)
  (if is_stdout then s else out c) (if is_stdout then err c else s) (lost c) (done c) (timed_out c)
  (watchdog c) (completion c) (input c) (child_stdin c).
Definition set_lost c := mkConn (wire c) (closed c) (child c) (killed c) (out c) (err c) true (done c)
  (timed_out c) (watchdog c) (completion c) (input c) (child_stdin c).
Definition set_done c := mkConn (wire c) (closed c) (child c) (killed c) (out c) (err c) (lost c) true
  (timed_out c) (watchdog c) (completion c) (input c) (child_stdin c).
Definition set_timed_out c := mkConn (wire c) (closed c) (child c) (killed c) (out c) (err c) (lost c)
  (done c) true (watchdog c) (completion c) (input c) (child_stdin c).
Definition set_watchdog w c := mkConn (wire c) (closed c) (child c) (killed c) (out c) (err c) (lost c)
  (done c) (timed_out c) w (completion c) (input c) (child_stdin c).
Definition set_completion x c := mkConn (wire c) (closed c) (child c) (killed c) (out c) (err c)
  (lost c) (done c) (timed_out c) (watchdog c) x (input c) (child_stdin c).
Definition set_input x c := mkConn (wire c) (closed c) (child c) (killed c) (out c) (err c) (lost c)
  (done c) (timed_out c) (watchdog c) (completion c) x (child_stdin c).
Definition set_stdin x c := mkConn (wire c) (closed c) (child c) (killed c) (out c) (err c) (lost c)
  (done c) (timed_out c) (watchdog c) (completion c) (input c) x.

Definition stream_of (is_stdout : bool) (c : conn) : stream := if is_stdout then out c else err c.

(** The state once [Started] is on the wire and the threads are spawned. *)
Definition fresh_stream : stream := mkStream [] true true [].
Definition started (pid : Z) (want_stdin : bool) (timeout_ms : option Z) : conn :=
  mkConn [Started pid] false None false fresh_stream fresh_stream false false false
    (match timeout_ms with Some _ => WWaiting | None => WOff end) CWaiting Reading
    (if want_stdin then Some [] else None).

(** What becomes of a request whose command was spawned ([Ok pid]) or not, when
    the first write to the host succeeds or fails. *)
Inductive opened :=
  | Refused (m : GuestMessage) (delivered : bool)
  | Running (c : conn)
  | Abandoned (pid : Z).  (* handle_conn returned; the child runs on *)

Definition open_child (cmd : Command) (timeout_ms : option Z) (spawned : result string Z)
    (write_ok : bool) : opened :=
  match spawned with
  | Err e => Refused (ErrorMsg SPAWN_FAILED (program cmd +:+ ": " +:+ e)) write_ok
  | Ok pid => if write_ok then Running (started pid (piped_stdin cmd) timeout_ms) else Abandoned pid
  end.

(** ** The actions *)

Inductive action :=
  (* the child's process group *)
  | ChildWrites (is_stdout : bool) (data : list byte)
  | WritersGone (is_stdout : bool)
  | ChildExits (info : ExitInfo)
  (* spawn_pump *)
  | PumpChunk (is_stdout : bool) (n : nat) (write_ok : bool)
  | PumpEof (is_stdout : bool)
  | PumpReadError (is_stdout : bool)
  (* the watchdog thread *)
  | DeadlinePasses
  | WatchdogMarks
  | WatchdogKills
  | WatchdogDismissed
  (* the completion thread *)
  | CompletionWaits
  | CompletionMarks
  | CompletionJoins
  | CompletionLoads
  | CompletionSends (write_ok : bool)
  (* the stdin loop *)
  | Input (frame : result Io.error (option HostMessage)) (write_ok : bool)
  | InputLeaves
  | InputReturns.

Definition chunk_msg (is_stdout : bool) (data : list byte) : GuestMessage :=
  if is_stdout then Stdout data else Stderr data.

Definition stop_pump (s : stream) : stream := mkStream (pending s) (writers s) false (all s).

Definition terminal_msg (info : ExitInfo) (c : conn) : GuestMessage :=
  if timed_out c then ErrorMsg TIMEOUT "deadline exceeded; process group killed"
  else Exit (code info) (signal info).

(** [act a c]: the state after [a], or [None] when [a] cannot happen in [c]. *)
Definition act (a : action) (c : conn) : option conn :=
  match a with
  | ChildWrites b data =>
      let s := stream_of b c in
      if writers s && pumping s
      then Some (set_stream b (mkStream (pending s ++ data) true true (all s ++ data)) c) else None
  | WritersGone b =>
      let s := stream_of b c in
      if writers s then Some (set_stream b (mkStream (pending s) false (pumping s) (all s)) c) else None
  | ChildExits info =>
      match child c with None => Some (set_child info c) | Some _ => None end
  | PumpChunk b n write_ok =>
      let s := stream_of b c in
      if pumping s && bool_decide (0 < n <= length (pending s))%nat
         && bool_decide (N.of_nat n <= MAX_CHUNK_LEN)%N
      then
        let c' := set_stream b (mkStream (drop n (pending s)) (writers s) true (all s)) c in
        if write_ok && negb (closed c)
        then Some (set_wire (wire c ++ [chunk_msg b (take n (pending s))]) c')
        else Some (set_lost (set_stream b (stop_pump (stream_of b c')) c'))
      else None
  | PumpEof b =>
      let s := stream_of b c in
      if pumping s && negb (writers s) && bool_decide (pending s = [])
      then Some (set_stream b (stop_pump s) c) else None
  | PumpReadError b =>
      let s := stream_of b c in
      if pumping s then Some (set_lost (set_stream b (stop_pump s) c)) else None
  | DeadlinePasses =>
      match watchdog c with
      | WWaiting => Some (set_watchdog (if done c then WEnded else WFired) c)
      | _ => None
      end
  | WatchdogMarks =>
      match watchdog c with WFired => Some (set_watchdog WKilling (set_timed_out c)) | _ => None end
  | WatchdogKills =>
      match watchdog c with WKilling => Some (set_watchdog WEnded (kill_group c)) | _ => None end
  | WatchdogDismissed =>
      match watchdog c with
      | WWaiting => if done c then Some (set_watchdog WEnded c) else None
      | _ => None
      end
  | CompletionWaits =>
      match completion c, child c with
      | CWaiting, Some info => Some (set_completion (CReaped info) c)
      | _, _ => None
      end
  | CompletionMarks =>
      match completion c with
      | CReaped info => Some (set_completion (CJoining info) (set_done c))
      | _ => None
      end
  | CompletionJoins =>
      match completion c with
      | CJoining info =>
          if pumping (out c) || pumping (err c) then None else Some (set_completion (CLoading info) c)
      | _ => None
      end
  | CompletionLoads =>
      match completion c with
      | CLoading info => Some (set_completion (CSending (terminal_msg info c)) c)
      | _ => None
      end
  | CompletionSends write_ok =>
      match completion c with
      | CSending m =>
          let c' := if write_ok && negb (closed c) then set_wire (wire c ++ [m]) c else c in
          Some (set_completion CEnded (set_closed c'))
      | _ => None
      end
  | Input frame write_ok =>
      match input c with
      | Reading =>
          match frame with
          | Ok (Some (Stdin data)) =>
              if bool_decide (data = []) then Some (set_stdin None c)
              else match child_stdin c with
                   | Some sent => Some (set_stdin (if write_ok then Some (sent ++ data) else None) c)
                   | None => Some c
                   end
          | _ => Some (set_input Leaving c)
          end
      | _ => None
      end
  | InputLeaves =>
      match input c with
      | Leaving => Some (set_input Joining (if done c then c else kill_group c))
      | _ => None
      end
  | InputReturns =>
      match input c, completion c with Joining, CEnded => Some (set_input Returned c) | _, _ => None end
  end.

Fixpoint acts (l : list action) (c : conn) : option conn :=
  match l with
  | [] => Some c
  | a :: l' => act a c ≫= acts l'
  end.

Inductive reach (c0 : conn) : conn -> Prop :=
  | reach_refl : reach c0 c0
  | reach_step c a c' : reach c0 c -> act a c = Some c' -> reach c0 c'.

(** ** Invariants *)

Definition is_output (m : GuestMessage) : bool :=
  match m with Stdout _ | Stderr _ => true | _ => false end.

(** The bytes of one stream among the frames. *)
Definition sent (is_stdout : bool) (w : list GuestMessage) : list byte :=
  concat (omap (fun m => match m with
                         | Stdout d => if is_stdout then Some d else None
                         | Stderr d => if is_stdout then None else Some d
                         | _ => None
                         end) w).

Lemma sent_app b w w' : sent b (w ++ w') = sent b w ++ sent b w'.
Proof. unfold sent. by rewrite omap_app, concat_app. Qed.

Lemma sent_chunk b b' d : sent b [chunk_msg b' d] = if Bool.eqb b b' then d else [].
Proof. destruct b, b'; unfold sent; simpl; by rewrite ?app_nil_r. Qed.

(** The terminal frame tells the truth about the child. *)
Definition true_terminal (timeout_ms : option Z) (c : conn) (info : ExitInfo) (m : GuestMessage) : Prop :=
  m = Exit (code info) (signal info) \/
  (m = ErrorMsg TIMEOUT "deadline exceeded; process group killed" /\
   timed_out c = true /\ timeout_ms <> None).

(** How far the completion thread is, and what that says of the rest. *)
Definition completion_ok (pid : Z) (timeout_ms : option Z) (c : conn) : Prop :=
  match completion c with
  | CWaiting => done c = false /\ closed c = false
  | CReaped i => done c = false /\ closed c = false /\ child c = Some i
  | CJoining i => done c = true /\ closed c = false /\ child c = Some i
  | CLoading i => done c = true /\ closed c = false /\ child c = Some i /\
      pumping (out c) = false /\ pumping (err c) = false
  | CSending m => done c = true /\ closed c = false /\
      pumping (out c) = false /\ pumping (err c) = false /\
      exists i, child c = Some i /\ true_terminal timeout_ms c i m
  | CEnded => done c = true /\ closed c = true /\
      pumping (out c) = false /\ pumping (err c) = false /\ is_Some (child c)
  end.

Definition watchdog_ok (timeout_ms : option Z) (c : conn) : Prop :=
  (timeout_ms = None -> watchdog c = WOff) /\ (timed_out c = true -> timeout_ms <> None).

Definition input_ok (c : conn) : Prop :=
  match input c with
  | Reading | Leaving => True
  | Joining => done c = true \/ killed c = true
  | Returned => completion c = CEnded
  end.

(** One stream: while nothing was lost, what was sent and what is still in the
    pipe is what was written, and the pump stopped only at its end. *)
Definition stream_ok (is_stdout : bool) (c : conn) : Prop :=
  let s := stream_of is_stdout c in
  lost c = false ->
  sent is_stdout (wire c) ++ pending s = all s /\
  (pumping s = false -> pending s = [] /\ writers s = false).

Definition wire_ok (pid : Z) (timeout_ms : option Z) (c : conn) : Prop :=
  exists outs, Forall (fun m => is_output m = true) outs /\
    (wire c = Started pid :: outs \/
     exists m i, wire c = Started pid :: outs ++ [m] /\ completion c = CEnded /\
       child c = Some i /\ true_terminal timeout_ms c i m).

Record inv (pid : Z) (timeout_ms : option Z) (c : conn) : Prop := {
  inv_completion : completion_ok pid timeout_ms c;
  inv_watchdog : watchdog_ok timeout_ms c;
  inv_input : input_ok c;
  inv_stream b : stream_ok b c;
  inv_wire : wire_ok pid timeout_ms c;
}.

Lemma inv_started pid want_stdin timeout_ms : inv pid timeout_ms (started pid want_stdin timeout_ms).
Proof.
  split; try done.
  - split; simpl; [by intros ->|done].
  - intros [] _; done.
  - exists []. split; [constructor|by left].
Qed.

(** Open an action: its guards become hypotheses, the new state is computed. *)
Ltac open_action H :=
  unfold act in H; simpl in H;
  repeat match type of H with
  | context [match ?x with _ => _ end] => destruct x eqn:?; simpl in H
  end; simplify_eq; simpl in *.

Ltac split_guards :=
  rewrite ?andb_true_iff, ?orb_false_iff, ?negb_true_iff, ?negb_false_iff, ?bool_decide_eq_true in *; destruct_and?.

Lemma act_completion pid ms a c c' : inv pid ms c -> act a c = Some c' -> completion_ok pid ms c'.
Proof.
  intros [Hc Hw Hi Hs Hwire] Ha. unfold completion_ok, watchdog_ok, true_terminal, terminal_msg in *.
  destruct a; open_action Ha; repeat case_match; simpl in *; deep; split_guards; simplify_eq;
    split_and?; eauto; try congruence.
  - naive_solver.
  - eexists. split; [done|]. unfold terminal_msg. destruct (timed_out c); [right|left]; split_and?; auto.
Qed.

Lemma act_watchdog pid ms a c c' : inv pid ms c -> act a c = Some c' -> watchdog_ok ms c'.
Proof.
  intros [Hc [Hoff Hms] Hi Hs Hwire] Ha. unfold watchdog_ok.
  destruct a; open_action Ha; split; try done; try (intros Hn; specialize (Hoff Hn); congruence);
    intros _ Hn; specialize (Hoff Hn); congruence.
Qed.

Lemma act_input pid ms a c c' : inv pid ms c -> act a c = Some c' -> input_ok c'.
Proof.
  intros [Hc Hw Hi Hs Hwire] Ha. unfold input_ok, completion_ok in *.
  destruct a; open_action Ha; repeat case_match; simpl in *; deep; split_guards; auto; congruence.
Qed.

(** Frames that are no output of the stream do not change what was sent. *)
Lemma stream_ok_other b c c' : stream_ok b c -> stream_of b c' = stream_of b c ->
  sent b (wire c') = sent b (wire c) -> (lost c' = false -> lost c = false) -> stream_ok b c'.
Proof. unfold stream_ok. intros H Hs Hw Hl Hc'. rewrite Hs, Hw. auto. Qed.

Lemma sent_terminal b m w : is_output m = false -> sent b (w ++ [m]) = sent b w.
Proof. intros Hm. rewrite sent_app. destruct m, b; try done; apply app_nil_r. Qed.

Lemma true_terminal_not_output ms c i m : true_terminal ms c i m -> is_output m = false.
Proof. by intros [->|[-> _]]. Qed.

Lemma act_stream pid ms a c c' b : inv pid ms c -> act a c = Some c' -> stream_ok b c'.
Proof.
  intros [Hc Hw Hi Hs Hwire] Ha. pose proof (Hs b) as Hb.
  destruct a as [b' data|b'| |b' n ok|b'|b'| | | | | | | | |ok| | | ];
    try (open_action Ha; by apply (stream_ok_other b _ _ Hb)).
  - unfold act in Ha. destruct (writers _ && pumping _) eqn:Hg; [|done]. injection Ha as <-. split_guards.
    unfold stream_ok in *. destruct b, b'; simpl in *; intros Hl; destruct (Hb Hl) as [Heq Hst];
      rewrite <- ?Heq, ?(assoc_L (++)); by split.
  - unfold act in Ha. destruct (writers _) eqn:Hg; [|done]. injection Ha as <-.
    unfold stream_ok in *. destruct b, b'; simpl in *; intros Hl; destruct (Hb Hl) as [Heq Hst];
      split; try done; intros Hp; by destruct (Hst Hp).
  - unfold act in Ha. destruct (_ && _ && _) eqn:Hg; [|done]. split_guards.
    destruct (ok && negb (closed c)); injection Ha as <-; [|intros Hl; by destruct b, b'].
    unfold stream_ok in *. intros Hl. simpl in Hl. destruct (Hb Hl) as [Heq Hst].
    unfold set_wire, set_stream. simpl. rewrite sent_app, sent_chunk.
    destruct b, b'; simpl in *; rewrite ?app_nil_r, <- ?(assoc_L (++)), ?take_drop; by split.
  - unfold act in Ha. destruct (_ && _ && _) eqn:Hg; [|done]. split_guards. injection Ha as <-.
    unfold stream_ok in *. destruct b, b'; simpl in *; intros Hl; destruct (Hb Hl) as [Heq Hst]; by split.
  - unfold act in Ha. destruct (pumping _); [|done]. injection Ha as <-. intros Hl. by destruct b, b'.
  - unfold act in Ha. unfold completion_ok in Hc. destruct (completion c) eqn:Hcomp; try done.
    destruct Hc as (_ & _ & _ & _ & i & Hi' & Hm).
    destruct (ok && _); injection Ha as <-; [|by apply (stream_ok_other b c)].
    apply (stream_ok_other b c); try done. simpl. eapply sent_terminal, true_terminal_not_output, Hm.
Qed.

(** The frames stay as they are and the end is still to come, or came. *)
Lemma wire_ok_same pid ms c c' : wire_ok pid ms c -> wire c' = wire c ->
  (completion c = CEnded -> completion c' = CEnded) -> (forall i, child c = Some i -> child c' = Some i) ->
  (timed_out c = true -> timed_out c' = true) -> wire_ok pid ms c'.
Proof.
  intros (outs & Ho & Hw) Heq Hce Hch Ht. exists outs. split; [done|]. rewrite Heq.
  destruct Hw as [Hw|(m & i & Hw & Hend & Hi & Hm)]; [by left|right].
  exists m, i. split_and!; auto. unfold true_terminal in *. naive_solver.
Qed.

Lemma act_wire pid ms a c c' : inv pid ms c -> act a c = Some c' -> wire_ok pid ms c'.
Proof.
  intros [Hc Hw Hi Hs Hwire] Ha.
  destruct a as [b' data|b'| |b' n ok|b'|b'| | | | | | | | |ok| | | ];
    try (open_action Ha; apply (wire_ok_same pid ms _ _ Hwire); simpl in *; congruence).
  - unfold act in Ha. destruct (_ && _ && _) eqn:Hg; [|done]. split_guards.
    destruct (ok && negb (closed c)) eqn:Hok; injection Ha as <-.
    2: { by apply (wire_ok_same pid ms c). }
    split_guards. destruct Hwire as (outs & Ho & [Hw'|(m & i & _ & Hend & _)]).
    + exists (outs ++ [chunk_msg b' (take n (pending (stream_of b' c)))]).
      rewrite Forall_app. split; [split; [done|]; constructor; [by destruct b'|constructor]|].
      left. simpl. by rewrite Hw'.
    + unfold completion_ok in Hc. rewrite Hend in Hc. destruct Hc as (_ & ? & _). congruence.
  - unfold act in Ha. unfold completion_ok in Hc. destruct (completion c) eqn:Hcomp; try done.
    destruct Hc as (_ & _ & _ & _ & i & Hi' & Hm).
    destruct (ok && _) eqn:Hok; injection Ha as <-.
    2: { apply (wire_ok_same pid ms c); simpl; congruence. }
    destruct Hwire as (outs & Ho & [Hw'|(? & ? & _ & Hend & _)]); [|congruence].
    exists outs. split; [done|]. right. eexists _, _. simpl. rewrite Hw'. by split_and!.
Qed.

Lemma act_inv pid ms a c c' : inv pid ms c -> act a c = Some c' -> inv pid ms c'.
Proof.
  intros Hinv Ha. split; eauto using act_completion, act_watchdog, act_input, act_stream, act_wire.
Qed.

Lemma reach_inv pid want_stdin ms c : reach (started pid want_stdin ms) c -> inv pid ms c.
Proof. induction 1; eauto using act_inv, inv_started. Qed.

Lemma acts_reach l c0 c c' : reach c0 c -> acts l c = Some c' -> reach c0 c'.
Proof.
  revert c. induction l as [|a l IH]; intros c Hc; simpl; [by intros [= <-]|].
  destruct (act a c) as [c1|] eqn:E; [|done]. simpl. apply IH. by eapply reach_step.
Qed.

(** *** Progress of the completion thread *)

(** A pump whose pipe has no writer left drains it and stops. *)
Lemma drain b n c : (length (pending (stream_of b c)) <= n)%nat ->
  writers (stream_of b c) = false -> pumping (stream_of b c) = true -> closed c = false ->
  exists l c', acts l c = Some c' /\ pumping (stream_of b c') = false /\
    stream_of (negb b) c' = stream_of (negb b) c /\ completion c' = completion c /\
    child c' = child c /\ done c' = done c /\ closed c' = false /\ lost c' = lost c.
Proof.
  revert c. induction n as [|n IH]; intros c Hn Hw Hp Hc.
  - exists [PumpEof b]. destruct (pending (stream_of b c)) eqn:E; [|simpl in Hn; lia].
    eexists. simpl. rewrite Hw, Hp, E. simpl. split; [done|]. by destruct b.
  - destruct (pending (stream_of b c)) as [|x rest] eqn:E.
    { apply IH; try done. rewrite E. simpl. lia. }
    destruct (IH (set_wire (wire c ++ [chunk_msg b [x]])
                    (set_stream b (mkStream rest false true (all (stream_of b c))) c)))
      as (l & c' & Hl & H); try (by destruct b).
    { destruct b; simpl in *; lia. }
    exists (PumpChunk b 1 true :: l), c'. split.
    + cbn [acts act]. rewrite Hp, E, Hw, Hc. cbn [andb negb length].
      rewrite bool_decide_true by lia. rewrite bool_decide_true by (vm_compute; discriminate).
      cbn [andb take drop mbind option_bind]. rewrite (take_0 rest), drop_0. exact Hl.
    + by destruct b.
Qed.

Lemma acts_app l k c : acts (l ++ k) c = acts l c ≫= acts k.
Proof. revert c. induction l as [|a l IH]; intros c; simpl; [done|]. destruct (act a c); simpl; auto. Qed.

(** Once every writer is gone both pumps come to their end. *)
Lemma drain_both c : writers (out c) = false -> writers (err c) = false -> closed c = false ->
  exists l c', acts l c = Some c' /\ pumping (out c') = false /\ pumping (err c') = false /\
    completion c' = completion c /\ child c' = child c /\ closed c' = false /\ lost c' = lost c.
Proof.
  intros Ho He Hc.
  assert (exists l c', acts l c = Some c' /\ pumping (out c') = false /\ err c' = err c /\
    completion c' = completion c /\ child c' = child c /\ closed c' = false /\ lost c' = lost c)
    as (l & c1 & Hl & H1 & H2 & H3 & H4 & H5 & H6).
  { destruct (pumping (out c)) eqn:Hp; [|by exists [], c].
    destruct (drain true _ c (le_n _) Ho Hp Hc) as (l & c1 & ?). deep. by exists l, c1. }
  destruct (pumping (err c1)) eqn:Hp; [|by exists l, c1].
  destruct (drain false (length (pending (err c1))) c1) as (k & c2 & Hk & H7 & H8 & H9 & H10 & _ & H11 & H12);
    try done; [by simpl; rewrite H2|].
  exists (l ++ k), c2. rewrite acts_app, Hl. simpl. simpl in H7, H8. rewrite H8. by split_and!; congruence.
Qed.

(** ** The theorems *)

(** C8: what the host receives on a connection whose command was spawned is
    [Started] first, then only output, and then at most one terminal frame,
    last, after which the socket is closed.  The terminal frame is the status
    the reaper delivered for this child, or the timeout error, and that only
    if a deadline was asked for and the watchdog acted on it. *)
Theorem frames_in_order pid want_stdin ms c : reach (started pid want_stdin ms) c ->
  exists outs, Forall (fun m => is_output m = true) outs /\
    (wire c = Started pid :: outs \/
     exists m i, wire c = Started pid :: outs ++ [m] /\ closed c = true /\ child c = Some i /\
       (m = Exit (code i) (signal i) \/
        (m = ErrorMsg TIMEOUT "deadline exceeded; process group killed" /\
         timed_out c = true /\ ms <> None))).
Proof.
  intros Hr. apply reach_inv in Hr. destruct (inv_wire _ _ _ Hr) as (outs & Ho & Hw).
  exists outs. split; [done|]. destruct Hw as [Hw|(m & i & Hw & Hend & Hi & Hm)]; [by left|right].
  exists m, i. pose proof (inv_completion _ _ _ Hr) as Hc. unfold completion_ok in Hc.
  rewrite Hend in Hc. split_and!; [done|apply Hc|done|exact Hm].
Qed.

(** C9: no output is lost, reordered or sent late: until a pump meets an I/O
    error, the frames of a stream and what is still in its pipe are what the
    process group wrote to it, and once the terminal frame is due the pipe is
    empty and nobody can write to it. *)
Theorem output_complete pid want_stdin ms c b : reach (started pid want_stdin ms) c -> lost c = false ->
  sent b (wire c) ++ pending (stream_of b c) = all (stream_of b c) /\
  ((exists m, completion c = CSending m) \/ completion c = CEnded ->
   sent b (wire c) = all (stream_of b c) /\ writers (stream_of b c) = false).
Proof.
  intros Hr Hl. apply reach_inv in Hr. destruct (inv_stream _ _ _ Hr b Hl) as [Heq Hstop].
  split; [done|]. intros Hend. pose proof (inv_completion _ _ _ Hr) as Hc. unfold completion_ok in Hc.
  assert (pumping (stream_of b c) = false) as Hp.
  { destruct Hend as [[m Hm]|Hm]; rewrite Hm in Hc; destruct b; apply Hc. }
  destruct (Hstop Hp) as [Hpend Hw]. rewrite Hpend, app_nil_r in Heq. done.
Qed.

(** C33: when the child has exited and every holder of its output pipes is gone,
    the threads can always run on to the terminal frame: from every reachable
    state some sequence of their own steps closes the connection. *)
Theorem completion_reachable pid want_stdin ms c i : reach (started pid want_stdin ms) c ->
  child c = Some i -> writers (out c) = false -> writers (err c) = false ->
  exists l c', acts l c = Some c' /\ completion c' = CEnded /\ closed c' = true.
Proof.
  intros Hr Hi Ho He. apply reach_inv in Hr. pose proof (inv_completion _ _ _ Hr) as Hc.
  unfold completion_ok in Hc.
  assert (forall c info, completion c = CLoading info -> closed c = false ->
    exists l c', acts l c = Some c' /\ completion c' = CEnded /\ closed c' = true) as Hload.
  { intros c1 info H1 H2. exists [CompletionLoads; CompletionSends true]. eexists.
    simpl. rewrite H1. simpl. rewrite H2. simpl. done. }
  assert (forall c info, completion c = CJoining info -> closed c = false ->
    writers (out c) = false -> writers (err c) = false ->
    exists l c', acts l c = Some c' /\ completion c' = CEnded /\ closed c' = true) as Hjoin.
  { intros c1 info H1 H2 H3 H4. destruct (drain_both c1 H3 H4 H2) as (l & c2 & Hl & Hp1 & Hp2 & H5 & _ & H6 & _).
    destruct (Hload (set_completion (CLoading info) c2) info) as (k & c3 & Hk & H); [done|done|].
    exists (l ++ CompletionJoins :: k), c3. rewrite acts_app, Hl. simpl.
    rewrite H5, H1, Hp1, Hp2. simpl. by rewrite Hk. }
  destruct (completion c) as [|info|info|info|m|] eqn:Hcomp; destruct_and?.
  - destruct (Hjoin (set_completion (CJoining i) (set_done (set_completion (CReaped i) c))) i)
      as (l & c2 & Hl & Hend); try done.
    exists (CompletionWaits :: CompletionMarks :: l), c2. simpl. by rewrite Hcomp, Hi.
  - destruct (Hjoin (set_completion (CJoining info) (set_done c)) info) as (l & c2 & Hl & Hend); try done.
    exists (CompletionMarks :: l), c2. simpl. by rewrite Hcomp.
  - by apply (Hjoin c info).
  - by apply (Hload c info).
  - exists [CompletionSends true]. eexists. simpl. rewrite Hcomp. by split.
  - exists [], c. done.
Qed.

(** C32: What becomes of the command of a request, on every way out of the
    handler.  A refused request spawned none.  A handler that wrote its
    [Started] frame leaves none behind: when it returns the child exited and
    the terminal frame was due, and when the host hung up while the child ran,
    the process group was killed.  And a command that is abandoned, still
    running, is one whose [Started] frame could not be written. *)
Theorem handler_returns_clean cmd ms spawned write_ok :
  match open_child cmd ms spawned write_ok with
  | Refused _ _ => exists e, spawned = Err e
  | Running c0 => write_ok = true /\ forall c, reach c0 c ->
      (input c = Returned -> is_Some (child c) /\ closed c = true) /\
      (input c = Joining -> done c = true \/ killed c = true)
  | Abandoned pid => spawned = Ok pid /\ write_ok = false
  end.
Proof.
  unfold open_child. destruct spawned as [pid|e]; [|by eexists]. destruct write_ok; [|done].
  split; [done|]. intros c Hr. apply reach_inv in Hr. pose proof (inv_completion _ _ _ Hr) as Hc.
  pose proof (inv_input _ _ _ Hr) as Hi. unfold completion_ok, input_ok in *. split; intros Hin.
  - rewrite Hin in Hi. rewrite Hi in Hc. naive_solver.
  - by rewrite Hin in Hi.
Qed.

(** The deadline and the cancellation are over: nobody kills any more. *)
Definition disarmed (c : conn) : Prop :=
  done c = true /\ killed c = false /\ watchdog c <> WFired /\ watchdog c <> WKilling.

Lemma act_disarmed a c c' : disarmed c -> act a c = Some c' -> disarmed c'.
Proof.
  intros (Hd & Hk & Hf & Hw) Ha. unfold disarmed. destruct a; open_action Ha; split_and?; congruence.
Qed.

(** Steps that leave the pipe open: no writer goes away, no read or write fails. *)
Definition pipe_stays_open (a : action) : Prop :=
  match a with
  | WritersGone _ | PumpReadError _ | PumpChunk _ _ false => False
  | _ => True
  end.

(** The deadline guards the direct child only.  Once it has exited, neither
    the deadline nor a host that hangs up kills anything, and as long as a
    descendant holds the output pipe the terminal frame is withheld: the exec
    outlasts its deadline. *)
Theorem deadline_ends_with_child l c c' i : disarmed c -> completion c = CJoining i ->
  pumping (out c) = true -> writers (out c) = true -> closed c = false ->
  Forall pipe_stays_open l -> acts l c = Some c' ->
  killed c' = false /\ completion c' = CJoining i /\ closed c' = false.
Proof.
  revert c. induction l as [|a l IH]; intros c Hd Hj Hp Hw Hc Hl Hacts; cbn [acts] in Hacts.
  { injection Hacts as <-. by split; [apply Hd|]. }
  destruct (act a c) as [c1|] eqn:Ha; [|done]. apply Forall_cons in Hl as [Ha' Hl].
  assert (completion c1 = CJoining i /\ pumping (out c1) = true /\ writers (out c1) = true /\
    closed c1 = false) as (H1 & H2 & H3 & H4).
  { destruct a as [b ?|b| |b ? []|b|b| | | | | | | | | | | |]; try done;
      try destruct b; open_action Ha; split_guards; split_and?; congruence. }
  apply (IH c1 (act_disarmed _ _ _ Hd Ha)); auto.
Qed.

(** The opening of a connection: only a first frame that asks for a
    non-empty command without a tty spawns anything, and then the request's
    environment overrides the sandbox's variable by variable, on top of nothing
    else, and the working directory defaults to the sandbox's. *)
Theorem open_request_spawns cfg first cmd ms : open_request cfg first = Spawn cmd ms <->
  exists argv env cwd want_stdin,
    first = Ok (Some (ExecRequestMsg argv env cwd want_stdin false ms)) /\
    argv = program cmd :: args cmd /\ piped_stdin cmd = want_stdin /\
    current_dir cmd = default (default_cwd cfg) cwd /\
    cmd_env cmd = list_to_map (rev env) ∪ list_to_map (rev (cfg_env cfg)).
Proof.
  assert (forall l m, fold_left insert_env l m = list_to_map (rev l) ∪ m) as Hfold.
  { induction l as [|[k v] l IH]; intros m; simpl; [by rewrite (left_id_L ∅ (∪))|].
    rewrite IH, list_to_map_app. unfold insert_env. simpl.
    rewrite <- (assoc_L (∪)), insert_empty, <- insert_union_singleton_l. done. }
  split.
  - destruct first as [[[argv env cwd want tty t|d]|]|e]; simpl; try done.
    destruct argv as [|prog rest]; [done|]. destruct tty; [done|]. intros [= <- <-].
    exists (prog :: rest), env, cwd, want. split_and!; try done. simpl.
    by rewrite !Hfold, (right_id_L ∅ (∪)).
  - intros (argv & env & cwd & want & -> & -> & Hin & Hcwd & Henv). simpl.
    rewrite !Hfold, (right_id_L ∅ (∪)), <- Henv, <- Hcwd, <- Hin. by destruct cmd.
Qed.

(** ** Witnesses *)
Module Witness.

Definition exit0 : ExitInfo := mkExitInfo (Some 0) None.

(** A command that prints "hi" and exits, with a deadline. *)
Definition hello : list action :=
  [ChildWrites true (bytes_of_string "hi"); ChildExits exit0; CompletionWaits; PumpChunk true 2 true;
   WritersGone true; WritersGone false; CompletionMarks; PumpEof true; PumpEof false;
   WatchdogDismissed; CompletionJoins; CompletionLoads; CompletionSends true;
   Input (Ok None) true; InputLeaves; InputReturns].

Definition after (l : list action) : conn := default (started 7 false (Some 100)) (acts l (started 7 false (Some 100))).

Lemma after_reach l : reach (started 7 false (Some 100)) (after l).
Proof.
  unfold after. destruct (acts l _) as [c|] eqn:E; [|apply reach_refl].
  eapply acts_reach; [apply reach_refl|exact E].
Qed.

Example hello_frames :
  wire (after hello) = [Started 7; Stdout (bytes_of_string "hi"); Exit (Some 0) None] /\
  input (after hello) = Returned.
Proof. by vm_compute. Qed.

Lemma frames_in_order_witness : exists outs, Forall (fun m => is_output m = true) outs /\
  (wire (after hello) = Started 7 :: outs \/
   exists m i, wire (after hello) = Started 7 :: outs ++ [m] /\ closed (after hello) = true /\
     child (after hello) = Some i /\
     (m = Exit (code i) (signal i) \/
      (m = ErrorMsg TIMEOUT "deadline exceeded; process group killed" /\
       timed_out (after hello) = true /\ Some 100 <> None))).
Proof. apply (frames_in_order 7 false (Some 100)), after_reach. Defined.

Lemma output_complete_witness :
  sent true (wire (after hello)) ++ pending (stream_of true (after hello)) = bytes_of_string "hi" /\
  ((exists m, completion (after hello) = CSending m) \/ completion (after hello) = CEnded ->
   sent true (wire (after hello)) = bytes_of_string "hi" /\ writers (stream_of true (after hello)) = false).
Proof. apply (output_complete 7 false (Some 100) (after hello) true); [apply after_reach|done]. Defined.

Lemma completion_reachable_witness : exists l c',
  acts l (after (take 6 hello)) = Some c' /\ completion c' = CEnded /\ closed c' = true.
Proof. apply (completion_reachable 7 false (Some 100) _ exit0); [apply after_reach|done..]. Defined.

Lemma handler_returns_clean_witness :
  (input (after hello) = Returned -> is_Some (child (after hello)) /\ closed (after hello) = true) /\
  (input (after hello) = Joining -> done (after hello) = true \/ killed (after hello) = true).
Proof.
  apply (handler_returns_clean (mkCommand "echo" ["hi"%string] ∅ "/" false) (Some 100) (Ok 7) true), after_reach.
Defined.

(** The shell exits at once; the job it left behind keeps the pipe. *)
Definition background : conn := after [ChildExits exit0; CompletionWaits; CompletionMarks].

Lemma deadline_ends_with_child_witness : exists c',
  acts [DeadlinePasses; Input (Ok None) true; InputLeaves] background = Some c' /\
  killed c' = false /\ completion c' = CJoining exit0 /\ closed c' = false.
Proof.
  eexists. split; [reflexivity|].
  apply (deadline_ends_with_child [DeadlinePasses; Input (Ok None) true; InputLeaves] background);
    try done. by repeat constructor.
Defined.

End Witness.
