(* ===== verification/Output.v ===== *)
(** * Output shaping of the MCP server

    draug-cli/src/mcp.rs, lines 622-696: capturing a stream up to a cap and
    rendering it for a model, head and tail kept.  A [&str] is the list of its
    bytes; slicing one off a character boundary or out of range panics in the
    source and is [None] here. *)

From S2P Require Import Prelude Text.

Definition DEFAULT_EXEC_TIMEOUT_MS : N := 120000.
Definition MAX_LINES : N := 200.
Definition MAX_BYTES : N := 64 * 1024.
Definition MAX_CAPTURE : N := 4 * 1024 * 1024.

Definition push_capped (buf data : list byte) : list byte :=
  if (MAX_CAPTURE <=? len buf)%N then buf
  else
    let room := (MAX_CAPTURE - len buf)%N in
    buf ++ take (N.to_nat (N.min (len data) room)) data.

(** [&s[a..b]] *)
Definition str_slice (s : list byte) (a b : N) : option (list byte) :=
  if (a <=? b)%N && (b <=? len s)%N && is_char_boundary s a && is_char_boundary s b
  then Some (take (N.to_nat (b - a)) (drop (N.to_nat a) s))
  else None.

Definition newline : list byte := bytes_of_string (String "010" EmptyString).

Definition push_line (out l : list byte) : list byte := out ++ l ++ newline.

Definition lines_marker (omitted : N) : list byte :=
  bytes_of_string ("[... " +:+ pretty omitted +:+ " lines omitted ...]").

Definition clamp_lines (s : list byte) : list byte :=
  let ls := lines s in
  if (len ls <=? MAX_LINES)%N then s
  else
    let head := (MAX_LINES / 2)%N in
    let tail := (MAX_LINES - head)%N in
    let omitted := (len ls - head - tail)%N in
    let out := fold_left push_line (take (N.to_nat head) ls) [] in
    let out := push_line out (lines_marker omitted) in
    fold_left push_line (drop (N.to_nat (len ls - tail)) ls) out.

(** The two boundary searches; [fuel] bounds the iterations of the loop. *)
Fixpoint floor_loop (fuel : nat) (s : list byte) (i : N) : N :=
  match fuel with
  | O => i
  | S fuel' =>
      if (0 <? i)%N && negb (is_char_boundary s i) then floor_loop fuel' s (i - 1) else i
  end.

Definition floor_boundary (s : list byte) (i : N) : N := floor_loop (N.to_nat i) s i.

Fixpoint ceil_loop (fuel : nat) (s : list byte) (i : N) : N :=
  match fuel with
  | O => i
  | S fuel' =>
      if (i <? len s)%N && negb (is_char_boundary s i) then ceil_loop fuel' s (i + 1) else i
  end.

Definition ceil_boundary (s : list byte) (i : N) : N := ceil_loop (N.to_nat (len s - i)) s i.

Definition bytes_marker (omitted : N) : list byte :=
  newline ++ bytes_of_string ("[... " +:+ pretty omitted +:+ " bytes omitted ...]") ++ newline.

Definition clamp_bytes (s : list byte) : option (list byte) :=
  if (len s <=? MAX_BYTES)%N then Some s
  else
    let head_end := floor_boundary s (MAX_BYTES / 2) in
    let tail_start := ceil_boundary s (len s - MAX_BYTES / 2) in
    let omitted := (tail_start - head_end)%N in
    h ← str_slice s 0 head_end;
    t ← str_slice s tail_start (len s);
    Some (h ++ bytes_marker omitted ++ t).

Definition clamp (bytes : list byte) : option (list byte) :=
  clamp_bytes (clamp_lines (from_utf8_lossy bytes)).

(** ** Boundaries *)

Lemma boundary_0 s : is_char_boundary s 0 = true.
Proof. done. Qed.

Lemma boundary_len s : is_char_boundary s (len s) = true.
Proof.
  unfold is_char_boundary. case_decide; [done|].
  rewrite lookup_ge_None_2 by (unfold len; lia). apply N.eqb_refl.
Qed.

Lemma utf8_char_short c : utf8_next c = (length c, true) -> (length c <= 4)%nat.
Proof.
  destruct c as [|b0 [|b1 [|b2 [|b3 c]]]]; simpl; try lia.
  destruct (utf8_width b0) as [|[|[|[|[|]]]]]; intros; repeat case_match; simplify_eq/=; lia.
Qed.

Lemma boundary_shift c l i : (0 < i)%N ->
  is_char_boundary (c ++ l) (len c + i) = is_char_boundary l i.
Proof.
  intros. unfold is_char_boundary. rewrite !decide_False by lia.
  rewrite lookup_app_r by (unfold len; lia).
  replace (N.to_nat (len c + i) - length c)%nat with (N.to_nat i) by (unfold len; lia).
  destruct (l !! _); [done|]. rewrite len_app. lia.
Qed.

Lemma boundary_char c l : c <> [] -> utf8 l -> is_char_boundary (c ++ l) (len c) = true.
Proof.
  intros Hc Hl. unfold is_char_boundary. case_decide; [done|].
  rewrite lookup_app_r by (unfold len; lia).
  replace (N.to_nat (len c) - length c)%nat with 0%nat by (unfold len; lia).
  destruct Hl as [|c' l Hc' Hn Hl]; simpl.
  - rewrite app_nil_r. apply N.eqb_refl.
  - destruct c' as [|b c']; [done|]. simpl. by rewrite (utf8_next_first c').
Qed.

(** Every position of a string has a boundary at most three bytes below it and
    at most three above. *)
Lemma boundary_near l : utf8 l -> forall i, (i <= len l)%N ->
  (exists j, (j <= i <= j + 3)%N /\ is_char_boundary l j = true) /\
  (exists j, (i <= j <= i + 3)%N /\ (j <= len l)%N /\ is_char_boundary l j = true).
Proof.
  induction 1 as [|c l Hc Hn Hl IH]; intros i Hi.
  { rewrite len_nil in Hi. split; exists 0%N; rewrite ?len_nil; split_and?; try done; lia. }
  pose proof (utf8_char_short c Hn) as H4. rewrite len_app in Hi.
  destruct (decide (i < len c)%N) as [Hic|Hic].
  - split; [exists 0%N; split; [unfold len in *; lia|done]|].
    destruct (decide (i = 0%N)) as [->|]; [exists 0%N; split_and?; try done; lia|].
    exists (len c). rewrite len_app, boundary_char by done. unfold len in *. lia.
  - destruct (IH (i - len c)%N) as [(j & Hj & Hb) (k & Hk & Hkl & Hkb)]; [lia|].
    split.
    + exists (len c + j)%N. split; [lia|]. destruct (decide (j = 0%N)) as [->|].
      * rewrite N.add_0_r. by apply boundary_char.
      * by rewrite boundary_shift by lia.
    + exists (len c + k)%N. rewrite len_app. split_and?; [lia..|].
      destruct (decide (k = 0%N)) as [->|].
      * rewrite N.add_0_r. by apply boundary_char.
      * by rewrite boundary_shift by lia.
Qed.

Lemma floor_loop_spec fuel s i : (i <= N.of_nat fuel)%N ->
  let j := floor_loop fuel s i in
  (j <= i)%N /\ is_char_boundary s j = true /\
  forall k, (k <= i)%N -> is_char_boundary s k = true -> (k <= j)%N.
Proof.
  revert i. induction fuel as [|fuel IH]; intros i Hi; cbn [floor_loop].
  - replace i with 0%N by lia. split_and!; [lia|done|lia].
  - destruct (_ && _) eqn:E.
    + apply andb_true_iff in E as [E1 E2]. apply negb_true_iff in E2.
      destruct (IH (i - 1)%N) as (H1 & H2 & H3); [lia|]. split_and!; [lia|done|].
      intros k Hk Hb. apply H3; [|done]. destruct (decide (k = i)) as [->|]; [congruence|lia].
    + split_and!; [lia| |lia]. destruct (decide (i = 0%N)) as [->|]; [done|].
      destruct (is_char_boundary s i); [done|]. simpl in E. lia.
Qed.

Lemma ceil_loop_spec fuel s i : (i <= len s)%N -> (len s - i <= N.of_nat fuel)%N ->
  let j := ceil_loop fuel s i in
  (i <= j <= len s)%N /\ is_char_boundary s j = true /\
  forall k, (i <= k)%N -> is_char_boundary s k = true -> (j <= k)%N.
Proof.
  revert i. induction fuel as [|fuel IH]; intros i Hi Hf; cbn [ceil_loop].
  - replace i with (len s) by lia. split_and!; [lia..|apply boundary_len|lia].
  - destruct (_ && _) eqn:E.
    + apply andb_true_iff in E as [E1 E2]. apply negb_true_iff in E2.
      destruct (IH (i + 1)%N) as (H1 & H2 & H3); [lia..|]. split_and!; [lia..|done|].
      intros k Hk Hb. apply H3; [|done]. destruct (decide (k = i)) as [->|]; [congruence|lia].
    + split_and!; [lia..| |lia]. destruct (decide (i = len s)) as [->|]; [apply boundary_len|].
      destruct (is_char_boundary s i); [done|]. simpl in E. lia.
Qed.

(** ** Slices *)

Lemma str_slice_take s i : (i <= len s)%N -> is_char_boundary s i = true ->
  str_slice s 0 i = Some (take (N.to_nat i) s).
Proof.
  intros Hi Hb. unfold str_slice. rewrite Hb, boundary_0.
  rewrite (proj2 (N.leb_le 0 i)), (proj2 (N.leb_le i (len s))) by lia. simpl.
  by rewrite N.sub_0_r.
Qed.

Lemma str_slice_drop s i : (i <= len s)%N -> is_char_boundary s i = true ->
  str_slice s i (len s) = Some (drop (N.to_nat i) s).
Proof.
  intros Hi Hb. unfold str_slice. rewrite Hb, boundary_len.
  rewrite (proj2 (N.leb_le i (len s))), N.leb_refl by lia. simpl.
  rewrite take_ge; [done|]. rewrite length_drop. unfold len. lia.
Qed.

(** What [clamp_bytes] does to a string over the cap. *)
Lemma clamp_bytes_cut s : utf8 s -> (MAX_BYTES < len s)%N -> exists h m t,
  s = h ++ m ++ t /\ clamp_bytes s = Some (h ++ bytes_marker (len m) ++ t) /\
  utf8 h /\ utf8 t /\
  (MAX_BYTES / 2 - 3 <= len h <= MAX_BYTES / 2)%N /\ (MAX_BYTES / 2 - 3 <= len t <= MAX_BYTES / 2)%N.
Proof.
  intros Hs Hlen. assert (MAX_BYTES / 2 = 32768)%N as Hhalf by done.
  assert (MAX_BYTES = 65536)%N as Hmax by done.
  unfold clamp_bytes. rewrite (proj2 (N.leb_gt _ _) Hlen). cbv zeta. rewrite Hhalf. unfold floor_boundary, ceil_boundary.
  set (a := floor_loop _ _ _). set (b := ceil_loop _ _ _).
  destruct (floor_loop_spec (N.to_nat 32768) s 32768) as (Ha1 & Ha2 & Ha3); [lia|]. fold a in Ha1, Ha2, Ha3.
  destruct (ceil_loop_spec (N.to_nat (len s - (len s - 32768))) s (len s - 32768))
    as (Hb1 & Hb2 & Hb3); [lia..|]. fold b in Hb1, Hb2, Hb3.
  destruct (boundary_near s Hs 32768) as [(j & Hj & Hjb) _]; [lia|].
  destruct (boundary_near s Hs (len s - 32768)) as [_ (k & Hk & _ & Hkb)]; [lia|].
  apply Ha3 in Hjb; [|lia]. apply Hb3 in Hkb; [|lia].
  destruct (utf8_split s a Hs) as [Hh _]; [lia|done|].
  destruct (utf8_split s b Hs) as [_ Ht]; [lia|done|].
  rewrite str_slice_take, str_slice_drop by (done || lia). simpl.
  exists (take (N.to_nat a) s), (take (N.to_nat (b - a)) (drop (N.to_nat a) s)), (drop (N.to_nat b) s).
  assert (len (take (N.to_nat (b - a)) (drop (N.to_nat a) s)) = (b - a)%N) as ->.
  { unfold len in *. rewrite length_take, length_drop. lia. }
  split_and!; try done.
  - replace (N.to_nat b) with (N.to_nat a + N.to_nat (b - a))%nat by lia.
    by rewrite <- drop_drop, !take_drop.
  - unfold len in *. rewrite length_take. lia.
  - unfold len in *. rewrite length_take. lia.
  - unfold len in *. rewrite length_drop. lia.
  - unfold len in *. rewrite length_drop. lia.
Qed.

(** ** Lines *)

Lemma fold_push_line ls out :
  fold_left push_line ls out = out ++ concat ((fun l => l ++ newline) <$> ls).
Proof.
  revert out. induction ls as [|l ls IH]; intros out; simpl; [by rewrite app_nil_r|].
  rewrite IH. unfold push_line. by rewrite !(assoc_L (++)).
Qed.

Definition no_newline (l : list byte) : Prop := Forall (fun b => is_nl b = false) l.

Lemma split_at_line l k : no_newline l -> split_at is_nl (l ++ newline ++ k) = l :: split_at is_nl k.
Proof.
  induction 1 as [|b l Hb Hl IH]; [done|]. rewrite <- app_comm_cons. cbn [split_at].
  by rewrite Hb, IH.
Qed.

Lemma split_at_lines ls k : Forall no_newline ls ->
  split_at is_nl (concat ((fun l => l ++ newline) <$> ls) ++ k) = ls ++ split_at is_nl k.
Proof.
  induction 1 as [|l ls Hl Hls IH]; [done|]. rewrite fmap_cons. cbn [concat].
  rewrite <- !(assoc_L (++)), split_at_line by done. by rewrite IH.
Qed.

Lemma split_at_no_newline l : Forall no_newline (split_at is_nl l).
Proof.
  induction l as [|b l IH]; cbn [split_at]; [by repeat constructor|].
  destruct (is_nl b) eqn:E; [by constructor; [constructor|]|].
  destruct (split_at is_nl l) as [|p ps]; [repeat constructor; done|].
  inversion IH; subst. constructor; [by constructor|done].
Qed.

Lemma lines_no_newline l : Forall no_newline (lines l).
Proof.
  unfold lines. pose proof (split_at_no_newline l) as H.
  induction H as [|p ps Hp Hps IH]; [constructor|]. cbn [lines_of].
  destruct ps as [|q qs]; [case_decide; by repeat constructor|].
  constructor; [|exact IH]. unfold strip_cr. destruct (last p) as [b|]; [|done].
  destruct (is_byte 13 b); [|done]. by apply Forall_take.
Qed.

Lemma lines_marker_no_newline n : no_newline (lines_marker n).
Proof.
  unfold lines_marker. rewrite !bytes_of_string_app. unfold no_newline. rewrite !Forall_app.
  split_and!; [by repeat constructor|apply digits_no_nl, pretty_digits|by repeat constructor].
Qed.

Lemma lines_marker_ascii n : Forall is_ascii (lines_marker n).
Proof.
  unfold lines_marker. rewrite !bytes_of_string_app, !Forall_app.
  split_and!; [by repeat constructor|apply digits_ascii, pretty_digits|by repeat constructor].
Qed.

Lemma bytes_marker_ascii n : Forall is_ascii (bytes_marker n).
Proof.
  unfold bytes_marker. rewrite !bytes_of_string_app, !Forall_app.
  split_and!; [by repeat constructor|by repeat constructor|apply digits_ascii, pretty_digits
    |by repeat constructor..].
Qed.

Lemma len_bytes_marker n : (n < 10 ^ 20)%N -> (len (bytes_marker n) <= 46)%N.
Proof.
  intros Hn. unfold bytes_marker. rewrite !bytes_of_string_app, !len_app, !len_bytes_of_string.
  pose proof (pretty_N_length n 20 ltac:(lia) Hn) as Hl.
  change (len newline) with 1%N. change (str_len "[... ") with 5%N.
  change (str_len " bytes omitted ...]") with 19%N. unfold str_len. lia.
Qed.

(** *** Lines of UTF-8 are UTF-8 *)

Lemma utf8_char_newline c : utf8_next c = (length c, true) -> c = newline \/ no_newline c.
Proof.
  intros Hc. assert (forall b, is_cont b = true -> is_nl b = false) as Hcont.
  { intros b. unfold is_cont, in_range, is_nl, is_byte. lia. }
  destruct c as [|b c]; [right; constructor|].
  assert (Forall (fun b => is_nl b = false) c) as Htail.
  { apply Forall_lookup_2. intros i b' Hi. apply Hcont.
    by eapply (utf8_next_cont (b :: c) i). }
  destruct (is_nl b) eqn:E; [left|right; by constructor].
  assert (b = Byte.x0a) as ->.
  { rewrite <- (byte_of_val b). unfold is_nl, is_byte in E. apply N.eqb_eq in E. by rewrite E. }
  by destruct c.
Qed.

Lemma split_at_prefix c l : no_newline c ->
  split_at is_nl (c ++ l) = match split_at is_nl l with p :: ps => (c ++ p) :: ps | [] => [c] end.
Proof.
  induction 1 as [|b c Hb Hc IH]; simpl.
  - destruct l as [|b l]; simpl; [done|]. destruct (is_nl b), (split_at is_nl l); done.
  - rewrite Hb, IH. by destruct (split_at is_nl l).
Qed.

Lemma utf8_split_at l : utf8 l -> Forall utf8 (split_at is_nl l).
Proof.
  induction 1 as [|c l Hc Hn Hl IH]; [repeat constructor|].
  destruct (utf8_char_newline c Hn) as [->|Hnl].
  - simpl. constructor; [constructor|done].
  - rewrite split_at_prefix by done. destruct (split_at is_nl l) as [|p ps].
    + repeat constructor. rewrite <- (app_nil_r c). by constructor; [| |constructor].
    + inversion IH; subst. constructor; [by constructor|done].
Qed.

Lemma utf8_strip_cr l : utf8 l -> utf8 (strip_cr l).
Proof.
  intros Hl. unfold strip_cr. destruct (last l) as [b|] eqn:Hb; [|done].
  destruct (is_byte 13 b) eqn:Hcr; [|done]. rewrite last_lookup in Hb.
  replace (length l - 1)%nat with (N.to_nat (len l - 1)) by (unfold len; lia).
  apply utf8_split; [done|lia|]. unfold is_char_boundary. case_decide; [done|].
  replace (N.to_nat (len l - 1)) with (pred (length l)) by (unfold len in *; lia).
  rewrite Hb. unfold is_byte in Hcr. unfold is_cont, in_range. lia.
Qed.

Lemma utf8_lines l : utf8 l -> Forall utf8 (lines l).
Proof.
  intros Hl%utf8_split_at. unfold lines.
  induction Hl as [|p ps Hp Hps IH]; [constructor|]. cbn [lines_of].
  destruct ps as [|q qs]; [case_decide; by repeat constructor|].
  constructor; [by apply utf8_strip_cr|exact IH].
Qed.

Lemma utf8_concat_lines ls : Forall utf8 ls -> utf8 (concat ((fun l => l ++ newline) <$> ls)).
Proof.
  induction 1 as [|l ls Hl Hls IH]; [constructor|]. rewrite fmap_cons. cbn [concat].
  by apply utf8_app; [apply utf8_app; [done|apply utf8_ascii; by repeat constructor]|].
Qed.

Lemma utf8_clamp_lines s : utf8 s -> utf8 (clamp_lines s).
Proof.
  intros Hs. unfold clamp_lines. destruct (_ <=? _)%N; [done|]. cbv zeta.
  pose proof (utf8_lines s Hs) as Hl.
  rewrite !fold_push_line. unfold push_line. rewrite app_nil_l.
  apply utf8_app; [apply utf8_app; [|apply utf8_app]|];
    first [apply utf8_concat_lines; by first [apply Forall_take|apply Forall_drop]|apply utf8_ascii].
  - apply lines_marker_ascii.
  - by repeat constructor.
Qed.

(** *** Lengths *)

Lemma len_take_le {A} n (l : list A) : (len (take n l) <= len l)%N.
Proof. unfold len. rewrite length_take. lia. Qed.

Lemma len_concat_lines ls :
  (len (concat ((fun l => l ++ newline) <$> ls)) = len (concat ls) + len ls)%N.
Proof.
  induction ls as [|l ls IH]; [done|]. rewrite fmap_cons. cbn [concat].
  rewrite !len_app, IH. unfold len. simpl. lia.
Qed.

Lemma len_split_at l : (len (concat (split_at is_nl l)) + len (split_at is_nl l) = len l + 1)%N.
Proof.
  induction l as [|b l IH]; [done|]. cbn [split_at].
  destruct (is_nl b); [cbn [concat app] in *; unfold len in *; simpl in *; lia|].
  destruct (split_at is_nl l) as [|p ps]; unfold len in *; simpl in *; rewrite ?length_app in *;
    simpl in *; lia.
Qed.

Lemma len_lines_of ps : (len (concat (lines_of ps)) + len (lines_of ps) <= len (concat ps) + len ps)%N.
Proof.
  induction ps as [|p ps IH]; [done|]. cbn [lines_of].
  destruct ps as [|q qs].
  - case_decide; [subst; simpl; unfold len; simpl; lia|done].
  - cbn [concat] in *. assert (len (strip_cr p) <= len p)%N as Hcr.
    { unfold strip_cr. destruct (last p) as [b|]; [|done].
      destruct (is_byte 13 b); [apply len_take_le|done]. }
    rewrite !len_app in *. unfold len in *. simpl in *. lia.
Qed.

Lemma len_lines l : (len (concat (lines l)) + len (lines l) <= len l + 1)%N.
Proof. rewrite <- len_split_at. apply len_lines_of. Qed.

Lemma len_concat_take_drop (ls : list (list byte)) i j : (i <= j)%nat ->
  (len (concat (take i ls)) + len (concat (drop j ls)) <= len (concat ls))%N.
Proof.
  intros Hij. rewrite <- (take_drop i ls) at 3. rewrite concat_app, len_app.
  rewrite <- (take_drop (j - i) (drop i ls)), concat_app, len_app.
  rewrite drop_drop. replace (i + (j - i))%nat with j by lia. lia.
Qed.

(** [clamp_lines] adds at most its marker and a final newline. *)
Lemma len_clamp_lines s : (len s < 10 ^ 19)%N -> (len (clamp_lines s) <= len s + 46)%N.
Proof.
  intros Hs. pose proof (len_lines s) as Hl. unfold clamp_lines.
  destruct (len (lines s) <=? MAX_LINES)%N eqn:E; [lia|]. cbv zeta. apply N.leb_gt in E.
  change (MAX_LINES / 2)%N with 100%N. change (MAX_LINES - 100)%N with 100%N.
  change MAX_LINES with 200%N in E. change (N.to_nat 100) with 100%nat.
  rewrite !fold_push_line. unfold push_line. rewrite !len_app, !len_concat_lines.
  pose proof (len_concat_take_drop (lines s) 100 (N.to_nat (len (lines s) - 100)) ltac:(lia)) as Htd.
  assert (len (lines_marker (len (lines s) - 100 - 100)) <= 44)%N as Hm.
  { unfold lines_marker. rewrite !bytes_of_string_app, !len_app, !len_bytes_of_string.
    pose proof (pretty_N_length (len (lines s) - 100 - 100) 20 ltac:(lia) ltac:(lia)) as Hp.
    change (str_len "[... ") with 5%N. change (str_len " lines omitted ...]") with 19%N.
    unfold str_len. lia. }
  assert (len (take 100 (lines s)) + len (drop (N.to_nat (len (lines s) - 100)) (lines s)) = 200)%N as Hc.
  { unfold len in *. rewrite length_take, length_drop. lia. }
  change (len newline) with 1%N. change (len []) with 0%N. unfold len in *. lia.
Qed.

Lemma len_lossy_fuel fuel l : (len (lossy_fuel fuel l) <= 3 * len l)%N.
Proof.
  revert l. induction fuel as [|fuel IH]; intros [|b l]; try (unfold len; simpl; lia).
  cbn [lossy_fuel]. destruct (utf8_next (b :: l)) as [n good] eqn:E.
  apply utf8_next_bound in E as [Hn Hpos]. specialize (Hpos ltac:(done)).
  rewrite len_app. specialize (IH (drop n (b :: l))).
  assert (len (drop n (b :: l)) = len (b :: l) - N.of_nat n)%N as Hd
    by (unfold len; rewrite length_drop; lia).
  destruct good; unfold len in *; rewrite ?length_take; simpl length in *; lia.
Qed.

(** ** Capture *)

Lemma push_capped_take buf data : (len buf <= MAX_CAPTURE)%N ->
  push_capped buf data = take (N.to_nat MAX_CAPTURE) (buf ++ data).
Proof.
  intros Hb. unfold push_capped. destruct (MAX_CAPTURE <=? len buf)%N eqn:E.
  - rewrite take_app_le by (unfold len in *; lia). rewrite take_ge; [done|unfold len in *; lia].
  - apply N.leb_gt in E. rewrite take_app_ge by (unfold len in *; lia). f_equal.
    destruct (decide (len data <= MAX_CAPTURE - len buf)%N).
    + rewrite !take_ge by (unfold len in *; lia). done.
    + f_equal. unfold len in *. lia.
Qed.

Lemma len_take_cap (l : list byte) : (len (take (N.to_nat MAX_CAPTURE) l) <= MAX_CAPTURE)%N.
Proof. unfold len. rewrite length_take. lia. Qed.

(** ** The theorems *)

Lemma clamp_rendered bytes : (len bytes < 2 ^ 60)%N -> exists out,
  clamp bytes = Some out /\ utf8 out /\ (len out < MAX_BYTES + 128)%N.
Proof.
  intros Hb. unfold clamp. set (s := clamp_lines _).
  assert (utf8 s) as Hs by apply utf8_clamp_lines, from_utf8_lossy_utf8.
  pose proof (len_lossy_fuel (length bytes) bytes) as Hlossy. fold (from_utf8_lossy bytes) in Hlossy.
  assert (len s <= 3 * len bytes + 46)%N as Hlen by (etrans; [apply len_clamp_lines|]; lia).
  assert (MAX_BYTES = 65536)%N as Hmax by done. assert (MAX_BYTES / 2 = 32768)%N as Hhalf by done.
  destruct (decide (len s <= MAX_BYTES)%N) as [Hle|Hgt].
  - exists s. unfold clamp_bytes. rewrite (proj2 (N.leb_le _ _) Hle). split_and!; [done..|lia].
  - destruct (clamp_bytes_cut s Hs) as (h & m & t & Hcut & -> & Hh & Ht & Hlh & Hlt); [lia|].
    eexists. split; [done|]. split.
    + apply utf8_app; [done|]. apply utf8_app; [apply utf8_ascii, bytes_marker_ascii|done].
    + rewrite !len_app. assert (len m < 10 ^ 20)%N.
      { rewrite Hcut, !len_app in Hlen. lia. }
      pose proof (len_bytes_marker (len m) ltac:(done)). lia.
Qed.

(** C39: rendering a captured stream never panics - no slice falls off a
    character boundary and no length underflows - and yields UTF-8 of fewer
    than MAX_BYTES + 128 bytes, however long, binary or truncated it is. *)
Theorem clamp_total bytes : (len bytes < 2 ^ 60)%N -> exists out,
  clamp bytes = Some out /\ utf8 out /\ (len out < MAX_BYTES + 128)%N.
Proof. apply clamp_rendered. Qed.

(** Output within both caps is passed through unchanged. *)
Theorem clamp_verbatim bytes : utf8 bytes -> (len (lines bytes) <= MAX_LINES)%N ->
  (len bytes <= MAX_BYTES)%N -> clamp bytes = Some bytes.
Proof.
  intros Hu Hl Hb. unfold clamp, clamp_lines, clamp_bytes. rewrite from_utf8_lossy_id by done.
  by rewrite (proj2 (N.leb_le _ _) Hl), (proj2 (N.leb_le _ _) Hb).
Qed.

(** Text of more than MAX_LINES lines becomes its first hundred lines, a
    marker that states exactly how many were left out, and its last hundred. *)
Theorem clamp_lines_head_tail s : (MAX_LINES < len (lines s))%N ->
  split_at is_nl (clamp_lines s) =
    take 100 (lines s) ++ [lines_marker (len (lines s) - 200)] ++
    drop (length (lines s) - 100) (lines s) ++ [[]].
Proof.
  intros Hn. unfold clamp_lines. rewrite (proj2 (N.leb_gt _ _) Hn). cbv zeta.
  change (MAX_LINES / 2)%N with 100%N. change (MAX_LINES - 100)%N with 100%N.
  change (N.to_nat 100) with 100%nat.
  replace (len (lines s) - 100 - 100)%N with (len (lines s) - 200)%N by lia.
  replace (N.to_nat (len (lines s) - 100)) with (length (lines s) - 100)%nat by (unfold len; lia).
  rewrite !fold_push_line. unfold push_line.
  pose proof (lines_no_newline s) as Hl. rewrite app_nil_l.
  rewrite <- !(assoc_L (++)), split_at_lines by (by apply Forall_take).
  rewrite split_at_line by apply lines_marker_no_newline. do 2 f_equal.
  rewrite <- (app_nil_r (concat _)), split_at_lines by (by apply Forall_drop). done.
Qed.

(** A string over MAX_BYTES is cut into a head and a tail of almost half the
    cap each, both whole characters, around a marker that states exactly how
    many bytes were left out. *)
Theorem clamp_bytes_head_tail s : utf8 s -> (MAX_BYTES < len s)%N -> exists h m t,
  s = h ++ m ++ t /\ clamp_bytes s = Some (h ++ bytes_marker (len m) ++ t) /\
  utf8 h /\ utf8 t /\
  (MAX_BYTES / 2 - 3 <= len h <= MAX_BYTES / 2)%N /\ (MAX_BYTES / 2 - 3 <= len t <= MAX_BYTES / 2)%N.
Proof. apply clamp_bytes_cut. Qed.

(** A stream captured in chunks is its first MAX_CAPTURE bytes, however it
    was split: nothing is lost before the cap, nothing kept beyond it. *)
Theorem capture_prefix chunks :
  fold_left push_capped chunks [] = take (N.to_nat MAX_CAPTURE) (concat chunks).
Proof.
  assert (forall buf, (len buf <= MAX_CAPTURE)%N ->
    fold_left push_capped chunks buf = take (N.to_nat MAX_CAPTURE) (buf ++ concat chunks)) as H;
    [|by apply (H [])].
  induction chunks as [|c chunks IH]; intros buf Hbuf; cbn [fold_left concat].
  { rewrite app_nil_r, take_ge by (unfold len in *; lia). reflexivity. }
  rewrite push_capped_take, IH by (done || apply len_take_cap).
  destruct (decide (len (buf ++ c) <= MAX_CAPTURE)%N) as [Hle|Hgt].
  - rewrite (take_ge (buf ++ c)) by (unfold len in *; lia). by rewrite <- (assoc_L (++)).
  - rewrite (assoc_L (++)), (take_app_le (buf ++ c)) by (unfold len in *; lia).
    rewrite take_app_le by (unfold len in *; rewrite length_take; lia).
    rewrite take_take, Nat.min_id. reflexivity.
Qed.

(** ** Witnesses *)

Definition ok_text : list byte := bytes_of_string "ok".

(** [n] times the byte x. *)
Definition xs (n : N) : list byte := replicate (N.to_nat n) Byte.x78.

Lemma xs_ascii n : Forall is_ascii (xs n).
Proof. by apply Forall_replicate. Qed.

Lemma len_xs n : len (xs n) = n.
Proof. unfold len, xs. rewrite length_replicate. lia. Qed.

Lemma clamp_total_witness : exists out,
  clamp [Byte.xff; Byte.x68] = Some out /\ utf8 out /\ (len out < MAX_BYTES + 128)%N.
Proof. by apply clamp_total. Defined.

Lemma clamp_verbatim_witness : clamp ok_text = Some ok_text.
Proof. apply clamp_verbatim; [by apply utf8_ascii; repeat constructor|done|done]. Defined.

Lemma clamp_lines_head_tail_witness :
  let s := concat (replicate 300 newline) in
  split_at is_nl (clamp_lines s) =
    take 100 (lines s) ++ [lines_marker (len (lines s) - 200)] ++
    drop (length (lines s) - 100) (lines s) ++ [[]].
Proof. apply clamp_lines_head_tail. vm_compute. reflexivity. Defined.

Lemma clamp_bytes_head_tail_witness : exists h m t,
  xs 70000 = h ++ m ++ t /\ clamp_bytes (xs 70000) = Some (h ++ bytes_marker (len m) ++ t) /\
  utf8 h /\ utf8 t /\
  (MAX_BYTES / 2 - 3 <= len h <= MAX_BYTES / 2)%N /\ (MAX_BYTES / 2 - 3 <= len t <= MAX_BYTES / 2)%N.
Proof. apply clamp_bytes_head_tail; [apply utf8_ascii, xs_ascii|by rewrite len_xs]. Defined.

