(* ===== verification/Uidmap.v ===== *)
(** * uid and gid maps

    draug-ns/src/linux/uidmap.rs.  The host - its ids, files and the setuid
    helpers - is the record [host]; what [write_maps] does to it is the list of
    [effect]s it causes, in order.  What a line of /etc/subuid grants, and what
    the arguments of the helpers mean, is said independently of the code. *)

From S2P Require Import Prelude Text Types.

(** One line of /etc/subuid: [None] when it is skipped. *)
Definition subid_line (user : string) (numeric : string) (line : string) : option (N * N) :=
  let line := str_trim line in
  if bool_decide (line = EmptyString) || starts_with "#" line then None
  else
    '(name, rest) ← split_once ":" line;
    '(start, count) ← split_once ":" rest;
    if bool_decide (name <> user) && bool_decide (name <> numeric) then None
    else
      start ← parse_uint u32_max start;
      count ← parse_uint u32_max (str_trim count);
      if (count =? 0)%N then None
      else Some (start, N.min count 65535).

Fixpoint first_some {A B} (f : A -> option B) (l : list A) : option B :=
  match l with
  | [] => None
  | x :: l' => match f x with Some y => Some y | None => first_some f l' end
  end.

Definition parse_subid (content user : string) (numeric_id : N) : option (N * N) :=
  first_some (subid_line user (pretty numeric_id)) (str_lines content).

(** ** The host *)

Record output := mkOutput { success : bool; status : string; stderr : list byte }.

Inductive effect :=
  | WriteFile (path content : string)
  | RunTool (tool : string) (args : list string).

Record host := mkHost {
  euid_is_root : bool;
  getuid : N;
  getgid : N;
  user_name : option string;
  read_to_string : string -> result Io.error string;
  write_file : string -> string -> result Io.error unit;
  run_tool : string -> list string -> result Io.error output;
}.

Section host.
Context (h : host).

Definition lookup_subid (file user : string) (numeric_id : N) : result Error (N * N) :=
  match read_to_string h file with
  | Err e =>
      Err (Unsupported ("cannot read " +:+ file +:+ " (" +:+ Io.message e +:+
        "); rootless sandboxes need a subordinate id range. Fix: add the line " +:+ dq +:+ user +:+
        ":100000:65536" +:+ dq +:+ " to " +:+ file +:+ " (see subuid(5))"))
  | Ok content =>
      match parse_subid content user numeric_id with
      | Some range => Ok range
      | None =>
          Err (Unsupported ("no subordinate id range for " +:+ dq +:+ user +:+ dq +:+ " in " +:+ file +:+
            ". Fix: add the line " +:+ dq +:+ user +:+ ":100000:65536" +:+ dq +:+ " to " +:+ file +:+
            " (see subuid(5)), or run `usermod --add-subuids 100000-165535 --add-subgids 100000-165535 "
            +:+ user +:+ "`"))
      end
  end.

(** The id map as [newuidmap] reads it: triples of inside, outside, count. *)
Definition idmap_args (pid own_id sub_start sub_count : N) : list string :=
  [pretty pid; "0"; pretty own_id; "1"; "1"; pretty sub_start; pretty sub_count]%string.

Definition run_idmap (tool : string) (pid own_id sub_start sub_count : N) (user subid_file : string)
  : result Error unit * list effect :=
  let args := idmap_args pid own_id sub_start sub_count in
  (match run_tool h tool args with
   | Err e =>
       if decide (Io.kind e = Io.NotFound)
       then Err (Unsupported (tool +:+ " not found; install it (package `uidmap` on Debian/Ubuntu, `shadow-utils` on Fedora) to run rootless sandboxes"))
       else Err (Error_io "run idmap helper" e)
   | Ok out =>
       if success out then Ok tt
       else Err (Unsupported (tool +:+ " failed (" +:+ status out +:+ "): " +:+
              str_trim (string_of_bytes (from_utf8_lossy (stderr out))) +:+ ". Check that " +:+ subid_file +:+
              " grants " +:+ dq +:+ user +:+ dq +:+ " the range " +:+ pretty sub_start +:+ ":" +:+ pretty sub_count +:+
              " and that " +:+ tool +:+ " is setuid root; see subuid(5)"))
   end, [RunTool tool args]).

Definition identity_map : string := "0 0 4294967295" +:+ String "010" EmptyString.

Definition write_map (pid : N) (name : string) : result Error unit * list effect :=
  let path := "/proc/" +:+ pretty pid +:+ "/" +:+ name in
  (map_err (Error_io "write id map") (write_file h path identity_map), [WriteFile path identity_map]).

(** Two effectful calls in a row: the second only after the first succeeded. *)
Definition and_then (a : result Error unit * list effect) (b : unit -> result Error unit * list effect)
  : result Error unit * list effect :=
  match a with
  | (Err e, l) => (Err e, l)
  | (Ok _, l) => let '(r, l') := b tt in (r, l ++ l')
  end.

Definition write_maps_as_root (pid : N) : result Error unit * list effect :=
  and_then (write_map pid "uid_map") (fun _ => write_map pid "gid_map").

Definition write_maps (pid : N) : result Error unit * list effect :=
  if euid_is_root h then write_maps_as_root pid
  else
    let user := default (pretty (getuid h)) (user_name h) in
    match lookup_subid "/etc/subuid" user (getuid h) with
    | Err e => (Err e, [])
    | Ok (sub_uid_start, sub_uid_count) =>
        match lookup_subid "/etc/subgid" user (getgid h) with
        | Err e => (Err e, [])
        | Ok (sub_gid_start, sub_gid_count) =>
            and_then (run_idmap "newuidmap" pid (getuid h) sub_uid_start sub_uid_count user "/etc/subuid")
              (fun _ => run_idmap "newgidmap" pid (getgid h) sub_gid_start sub_gid_count user "/etc/subgid")
        end
    end.

End host.

(** ** Lemmas *)

Lemma first_some_Some {A B} (f : A -> option B) l y : first_some f l = Some y <->
  exists l1 x l2, l = l1 ++ x :: l2 /\ f x = Some y /\ Forall (fun z => f z = None) l1.
Proof.
  induction l as [|x l IH]; simpl; [split; [done|]; by intros ([] & ? & ? & ? & _)|].
  destruct (f x) as [y'|] eqn:E.
  - split; [intros [= <-]; by exists [], x, l|].
    intros ([|z l1] & x' & l2 & Heq & Hy & Hn); simplify_eq/=; [congruence|].
    inversion Hn. congruence.
  - rewrite IH. split.
    + intros (l1 & x' & l2 & -> & Hy & Hn). exists (x :: l1), x', l2. by repeat constructor.
    + intros ([|z l1] & x' & l2 & Heq & Hy & Hn); simplify_eq/=; try congruence.
      inversion Hn. by exists l1, x', l2.
Qed.

Lemma subid_line_range user numeric line start count :
  subid_line user numeric line = Some (start, count) ->
  (start <= u32_max)%N /\ (1 <= count <= 65535)%N.
Proof.
  unfold subid_line. destruct (_ || _); [done|].
  destruct (split_once ":" _) as [[name rest]|]; [|done]. simpl.
  destruct (split_once ":" rest) as [[st ct]|]; [|done]. simpl.
  destruct (_ && _); [done|].
  destruct (parse_uint u32_max st) as [s|] eqn:Es; [|done]. simpl.
  destruct (parse_uint u32_max (str_trim ct)) as [c|] eqn:Ec; [|done]. simpl.
  destruct (c =? 0)%N eqn:E0; [done|]. intros [= <- <-]. apply N.eqb_neq in E0.
  split; [by eapply parse_uint_bound|]. lia.
Qed.

(** *** Maps *)

(** The ids inside the namespace that a map covers: 0 is the caller, 1 to
    [count] the subordinate range. *)
Definition map_target (own_id sub_start sub_count inside : N) : option N :=
  if (inside =? 0)%N then Some own_id
  else if (inside <=? sub_count)%N then Some (sub_start + (inside - 1))%N
  else None.

(** What a map file in triples means. *)
Fixpoint triples_target (l : list (N * N * N)) (inside : N) : option N :=
  match l with
  | [] => None
  | (first, outside, count) :: l' =>
      if (first <=? inside)%N && (inside <? first + count)%N
      then Some (outside + (inside - first))%N else triples_target l' inside
  end.

(** The triples in the arguments behind the pid. *)
Definition args_triples (args : list string) : option (list (N * N * N)) :=
  match omap (parse_uint u32_max) args with
  | [_; a; b; c; d; e; f] => Some [(a, b, c); (d, e, f)]
  | _ => None
  end.

Lemma idmap_args_target pid own start count i : (pid <= u32_max)%N -> (own <= u32_max)%N ->
  (start <= u32_max)%N -> (count <= u32_max)%N -> exists tr,
  args_triples (idmap_args pid own start count) = Some tr /\
  triples_target tr i = map_target own start count i.
Proof.
  intros Hp Ho Hs Hc. unfold args_triples, idmap_args.
  assert (parse_uint u32_max "0" = Some 0%N) as H0 by done.
  assert (parse_uint u32_max "1" = Some 1%N) as H1 by done.
  cbn [omap list_omap]. rewrite !parse_uint_pretty, H0, H1 by done.
  eexists. split; [done|]. unfold triples_target, map_target.
  destruct (decide (i = 0)%N) as [->|Hi]; [simpl; f_equal; lia|].
  replace (i =? 0)%N with false by lia. replace (0 <=? i)%N with true by lia.
  replace (i <? 0 + 1)%N with false by lia. replace (1 <=? i)%N with true by lia. simpl.
  destruct (i <=? count)%N eqn:E.
  - replace (i <? 1 + count)%N with true by lia. done.
  - replace (i <? 1 + count)%N with false by lia. done.
Qed.

Lemma lookup_subid_range h file user id start count : lookup_subid h file user id = Ok (start, count) ->
  (start <= u32_max)%N /\ (1 <= count <= 65535)%N.
Proof.
  unfold lookup_subid. destruct (read_to_string h file); [|done].
  destruct (parse_subid a user id) as [[s c]|] eqn:E; [|done]. intros [= <- <-].
  unfold parse_subid in E. apply first_some_Some in E as (l1 & x & l2 & Hl & Hx & Hn).
  by eapply subid_line_range.
Qed.

(** ** The theorems *)

(** The range [parse_subid] returns is that of the first line that grants
    one to the user, by name or by number, every line before it - comments,
    other users, malformed or empty ranges - being skipped; its start is a u32
    and its size is between 1 and 65535. *)
Theorem parse_subid_first content user id start count :
  parse_subid content user id = Some (start, count) ->
  (exists before line after, str_lines content = before ++ line :: after /\
     subid_line user (pretty id) line = Some (start, count) /\
     Forall (fun l => subid_line user (pretty id) l = None) before) /\
  (start <= u32_max)%N /\ (1 <= count <= 65535)%N.
Proof.
  intros H. unfold parse_subid in H. apply first_some_Some in H as (l1 & x & l2 & Hl & Hx & Hn).
  split; [by exists l1, x, l2|]. by eapply subid_line_range.
Qed.

(** *** What a line of the file grants *)

Fixpoint lacks (c : ascii) (s : string) : Prop :=
  match s with EmptyString => True | String a s' => a <> c /\ lacks c s' end.

(** "name:start:count", for this user by name or number, no comment; of the
    count at most 65535 ids are taken. *)
Definition grants (user : string) (id : N) (line : string) (start count : N) : Prop :=
  exists name st ct n, str_trim line = name +:+ ":" +:+ st +:+ ":" +:+ ct /\
    starts_with "#" name = false /\ lacks ":" name /\ lacks ":" st /\
    (name = user \/ name = pretty id) /\
    parse_uint u32_max st = Some start /\ parse_uint u32_max (str_trim ct) = Some n /\
    n <> 0%N /\ count = N.min n 65535.

Lemma split_once_lacks c s k v : split_once c s = Some (k, v) <-> s = k +:+ String c v /\ lacks c k.
Proof.
  split.
  - intros H. split; [by apply split_once_Some|]. revert k H. induction s as [|a s IH]; intros k; simpl; [done|].
    case_decide; [by intros [= <- _]|]. destruct (split_once c s) as [[k' v']|]; [|done].
    intros [= <- <-]. split; [done|by apply IH].
  - intros [-> Hk]. induction k as [|a k IH]; simpl; [by rewrite decide_True|].
    destruct Hk as [Ha Hk]. by rewrite decide_False, (IH Hk) by done.
Qed.

Lemma subid_line_grants user id line start count :
  subid_line user (pretty id) line = Some (start, count) <-> grants user id line start count.
Proof.
  unfold subid_line, grants. split.
  - destruct (_ || _) eqn:Hskip; [done|]. apply orb_false_iff in Hskip as [_ Hhash].
    destruct (split_once ":" _) as [[name rest]|] eqn:E1; [|done]. simpl.
    destruct (split_once ":" rest) as [[st ct]|] eqn:E2; [|done]. simpl.
    apply split_once_lacks in E1 as [E1 H1], E2 as [-> H2]. rewrite E1 in *.
    destruct (_ && _) eqn:Hname; [done|]. apply andb_false_iff in Hname.
    rewrite !bool_decide_eq_false in Hname.
    destruct (parse_uint u32_max st) as [s|] eqn:Es; [|done]. simpl.
    destruct (parse_uint u32_max (str_trim ct)) as [n|] eqn:En; [|done]. simpl.
    destruct (n =? 0)%N eqn:E0; [done|]. intros [= <- <-]. apply N.eqb_neq in E0.
    exists name, st, ct, n. split_and!; try done.
    + destruct name as [|a name]; [done|]. unfold starts_with in *. simpl in *. by case_decide.
    + destruct Hname as [H|H]; apply dec_stable in H; auto.
  - intros (name & st & ct & n & -> & Hh & Hl1 & Hl2 & Hname & Hs & Hn & Hz & ->).
    replace (starts_with "#" _) with false
      by (destruct name as [|a name]; [done|]; unfold starts_with in *; simpl in *; by case_decide).
    rewrite bool_decide_false by by destruct name. simpl.
    change (":" +:+ st +:+ ":" +:+ ct) with (String ":" (st +:+ String ":" ct)).
    rewrite (proj2 (split_once_lacks ":" _ name (st +:+ String ":" ct)) (conj eq_refl Hl1)). simpl.
    rewrite (proj2 (split_once_lacks ":" _ st ct) (conj eq_refl Hl2)). simpl.
    replace (_ && _) with false.
    2: { symmetry. apply andb_false_iff. rewrite !bool_decide_eq_false.
         destruct Hname as [?|?]; [left|right]; tauto. }
    rewrite Hs, Hn. simpl. by replace (n =? 0)%N with false by lia.
Qed.

(** The range of a subordinate id file: the first line that grants one. *)
Definition first_grant (h : host) (file user : string) (id start count : N) : Prop :=
  exists content before line after, read_to_string h file = Ok content /\
    str_lines content = before ++ line :: after /\ grants user id line start count /\
    Forall (fun l => forall s c, ~ grants user id l s c) before.

Lemma lookup_subid_first h file user id start count : lookup_subid h file user id = Ok (start, count) ->
  first_grant h file user id start count.
Proof.
  unfold lookup_subid. destruct (read_to_string h file) as [content|] eqn:Hr; [|done].
  destruct (parse_subid content user id) as [[s c]|] eqn:E; [|done]. intros [= -> ->].
  apply first_some_Some in E as (before & line & after & Hl & Hx & Hn).
  exists content, before, line, after. split_and!; [done|done|by apply subid_line_grants|].
  eapply Forall_impl; [exact Hn|]. intros l Hnone s c' Hg%subid_line_grants. congruence.
Qed.

Lemma run_idmap_Ok h tool pid own s c user file l : run_idmap h tool pid own s c user file = (Ok tt, l) ->
  l = [RunTool tool (idmap_args pid own s c)] /\
  exists out, run_tool h tool (idmap_args pid own s c) = Ok out /\ success out = true.
Proof.
  unfold run_idmap. destruct (run_tool h tool _) as [out|]; [|by case_decide].
  destruct (success out) eqn:Hs; [|done]. intros [= <-]. eauto.
Qed.

(** A call of one of the two helpers: it ran, for this process, and its
    arguments mean this map. *)
Definition maps (h : host) (tool : string) (pid own start count : N) (e : effect) : Prop :=
  exists args out tr, e = RunTool tool (pretty pid :: args) /\
    run_tool h tool (pretty pid :: args) = Ok out /\ success out = true /\
    args_triples (pretty pid :: args) = Some tr /\
    forall i, triples_target tr i = map_target own start count i.

Lemma run_idmap_maps h tool pid own s c user file l : (pid <= u32_max)%N -> (own <= u32_max)%N ->
  (s <= u32_max)%N -> (c <= 65535)%N ->
  run_idmap h tool pid own s c user file = (Ok tt, l) -> exists e, l = [e] /\ maps h tool pid own s c e.
Proof.
  intros Hp Ho Hs Hc (-> & out & Hrun & Hout)%run_idmap_Ok. eexists. split; [done|].
  unfold idmap_args in *. eexists _, out.
  destruct (idmap_args_target pid own s c 0) as (tr & Htr & _); [done..|unfold u32_max; lia|].
  exists tr. split_and!; [done..|]. intros i.
  destruct (idmap_args_target pid own s c i) as (tr' & Htr' & Hi); [done..|unfold u32_max; lia|].
  congruence.
Qed.

(** C36: Rootless, a [write_maps] that succeeds has done two things and nothing
    else: it ran newuidmap and then newgidmap for the process, both reported
    success, and their arguments map id 0 inside to the caller's own id, ids 1
    to n to the first range that a line of /etc/subuid, or /etc/subgid, grants
    the caller by name or number, cut to 65535 ids, and no other id. *)
Theorem write_maps_rootless h pid effects : euid_is_root h = false ->
  (pid <= u32_max)%N -> (getuid h <= u32_max)%N -> (getgid h <= u32_max)%N ->
  write_maps h pid = (Ok tt, effects) ->
  let user := default (pretty (getuid h)) (user_name h) in
  exists us uc gs gc eu eg,
    first_grant h "/etc/subuid" user (getuid h) us uc /\ first_grant h "/etc/subgid" user (getgid h) gs gc /\
    effects = [eu; eg] /\
    maps h "newuidmap" pid (getuid h) us uc eu /\ maps h "newgidmap" pid (getgid h) gs gc eg.
Proof.
  intros Hroot Hpid Huid Hgid. unfold write_maps. rewrite Hroot. cbv zeta.
  set (user := default _ _).
  destruct (lookup_subid h "/etc/subuid" user (getuid h)) as [[us uc]|] eqn:Eu; [|done].
  destruct (lookup_subid h "/etc/subgid" user (getgid h)) as [[gs gc]|] eqn:Eg; [|done].
  pose proof (lookup_subid_range _ _ _ _ _ _ Eu) as [Hus Huc].
  pose proof (lookup_subid_range _ _ _ _ _ _ Eg) as [Hgs Hgc].
  unfold and_then.
  destruct (run_idmap h "newuidmap" _ _ _ _ _ _) as [[[]|] l1] eqn:E1; [|done].
  destruct (run_idmap h "newgidmap" _ _ _ _ _ _) as [r2 l2] eqn:E2. intros [= -> <-].
  apply run_idmap_maps in E1 as (eu & -> & Hu); [|lia..].
  apply run_idmap_maps in E2 as (eg & -> & Hg); [|lia..].
  exists us, uc, gs, gc, eu, eg. split_and!; [by apply lookup_subid_first..|done|done|done].
Qed.

(** An unreadable file, or one without a usable range for the user, fails
    with [Unsupported] before any helper runs. *)
Theorem write_maps_no_range h pid e : euid_is_root h = false ->
  lookup_subid h "/etc/subuid" (default (pretty (getuid h)) (user_name h)) (getuid h) = Err e ->
  write_maps h pid = (Err e, []) /\ exists m, e = Unsupported m.
Proof.
  intros Hroot He. unfold write_maps. rewrite Hroot, He. split; [done|].
  unfold lookup_subid in He. destruct (read_to_string h _); [|naive_solver].
  destruct (parse_subid _ _ _); [done|]. naive_solver.
Qed.

(** ** Examples and witnesses *)

Definition nl : string := String "010" EmptyString.

(** One user by name, one by number. *)
Definition subuid_file : string :=
  "# comment" +:+ nl +:+ nl +:+ "alice:100000:65536" +:+ nl +:+ "1001:200000:1000" +:+ nl.

Definition alice : host := mkHost false 1000 1000 (Some "alice"%string)
  (fun _ => Ok subuid_file) (fun _ _ => Ok tt) (fun _ _ => Ok (mkOutput true "exit status: 0" [])).

Lemma parse_subid_first_witness :
  (exists before line after, str_lines subuid_file = before ++ line :: after /\
     subid_line "bob" (pretty 1001%N) line = Some (200000, 1000)%N /\
     Forall (fun l => subid_line "bob" (pretty 1001%N) l = None) before) /\
  (200000 <= u32_max)%N /\ (1 <= 1000 <= 65535)%N.
Proof. apply (parse_subid_first subuid_file "bob" 1001). by vm_compute. Defined.

Lemma write_maps_rootless_witness : exists us uc gs gc eu eg,
  first_grant alice "/etc/subuid" "alice" 1000 us uc /\ first_grant alice "/etc/subgid" "alice" 1000 gs gc /\
  snd (write_maps alice 42) = [eu; eg] /\
  maps alice "newuidmap" 42 1000 us uc eu /\ maps alice "newgidmap" 42 1000 gs gc eg.
Proof. apply (write_maps_rootless alice 42 (snd (write_maps alice 42))); by vm_compute. Defined.

Definition nobody : host := mkHost false 1000 1000 None
  (fun _ => Err (Io.new Io.NotFound "No such file or directory")) (fun _ _ => Ok tt)
  (fun _ _ => Ok (mkOutput true "exit status: 0" [])).

Lemma write_maps_no_range_witness : exists e, write_maps nobody 42 = (Err e, []) /\ exists m, e = Unsupported m.
Proof. eexists. apply write_maps_no_range; [done|reflexivity]. Defined.
