(* ===== verification/Helper.v ===== *)
(** * The re-exec helpers and their drivers

    draug-ns/src/linux/reexec.rs (cleanup, copy) and the functions of
    backend.rs that drive them (copy_layer_via_helper, remove_state_dir, the
    drive loop of do_spawn).  Parent and helper are two processes over a pair
    of pipes.  A line the parent reads makes it confirm the uid maps, finish,
    or read on; the parent keeps its end of the helper's stdin open until its
    function returns, and before that it waits for the helper to exit. *)

From S2P Require Import Prelude Text Types.

(** ** What a line means to the parent *)

Inductive reply (T : Type) :=
  | Confirm                       (* write the uid maps, then send go *)
  | Finish (r : result Error T)
  | Continue.
Arguments Confirm {T}.
Arguments Finish {T} r.
Arguments Continue {T}.

(** The message of [ParseIntError]. *)
Fixpoint digits_error (max acc : N) (s : string) : option string :=
  match s with
  | EmptyString => None
  | String c s' =>
      match digit c with
      | None => Some "invalid digit found in string"%string
      | Some d =>
          if decide (acc * 10 + d <= max)%N then digits_error max (acc * 10 + d) s'
          else Some "number too large to fit in target type"%string
      end
  end.

Definition parse_error (max : N) (s : string) : string :=
  match s with
  | EmptyString => "cannot parse integer from empty string"
  | String c s' =>
      default "invalid digit found in string"%string
        (digits_error max 0 (if decide (c = "+"%char /\ s' <> EmptyString) then s' else s))
  end.

Definition helper_error (op msg : string) : Error := Error_io op (Io.other msg).

(** [copy_layer_via_helper] *)
Definition copy_line (line : string) : reply N :=
  if decide (line = "unshared")%string then Confirm
  else match strip_prefix "done " line with
       | Some n =>
           Finish (match parse_uint u64_max (str_trim n) with
                   | Some v => Ok v
                   | None => Err (helper_error "copy helper" (parse_error u64_max (str_trim n)))
                   end)
       | None =>
           match strip_prefix "err " line with
           | Some msg => Finish (Err (helper_error "copy helper" msg))
           | None => Continue
           end
       end.

(** [remove_state_dir] *)
Definition cleanup_line (line : string) : reply unit :=
  if decide (line = "unshared")%string then Confirm
  else if decide (line = "done")%string then Finish (Ok tt)
  else match strip_prefix "err " line with
       | Some msg => Finish (Err (helper_error "cleanup helper" msg))
       | None => Continue
       end.

(** ** The helper process *)

(** [msg.replace('\n', " ")] *)
Fixpoint one_line (s : string) : string :=
  match s with
  | EmptyString => EmptyString
  | String c s' => String (if Ascii.eqb c "010" then " "%char else c) (one_line s')
  end.

Definition err_line (msg : string) : string := "err " +:+ one_line msg.

(** What a helper meets: bad arguments, a refused unshare, and the last line
    its work ends with. *)
Record job := mkJob {
  job_name : string;
  bad_args : option string;
  unshare_error : option string;
  last_line : string;
}.

Definition cleanup_job (dir : string) (unshare : option string) (removed : option Io.error) : job :=
  mkJob "cleanup"
    (if decide (dir = EmptyString) then Some "cleanup: no directory given"%string else None)
    ((fun e => "cleanup: unshare(CLONE_NEWUSER): " +:+ e) <$> unshare)
    (match removed with
     | Some e => if decide (Io.kind e = Io.NotFound) then "done"%string
                 else err_line ("cleanup: remove " +:+ dir +:+ ": " +:+ Io.message e)
     | None => "done"
     end).

Definition copy_job (src dst : string) (unshare : option string) (copied : result Io.error N) : job :=
  mkJob "copy"
    (if decide (src = EmptyString \/ dst = EmptyString)
     then Some "copy: missing source or destination"%string else None)
    ((fun e => "copy: unshare(CLONE_NEWUSER): " +:+ e) <$> unshare)
    (match copied with
     | Ok bytes => "done " +:+ pretty bytes
     | Err e => err_line ("copy: " +:+ Io.message e)
     end).

Inductive helper_state := HStart | HWaitGo | HWork | HExited.

Inductive parent_state (T : Type) :=
  | PReading
  | PWaiting (r : result Error T)  (* child.wait() *)
  | PDone (r : result Error T).
Arguments PReading {T}.
Arguments PWaiting {T} r.
Arguments PDone {T} r.

Record sys (T : Type) := mkSys {
  helper : helper_state;
  lines : list string;            (* printed, not yet read *)
  stdin_go : bool;                (* go is in the helper's stdin *)
  parent : parent_state T;
}.
Arguments mkSys {T} helper lines stdin_go parent.
Arguments helper {T} s.
Arguments lines {T} s.
Arguments stdin_go {T} s.
Arguments parent {T} s.

Section drive.
Context {T : Type} (on_line : string -> reply T) (op : string).
Context (j : job) (maps : result Error unit) (go_error : option Io.error).

Definition start : sys T := mkSys HStart [] false PReading.

(** One step of the helper; [None]: it is blocked or gone.  Its stdin never
    reaches end of file before it exits: the parent holds it until it returns,
    and it returns after the exit. *)
Definition helper_step (s : sys T) : option (sys T) :=
  match helper s with
  | HStart =>
      match bad_args j, unshare_error j with
      | Some m, _ | None, Some m => Some (mkSys HExited (lines s ++ [err_line m]) (stdin_go s) (parent s))
      | None, None => Some (mkSys HWaitGo (lines s ++ ["unshared"%string]) (stdin_go s) (parent s))
      end
  | HWaitGo => if stdin_go s then Some (mkSys HWork (lines s) false (parent s)) else None
  | HWork => Some (mkSys HExited (lines s ++ [last_line j]) (stdin_go s) (parent s))
  | HExited => None
  end.

(** What reading the next line makes of the parent and of the helper's stdin. *)
Definition parent_reads (line : string) (go : bool) : bool * parent_state T :=
  match on_line line with
  | Confirm =>
      match maps with
      | Err e => (go, PWaiting (Err e))
      | Ok _ =>
          match go_error with
          | Some e => (go, PWaiting (Err (Error_io op e)))
          | None => (true, PReading)
          end
      end
  | Finish r => (go, PWaiting r)
  | Continue => (go, PReading)
  end.

Definition parent_step (s : sys T) : option (sys T) :=
  match parent s with
  | PReading =>
      match lines s, helper s with
      | line :: rest, _ =>
          let '(go, p) := parent_reads line (stdin_go s) in Some (mkSys (helper s) rest go p)
      | [], HExited =>
          Some (mkSys HExited [] (stdin_go s)
                  (PWaiting (Err (helper_error op "helper exited without confirming"))))
      | [], _ => None
      end
  | PWaiting r =>
      match helper s with
      | HExited => Some (mkSys HExited (lines s) (stdin_go s) (PDone r))
      | _ => None
      end
  | PDone _ => None
  end.

(** The deadline: it drops the drive loop, and the wait for the helper follows. *)
Definition timeout_step (s : sys T) : option (sys T) :=
  match parent s with
  | PReading => Some (mkSys (helper s) (lines s) (stdin_go s) (PWaiting (Err (helper_error op "timed out"))))
  | _ => None
  end.

Inductive step : sys T -> sys T -> Prop :=
  | step_helper s s' : helper_step s = Some s' -> step s s'
  | step_parent s s' : parent_step s = Some s' -> step s s'
  | step_timeout s s' : timeout_step s = Some s' -> step s s'.

Definition stuck (s : sys T) : Prop :=
  helper_step s = None /\ parent_step s = None /\ timeout_step s = None.

Inductive reach : sys T -> Prop :=
  | reach_start : reach start
  | reach_step s s' : reach s -> step s s' -> reach s'.

(** Every step brings the end nearer. *)
Definition helper_measure (h : helper_state) : nat :=
  match h with HStart => 8 | HWaitGo => 5 | HWork => 3 | HExited => 0 end.
Definition parent_measure (p : parent_state T) : nat :=
  match p with PReading => 4 | PWaiting _ => 2 | PDone _ => 0 end.
Definition measure (s : sys T) : nat :=
  helper_measure (helper s) + length (lines s) + parent_measure (parent s).

Lemma step_measure s s' : step s s' -> (measure s' < measure s)%nat.
Proof.
  unfold measure. intros [? ? H|? ? H|? ? H].
  - unfold helper_step in H. repeat case_match; simplify_eq/=; rewrite ?length_app; simpl; lia.
  - unfold parent_step, parent_reads in H. repeat case_match; simplify_eq/=; lia.
  - unfold timeout_step in H. repeat case_match; simplify_eq/=; lia.
Qed.

End drive.

(** ** Runs without a deadline *)

Section run.
Context {T : Type} (on_line : string -> reply T) (op : string) (j : job).
Context (final : result Error T).
Context (Hconfirm : on_line "unshared" = Confirm).
Context (Herr : forall m, on_line (err_line m) = Finish (Err (helper_error op (one_line m)))).
Context (Hlast : on_line (last_line j) = Finish final).

(** What the function returns when the maps can be written. *)
Definition outcome : result Error T :=
  match bad_args j, unshare_error j with
  | Some m, _ | None, Some m => Err (helper_error op (one_line m))
  | None, None => final
  end.

Inductive quiet_reach (maps : result Error unit) (go_error : option Io.error) : sys T -> Prop :=
  | quiet_start : quiet_reach maps go_error start
  | quiet_helper s s' : quiet_reach maps go_error s -> helper_step j s = Some s' -> quiet_reach maps go_error s'
  | quiet_parent s s' : quiet_reach maps go_error s -> parent_step on_line op maps go_error s = Some s' ->
      quiet_reach maps go_error s'.

(** The states of a run in which the maps are written. *)
Definition good_state (s : sys T) : Prop :=
  s = start \/
  (exists line, on_line line = Finish outcome /\ s = mkSys HExited [line] false PReading) \/
  s = mkSys HExited [] false (PWaiting outcome) \/ s = mkSys HExited [] false (PDone outcome) \/
  (bad_args j = None /\ unshare_error j = None /\
   (s = mkSys HWaitGo ["unshared"%string] false PReading \/ s = mkSys HWaitGo [] true PReading \/
    s = mkSys HWork [] false PReading)).

Lemma quiet_good s : quiet_reach (Ok tt) None s -> good_state s.
Proof.
  induction 1 as [|s s' _ IH Hs|s s' _ IH Hs]; [by left|..].
  - destruct IH as [->|[(line & Hl & ->)|[->|[->|(Hb & Hu & [->|[->| ->]])]]]];
      unfold helper_step in Hs; simpl in Hs; try done; unfold good_state, outcome in *.
    + destruct (bad_args j) as [m|]; [|destruct (unshare_error j) as [m|]]; injection Hs as <-.
      * right; left. exists (err_line m). by rewrite Herr.
      * right; left. exists (err_line m). by rewrite Herr.
      * do 4 right. auto.
    + injection Hs as <-. do 4 right. auto.
    + injection Hs as <-. right; left. exists (last_line j). by rewrite Hlast, Hb, Hu.
  - destruct IH as [->|[(line & Hl & ->)|[->|[->|(Hb & Hu & [->|[->| ->]])]]]];
      unfold parent_step, parent_reads in Hs; simpl in Hs; try done; unfold good_state.
    + rewrite Hl in Hs. injection Hs as <-. auto.
    + injection Hs as <-. auto.
    + rewrite Hconfirm in Hs. injection Hs as <-. do 4 right. auto.
Qed.

(** A run that cannot go on has returned. *)
Lemma quiet_stuck s : quiet_reach (Ok tt) None s -> helper_step j s = None ->
  parent_step on_line op (Ok tt) None s = None -> parent s = PDone outcome.
Proof.
  intros Hs%quiet_good Hh Hp.
  destruct Hs as [->|[(line & Hl & ->)|[->|[->|(Hb & Hu & [->|[->| ->]])]]]];
    unfold helper_step, parent_step, parent_reads in *; simpl in *; try done.
  - by destruct (bad_args j), (unshare_error j).
  - by rewrite Hl in Hp.
  - by rewrite Hconfirm in Hp.
Qed.

(** Some run gets there: the helper and the parent in turn. *)
Lemma quiet_returns : exists s, quiet_reach (Ok tt) None s /\ parent s = PDone outcome.
Proof.
  assert (forall n s, (measure s <= n)%nat -> quiet_reach (Ok tt) None s ->
    exists s, quiet_reach (Ok tt) None s /\ parent s = PDone outcome) as H;
    [|by eapply (H _ start (le_n _)), quiet_start].
  induction n as [|n IH]; intros s Hn Hs.
  all: destruct (helper_step j s) as [s'|] eqn:Hh;
    [assert (measure s' < measure s)%nat
       by (eapply (step_measure on_line op j (Ok tt) None), step_helper, Hh)|
     destruct (parent_step on_line op (Ok tt) None s) as [s'|] eqn:Hp;
     [assert (measure s' < measure s)%nat
        by (eapply (step_measure on_line op j (Ok tt) None), step_parent, Hp)|
      exists s; eauto using quiet_stuck]].
  - lia.
  - lia.
  - apply (IH s'); [lia|]. by eapply quiet_helper.
  - apply (IH s'); [lia|]. by eapply quiet_parent.
Qed.

(** *** Maps that cannot be written *)

(** The helper waits for a line that never comes; the parent waits for the
    helper.  This is so with and without a deadline. *)
Definition wedged (s : sys T) : Prop :=
  stdin_go s = false /\
  ((helper s = HStart /\ lines s = [] /\ (parent s = PReading \/ exists r, parent s = PWaiting r)) \/
   (helper s = HWaitGo /\ parent s = PReading /\ lines s = ["unshared"%string]) \/
   (helper s = HWaitGo /\ exists r, parent s = PWaiting r)).

Lemma step_wedged maps go_error s s' : is_ok maps && bool_decide (go_error = None) = false ->
  bad_args j = None -> unshare_error j = None ->
  wedged s -> step on_line op j maps go_error s s' -> wedged s'.
Proof.
  intros Hfail Hb Hu Hwedged Hstep. unfold wedged in *.
  destruct Hstep as [s s' H|s s' H|s s' H]; destruct s as [h ls go p]; destruct Hwedged as [Hgo Hw];
    simpl in *; subst go.
  - unfold helper_step in H.
    destruct Hw as [(-> & -> & Hp)|[(-> & -> & ->)|(-> & r & ->)]]; simpl in H; try done.
    rewrite Hb, Hu in H. simpl in H. injection H as <-. split; [done|]. simpl. destruct Hp as [->|[r ->]]; eauto 10.
  - unfold parent_step, parent_reads in H.
    destruct Hw as [(-> & -> & [->|[r ->]])|[(-> & -> & ->)|(-> & r & ->)]]; simpl in H; try done.
    rewrite Hconfirm in H. destruct maps as [u|e]; simpl in H;
      [|injection H as <-; split; [done|]; simpl; eauto 10].
    destruct go_error; [|by destruct u]. simpl in H. injection H as <-. split; [done|]; simpl; eauto 10.
  - unfold timeout_step in H.
    destruct Hw as [(-> & -> & [->|[r ->]])|[(-> & -> & ->)|(-> & r & ->)]]; simpl in H; try done;
      injection H as <-; (split; [done|]); simpl; eauto 10.
Qed.

Lemma reach_wedged maps go_error s : is_ok maps && bool_decide (go_error = None) = false ->
  bad_args j = None -> unshare_error j = None ->
  reach on_line op j maps go_error s -> wedged s.
Proof.
  intros Hfail Hb Hu. induction 1 as [|s s' _ IH Hs]; [|by eapply step_wedged].
  split; [done|]. left. by split_and!; [..|left].
Qed.

Lemma wedged_not_done s r : wedged s -> parent s <> PDone r.
Proof.
  intros (_ & [(_ & _ & [Hp|[? Hp]])|[(_ & Hp & _)|(_ & ? & Hp)]]); by rewrite Hp.
Qed.

End run.

(** ** The two functions *)

Lemma copy_line_confirm : copy_line "unshared" = Confirm.
Proof. done. Qed.

Lemma copy_line_err m : copy_line (err_line m) = Finish (Err (helper_error "copy helper" (one_line m))).
Proof.
  unfold copy_line, err_line. rewrite decide_False by done.
  change (strip_prefix "done " ("err " +:+ one_line m)) with (@None string).
  by rewrite strip_prefix_app.
Qed.

Lemma copy_line_done (n : N) : (n <= u64_max)%N -> copy_line ("done " +:+ pretty n) = Finish (Ok n).
Proof.
  intros Hn. unfold copy_line. rewrite decide_False by done. rewrite strip_prefix_app.
  by rewrite str_trim_pretty, parse_uint_pretty.
Qed.

Lemma cleanup_line_err m :
  cleanup_line (err_line m) = Finish (Err (helper_error "cleanup helper" (one_line m))).
Proof.
  unfold cleanup_line, err_line. rewrite !decide_False by done. by rewrite strip_prefix_app.
Qed.

(** What [copy_layer_via_helper] returns for what happened in the helper. *)
Definition copy_outcome (src dst : string) (unshare : option string) (copied : result Io.error N)
  : result Error N :=
  if decide (src = EmptyString \/ dst = EmptyString)
  then Err (helper_error "copy helper" "copy: missing source or destination")
  else match unshare with
       | Some e => Err (helper_error "copy helper" (one_line ("copy: unshare(CLONE_NEWUSER): " +:+ e)))
       | None =>
           match copied with
           | Ok n => Ok n
           | Err e => Err (helper_error "copy helper" (one_line ("copy: " +:+ Io.message e)))
           end
       end.

Definition cleanup_outcome (dir : string) (unshare : option string) (removed : option Io.error)
  : result Error unit :=
  if decide (dir = EmptyString)
  then Err (helper_error "cleanup helper" "cleanup: no directory given")
  else match unshare with
       | Some e => Err (helper_error "cleanup helper" (one_line ("cleanup: unshare(CLONE_NEWUSER): " +:+ e)))
       | None =>
           match removed with
           | Some e =>
               if decide (Io.kind e = Io.NotFound) then Ok tt
               else Err (helper_error "cleanup helper"
                           (one_line ("cleanup: remove " +:+ dir +:+ ": " +:+ Io.message e)))
           | None => Ok tt
           end
       end.

Definition job_result (copied : result Io.error N) : result Error N :=
  match copied with
  | Ok n => Ok n
  | Err e => Err (helper_error "copy helper" (one_line ("copy: " +:+ Io.message e)))
  end.

Lemma copy_outcome_eq src dst unshare copied :
  outcome "copy helper" (copy_job src dst unshare copied) (job_result copied)
  = copy_outcome src dst unshare copied.
Proof. unfold outcome, copy_outcome. simpl. case_decide; [done|]. by destruct unshare. Qed.

Definition cleanup_result (dir : string) (removed : option Io.error) : result Error unit :=
  match removed with
  | Some e =>
      if decide (Io.kind e = Io.NotFound) then Ok tt
      else Err (helper_error "cleanup helper"
                  (one_line ("cleanup: remove " +:+ dir +:+ ": " +:+ Io.message e)))
  | None => Ok tt
  end.

Lemma cleanup_outcome_eq dir unshare removed :
  outcome "cleanup helper" (cleanup_job dir unshare removed) (cleanup_result dir removed)
  = cleanup_outcome dir unshare removed.
Proof. unfold outcome, cleanup_outcome. simpl. case_decide; [done|]. by destruct unshare. Qed.

Lemma copy_last_line src dst unshare copied : (forall n, copied = Ok n -> (n <= u64_max)%N) ->
  copy_line (last_line (copy_job src dst unshare copied)) = Finish (job_result copied).
Proof. intros Hn. simpl. destruct copied; [by apply copy_line_done, Hn|apply copy_line_err]. Qed.

Lemma cleanup_last_line dir unshare removed :
  cleanup_line (last_line (cleanup_job dir unshare removed)) = Finish (cleanup_result dir removed).
Proof. simpl. destruct removed; [|done]. simpl. case_decide; [done|apply cleanup_line_err]. Qed.

(** ** The theorems *)

(** C37: with the uid maps written and no deadline hit, [copy_layer_via_helper]
    returns, and returns what happened in the helper: the byte count of the
    copy, or its failure as one line of text. *)
Theorem copy_helper_returns src dst unshare copied : (forall n, copied = Ok n -> (n <= u64_max)%N) ->
  let j := copy_job src dst unshare copied in
  (exists s, quiet_reach copy_line "copy helper" j (Ok tt) None s /\
     parent s = PDone (copy_outcome src dst unshare copied)) /\
  forall s, quiet_reach copy_line "copy helper" j (Ok tt) None s ->
    helper_step j s = None -> parent_step copy_line "copy helper" (Ok tt) None s = None ->
    parent s = PDone (copy_outcome src dst unshare copied).
Proof.
  intros Hn j. rewrite <- copy_outcome_eq. split; [|intros s];
    [eapply quiet_returns|eapply quiet_stuck];
    first [apply copy_line_confirm|apply copy_line_err|by apply copy_last_line].
Qed.

(** The same of [remove_state_dir]: it succeeds when the helper removed the
    directory or found it gone, and fails with the helper's message otherwise. *)
Theorem cleanup_helper_returns dir unshare removed :
  let j := cleanup_job dir unshare removed in
  (exists s, quiet_reach cleanup_line "cleanup helper" j (Ok tt) None s /\
     parent s = PDone (cleanup_outcome dir unshare removed)) /\
  forall s, quiet_reach cleanup_line "cleanup helper" j (Ok tt) None s ->
    helper_step j s = None -> parent_step cleanup_line "cleanup helper" (Ok tt) None s = None ->
    parent s = PDone (cleanup_outcome dir unshare removed).
Proof.
  intros j. rewrite <- cleanup_outcome_eq. split; [|intros s];
    [eapply quiet_returns|eapply quiet_stuck];
    first [done|apply cleanup_line_err|apply cleanup_last_line].
Qed.

(** When the uid maps cannot be written, or go cannot be sent, neither
    function ever returns, deadline or not: the helper waits for a line on a
    pipe the parent holds open, and the parent waits for the helper to exit. *)
Theorem helper_hangs_without_maps src dst dir copied removed maps go_error :
  is_ok maps && bool_decide (go_error = None) = false ->
  src <> EmptyString -> dst <> EmptyString -> dir <> EmptyString ->
  (forall s r, reach copy_line "copy helper" (copy_job src dst None copied) maps go_error s ->
     parent s <> PDone r) /\
  (forall s r, reach cleanup_line "cleanup helper" (cleanup_job dir None removed) maps go_error s ->
     parent s <> PDone r).
Proof.
  intros Hfail Hs Hd Hdir. split; intros s r Hr; apply wedged_not_done.
  - eapply (reach_wedged copy_line); [done|exact Hfail| | |exact Hr]; [|done].
    simpl. by rewrite decide_False by naive_solver.
  - eapply (reach_wedged cleanup_line); [done|exact Hfail| | |exact Hr]; [|done].
    simpl. by rewrite decide_False.
Qed.

(** Every run of driver and helper is finite: each step, a deadline
    included, brings it nearer to its end. *)
Theorem helper_run_finite {T} (on_line : string -> reply T) op j maps go_error s s' :
  step on_line op j maps go_error s s' -> (measure s' < measure s)%nat.
Proof. apply step_measure. Qed.

(** ** Witnesses *)

Lemma copy_helper_returns_witness :
  let j := copy_job "/s" "/d" None (Ok 42%N) in
  (exists s, quiet_reach copy_line "copy helper" j (Ok tt) None s /\
     parent s = PDone (copy_outcome "/s" "/d" None (Ok 42%N))) /\
  forall s, quiet_reach copy_line "copy helper" j (Ok tt) None s ->
    helper_step j s = None -> parent_step copy_line "copy helper" (Ok tt) None s = None ->
    parent s = PDone (copy_outcome "/s" "/d" None (Ok 42%N)).
Proof. apply copy_helper_returns. intros n [= <-]. unfold u64_max. lia. Defined.

Lemma helper_hangs_without_maps_witness :
  let no_range : result Error unit := Err (Unsupported "no subordinate id range") in
  (forall s r, reach copy_line "copy helper" (copy_job "/s" "/d" None (Ok 0%N)) no_range None s ->
     parent s <> PDone r) /\
  (forall s r, reach cleanup_line "cleanup helper" (cleanup_job "/d" None None) no_range None s ->
     parent s <> PDone r).
Proof. apply (helper_hangs_without_maps "/s" "/d" "/d" (Ok 0%N) None); done. Defined.

Lemma helper_run_finite_witness :
  (measure (mkSys HWaitGo ["unshared"%string] false (@PReading N)) < measure (@start N))%nat.
Proof.
  apply (helper_run_finite copy_line "copy helper" (copy_job "/s" "/d" None (Ok 0%N)) (Ok tt) None).
  apply step_helper. reflexivity.
Defined.
