(* ===== verification/Pidfile.v ===== *)
(** * Is the guest alive?

    draug-ns/src/linux/backend.rs, lines 609-616 and 836-893: the pidfile, the
    parsing of /proc/<pid>/stat, and the wait for a killed guest.  A file that
    cannot be read, or is not UTF-8, is [None]. *)

From S2P Require Import Prelude Text Types.

(** ** /proc/<pid>/stat *)

(** The text behind the last closing parenthesis: [&stat[stat.rfind(')')? + 1..]]. *)
Fixpoint after_last_paren (s : string) : option string :=
  match s with
  | EmptyString => None
  | String a s' =>
      match after_last_paren s' with
      | Some r => Some r
      | None => if decide (a = ")"%char) then Some s' else None
      end
  end.

(** The start time, field 22, and whether the state, field 3, is a zombie's. *)
Definition proc_stat (stat : string) : option (N * bool) :=
  rest ← after_last_paren stat;
  let fields := str_words rest in
  let zombie := bool_decide (head fields = Some "Z"%string) in
  f ← fields !! 19%nat;
  starttime ← parse_uint u64_max f;
  Some (starttime, zombie).

(** [proc_stat(pid)]: [proc] is what reading /proc/<pid>/stat gives now. *)
Definition proc_stat_of (proc : N -> option string) (pid : N) : option (N * bool) :=
  stat ← proc pid; proc_stat stat.

Definition proc_starttime (proc : N -> option string) (pid : N) : option N :=
  fst <$> proc_stat_of proc pid.

(** ** The pidfile *)

Definition pidfile_text (pid starttime : N) : string :=
  pretty pid +:+ " " +:+ pretty starttime +:+ String "010" EmptyString.

Definition read_live_guest (content : option string) (proc : N -> option string) : option N :=
  content ← content;
  let parts := str_words content in
  p0 ← parts !! 0%nat;
  pid ← parse_uint u32_max p0;
  p1 ← parts !! 1%nat;
  recorded ← parse_uint u64_max p1;
  '(starttime, zombie) ← proc_stat_of proc pid;
  if bool_decide (starttime = recorded) && negb zombie then Some pid else None.

Definition guest_alive (content : option string) (proc : N -> option string) : bool :=
  bool_decide (is_Some (read_live_guest content proc)).

(** ** Waiting for a killed guest *)

(** [for _ in 0..polls]: one look at /proc per poll, in order. *)
Fixpoint await_gone (polls : nat) (looks : list (option string)) : bool :=
  match polls with
  | O => false
  | S polls' =>
      match (look ← mjoin (head looks); proc_stat look) with
      | None | Some (_, true) => true
      | Some (_, false) => await_gone polls' (tail looks)
      end
  end.

(** [kill_guest]: SIGKILL, then at most 100 polls; [looks] is what each finds. *)
Definition kill_guest (content : option string) (proc : N -> option string) (looks : N -> list (option string))
  : result Error unit :=
  match read_live_guest content proc with
  | None => Ok tt
  | Some pid =>
      if await_gone 100 (looks pid) then Ok tt
      else Err (Error_io "kill sandbox" (Io.other ("guest pid " +:+ pretty pid +:+ " did not exit after SIGKILL")))
  end.

(** ** What the kernel prints

    proc(5): the pid, the command in parentheses - any bytes of a name, spaces
    and parentheses among them - the state, and numbers. *)

Definition space : string := " ".

Definition fields_text (fields : list N) : string :=
  foldr (fun f s => space +:+ pretty f +:+ s) EmptyString fields.

(** [before] are fields 4 to 21. *)
Definition stat_text (pid : N) (comm : string) (state : ascii) (before : list N) (starttime : N)
    (after : list N) : string :=
  pretty pid +:+ " (" +:+ comm +:+ ") " +:+ String state EmptyString
  +:+ fields_text (before ++ starttime :: after) +:+ String "010" EmptyString.

Definition is_letter (a : ascii) : Prop :=
  in_range 65 90 (Ascii.byte_of_ascii a) = true \/ in_range 97 122 (Ascii.byte_of_ascii a) = true.

(** *** Words *)

Definition nonspace (b : byte) : Prop := forall l, ws_len (b :: l) = 0%nat.

Lemma words_from_word d cur t : Forall nonspace d ->
  words_from (length (d ++ t)) cur (d ++ t) = words_from (length t) (cur ++ d) t.
Proof.
  intros Hd. revert cur. induction Hd as [|b d Hb Hd IH]; intros cur; [by rewrite app_nil_r|].
  change ((b :: d) ++ t) with (b :: (d ++ t)). cbn [length words_from]. rewrite Hb, IH. by rewrite <- app_assoc.
Qed.

Lemma words_from_sep b cur t : ws1 (byte_val b) = true -> cur <> [] ->
  words_from (length (b :: t)) cur (b :: t) = cur :: words_from (length t) [] t.
Proof. intros Hb Hc. cbn [length words_from]. unfold ws_len. by rewrite Hb, decide_False by done. Qed.

Lemma digits_nonspace (n : N) : Forall nonspace (bytes_of_string (pretty n)).
Proof. eapply Forall_impl; [apply pretty_digits|]. intros b Hb l. by apply ws_len_digit. Qed.

Lemma pretty_nonempty (n : N) : bytes_of_string (pretty n) <> [].
Proof. destruct (pretty_N_head n) as (d & s & -> & _). by rewrite bytes_of_string_cons. Qed.

Lemma letter_nonspace a : is_letter a -> nonspace (Ascii.byte_of_ascii a).
Proof.
  intros Ha l. unfold is_letter, in_range in Ha. unfold ws_len, ws1, ws2, ws3.
  repeat case_match; try done; lia.
Qed.

Lemma str_app_assoc (a b c : string) : a +:+ (b +:+ c) = (a +:+ b) +:+ c.
Proof. induction a as [|x a IH]; [done|]. change (String x (a +:+ (b +:+ c)) = String x ((a +:+ b) +:+ c)). by rewrite IH. Qed.

(** A word, then the numbers, then the end of the line. *)
Lemma words_fields fields cur : cur <> [] ->
  let t := bytes_of_string (fields_text fields +:+ String "010" EmptyString) in
  words_from (length t) cur t = cur :: ((fun f => bytes_of_string (pretty f)) <$> fields).
Proof.
  revert cur. induction fields as [|f fields IH]; intros cur Hc t.
  - change t with [Byte.x0a]. by rewrite words_from_sep.
  - unfold t. change (fields_text (f :: fields)) with (space +:+ pretty f +:+ fields_text fields).
    change ((space +:+ pretty f +:+ fields_text fields) +:+ String "010" EmptyString)
      with (String " " ((pretty f +:+ fields_text fields) +:+ String "010" EmptyString)).
    rewrite bytes_of_string_cons. rewrite words_from_sep by done. f_equal.
    rewrite <- str_app_assoc, bytes_of_string_app, words_from_word by apply digits_nonspace.
    rewrite IH by apply pretty_nonempty. done.
Qed.

Lemma after_last_paren_cons a s : after_last_paren (String a s) =
  match after_last_paren s with
  | Some r => Some r
  | None => if decide (a = ")"%char) then Some s else None
  end.
Proof. done. Qed.

Definition no_paren (s : string) : Prop := Forall (fun b => b <> Byte.x29) (bytes_of_string s).

Lemma after_last_paren_none s : no_paren s -> after_last_paren s = None.
Proof.
  unfold no_paren. induction s as [|a s IH]; intros Hs; [done|]. rewrite bytes_of_string_cons in Hs.
  apply Forall_cons in Hs as [Ha Hs]. cbn [after_last_paren]. rewrite IH by done.
  rewrite decide_False; [done|]. by intros ->.
Qed.

Lemma no_paren_app s t : no_paren s -> no_paren t -> no_paren (s +:+ t).
Proof. unfold no_paren. intros. by rewrite bytes_of_string_app, Forall_app. Qed.

Lemma no_paren_pretty (n : N) : no_paren (pretty n).
Proof. eapply Forall_impl; [apply pretty_digits|]. by intros b Hb ->. Qed.

Lemma no_paren_fields fields : no_paren (fields_text fields).
Proof.
  induction fields as [|f fields IH]; [constructor|].
  change (fields_text (f :: fields)) with (space +:+ pretty f +:+ fields_text fields).
  apply no_paren_app; [by repeat constructor|]. by apply no_paren_app; [apply no_paren_pretty|].
Qed.

Lemma after_last_paren_app s t r : after_last_paren t = Some r -> after_last_paren (s +:+ t) = Some r.
Proof.
  intros Ht. induction s as [|a s IH]; [done|].
  change (String a s +:+ t) with (String a (s +:+ t)). cbn [after_last_paren]. by rewrite IH.
Qed.

Definition line_end : string := String "010" EmptyString.

(** The words of a line that begins with one and continues with numbers. *)
Lemma line_words w fields : Forall nonspace (bytes_of_string w) -> bytes_of_string w <> [] ->
  str_words (w +:+ fields_text fields +:+ line_end) = w :: (pretty <$> fields).
Proof.
  intros Hw Hne. unfold str_words, words. rewrite bytes_of_string_app, words_from_word by done.
  rewrite words_fields by done. rewrite fmap_cons, <- list_fmap_compose. cbn [app]. f_equal.
  - apply string_of_bytes_of_string.
  - apply list_fmap_ext. intros i f _. apply string_of_bytes_of_string.
Qed.

Lemma str_words_space s : str_words (String " " s) = str_words s.
Proof.
  unfold str_words, words. rewrite bytes_of_string_cons. cbn [length words_from].
  change (ws_len _) with 1%nat. by rewrite decide_True.
Qed.

Lemma stat_rest (pid : N) comm state fields : is_letter state ->
  after_last_paren (pretty pid +:+ " (" +:+ comm +:+ ") " +:+ String state EmptyString
    +:+ fields_text fields +:+ line_end)
  = Some (String " " (String state EmptyString +:+ fields_text fields +:+ line_end)).
Proof.
  intros Hst. do 3 apply after_last_paren_app.
  set (tail := String state EmptyString +:+ fields_text fields +:+ line_end).
  change (") " +:+ tail) with (String ")" (String " " tail)).
  rewrite after_last_paren_cons, (after_last_paren_none (String " " tail)); [done|].
  change (String " " tail) with (" " +:+ tail). apply no_paren_app; [by repeat constructor|]. unfold tail.
  apply no_paren_app; [|apply no_paren_app; [apply no_paren_fields|by repeat constructor]].
  constructor; [|constructor]. intros Hp. destruct Hst as [Hst|Hst]; by rewrite Hp in Hst.
Qed.

(** The kernel's line is read back. *)
Lemma proc_stat_text pid comm state before starttime after :
  is_letter state -> length before = 18%nat -> (starttime <= u64_max)%N ->
  proc_stat (stat_text pid comm state before starttime after)
  = Some (starttime, bool_decide (state = "Z"%char)).
Proof.
  intros Hst Hlen Hmax. unfold proc_stat, stat_text. fold line_end. rewrite stat_rest by done.
  cbn [mbind option_bind]. rewrite str_words_space, line_words.
  2: { constructor; [by apply letter_nonspace|constructor]. }
  2: done.
  cbn [head].
  assert ((String state EmptyString :: (pretty <$> (before ++ starttime :: after))) !! 19%nat
    = Some (pretty starttime)) as ->.
  { change ((pretty <$> (before ++ starttime :: after)) !! 18%nat = Some (pretty starttime)).
    by rewrite list_lookup_fmap, <- Hlen, lookup_app_r, Nat.sub_diag by lia. }
  cbn [mbind option_bind]. rewrite parse_uint_pretty by done. cbn. do 2 f_equal.
  apply bool_decide_ext. split; [by intros [= ->]|by intros ->].
Qed.

Lemma pidfile_words pid starttime : str_words (pidfile_text pid starttime) = [pretty pid; pretty starttime].
Proof.
  assert (pidfile_text pid starttime = pretty pid +:+ fields_text [starttime] +:+ line_end) as ->.
  { unfold pidfile_text, fields_text. cbn [foldr]. by rewrite <- !str_app_assoc. }
  by rewrite line_words by (apply digits_nonspace || apply pretty_nonempty).
Qed.

Lemma read_live_guest_text pid starttime proc : (pid <= u32_max)%N -> (starttime <= u64_max)%N ->
  read_live_guest (Some (pidfile_text pid starttime)) proc
  = match proc_stat_of proc pid with
    | Some (now, zombie) => if bool_decide (now = starttime) && negb zombie then Some pid else None
    | None => None
    end.
Proof.
  intros Hp Hs. unfold read_live_guest. cbn [mbind option_bind]. rewrite pidfile_words.
  cbn [lookup list_lookup mbind option_bind]. rewrite (parse_uint_pretty u32_max) by done.
  cbn [mbind option_bind]. rewrite (parse_uint_pretty u64_max) by done. cbn [mbind option_bind].
  by destruct (proc_stat_of proc pid) as [[now zombie]|].
Qed.

(** C29: A sandbox counts as alive exactly when its own guest runs.  With the
    pidfile that spawn wrote, and whatever the process of that number is called
    - its name may hold spaces and parentheses -, the guest is alive when that
    process started when the guest did and is no zombie; a later process that
    was given the same number, a zombie, and no process are not. *)
Theorem liveness_exact pid starttime proc : (pid <= u32_max)%N -> (starttime <= u64_max)%N ->
  (proc pid = None -> read_live_guest (Some (pidfile_text pid starttime)) proc = None) /\
  (forall comm state before now after, is_letter state -> length before = 18%nat -> (now <= u64_max)%N ->
     proc pid = Some (stat_text pid comm state before now after) ->
     read_live_guest (Some (pidfile_text pid starttime)) proc
     = if decide (now = starttime /\ state <> "Z"%char) then Some pid else None).
Proof.
  intros Hp Hs. split.
  - intros E. rewrite read_live_guest_text by done. unfold proc_stat_of. by rewrite E.
  - intros comm state before now after Hst Hlen Hnow E. rewrite read_live_guest_text by done.
    unfold proc_stat_of. rewrite E. cbn [mbind option_bind]. rewrite proc_stat_text by done.
    repeat case_bool_decide; case_decide; simpl; naive_solver.
Qed.

(** ** The wait *)

Lemma await_gone_false n looks : await_gone n looks = false <->
  forall i, (i < n)%nat -> exists look starttime, looks !! i = Some (Some look) /\ proc_stat look = Some (starttime, false).
Proof.
  revert looks. induction n as [|n IH]; intros looks; cbn [await_gone]; [split; [intros _ i Hi; lia|done]|].
  destruct looks as [|[look|] looks]; cbn [head mjoin option_join mbind option_bind].
  - split; [done|]. intros Hall. by destruct (Hall 0%nat ltac:(lia)) as (? & ? & ? & _).
  - destruct (proc_stat look) as [[st [|]]|] eqn:E.
    + split; [done|]. intros Hall. destruct (Hall 0%nat ltac:(lia)) as (? & ? & [= <-] & ?). congruence.
    + rewrite IH. split.
      * intros Hall [|i] Hi; [by exists look, st|]. apply (Hall i). lia.
      * intros Hall i Hi. apply (Hall (S i)). lia.
    + split; [done|]. intros Hall. destruct (Hall 0%nat ltac:(lia)) as (? & ? & [= <-] & ?). congruence.
  - split; [done|]. intros Hall. by destruct (Hall 0%nat ltac:(lia)) as (? & ? & ? & _).
Qed.

Module Witness.

(** A name that imitates the rest of the line. *)
Definition tricky : string := "x) Z (1 2".
Definition eighteen : list N := replicate 18 7%N.

Definition procs (p : N) : option string :=
  if decide (p = 42%N) then Some (stat_text 42 tricky "S" eighteen 900 [5%N; 6%N]) else None.

Lemma liveness_exact_witness :
  (procs 42 = None -> read_live_guest (Some (pidfile_text 42 900)) procs = None) /\
  (forall comm state before now after, is_letter state -> length before = 18%nat -> (now <= u64_max)%N ->
     procs 42 = Some (stat_text 42 comm state before now after) ->
     read_live_guest (Some (pidfile_text 42 900)) procs
     = if decide (now = 900%N /\ state <> "Z"%char) then Some 42%N else None).
Proof. apply (liveness_exact 42 900 procs); vm_compute; discriminate. Defined.

Example tricky_alive : read_live_guest (Some (pidfile_text 42 900)) procs = Some 42%N.
Proof. vm_compute. reflexivity. Qed.

Example reused_pid_dead : read_live_guest (Some (pidfile_text 42 899)) procs = None.
Proof. vm_compute. reflexivity. Qed.

End Witness.
