(* ===== verification/Cgroup.v ===== *)
(** * cgroup v2 resource limits

    draug-ns/src/linux/cgroup.rs.  The kernel's cgroup file system is a
    parameter: a function from the calls made so far, with their answers, to
    the answer of the next one.  The state the operations thread is that
    history, so what a theorem says of the calls holds of every kernel. *)

From S2P Require Import Prelude Text Types.

Inductive call :=
  | Read (p : path)                 (* std::fs::read_to_string *)
  | Write (p : path) (v : string)   (* std::fs::write *)
  | CreateDir (p : path)
  | RemoveDir (p : path)
  | Exists (p : path)               (* Path::exists *)
  | Sleep (ms : Z).

#[global] Instance call_eq_dec : EqDecision call.
Proof. solve_decision. Defined.

(** A read answers with the text, the others with nothing of interest. *)
Definition answer := result Io.error string.
Definition history := list (call * answer).

Record CgroupHandle := mkHandle { h_path : path }.

Definition CGROUP_ROOT : path := "/sys/fs/cgroup".
Definition EBUSY : Z := 16.

(** ** Parsing *)

Fixpoint trim_start_matches (c : ascii) (s : string) : string :=
  match s with
  | String a s' => if decide (a = c) then trim_start_matches c s' else s
  | EmptyString => s
  end.

Fixpoint find_map {A B} (f : A -> option B) (l : list A) : option B :=
  match l with
  | [] => None
  | x :: l' => match f x with Some y => Some y | None => find_map f l' end
  end.

Definition parse_own_cgroup (content : string) : option string :=
  str_trim <$> find_map (strip_prefix "0::") (str_lines content).

(** Some line of [cgroup.events], trimmed, is [frozen 1]. *)
Definition reports_frozen (events : string) : bool :=
  existsb (fun l => bool_decide (str_trim l = "frozen 1")) (str_lines events).

(** ** The limits *)

Definition controllers_of (limits : ResourceLimits) : list string :=
  match memory_bytes limits with Some _ => ["memory"] | None => [] end
  ++ match cpu_millis limits with Some _ => ["cpu"] | None => [] end
  ++ match pids limits with Some _ => ["pids"] | None => [] end.

Definition required (limits : ResourceLimits) : bool :=
  bool_decide (controllers_of limits <> []).

(** [value.to_string()] of an unsigned integer. *)
Definition decimal (z : Z) : string := pretty (Z.to_N z).

(** The files [create] writes, in its order.  The period is 100 ms, so a whole
    core (1000 millicores) is a quota of 100000. *)
Definition limit_files (limits : ResourceLimits) : list (string * string) :=
  match memory_bytes limits with Some b => [("memory.max", decimal b)] | None => [] end
  ++ match pids limits with Some p => [("pids.max", decimal p)] | None => [] end
  ++ match cpu_millis limits with
     | Some m => [("cpu.max", decimal (m * 100) +:+ " 100000")]
     | None => []
     end.

(** [controllers.iter().map(|c| format!("+{c}")).join(" ")] *)
Definition subtree_payload (controllers : list string) : string :=
  String.concat " " ((fun c => "+" +:+ c) <$> controllers).

Definition map_subtree_err (e : Io.error) (base : path) : Error :=
  if decide (Io.kind e = Io.PermissionDenied)
  then Unsupported ("not allowed to manage cgroups under " +:+ str_lossy base +:+ " — the subtree is not delegated to this user. On systemd hosts enable delegation (Delegate=cpu memory pids in user@.service drop-in) or launch via `systemd-run --user --scope -p Delegate=yes ...`, or omit the resource limits")
  else Error_io "enable cgroup controllers" e.

Section cgroup.
Context (kernel : history -> call -> answer).

Definition CG := ST history Error.

(** One call, its answer, and the history with both. *)
Definition attempt (c : call) : CG answer := fun h =>
  let a := kernel h c in (Ok a, h ++ [(c, a)]).

(** The call with its failure mapped by [Error::io]. *)
Definition io (op : string) (c : call) : CG string :=
  do! a := attempt c in st_lift (map_err (Error_io op) a).

(** The cgroup v2 directory this process lives in. *)
Definition own_cgroup_dir : CG path :=
  do! content := io "read /proc/self/cgroup" (Read "/proc/self/cgroup") in
  match parse_own_cgroup content with
  | None => st_fail (Unsupported "no cgroup v2 hierarchy found in /proc/self/cgroup; resource limits require the unified cgroup v2 hierarchy mounted at /sys/fs/cgroup")
  | Some rel =>
      let dir := path_join CGROUP_ROOT (trim_start_matches "/" rel) in
      do! there := attempt (Exists (path_join dir "cgroup.controllers")) in
      if is_ok there then st_ret dir
      else st_fail (Unsupported (str_lossy dir +:+ " does not look like a cgroup v2 directory; this host appears to use the legacy (v1/hybrid) cgroup layout, which draug does not support for limits"))
  end.

(** Every pid of [base], one write each; a process may exit meanwhile. *)
Fixpoint migrate (leaf_procs : path) (pids : list string) : CG unit :=
  match pids with
  | [] => st_ret tt
  | pid :: pids' =>
      do! _ := attempt (Write leaf_procs pid) in
      migrate leaf_procs pids'
  end.

Definition make_leaf (leaf : path) : CG unit :=
  do! made := attempt (CreateDir leaf) in
  match made with
  | Err e => if decide (Io.kind e = Io.AlreadyExists) then st_ret tt
             else st_fail (Error_io "create leaf cgroup" e)
  | Ok _ => st_ret tt
  end.

Definition enable_controllers (base : path) (controllers : list string) : CG unit :=
  let payload := subtree_payload controllers in
  let subtree := path_join base "cgroup.subtree_control" in
  do! first := attempt (Write subtree payload) in
  match first with
  | Ok _ => st_ret tt
  | Err err =>
      if negb (bool_decide (Io.raw_os_error err = Some EBUSY))
      then st_fail (map_subtree_err err base)
      else
        let leaf := path_join base "leaf" in
        do! _ := make_leaf leaf in
        do! procs := io "read cgroup.procs" (Read (path_join base "cgroup.procs")) in
        do! _ := migrate (path_join leaf "cgroup.procs") (str_words procs) in
        do! again := attempt (Write subtree payload) in
        st_lift (match again with Ok _ => Ok tt | Err e => Err (map_subtree_err e base) end)
  end.

(** [for c in &controllers]: the first one that is missing. *)
Fixpoint check_available (base : path) (available : string) (controllers : list string)
  : result Error unit :=
  match controllers with
  | [] => Ok tt
  | c :: rest =>
      if bool_decide (c ∈ str_words available) then check_available base available rest
      else Err (Unsupported ("cgroup controller " +:+ dq +:+ c +:+ dq +:+ " is not available in " +:+ str_lossy base +:+ " (available: " +:+ str_trim available +:+ "). Resource limits need a delegated cgroup v2 subtree: on systemd hosts set Delegate=cpu memory pids for user@.service, or launch via `systemd-run --user --scope -p Delegate=yes ...`, or omit the limits"))
  end.

Definition require_controllers (base : path) (controllers : list string) : CG unit :=
  do! available := io "read cgroup.controllers" (Read (path_join base "cgroup.controllers")) in
  do! _ := st_lift (check_available base available controllers) in
  enable_controllers base controllers.

(** The [write_limit] closure over the files, stopping at the first failure. *)
Fixpoint write_limits (dir : path) (files : list (string * string)) : CG unit :=
  match files with
  | [] => st_ret tt
  | (file, value) :: rest =>
      do! _ := io "write cgroup limit" (Write (path_join dir file) value) in
      write_limits dir rest
  end.

(** The sandbox's directory and its limit files. *)
Definition create_limited (dir : path) (limits : ResourceLimits) : CG (option CgroupHandle) :=
  let write_all := do! _ := write_limits dir (limit_files limits) in st_ret (Some (mkHandle dir)) in
  do! made := attempt (CreateDir dir) in
  match made with
  | Ok _ => write_all
  | Err e =>
      if decide (Io.kind e = Io.AlreadyExists) then write_all
      else if required limits then st_fail (Error_io "create sandbox cgroup" e)
      else st_ret None
  end.

Definition create_under (base : path) (id : string) (limits : ResourceLimits)
  : CG (option CgroupHandle) :=
  do! _ := (if required limits then require_controllers base (controllers_of limits) else st_ret tt) in
  create_limited (path_join base ("draug-" +:+ id)) limits.

Definition create (id : string) (limits : ResourceLimits) : CG (option CgroupHandle) :=
  do! base := st_try own_cgroup_dir in
  match base with
  | Ok base => create_under base id limits
  | Err e => if required limits then st_fail e else st_ret None
  end.

Definition add_pid (handle : CgroupHandle) (pid : Z) : CG unit :=
  do! _ := io "move process into cgroup" (Write (path_join (h_path handle) "cgroup.procs") (decimal pid)) in
  st_ret tt.

(** [for _ in 0..n]: until the kernel reports the frozen state. *)
Fixpoint await_frozen (n : nat) (p : path) : CG unit :=
  match n with
  | O => st_ret tt
  | S n' =>
      do! events := attempt (Read (path_join p "cgroup.events")) in
      if reports_frozen (default EmptyString (ok_of events)) then st_ret tt
      else do! _ := attempt (Sleep 25) in await_frozen n' p
  end.

Definition freeze (p : path) : CG unit :=
  do! _ := io "freeze sandbox cgroup" (Write (path_join p "cgroup.freeze") "1") in
  await_frozen 80 p.

Definition unfreeze (p : path) : CG unit :=
  do! _ := io "unfreeze sandbox cgroup" (Write (path_join p "cgroup.freeze") "0") in
  st_ret tt.

Definition is_frozen (p : path) : CG bool :=
  do! events := attempt (Read (path_join p "cgroup.events")) in
  st_ret (match events with Ok s => reports_frozen s | Err _ => false end).

Fixpoint remove_until_gone (n : nat) (p : path) : CG unit :=
  match n with
  | O => st_ret tt
  | S n' =>
      do! removed := attempt (RemoveDir p) in
      match removed with
      | Ok _ => st_ret tt
      | Err e => if decide (Io.kind e = Io.NotFound) then st_ret tt
                 else do! _ := attempt (Sleep 50) in remove_until_gone n' p
      end
  end.

Definition destroy (p : path) : CG unit :=
  do! _ := attempt (Write (path_join p "cgroup.kill") "1") in
  remove_until_gone 20 p.

End cgroup.

(** ** Runs

    Every operation only appends to the history; the lemmas name what it
    appends. *)

Arguments str_words : simpl never.
Arguments str_lines : simpl never.
Arguments path_join : simpl never.

(** A directory that is there after the call: it was made or existed. *)
Definition made (a : answer) : Prop :=
  match a with Ok _ => True | Err e => Io.kind e = Io.AlreadyExists end.

Definition accepted (e : call * answer) : Prop := is_ok e.2 = true.

Section runs.
Context (kernel : history -> call -> answer).
Implicit Types h t : history.

(** What [m] appends satisfies [P], whatever it returns. *)
Definition appends {A} (P : call * answer -> Prop) (m : CG A) : Prop :=
  forall h r h', m h = (r, h') -> exists t, h' = h ++ t /\ Forall P t.

Lemma appends_impl {A} (P Q : call * answer -> Prop) (m : CG A) :
  appends P m -> (forall e, P e -> Q e) -> appends Q m.
Proof.
  intros Hm HPQ h r h' E. destruct (Hm _ _ _ E) as (t & -> & Ht). exists t.
  split; [done|]. by eapply Forall_impl.
Qed.

Lemma appends_ret {A} P (x : A) : appends P (st_ret x).
Proof. intros h r h' [= <- <-]. exists []. by rewrite app_nil_r. Qed.

Lemma appends_lift {A} P (x : result Error A) : appends P (st_lift x).
Proof. intros h r h' [= <- <-]. exists []. by rewrite app_nil_r. Qed.

Lemma appends_fail {A} P e : appends P (@st_fail _ _ A e).
Proof. intros h r h' [= <- <-]. exists []. by rewrite app_nil_r. Qed.

Lemma appends_bind {A A'} P (m : CG A) (k : A -> CG A') :
  appends P m -> (forall x, appends P (k x)) -> appends P (st_bind m k).
Proof.
  intros Hm Hk h r h'. unfold st_bind. destruct (m h) as [[x|e] h1] eqn:E.
  - intros Er. destruct (Hm _ _ _ E) as (t & -> & Ht). destruct (Hk x _ _ _ Er) as (t' & -> & Ht').
    exists (t ++ t'). by rewrite app_assoc, Forall_app.
  - intros [= <- <-]. eauto.
Qed.

Lemma appends_try {A} P (m : CG A) : appends P m -> appends P (st_try m).
Proof. intros Hm h r h'. unfold st_try. destruct (m h) eqn:E. intros [= _ <-]. by apply Hm in E. Qed.

Lemma appends_attempt P c : (forall a, P (c, a)) -> appends P (attempt kernel c).
Proof. intros HP h r h' [= <- <-]. eexists. split; [done|]. by constructor. Qed.

Lemma appends_io P op c : (forall a, P (c, a)) -> appends P (io kernel op c).
Proof. intros HP. apply appends_bind; [by apply appends_attempt|]. intros a. apply appends_lift. Qed.

(** The errors [m] can return satisfy [Q]. *)
Definition errs {A} (Q : Error -> Prop) (m : CG A) : Prop :=
  forall h e h', m h = (Err e, h') -> Q e.

Lemma errs_bind {A A'} Q (m : CG A) (k : A -> CG A') :
  errs Q m -> (forall x, errs Q (k x)) -> errs Q (st_bind m k).
Proof.
  intros Hm Hk h e h'. unfold st_bind. destruct (m h) as [[x|e'] h1] eqn:E.
  - apply Hk.
  - intros [= <- _]. by eapply Hm.
Qed.

Lemma errs_fail {A} (Q : Error -> Prop) e : Q e -> errs Q (@st_fail _ _ A e).
Proof. by intros ? h e' h' [= <- _]. Qed.

Lemma errs_ret {A} Q (x : A) : errs Q (st_ret x).
Proof. by intros h e h'. Qed.

Lemma errs_lift {A} (Q : Error -> Prop) (x : result Error A) :
  (forall e, x = Err e -> Q e) -> errs Q (st_lift x).
Proof. intros HQ h e h' [= -> _]. by apply HQ. Qed.

Lemma errs_attempt Q c : errs Q (attempt kernel c).
Proof. by intros h e h'. Qed.

Lemma errs_io (Q : Error -> Prop) op c : (forall e, Q (Error_io op e)) -> errs Q (io kernel op c).
Proof.
  intros HQ. apply errs_bind; [apply errs_attempt|]. intros [s|e']; apply errs_lift; intros e; [done|].
  by intros [= <-].
Qed.

Lemma attempt_run c h r h' : attempt kernel c h = (r, h') -> exists a, r = Ok a /\ h' = h ++ [(c, a)].
Proof. intros [= <- <-]. eauto. Qed.

Lemma io_run op c h r h' : io kernel op c h = (r, h') ->
  exists a, r = map_err (Error_io op) a /\ h' = h ++ [(c, a)].
Proof. intros [= <- <-]. eauto. Qed.

Lemma io_Ok op c h s h' : io kernel op c h = (Ok s, h') -> h' = h ++ [(c, Ok s)].
Proof. intros (a & Ea & ->)%io_run. destruct a; simplify_eq/=. done. Qed.

End runs.

(** Follow the code: a call whose event satisfies the property, a sequence, a
    branch, or a lemma of the database. *)
Create HintDb cgroup.
#[export] Hint Resolve appends_ret appends_lift appends_fail errs_ret errs_attempt : cgroup.

Ltac errs :=
  repeat first
    [ by auto with cgroup
    | apply errs_io; intros ?; done
    | apply errs_fail; done
    | apply errs_bind; [|intros ?]
    | case_match ].

Ltac appends :=
  repeat first
    [ by auto with cgroup
    | apply appends_attempt; intros ?; done
    | apply appends_io; intros ?; done
    | apply appends_bind; [|intros ?]
    | case_match ].

(** One step of a run that succeeded so far: the call, its answer and the
    history it leaves. *)
(** Sequences of events, right associated. *)
Ltac app_norm := repeat (rewrite <- ?app_assoc; simpl).

Tactic Notation "run_step" ident(H) "as" ident(a) :=
  apply st_bind_Ok in H; destruct H as (a & ? & ?E & H);
  match goal with
  | E : attempt _ _ _ = (Ok a, _) |- _ => apply attempt_run in E; destruct E as (? & [= <-] & ->)
  | E : io _ _ _ _ = (Ok a, _) |- _ => apply io_Ok in E; subst
  end.

(** ** create *)

Section create.
Context (kernel : history -> call -> answer).
Implicit Types h t : history.

Definition limit_call (dir : path) (fv : string * string) : call := Write (path_join dir fv.1) fv.2.

(** The limit files in order, up to the first one the kernel refused. *)
Lemma write_limits_run dir files h r h' : write_limits kernel dir files h = (r, h') ->
  exists t, h' = h ++ t /\
  match r with
  | Ok _ => t.*1 = limit_call dir <$> files /\ Forall accepted t
  | Err e => exists op err, e = IoErr op err /\ exists t0 c, t = t0 ++ [(c, Err err)] /\
             (t.*1) `prefix_of` (limit_call dir <$> files) /\ Forall accepted t0
  end.
Proof.
  revert h. induction files as [|[f v] files IH]; intros h; cbn [write_limits].
  { intros [= <- <-]. exists []. by rewrite app_nil_r. }
  unfold st_bind. destruct (io kernel _ _ h) as [r1 h1] eqn:E.
  apply io_run in E as ([s|e] & -> & ->); simpl; intros H.
  - destruct (IH _ H) as (t & -> & Ht). exists ((Write (path_join dir f) v, Ok s) :: t).
    split; [by rewrite <- app_assoc|]. destruct r as [[]|e].
    + destruct Ht as [Ht1 Ht]. rewrite !fmap_cons, Ht1. split; [done|]. by constructor.
    + destruct Ht as (op & err & -> & t0 & c & -> & Hp & Ht). exists op, err. split; [done|].
      exists ((Write (path_join dir f) v, Ok s) :: t0), c. split_and!; [done| |by constructor].
      by apply prefix_cons.
  - injection H as <- <-. eexists. split; [done|]. eexists _, _. split; [done|].
    eexists [], _. split_and!; [done| |constructor]. simpl. apply prefix_cons, prefix_nil.
Qed.

Definition is_write (c : call) : bool := match c with Write _ _ => true | _ => false end.
Definition is_rmdir (c : call) : bool := match c with RemoveDir _ => true | _ => false end.

(** Nothing [create] does removes a directory. *)
Definition no_rmdir (e : call * answer) : Prop := is_rmdir e.1 = false.
Definition no_write (e : call * answer) : Prop := is_write e.1 = false.

Lemma own_cgroup_dir_appends : appends (fun e => no_write e /\ no_rmdir e) (own_cgroup_dir kernel).
Proof. unfold own_cgroup_dir. appends. Qed.

Lemma migrate_appends lp pids : appends no_rmdir (migrate kernel lp pids).
Proof. induction pids; simpl; appends. Qed.

Lemma make_leaf_appends P leaf : (forall a, P (CreateDir leaf, a)) -> appends P (make_leaf kernel leaf).
Proof. intros. unfold make_leaf. apply appends_bind; [by apply appends_attempt|]. intros ?. appends. Qed.

#[local] Hint Resolve own_cgroup_dir_appends migrate_appends make_leaf_appends : cgroup.

Lemma require_controllers_appends base cs : appends no_rmdir (require_controllers kernel base cs).
Proof. unfold require_controllers, enable_controllers. appends. Qed.

(** When the controllers were enabled, the last thing done was the accepted
    write of all of them. *)
Lemma enable_controllers_Ok base cs h u h' : enable_controllers kernel base cs h = (Ok u, h') ->
  exists t s, h' = h ++ t ++ [(Write (path_join base "cgroup.subtree_control") (subtree_payload cs), Ok s)].
Proof.
  unfold enable_controllers. intros H. run_step H as a. destruct a as [s|e].
  { injection H as _ <-. by exists [], s. }
  case_match; [done|]. apply st_bind_Ok in H as (? & h1 & E1 & H).
  destruct (make_leaf_appends (fun _ => True) _ (fun _ => I) _ _ _ E1) as (t1 & -> & _). run_step H as procs.
  apply st_bind_Ok in H as (? & h3 & E3 & H). destruct (migrate_appends _ _ _ _ _ E3) as (t3 & -> & _).
  run_step H as again. destruct again as [s|e']; [|done]. injection H as _ <-.
  eexists (_ :: t1 ++ _ :: t3), s. by app_norm.
Qed.

(** The calls [create] makes once the sandbox's directory is there, and the
    events before it, of which the last enabled the controllers. *)
Definition enabled_last (base : path) (limits : ResourceLimits) (t : history) : Prop :=
  required limits = true -> exists t0 s,
    t = t0 ++ [(Write (path_join base "cgroup.subtree_control") (subtree_payload (controllers_of limits)), Ok s)].

Lemma limit_files_none limits : required limits = false -> limit_files limits = [].
Proof.
  unfold required, controllers_of, limit_files. intros H%bool_decide_eq_false.
  repeat case_match; try done; exfalso; by apply H.
Qed.

Lemma prepare_Ok base limits h u h1 :
  (if required limits then require_controllers kernel base (controllers_of limits) else st_ret tt) h
    = (Ok u, h1) -> exists t1, h1 = h ++ t1 /\ enabled_last base limits t1.
Proof.
  unfold enabled_last. destruct (required limits).
  - intros E. apply st_bind_Ok in E as (? & ? & E2 & E). apply io_Ok in E2. subst.
    apply st_bind_Ok in E as (? & ? & [= _ <-] & E).
    apply enable_controllers_Ok in E as (t & s & ->). eexists (_ :: t ++ _).
    split; [by app_norm|]. intros _. by eexists (_ :: t), s.
  - intros [= _ <-]. exists []. by rewrite app_nil_r.
Qed.

Definition refused_limit (e : Error) : Prop := exists err, e = IoErr "write cgroup limit" err.

Lemma require_controllers_errs base cs : errs (fun e => ~ refused_limit e) (require_controllers kernel base cs).
Proof.
  assert (forall e, ~ refused_limit (map_subtree_err e base)) as Hm.
  { intros e [err He]. unfold map_subtree_err in He. by case_decide. }
  assert (forall op e, op <> "write cgroup limit" -> ~ refused_limit (Error_io op e)) as Hio.
  { intros op e Hop [err [= He]]. done. }
  assert (forall lp pids, errs (fun e => ~ refused_limit e) (migrate kernel lp pids)) as Hmig.
  { intros lp pids. induction pids; simpl; errs. }
  unfold require_controllers. apply errs_bind; [apply errs_io; auto|]. intros available.
  apply errs_bind.
  { apply errs_lift. intros e. induction cs as [|c cs IH]; simpl; [done|]. case_match; [done|].
    intros [= <-] [err He]. done. }
  intros _. unfold enable_controllers. apply errs_bind; [apply errs_attempt|]. intros [|e]; [errs|].
  case_match; [apply errs_fail, Hm|]. apply errs_bind.
  { unfold make_leaf. apply errs_bind; [apply errs_attempt|]. intros [|e']; [apply errs_ret|].
    destruct (decide _); [apply errs_ret|]. apply errs_fail. by apply Hio. }
  intros _. apply errs_bind; [apply errs_io; auto|]. intros procs. apply errs_bind; [done|].
  intros _. apply errs_bind; [apply errs_attempt|]. intros [|e']; apply errs_lift; [done|].
  intros e2 [= <-]. apply Hm.
Qed.

(** What the result of [create_limited] says of the events it appended. *)
Definition limited (dir : path) (limits : ResourceLimits) (r : result Error (option CgroupHandle))
    (t : history) : Prop :=
  match r with
  | Ok None => required limits = false
  | Ok (Some c) => h_path c = dir /\ exists a t2, t = (CreateDir dir, a) :: t2 /\ made a /\
      t2.*1 = limit_call dir <$> limit_files limits /\ Forall accepted t2
  | Err e => required limits = true /\ (refused_limit e ->
      exists a t2, t = (CreateDir dir, a) :: t2 /\ made a)
  end.

Lemma write_all_run dir limits h a r h' : made a ->
  (do! _ := write_limits kernel dir (limit_files limits) in st_ret (Some (mkHandle dir)))
    (h ++ [(CreateDir dir, a)]) = (r, h') -> exists t, h' = h ++ t /\ limited dir limits r t.
Proof.
  intros Ha E. unfold st_bind in E. destruct (write_limits _ _ _ _) as [r3 h3] eqn:E3.
  destruct (required limits) eqn:Hreq.
  - apply write_limits_run in E3 as (t & -> & Ht). eexists (_ :: t).
    destruct r3 as [[]|e]; injection E as <- <-; (split; [by app_norm|]); split; try done.
    + exists a, t. by destruct Ht.
    + intros _. by eexists a, _.
  - rewrite limit_files_none in E3 by done. injection E3 as <- <-. injection E as <- <-.
    eexists. split; [done|]. split; [done|]. exists a, []. by rewrite limit_files_none.
Qed.

Lemma create_limited_run dir limits h r h' : create_limited kernel dir limits h = (r, h') ->
  exists t, h' = h ++ t /\ limited dir limits r t.
Proof.
  unfold create_limited. intros H. unfold attempt, st_bind at 1 in H.
  destruct (kernel h (CreateDir dir)) as [s|e] eqn:Ea;
    [by apply (write_all_run dir limits h (Ok s)) in H|].
  case_decide; [by apply (write_all_run dir limits h (Err e)) in H|].
  destruct (required limits) eqn:Hreq; injection H as <- <-; eexists; (split; [done|]); [|done].
  split; [done|]. by intros [err [= _]].
Qed.

Lemma create_under_run base id limits h r h' : create_under kernel base id limits h = (r, h') ->
  exists t1 t2, h' = h ++ t1 ++ t2 /\ limited (path_join base ("draug-" +:+ id)) limits r t2 /\
    (is_ok r = true -> enabled_last base limits t1).
Proof.
  unfold create_under, st_bind. intros H.
  destruct ((if required limits then require_controllers kernel base (controllers_of limits) else st_ret tt) h)
    as [[u|e] h1] eqn:E1; setoid_rewrite E1 in H.
  - apply prepare_Ok in E1 as (t1 & -> & He). apply create_limited_run in H as (t2 & -> & Ht).
    exists t1, t2. by rewrite app_assoc.
  - injection H as <- <-. destruct (required limits) eqn:Hreq; [|done].
    destruct (require_controllers_appends _ _ _ _ _ E1) as (t & -> & _).
    exists t, []. rewrite app_nil_r. split_and!; [done|split; [done|]|done].
    by intros []%(require_controllers_errs _ _ _ _ _ E1).
Qed.

(** A refused limit leaves the directory behind: it is there, and no call
    [create] made removes a directory. *)
Lemma create_no_rmdir id limits : appends no_rmdir (create kernel id limits).
Proof.
  unfold create, create_under, create_limited. apply appends_bind; [apply appends_try|].
  - apply (appends_impl _ _ _ (own_cgroup_dir_appends)). by intros ? [].
  - intros base. assert (forall d fs, appends no_rmdir (write_limits kernel d fs)) as Hw.
    { intros d fs. induction fs as [|[f v] fs IH]; cbn [write_limits]; appends. }
    pose proof require_controllers_appends. appends.
Qed.

Lemma own_cgroup_dir_errs : errs (fun e => ~ refused_limit e) (own_cgroup_dir kernel).
Proof.
  unfold own_cgroup_dir. apply errs_bind; [apply errs_io; by intros e [err [= _]]|]. intros s.
  case_match; [|apply errs_fail; by intros [err [= _]]].
  apply errs_bind; [apply errs_attempt|]. intros a. case_match; [errs|].
  apply errs_fail. by intros [err [= _]].
Qed.

Lemma create_run id limits h r h' : create kernel id limits h = (r, h') ->
  match r with
  | Ok (Some c) => exists base t1 a t2,
      h_path c = path_join base ("draug-" +:+ id) /\
      h' = h ++ t1 ++ (CreateDir (h_path c), a) :: t2 /\ made a /\
      t2.*1 = limit_call (h_path c) <$> limit_files limits /\ Forall accepted t2 /\
      (required limits = true -> exists t0 s, t1 = t0 ++
        [(Write (path_join base "cgroup.subtree_control") (subtree_payload (controllers_of limits)), Ok s)])
  | Ok None => required limits = false
  | Err e => required limits = true /\ (refused_limit e -> exists base t1 a t2,
      h' = h ++ t1 ++ (CreateDir (path_join base ("draug-" +:+ id)), a) :: t2 /\ made a /\
      Forall no_rmdir t2)
  end.
Proof.
  intros Hc. pose proof Hc as H. unfold create in H. apply st_try_bind in H as (base & h1 & E1 & H).
  destruct (own_cgroup_dir_appends _ _ _ E1) as (t0 & -> & _). destruct base as [base|e].
  - apply create_under_run in H as (t1 & t2 & -> & Hl & He). destruct r as [[c|]|e]; [|done|].
    2: { destruct Hl as [Hreq Hl]. split; [done|]. intros (a & t3 & -> & Ha)%Hl.
         exists base, (t0 ++ t1), a, t3. split_and!; [by app_norm|done|].
         destruct (create_no_rmdir _ _ _ _ _ Hc) as (t & Et & Hr). rewrite <- !app_assoc in Et.
         apply app_inv_head in Et as <-. rewrite !Forall_app, Forall_cons in Hr. tauto. }
    destruct Hl as (-> & a & t3 & -> & Ha & Hw & Hacc). exists base, (t0 ++ t1), a, t3.
    split_and!; [done|by app_norm|done..|]. intros Hreq.
    destruct (He eq_refl Hreq) as (t4 & s & ->). exists (t0 ++ t4), s. by app_norm.
  - destruct (required limits) eqn:Hreq; injection H as <- <-; [|done].
    split; [done|]. intros Hr. exfalso. revert Hr. by apply (own_cgroup_dir_errs _ _ _ E1).
Qed.

(** The writes a spec asks for, below the sandbox's directory: bytes,
    processes, and the share of 100 ms periods that the millicores are. *)
Definition asked (limits : ResourceLimits) (dir : path) (c : call) : Prop :=
  (exists b, memory_bytes limits = Some b /\ c = Write (path_join dir "memory.max") (decimal b)) \/
  (exists n, pids limits = Some n /\ c = Write (path_join dir "pids.max") (decimal n)) \/
  (exists m, cpu_millis limits = Some m /\
     c = Write (path_join dir "cpu.max") (decimal (m * 100) +:+ " 100000")).

Lemma limit_files_asked limits dir c :
  c ∈ limit_call dir <$> limit_files limits <-> asked limits dir c.
Proof.
  unfold limit_files, asked. rewrite !fmap_app, !elem_of_app.
  destruct (memory_bytes limits), (pids limits), (cpu_millis limits);
    cbn [fmap list_fmap option_fmap]; rewrite ?list_elem_of_singleton; set_solver.
Qed.

(** C25: A limit is enforced or the call fails.  With a handle, the writes
    below the sandbox's directory are the requested limits and no others, each
    was accepted, and they come after the directory was there and the
    controllers were enabled in its parent; no handle is returned only for a
    spec without limits, and an error only for one with some.  An error for a
    limit that was refused leaves the directory behind. *)
Theorem create_enforces id limits h r h' : create kernel id limits h = (r, h') ->
  match r with
  | Ok (Some c) => exists base t1 a t2,
      h_path c = path_join base ("draug-" +:+ id) /\
      h' = h ++ t1 ++ (CreateDir (h_path c), a) :: t2 /\ made a /\
      (forall w, w ∈ t2.*1 <-> asked limits (h_path c) w) /\ Forall accepted t2 /\
      (required limits = true -> exists t0 s, t1 = t0 ++
        [(Write (path_join base "cgroup.subtree_control") (subtree_payload (controllers_of limits)), Ok s)])
  | Ok None => required limits = false
  | Err e => required limits = true /\ (refused_limit e -> exists base t1 a t2,
      h' = h ++ t1 ++ (CreateDir (path_join base ("draug-" +:+ id)), a) :: t2 /\ made a /\
      Forall no_rmdir t2)
  end.
Proof.
  intros H%create_run. destruct r as [[c|]|e]; [|done..].
  destruct H as (base & t1 & a & t2 & ? & ? & ? & Hw & H). exists base, t1, a, t2.
  split_and!; [done..| |by apply H|by apply H]. intros w. rewrite Hw. apply limit_files_asked.
Qed.

(** Without limits only the directory may be made: no file is written. *)
Lemma create_unlimited id limits : required limits = false ->
  appends no_write (create kernel id limits).
Proof.
  intros Hreq. unfold create, create_under, create_limited. rewrite Hreq.
  rewrite limit_files_none by done. apply appends_bind; [apply appends_try|].
  - apply (appends_impl _ _ _ own_cgroup_dir_appends). by intros ? [].
  - intros base. cbn [write_limits]. appends.
Qed.

End create.

(** ** Enabling the controllers *)

Section enable.
Context (kernel : history -> call -> answer).
Implicit Types h t : history.

Lemma migrate_run lp pids h r h' : migrate kernel lp pids h = (r, h') ->
  r = Ok tt /\ exists t, h' = h ++ t /\ t.*1 = Write lp <$> pids.
Proof.
  revert h. induction pids as [|pid pids IH]; intros h; cbn [migrate].
  { intros [= <- <-]. split; [done|]. exists []. by rewrite app_nil_r. }
  unfold attempt, st_bind. intros (-> & t & -> & Ht)%IH. split; [done|].
  eexists (_ :: t). rewrite !fmap_cons, Ht. by app_norm.
Qed.

(** Controllers are enabled by one accepted write to cgroup.subtree_control
    and nothing else; or the kernel refused that write with EBUSY, then the
    child [leaf] was there, each process cgroup.procs listed was written to the
    leaf's cgroup.procs - each pid of the kernel's listing, once and in order,
    so none is left out - and the same write, made again, was accepted. *)
Theorem controllers_migrate base cs h h' : enable_controllers kernel base cs h = (Ok tt, h') ->
  let w := Write (path_join base "cgroup.subtree_control") (subtree_payload cs) in
  let leaf := path_join base "leaf" in
  (exists s, h' = h ++ [(w, Ok s)]) \/
  (exists err a text t s,
     h' = h ++ (w, Err err) :: (CreateDir leaf, a) :: (Read (path_join base "cgroup.procs"), Ok text)
            :: t ++ [(w, Ok s)] /\
     Io.raw_os_error err = Some EBUSY /\ made a /\
     t.*1 = Write (path_join leaf "cgroup.procs") <$> str_words text /\
     forall pids, text = pid_lines pids ->
       t.*1 = (fun p => Write (path_join leaf "cgroup.procs") (pretty p)) <$> pids).
Proof.
  intros H w leaf. unfold enable_controllers in H. run_step H as first.
  destruct first as [s|err]; [left; injection H as <-; eauto|right].
  destruct (bool_decide _) eqn:Hb; [apply bool_decide_eq_true in Hb; simpl in H|done].
  apply st_bind_Ok in H as ([] & h1 & E1 & H).
  assert (exists a, h1 = (h ++ [(w, Err err)]) ++ [(CreateDir leaf, a)] /\ made a) as (a & -> & Ha).
  { unfold make_leaf in E1. run_step E1 as a. exists a.
    destruct a as [s|e]; [by injection E1 as <-|]. by case_decide; [injection E1 as <-|]. }
  run_step H as text. apply st_bind_Ok in H as ([] & h2 & E2 & H).
  apply migrate_run in E2 as (_ & t & -> & Ht).
  run_step H as again. destruct again as [s|e]; [|done]. injection H as <-.
  exists err, a, text, t, s. split_and!; [by app_norm|done|done|done|].
  intros pids ->. rewrite Ht, str_words_pid_lines, <- list_fmap_compose. done.
Qed.

End enable.

(** ** The freezer and the teardown *)

Section loops.
Context (kernel : history -> call -> answer).
Implicit Types h t : history.

Definition shows_frozen (p : path) (e : call * answer) : Prop :=
  e.1 = Read (path_join p "cgroup.events") /\ exists s, e.2 = Ok s /\ reports_frozen s = true.

Lemma await_frozen_run n p h r h' : await_frozen kernel n p h = (r, h') ->
  r = Ok tt /\ exists t, h' = h ++ t /\ (length t <= 2 * n)%nat /\
    ((exists t0 e, t = t0 ++ [e] /\ shows_frozen p e) \/ length t = (2 * n)%nat).
Proof.
  revert h. induction n as [|n IH]; intros h; cbn [await_frozen].
  { intros [= <- <-]. split; [done|]. exists []. rewrite app_nil_r. auto. }
  unfold attempt, st_bind. destruct (reports_frozen _) eqn:E.
  - intros [= <- <-]. split; [done|]. eexists. split; [done|]. split; [simpl; lia|]. left.
    eexists [], _. split; [done|]. split; [done|]. simpl.
    destruct (kernel h _) as [s|]; [by exists s|].
    by change (reports_frozen EmptyString = true) in E.
  - intros (-> & t & -> & Hl & Ht)%IH. split; [done|]. eexists (_ :: _ :: t).
    split; [by app_norm|]. split; [simpl; lia|]. destruct Ht as [(t0 & e & -> & He)|Ht].
    + left. by eexists (_ :: _ :: t0), e.
    + right. simpl. lia.
Qed.

(** [freeze] fails exactly when the kernel refuses the write to
    cgroup.freeze; otherwise it returns within 80 polls, and it stops before
    that only when cgroup.events said that the cgroup is frozen. *)
Theorem freeze_bounded p h :
  exists r t, freeze kernel p h = (r, h ++ t) /\ (length t <= 161)%nat /\
  match kernel h (Write (path_join p "cgroup.freeze") "1") with
  | Err e => r = Err (Error_io "freeze sandbox cgroup" e)
  | Ok _ => r = Ok tt /\ (length t = 161%nat \/ exists t0 e, t = t0 ++ [e] /\ shows_frozen p e)
  end.
Proof.
  unfold freeze, io, attempt, st_bind, st_lift. destruct (kernel h _) as [s|e]; cbn [map_err].
  - destruct (await_frozen _ _ _ _) as [r h'] eqn:E.
    apply await_frozen_run in E as (-> & t & -> & Hl & Ht).
    eexists _, (_ :: t). split; [by app_norm|]. split; [simpl; lia|]. split; [done|].
    destruct Ht as [(t0 & e & -> & He)|Ht]; [right; by eexists (_ :: t0), e|left; simpl; lia].
  - eexists _, _. split; [done|]. split; [simpl; lia|done].
Qed.

Definition gone (e : call * answer) : Prop :=
  match e with (RemoveDir _, Ok _) => True | (RemoveDir _, Err e) => Io.kind e = Io.NotFound | _ => False end.

Lemma remove_until_gone_run n p h r h' : remove_until_gone kernel n p h = (r, h') ->
  r = Ok tt /\ exists t, h' = h ++ t /\ (length t <= 2 * n)%nat /\
    ((exists t0 e, t = t0 ++ [e] /\ gone e) \/ length t = (2 * n)%nat).
Proof.
  revert h. induction n as [|n IH]; intros h; cbn [remove_until_gone].
  { intros [= <- <-]. split; [done|]. exists []. rewrite app_nil_r. auto. }
  unfold attempt, st_bind. destruct (kernel h (RemoveDir p)) as [s|e] eqn:E; [|case_decide].
  1,2: intros [= <- <-]; split; [done|]; eexists; (split; [done|]); (split; [simpl; lia|]); left;
    by eexists [], _.
  intros (-> & t & -> & Hl & Ht)%IH. split; [done|]. eexists (_ :: _ :: t).
  split; [by app_norm|]. split; [simpl; lia|]. destruct Ht as [(t0 & e' & -> & He)|Ht].
  - left. by eexists (_ :: _ :: t0), e'.
  - right. simpl. lia.
Qed.

(** [destroy] returns within 20 attempts; it stops before that only when the
    directory was removed or is not there. *)
Lemma destroy_bounded p h :
  exists t, destroy kernel p h = (Ok tt, h ++ t) /\ (length t <= 41)%nat /\
    (length t = 41%nat \/ exists t0 e, t = t0 ++ [e] /\ gone e).
Proof.
  unfold destroy, attempt, st_bind. destruct (remove_until_gone _ _ _ _) as [r h'] eqn:E.
  apply remove_until_gone_run in E as (-> & t & -> & Hl & Ht). eexists (_ :: t).
  split; [by app_norm|]. split; [simpl; lia|].
  destruct Ht as [(t0 & e & -> & He)|Ht]; [right; by eexists (_ :: t0), e|left; simpl; lia].
Qed.

End loops.

(** ** Witnesses

    A kernel with a delegated subtree that still hosts the caller. *)

Module Witness.

Definition ebusy : Io.error := Io.mk Io.Other (Some EBUSY) "Device or resource busy".

Definition moved (h : history) : bool :=
  existsb (fun e => bool_decide (e.1 = Write "/sys/fs/cgroup/u.scope/leaf/cgroup.procs" "42")) h.

Definition delegated (h : history) (c : call) : answer :=
  match c with
  | Read p =>
      if decide (p = "/proc/self/cgroup") then Ok ("0::/u.scope" +:+ String "010" EmptyString)
      else if decide (p = "/sys/fs/cgroup/u.scope/cgroup.controllers") then Ok "cpu memory pids"
      else if decide (p = "/sys/fs/cgroup/u.scope/cgroup.procs") then Ok (pid_lines [42%N])
      else Err (Io.new Io.NotFound "No such file or directory")
  | Write p v =>
      if decide (p = "/sys/fs/cgroup/u.scope/cgroup.subtree_control")
      then if moved h then Ok EmptyString else Err ebusy
      else Ok EmptyString
  | _ => Ok EmptyString
  end.

Definition limits := mkLimits (Some 1500) (Some 1048576) None None None.
Definition run := create delegated "a1" limits [].

Lemma create_enforces_witness : exists h', run = (Ok (Some (mkHandle "/sys/fs/cgroup/u.scope/draug-a1")), h') /\
  exists base t1 a t2,
    "/sys/fs/cgroup/u.scope/draug-a1" = path_join base ("draug-" +:+ "a1") /\
    h' = [] ++ t1 ++ (CreateDir "/sys/fs/cgroup/u.scope/draug-a1", a) :: t2 /\ made a /\
    (forall w, w ∈ t2.*1 <-> asked limits "/sys/fs/cgroup/u.scope/draug-a1" w) /\ Forall accepted t2 /\
    (required limits = true -> exists t0 s, t1 = t0 ++
      [(Write (path_join base "cgroup.subtree_control") (subtree_payload (controllers_of limits)), Ok s)]).
Proof.
  exists run.2. split; [vm_compute; reflexivity|].
  apply (create_enforces delegated "a1" limits [] (Ok (Some (mkHandle "/sys/fs/cgroup/u.scope/draug-a1"))) run.2).
  vm_compute. reflexivity.
Defined.

Example run_writes : (run.2).*1 =
  [Read "/proc/self/cgroup"; Exists "/sys/fs/cgroup/u.scope/cgroup.controllers";
   Read "/sys/fs/cgroup/u.scope/cgroup.controllers";
   Write "/sys/fs/cgroup/u.scope/cgroup.subtree_control" "+memory +cpu";
   CreateDir "/sys/fs/cgroup/u.scope/leaf"; Read "/sys/fs/cgroup/u.scope/cgroup.procs";
   Write "/sys/fs/cgroup/u.scope/leaf/cgroup.procs" "42";
   Write "/sys/fs/cgroup/u.scope/cgroup.subtree_control" "+memory +cpu";
   CreateDir "/sys/fs/cgroup/u.scope/draug-a1";
   Write "/sys/fs/cgroup/u.scope/draug-a1/memory.max" "1048576";
   Write "/sys/fs/cgroup/u.scope/draug-a1/cpu.max" "150000 100000"].
Proof. vm_compute. reflexivity. Qed.

Definition enable := enable_controllers delegated "/sys/fs/cgroup/u.scope" ["cpu"] [].

Lemma controllers_migrate_witness :
  let w := Write (path_join "/sys/fs/cgroup/u.scope" "cgroup.subtree_control") (subtree_payload ["cpu"]) in
  let leaf := path_join "/sys/fs/cgroup/u.scope" "leaf" in
  (exists s, enable.2 = [] ++ [(w, Ok s)]) \/
  (exists err a text t s,
     enable.2 = [] ++ (w, Err err) :: (CreateDir leaf, a)
       :: (Read (path_join "/sys/fs/cgroup/u.scope" "cgroup.procs"), Ok text) :: t ++ [(w, Ok s)] /\
     Io.raw_os_error err = Some EBUSY /\ made a /\
     t.*1 = Write (path_join leaf "cgroup.procs") <$> str_words text /\
     forall pids, text = pid_lines pids ->
       t.*1 = (fun p => Write (path_join leaf "cgroup.procs") (pretty p)) <$> pids).
Proof.
  apply (controllers_migrate delegated "/sys/fs/cgroup/u.scope" ["cpu"] [] enable.2).
  vm_compute. reflexivity.
Defined.

End Witness.
