(* ===== verification/Quiesce.v ===== *)
(** * Freezing a sandbox for a snapshot, and thawing it

    draug-ns/src/linux/backend.rs: the freeze around the copy of a snapshot
    (lines 400-426), [read_cgroup_path], the op lock's two ways of being taken
    and [thaw_if_orphaned], over the calls of Cgroup.v. *)

From S2P Require Import Prelude Text Types Cgroup.

(** [read_cgroup_path]; [content] is cgroup.path, if it can be read. *)
Definition read_cgroup_path (content : option string) : option path :=
  s ← content;
  let s := str_trim s in
  if bool_decide (s = EmptyString) then None else Some s.

(** The op lock: opening op.lock, then flock; [true] is the lock. *)
Definition EWOULDBLOCK : Z := 11.

Definition flock_blocking (made opened locked : result Io.error unit) : result Io.error unit :=
  let? _ := made in
  let? _ := opened in
  locked.

Definition flock_try (opened locked : result Io.error unit) : result Io.error bool :=
  match opened with
  | Err e => if decide (Io.kind e = Io.NotFound) then Ok false else Err e
  | Ok _ =>
      match locked with
      | Ok _ => Ok true
      | Err e => if bool_decide (Io.raw_os_error e = Some EWOULDBLOCK) then Ok false else Err e
      end
  end.

Section quiesce.
Context (kernel : history -> call -> answer).

(** [thaw_if_orphaned] *)
Definition thaw_if_orphaned (cgroup_path : option path) (lock : result Io.error bool) : CG unit :=
  match cgroup_path, lock with
  | Some p, Ok true =>
      do! frozen := is_frozen kernel p in
      if frozen then do! _ := st_try (unfreeze kernel p) in st_ret tt else st_ret tt
  | _, _ => st_ret tt
  end.

(** The copy of a snapshot, its sandbox frozen meanwhile if that works.
    [copy] syncs and copies; what it returns is kept. *)
Definition frozen_copy {A} (cg : option path) (copy : CG A) : CG A :=
  do! froze := match cg with
               | Some p => do! r := st_try (freeze kernel p) in st_ret (is_ok r)
               | None => st_ret false
               end in
  do! result := copy in
  do! _ := match cg with
           | Some p => if froze then do! _ := st_try (unfreeze kernel p) in st_ret tt else st_ret tt
           | None => st_ret tt
           end in
  st_ret result.

Definition freeze_file (p : path) : path := path_join p "cgroup.freeze".
Definition not_freezer (p : path) (e : call * answer) : Prop := forall v, e.1 <> Write (freeze_file p) v.

Lemma await_appends n p : appends (not_freezer p) (await_frozen kernel n p).
Proof. induction n as [|n IH]; cbn [await_frozen]; appends. Qed.

(** [freeze] succeeds exactly when its write was accepted. *)
Lemma freeze_result p h r h' : freeze kernel p h = (r, h') -> exists a t,
  h' = h ++ (Write (freeze_file p) "1", a) :: t /\ Forall (not_freezer p) t /\ is_ok r = is_ok a.
Proof.
  unfold freeze, st_bind. destruct (io kernel _ _ h) as [r1 h1] eqn:E1.
  apply io_run in E1 as (a & -> & ->). destruct a as [s|e]; cbn [map_err]; intros E.
  - destruct (await_appends _ _ _ _ _ E) as (t & -> & Ht).
    apply await_frozen_run in E as (-> & _). eexists (Ok s), t. by app_norm.
  - injection E as <- <-. by exists (Err e), [].
Qed.

Lemma unfreeze_result p h r h' : unfreeze kernel p h = (r, h') -> exists a,
  h' = h ++ [(Write (freeze_file p) "0", a)].
Proof.
  unfold unfreeze, st_bind. destruct (io kernel _ _ h) as [r1 h1] eqn:E1.
  apply io_run in E1 as (a & -> & ->). destruct a; cbn [map_err]; intros [= _ <-]; by eexists.
Qed.

(** A snapshot leaves no sandbox frozen.  Whatever the copy returns, when the
    freeze was accepted the last thing done is the thaw of the same cgroup, and
    when it was not there is no thaw and the copy runs all the same. *)
Theorem snapshot_thaws {A} p (copy : CG A) h r h' : appends (not_freezer p) copy ->
  frozen_copy (Some p) copy h = (Ok r, h') ->
  exists a t, h' = h ++ (Write (freeze_file p) "1", a) :: t /\
  match a with
  | Ok _ => exists t0 a0, t = t0 ++ [(Write (freeze_file p) "0", a0)] /\ Forall (not_freezer p) t0
  | Err _ => Forall (not_freezer p) t
  end.
Proof.
  intros Hcopy E. unfold frozen_copy in E. apply st_bind_Ok in E as (froze & h1 & E1 & E).
  apply st_try_bind in E1 as (r1 & h2 & E1 & [= <- <-]).
  apply freeze_result in E1 as (a & t1 & -> & Ht1 & Hok).
  apply st_bind_Ok in E as (x & h3 & E3 & E). destruct (Hcopy _ _ _ E3) as (t2 & -> & Ht2).
  apply st_bind_Ok in E as (u & h4 & E4 & [= _ <-]). rewrite Hok in E4. destruct a as [s|e]; cbn [is_ok] in E4.
  - apply st_try_bind in E4 as (r4 & h5 & E5 & [= _ <-]). apply unfreeze_result in E5 as (a0 & ->).
    exists (Ok s), (t1 ++ t2 ++ [(Write (freeze_file p) "0", a0)]). split; [by app_norm|].
    exists (t1 ++ t2), a0. by rewrite <- app_assoc, Forall_app.
  - injection E4 as _ <-. exists (Err e), (t1 ++ t2). split; [by app_norm|]. by rewrite Forall_app.
Qed.

(** A live sandbox is thawed only when nobody holds its lock and its cgroup
    says it is frozen. *)
Lemma thaw_only_orphans cg lock h r h' : thaw_if_orphaned cg lock h = (r, h') ->
  r = Ok tt /\ (h' = h \/ exists p a, cg = Some p /\ lock = Ok true /\
    let seen := h ++ [(Read (path_join p "cgroup.events"), a)] in
    (h' = seen \/ (exists s, a = Ok s /\ reports_frozen s = true) /\ exists a0, h' = seen ++ [(Write (freeze_file p) "0", a0)])).
Proof.
  unfold thaw_if_orphaned. destruct cg as [p|]; [|intros [= <- <-]; auto].
  destruct lock as [[|]|]; [|intros [= <- <-]; auto..].
  unfold is_frozen, attempt, st_bind, st_ret, st_try. set (a := kernel h _). intros E.
  destruct a as [s|e] eqn:Ea.
  - destruct (reports_frozen s) eqn:Es.
    + destruct (unfreeze kernel p _) as [r1 h1] eqn:E1. apply unfreeze_result in E1 as (a0 & ->).
      injection E as <- <-. split; [done|]. right. exists p, (Ok s). split_and!; [done|done|]. right. eauto.
    + injection E as <- <-. split; [done|]. right. exists p, (Ok s). auto.
  - injection E as <- <-. split; [done|]. right. exists p, (Err e). auto.
Qed.

End quiesce.

Module Witness.

Definition obedient (h : history) (c : call) : answer :=
  match c with Read _ => Ok "frozen 1"%string | _ => Ok EmptyString end.

Definition copy : CG Z := do! _ := attempt obedient (Read "/s/a1/upper") in st_ret 12.
Definition run := frozen_copy obedient (Some "/sys/fs/cgroup/draug-a1"%string) copy [].

Lemma snapshot_thaws_witness : run.1 = Ok 12 /\ exists a t,
  run.2 = [] ++ (Write (freeze_file "/sys/fs/cgroup/draug-a1") "1", a) :: t /\
  match a with
  | Ok _ => exists t0 a0, t = t0 ++ [(Write (freeze_file "/sys/fs/cgroup/draug-a1") "0", a0)] /\
              Forall (not_freezer "/sys/fs/cgroup/draug-a1") t0
  | Err _ => Forall (not_freezer "/sys/fs/cgroup/draug-a1") t
  end.
Proof.
  split; [vm_compute; reflexivity|].
  apply (snapshot_thaws obedient "/sys/fs/cgroup/draug-a1" copy [] 12 run.2).
  - unfold copy. apply appends_bind; [by apply appends_attempt|]. intros a. apply appends_ret.
  - vm_compute. reflexivity.
Defined.

End Witness.
