(* ===== verification/OpLock.v ===== *)
(** * Operations on one sandbox, interleaved

    draug-ns/src/linux/backend.rs: [snapshot], [destroy] and [reconcile] of
    several processes on one sandbox, serialized by the op lock, a flock on
    op.lock in the state directory.  The lock belongs to the file that was
    opened, and a teardown removes the file.  A step is one await point of one
    task; a schedule is the list of the steps, in the order they happen.  Tasks
    may be dropped by a deadline ([Cancel], the MCP server's guard), which
    leaves the call they had handed to the blocking pool to finish on its own,
    and processes may die; a task that returns an error early ends like one
    that died. *)

From S2P Require Import Prelude.

(** A call of a dropped task that is still on the blocking pool. *)
Inductive late := LateFreeze | LateThaw | LateTeardown.

(** Where a task is, with the lock file it opened. *)
Inductive phase :=
  | Waiting (d : bool)               (* row seen, lock not opened; [d]: to destroy *)
  | Opened (d : bool) (i : N)        (* in flock *)
  | Held (i : N)                     (* a snapshot, before it looks again *)
  | Freezing (i : N)                 (* the freeze is on the pool *)
  | Copying (i : N) (f : bool)     (* [f]: it froze the sandbox *)
  | Thawing (i : N)                  (* the thaw is on the pool *)
  | SawAlive                         (* a reconcile *)
  | SawDead
  | Looking (i : N)                  (* holds the lock, asks the freezer *)
  | SawFrozen (i : N)
  | Tearing (i : option N)           (* a teardown, with the lock it holds *)
  | Killed (i : option N)
  | Down (i : option N)              (* the cgroup is gone *)
  | Removed (i : option N).          (* the state directory is gone *)

Record sandbox := mkSandbox {
  row : bool;                  (* the registry has it *)
  dir : bool;                  (* the state directory is there *)
  lockfile : option N;         (* op.lock in it *)
  files : N;                   (* the number of the next file *)
  owner : gmap N N;            (* who has the flock of a file *)
  alive : bool;
  cgroup : bool;               (* the cgroup is there *)
  named : bool;                (* cgroup.path in the state directory names it *)
  frozen : bool;               (* its cgroup.freeze *)
  tasks : gmap N phase;
  pool : list late;
}.

Inductive action :=
  | Snapshot (t : N) | Destroy (t : N) | Reconcile (t : N)
  | Open (t : N) | Lock (t : N) | NoLock (t : N) | TryLock (t : N)
  | Recheck (t : N) | FreezeDone (t : N) (ok : bool) | Copied (t : N) | ThawDone (t : N) (ok : bool)
  | Look (t : N) | Unfreeze (t : N) (ok : bool)
  | Kill (t : N) | TearCgroup (t : N) (ok : bool) | RemoveDir (t : N) | RemoveRow (t : N)
  | GuestDies | Crash (t : N) | Cancel (t : N) | Late (ok : bool).

(** ** Small steps *)

Definition goes (t : N) (p : phase) (s : sandbox) : sandbox :=
  mkSandbox (row s) (dir s) (lockfile s) (files s) (owner s) (alive s) (cgroup s) (named s) (frozen s)
    (<[t := p]> (tasks s)) (pool s).

(** A task ends; the locks it has are dropped with its files. *)
Definition ends (t : N) (s : sandbox) : sandbox :=
  mkSandbox (row s) (dir s) (lockfile s) (files s) (filter (fun '(_, o) => o <> t) (owner s)) (alive s)
    (cgroup s) (named s) (frozen s) (delete t (tasks s)) (pool s).

Definition grants (t i : N) (s : sandbox) : sandbox :=
  mkSandbox (row s) (dir s) (lockfile s) (files s) (<[i := t]> (owner s)) (alive s) (cgroup s) (named s) (frozen s)
    (tasks s) (pool s).

(** The write to cgroup.freeze, if the cgroup is there. *)
Definition freezer (b : bool) (s : sandbox) : sandbox :=
  mkSandbox (row s) (dir s) (lockfile s) (files s) (owner s) (alive s) (cgroup s) (named s)
    (if cgroup s then b else frozen s) (tasks s) (pool s).

(** [cgroup::destroy]: the cgroup goes, and what was frozen in it. *)
Definition no_cgroup (s : sandbox) : sandbox :=
  mkSandbox (row s) (dir s) (lockfile s) (files s) (owner s) (alive s) false (named s) false (tasks s) (pool s).

Definition no_guest (s : sandbox) : sandbox :=
  mkSandbox (row s) (dir s) (lockfile s) (files s) (owner s) false (cgroup s) (named s) (frozen s) (tasks s)
    (pool s).

(** The state directory goes, with op.lock and cgroup.path in it; a cgroup that
    is there stays. *)
Definition no_dir (s : sandbox) : sandbox :=
  mkSandbox (row s) false None (files s) (owner s) (alive s) (cgroup s) false (frozen s) (tasks s) (pool s).

Definition no_row (s : sandbox) : sandbox :=
  mkSandbox false (dir s) (lockfile s) (files s) (owner s) (alive s) (cgroup s) (named s) (frozen s) (tasks s)
    (pool s).

(** [flock_blocking] up to the flock: the directory and the file are made if
    they are not there. *)
Definition opens (s : sandbox) : N * sandbox :=
  match lockfile s with
  | Some i => (i, s)
  | None => (files s, mkSandbox (row s) true (Some (files s)) (files s + 1) (owner s) (alive s)
                        (cgroup s) (named s) (frozen s) (tasks s) (pool s))
  end.

Definition is_free (i : N) (s : sandbox) : bool := bool_decide (owner s !! i = None).

(** ** [acquire_op_lock], for a snapshot and for a destroy *)
Definition step_lock (a : action) (t : N) (p : phase) (s : sandbox) : option sandbox :=
  match a, p with
  | Open _, Waiting d => let '(i, s) := opens s in Some (goes t (Opened d i) s)
  | Lock _, Opened d i =>
      if is_free i s then Some (goes t (if d : bool then Tearing (Some i) else Held i) (grants t i s)) else None
  (* [destroy] drops the error of the lock and goes on, [snapshot] returns it *)
  | NoLock _, Waiting d | NoLock _, Opened d _ => Some (if d : bool then goes t (Tearing None) s else ends t s)
  | _, _ => None
  end.

(** ** [snapshot], once it has the lock *)
Definition step_snapshot (a : action) (t : N) (p : phase) (s : sandbox) : option sandbox :=
  match a, p with
  | Recheck _, Held i => Some (if row s then goes t (Freezing i) s else ends t s)
  | FreezeDone _ ok, Freezing i =>
      let froze := ok && named s && cgroup s in
      Some (goes t (Copying i froze) (if froze then freezer true s else s))
  | Copied _, Copying i froze => Some (if froze : bool then goes t (Thawing i) s else ends t s)
  | ThawDone _ ok, Thawing i => Some (ends t (if ok : bool then freezer false s else s))
  | _, _ => None
  end.

(** ** [destroy_inner] *)
Definition step_destroy (a : action) (t : N) (p : phase) (s : sandbox) : option sandbox :=
  match a, p with
  | Kill _, Tearing i => Some (goes t (Killed i) (no_guest s))
  | TearCgroup _ ok, Killed i => Some (goes t (Down i) (if ok && named s then no_cgroup s else s))
  | RemoveDir _, Down i => Some (goes t (Removed i) (no_dir s))
  | RemoveRow _, Removed i => Some (ends t (no_row s))
  | _, _ => None
  end.

(** ** [reconcile] and [thaw_if_orphaned] *)
Definition step_reconcile (a : action) (t : N) (p : phase) (s : sandbox) : option sandbox :=
  match a, p with
  | TryLock _, SawAlive =>
      if named s && dir s then
        let '(i, s) := opens s in
        Some (if is_free i s then goes t (Looking i) (grants t i s) else ends t s)
      else Some (ends t s)
  | TryLock _, SawDead =>
      if dir s then
        let '(i, s) := opens s in
        Some (if is_free i s then goes t (Tearing (Some i)) (grants t i s) else ends t s)
      else Some (ends t (no_row s))
  | Look _, Looking i => Some (if frozen s then goes t (SawFrozen i) s else ends t s)
  | Unfreeze _ ok, SawFrozen i => Some (ends t (if ok : bool then freezer false s else s))
  | _, _ => None
  end.

(** ** What may happen *)

Definition with_pool (l : list late) (s : sandbox) : sandbox :=
  mkSandbox (row s) (dir s) (lockfile s) (files s) (owner s) (alive s) (cgroup s) (named s) (frozen s) (tasks s) l.

Definition is_new (t : N) (s : sandbox) : bool := bool_decide (tasks s !! t = None).

Definition on_task (t : N) (s : sandbox) (f : phase -> option sandbox) : option sandbox :=
  match tasks s !! t with Some p => f p | None => None end.

Definition step (s : sandbox) (a : action) : option sandbox :=
  match a with
  | Snapshot t => if is_new t s && row s then Some (goes t (Waiting false) s) else None
  | Destroy t => if is_new t s && row s then Some (goes t (Waiting true) s) else None
  | Reconcile t =>
      if is_new t s && row s then Some (goes t (if alive s then SawAlive else SawDead) s) else None
  | Open t | Lock t | NoLock t => on_task t s (fun p => step_lock a t p s)
  | TryLock t | Look t | Unfreeze t _ => on_task t s (fun p => step_reconcile a t p s)
  | Recheck t | FreezeDone t _ | Copied t | ThawDone t _ => on_task t s (fun p => step_snapshot a t p s)
  | Kill t | TearCgroup t _ | RemoveDir t | RemoveRow t => on_task t s (fun p => step_destroy a t p s)
  | GuestDies => Some (no_guest s)
  | Crash t => on_task t s (fun _ => Some (ends t s))
  | Cancel t => on_task t s (fun p =>
      match p with
      | SawAlive | SawDead | Looking _ | SawFrozen _ => None
      | Freezing _ => Some (ends t (if named s then with_pool (pool s ++ [LateFreeze]) s else s))
      | Thawing _ => Some (ends t (with_pool (pool s ++ [LateThaw]) s))
      | Killed _ => Some (ends t (if named s then with_pool (pool s ++ [LateTeardown]) s else s))
      | _ => Some (ends t s)
      end)
  | Late ok =>
      match pool s with
      | c :: l =>
          let s := with_pool l s in
          Some (if ok : bool then
                  match c with
                  | LateFreeze => freezer true s
                  | LateThaw => freezer false s
                  | LateTeardown => no_cgroup s
                  end
                else s)
      | [] => None
      end
  end.

Fixpoint run (acts : list action) (s : sandbox) : option sandbox :=
  match acts with
  | [] => Some s
  | a :: acts' => match step s a with Some s' => run acts' s' | None => None end
  end.

(** A sandbox that was spawned: its directory with the lock file, a guest; with
    or without a cgroup. *)
Definition spawned (cg : bool) : sandbox := mkSandbox true true (Some 0%N) 1 ∅ true cg cg false ∅ [].

(** ** The invariant of undisturbed tasks

    No task is dropped, and no teardown goes on without its lock. *)

Definition orderly (a : action) : Prop :=
  match a with Cancel _ | NoLock _ => False | _ => True end.

Definition holds (p : phase) : option N :=
  match p with
  | Held i | Freezing i | Copying i _ | Thawing i | Looking i | SawFrozen i => Some i
  | Tearing i | Killed i | Down i | Removed i => i
  | _ => None
  end.

Definition uses (p : phase) : option N := match p with Opened _ i => Some i | _ => holds p end.

Definition tears (p : phase) : bool :=
  match p with Tearing _ | Killed _ | Down _ | Removed _ => true | _ => false end.

(** It froze the sandbox and has not thawed it. *)
Definition froze (p : phase) : bool := match p with Copying _ b => b | Thawing _ => true | _ => false end.

Definition past_cgroup (p : phase) : bool := match p with Removed _ => true | _ => false end.

Record task_ok (s : sandbox) (t : N) (p : phase) : Prop := {
  ok_owner : forall i, holds p = Some i -> owner s !! i = Some t;
  ok_tears : tears p = true -> is_Some (holds p);
  ok_file : named s = true -> forall i, uses p = Some i -> i = 0%N;
  ok_froze : froze p = true -> cgroup s = true /\ named s = true /\ frozen s = true;
  ok_past : past_cgroup p = true -> named s = false;
}.

Record inv (s : sandbox) : Prop := {
  inv_pool : pool s = [];
  inv_lockfile : named s = true -> lockfile s = Some 0%N;
  inv_tasks : forall t p, tasks s !! t = Some p -> task_ok s t p;
}.

(** Who holds a lock while there is a cgroup holds the one lock. *)
Lemma alone s t p t' p' : inv s -> tasks s !! t = Some p -> is_Some (holds p) ->
  t' <> t -> tasks s !! t' = Some p' -> froze p' = false.
Proof.
  intros Hi Ht [i Hh] Hne Ht'. destruct (froze p') eqn:Hf; [|done]. exfalso. apply Hne.
  pose proof (inv_tasks _ Hi _ _ Ht) as K. pose proof (inv_tasks _ Hi _ _ Ht') as K'.
  destruct (ok_froze _ _ _ K' Hf) as (_ & Hc & _).
  assert (exists j, holds p' = Some j) as [j Hh'] by (destruct p'; try done; eauto).
  assert (i = 0%N) as -> by (eapply (ok_file _ _ _ K Hc); by destruct p).
  assert (j = 0%N) as -> by (eapply (ok_file _ _ _ K' Hc); by destruct p').
  pose proof (ok_owner _ _ _ K _ Hh). pose proof (ok_owner _ _ _ K' _ Hh'). congruence.
Qed.

(** The other tasks do not mind a change that takes no lock from them, makes no
    cgroup, and does not thaw what they froze. *)
Lemma others_ok s s1 t : inv s ->
  (forall t' i, t' <> t -> owner s !! i = Some t' -> owner s1 !! i = Some t') ->
  (named s1 = true -> named s = true) ->
  (cgroup s1 = cgroup s /\ named s1 = named s /\ frozen s1 = frozen s \/
   forall t' p, t' <> t -> tasks s !! t' = Some p -> froze p = false) ->
  forall t' p, t' <> t -> tasks s !! t' = Some p -> task_ok s1 t' p.
Proof.
  intros Hi Hown Hcg Hfr t' p Hne Ht. destruct (inv_tasks _ Hi _ _ Ht) as [K1 K2 K3 K4 K5]. split.
  - auto.
  - done.
  - auto.
  - intros Hf. destruct Hfr as [(-> & -> & ->)|Hnone]; [auto|]. by rewrite (Hnone t' p) in Hf.
  - intros Hp. specialize (K5 Hp). destruct (named s1); [|done]. by rewrite Hcg in K5.
Qed.

Lemma task_goes s s1 t p : pool s1 = [] -> (named s1 = true -> lockfile s1 = Some 0%N) ->
  tasks s1 = tasks s -> (forall t' p', t' <> t -> tasks s !! t' = Some p' -> task_ok s1 t' p') ->
  task_ok s1 t p -> inv (goes t p s1).
Proof.
  intros Hp Hl Ht Hothers Hself. split; [done|done|]. intros t' p'. simpl. rewrite Ht.
  destruct (decide (t' = t)) as [->|Hne].
  - rewrite lookup_insert_eq. intros [= <-]. by destruct Hself.
  - rewrite lookup_insert_ne by done. intros H. by destruct (Hothers t' p' Hne H).
Qed.

Lemma inv_ends s s1 t : pool s1 = [] -> (named s1 = true -> lockfile s1 = Some 0%N) ->
  tasks s1 = tasks s -> (forall t' p', t' <> t -> tasks s !! t' = Some p' -> task_ok s1 t' p') ->
  inv (ends t s1).
Proof.
  intros Hp Hl Ht Hothers. split; [done|done|]. intros t' p'. simpl. rewrite Ht.
  destruct (decide (t' = t)) as [->|Hne]; [by rewrite lookup_delete_eq|].
  rewrite lookup_delete_ne by done. intros H. destruct (Hothers t' p' Hne H) as [K1 K2 K3 K4 K5].
  split; try done. intros i Hh. simpl. apply map_lookup_filter_Some. split; [by apply K1|done].
Qed.

(** Nothing but the tasks changes. *)
Lemma inv_moves s t p p' : inv s -> tasks s !! t = Some p -> task_ok s t p' -> inv (goes t p' s).
Proof.
  intros Hi Ht Hok. apply (task_goes s); [apply Hi..|done| |done].
  apply (others_ok s); auto.
Qed.

Lemma inv_new s t p : inv s -> task_ok s t p -> inv (goes t p s).
Proof.
  intros Hi Hok. apply (task_goes s); [apply Hi..|done| |done]. apply (others_ok s); auto.
Qed.

Lemma inv_leaves s t : inv s -> inv (ends t s).
Proof. intros Hi. apply (inv_ends s); [apply Hi..|done|]. apply (others_ok s); auto. Qed.

Lemma opens_frame s i s' : inv s -> opens s = (i, s') ->
  inv s' /\ tasks s' = tasks s /\ owner s' = owner s /\ named s' = named s /\ frozen s' = frozen s /\
  alive s' = alive s /\ (named s = true -> i = 0%N).
Proof.
  intros Hi E. unfold opens in E. destruct (lockfile s) as [j|] eqn:Hl; injection E as <- <-.
  - split_and!; try done. intros Hc. pose proof (inv_lockfile _ Hi Hc). congruence.
  - assert (named s = false) as Hc.
    { destruct (named s) eqn:Hc; [|done]. pose proof (inv_lockfile _ Hi Hc). congruence. }
    split_and!; try done; [|by rewrite Hc]. split; simpl; [apply Hi|by rewrite Hc|].
    intros t p Ht. destruct (inv_tasks _ Hi _ _ Ht) as [K1 K2 K3 K4 K5]. by split.
Qed.

(** A lock that is free is granted to a task whose new phase has just it. *)
Lemma inv_grant s t i p p' : inv s -> tasks s !! t = Some p -> is_free i s = true ->
  holds p' = Some i -> uses p' = Some i -> froze p' = false -> past_cgroup p' = false ->
  (named s = true -> i = 0%N) -> inv (goes t p' (grants t i s)).
Proof.
  intros Hi Ht Hfree Hh Hu Hf Hp Hc. apply bool_decide_eq_true in Hfree.
  apply (task_goes s); [apply Hi..|done| |].
  - apply (others_ok s); [done|..|done|by left]. intros t' j Hne Hj. simpl. rewrite lookup_insert_ne; congruence.
  - split; simpl.
    + rewrite Hh. intros j [= <-]. apply lookup_insert_eq.
    + rewrite Hh. eauto.
    + rewrite Hu. intros Hcg j [= <-]. auto.
    + by rewrite Hf.
    + by rewrite Hp.
Qed.

Lemma inv_lock_step s a t p s' : inv s -> tasks s !! t = Some p -> orderly a ->
  step_lock a t p s = Some s' -> inv s'.
Proof.
  intros Hi Ht Ha E. pose proof (inv_tasks _ Hi _ _ Ht) as K.
  destruct a; try done; destruct p; try done; simpl in E.
  - destruct (opens s) as [i s1] eqn:Eo. injection E as <-.
    destruct (opens_frame _ _ _ Hi Eo) as (Hi1 & Ht1 & _ & Hc1 & _ & _ & Hz).
    eapply inv_moves; [done|by rewrite Ht1|]. split; simpl; try done. rewrite Hc1. intros Hc j [= <-]. auto.
  - destruct (is_free i s) eqn:Ef; [|done]. injection E as <-.
    eapply inv_grant; try done; try by destruct d. intros Hc. by apply (ok_file _ _ _ K).
Qed.

Lemma inv_snapshot_step s a t p s' : inv s -> tasks s !! t = Some p ->
  step_snapshot a t p s = Some s' -> inv s'.
Proof.
  intros Hi Ht E. pose proof (inv_tasks _ Hi _ _ Ht) as K. destruct K as [K1 K2 K3 K4 K5].
  destruct a; try done; destruct p; try done; simpl in E; injection E as <-.
  - destruct (row s); [|by apply inv_leaves]. eapply inv_moves; [done..|by split].
  - destruct (ok && named s && cgroup s) eqn:Ec; [|by eapply inv_moves; [done..|split]].
    apply andb_prop in Ec as [Hn Hc]. apply andb_prop in Hn as [_ Hn]. apply (task_goes s); [apply Hi|apply Hi|done| |].
    + apply (others_ok s); try done. right. intros. eapply (alone s t); eauto.
    + split; simpl; try done. by rewrite Hc, Hn.
  - destruct f; [|by apply inv_leaves]. eapply inv_moves; [done..|by split].
  - destruct ok; [|by apply inv_leaves]. apply (inv_ends s); [apply Hi|apply Hi|done|].
    apply (others_ok s); try done. right. intros. eapply (alone s t); eauto.
Qed.

Lemma inv_destroy_step s a t p s' : inv s -> tasks s !! t = Some p ->
  step_destroy a t p s = Some s' -> inv s'.
Proof.
  intros Hi Ht E. pose proof (inv_tasks _ Hi _ _ Ht) as [K1 K2 K3 K4 K5].
  assert (tears p = true -> forall t' p', t' <> t -> tasks s !! t' = Some p' -> froze p' = false) as Halone.
  { intros Hp t' p' Hne Ht'. by apply (alone s t p t' p'); auto. }
  destruct a; try done; destruct p; try done; simpl in E; injection E as <-.
  - apply (task_goes s); [apply Hi|apply Hi|done|apply (others_ok s); auto|by split].
  - specialize (Halone eq_refl). destruct (ok && named s); [|eapply inv_moves; [done..|by split]].
    apply (task_goes s); [apply Hi|apply Hi|done|apply (others_ok s); by auto|by split].
  - specialize (Halone eq_refl).
    apply (task_goes s); [apply Hi|done|done|apply (others_ok s); by auto|by split].
  - apply (inv_ends s); [apply Hi|apply Hi|done|]. apply (others_ok s); auto.
Qed.

Lemma inv_reconcile_step s a t p s' : inv s -> tasks s !! t = Some p ->
  step_reconcile a t p s = Some s' -> inv s'.
Proof.
  intros Hi Ht E. pose proof (inv_tasks _ Hi _ _ Ht) as K. destruct K as [K1 K2 K3 K4 K5].
  destruct a; try done; destruct p; try done; simpl in E.
  - destruct (named s && dir s) eqn:Ec; [|by injection E as <-; apply inv_leaves].
    destruct (opens s) as [i s1] eqn:Eo. injection E as <-.
    destruct (opens_frame _ _ _ Hi Eo) as (Hi1 & Ht1 & _ & Hc1 & _ & _ & Hz).
    destruct (is_free i s1) eqn:Ef; [|by apply inv_leaves].
    eapply inv_grant; try done; [by rewrite Ht1|by rewrite Hc1].
  - destruct (dir s) eqn:Ed.
    + destruct (opens s) as [i s1] eqn:Eo. injection E as <-.
      destruct (opens_frame _ _ _ Hi Eo) as (Hi1 & Ht1 & _ & Hc1 & _ & _ & Hz).
      destruct (is_free i s1) eqn:Ef; [|by apply inv_leaves].
      eapply inv_grant; try done; [by rewrite Ht1|by rewrite Hc1].
    + injection E as <-. apply (inv_ends s); [apply Hi|apply Hi|done|]. apply (others_ok s); auto.
  - injection E as <-. destruct (frozen s); [|by apply inv_leaves]. eapply inv_moves; [done..|by split].
  - injection E as <-. destruct ok; [|by apply inv_leaves]. apply (inv_ends s); [apply Hi|apply Hi|done|].
    apply (others_ok s); try done. right. intros. eapply (alone s t); eauto.
Qed.

Lemma orderly_step s a s' : inv s -> orderly a -> step s a = Some s' -> inv s'.
Proof.
  intros Hi Ha E.
  assert (forall t f, on_task t s f = Some s' -> (forall p, tasks s !! t = Some p -> f p = Some s' -> inv s') ->
    inv s') as Hon.
  { intros t f Ef Hf. unfold on_task in Ef. destruct (tasks s !! t) eqn:Et; [eauto|done]. }
  assert (forall t (b : bool) p, (if b then Some (goes t p s) else None) = Some s' -> holds p = None ->
    uses p = None -> tears p = false -> froze p = false -> past_cgroup p = false -> inv s') as Hnew.
  { intros t [] p Ep H1 H2 H3 H4 H5; [|done]. injection Ep as <-. apply inv_new; [done|].
    split; rewrite ?H1, ?H2, ?H3, ?H4, ?H5; done. }
  destruct a; cbn [step] in E; try done;
    try (by eapply Hnew; [exact E|..]); try (by eapply Hnew; [exact E|..]; destruct (alive s));
    try (eapply Hon; [exact E|intros p Hp Ep];
         first [ by eapply inv_lock_step in Ep | by eapply inv_snapshot_step in Ep
               | by eapply inv_destroy_step in Ep | by eapply inv_reconcile_step in Ep ]).
  - injection E as <-. split; [apply Hi..|]. intros t p Ht.
    destruct (inv_tasks _ Hi _ _ Ht) as [K1 K2 K3 K4 K5]. by split.
  - eapply Hon; [exact E|]. intros p Hp [= <-]. by apply inv_leaves.
  - by rewrite (inv_pool _ Hi) in E.
Qed.

Lemma orderly_run acts : forall s s', inv s -> Forall orderly acts -> run acts s = Some s' -> inv s'.
Proof.
  induction acts as [|a acts IH]; intros s s' Hi Ha E; simpl in E; [by injection E as <-|].
  inversion_clear Ha. destruct (step s a) as [s1|] eqn:E1; [|done]. eapply IH; [|done|exact E].
  by eapply orderly_step.
Qed.

Lemma inv_spawned cg : inv (spawned cg).
Proof. by split. Qed.
