(* ===== verification/OpLockSpec.v ===== *)
(** * What the op lock guarantees, and what it does not

    Theorems on the schedules of OpLock.v.  Undisturbed tasks, which may die
    but are not dropped by a deadline and do not go on without the lock: a
    sandbox stays frozen as long as a snapshot copies it, nobody else is inside
    a critical section then, and nothing but a copy or a failed thaw leaves it
    frozen.  Any schedule: a cgroup.path has its row, and a reconcile of the
    sandbox when it is quiet heals it; as long as no teardown gives its cgroup
    up, a cgroup keeps the row and the directory that name it. *)

From S2P Require Import Prelude OpLock.

(** ** A copy *)

(** C6: In any schedule, from a spawned sandbox on, in which no call is dropped
    by a deadline and no teardown goes on without the lock ([orderly]), whoever
    dies in between: while a snapshot that froze the sandbox copies its
    layer or thaws it, the sandbox is frozen, the snapshot has the op lock, and
    no other snapshot, teardown or reconcile has it or is past it. *)
Theorem copy_stays_frozen cg acts s t p :
  Forall orderly acts -> run acts (spawned cg) = Some s ->
  tasks s !! t = Some p -> froze p = true ->
  frozen s = true /\ cgroup s = true /\ lockfile s = Some 0%N /\ owner s !! 0%N = Some t /\
  forall t' p', t' <> t -> tasks s !! t' = Some p' -> holds p' = None /\ tears p' = false.
Proof.
  intros Ha E Ht Hf. assert (inv s) as Hi by (eapply orderly_run; [|done|exact E]; apply inv_spawned).
  pose proof (inv_tasks _ Hi _ _ Ht) as K. destruct (ok_froze _ _ _ K Hf) as (Hc & Hn & Hz).
  split_and!; [done..|by apply (inv_lockfile _ Hi)| |].
  - assert (exists i, holds p = Some i) as [i Hh] by (destruct p; try done; eauto).
    rewrite <- (ok_file _ _ _ K Hn i); [by apply (ok_owner _ _ _ K)|by destruct p].
  - intros t' p' Hne Ht'. pose proof (inv_tasks _ Hi _ _ Ht') as K'.
    assert (holds p' = None) as Hno.
    { destruct (holds p') eqn:Hh; [exfalso|done].
      assert (froze p = false) by (eapply (alone s t' p' t); eauto). congruence. }
    split; [done|]. destruct (tears p') eqn:Hp; [|done].
    destruct (ok_tears _ _ _ K' Hp) as [? ?]. congruence.
Qed.

(** ** Afterwards *)

(** Nobody dies, and no thaw of a snapshot fails. *)
Definition calm (a : action) : Prop :=
  match a with Crash _ | ThawDone _ false => False | _ => orderly a end.

Definition copied (s : sandbox) : Prop := exists t p, tasks s !! t = Some p /\ froze p = true.

Lemma calm_orderly a : calm a -> orderly a.
Proof. by destruct a as [| | | | | | | | | |? []| | | | | | | | | |]. Qed.

Lemma copied_goes s s1 t p p' : copied s -> tasks s1 = tasks s -> tasks s !! t = Some p ->
  (froze p = true -> froze p' = true) -> copied (goes t p' s1).
Proof.
  intros (u & q & Hu & Hq) Ht Hp Hf. unfold copied. simpl. rewrite Ht.
  destruct (decide (u = t)) as [->|Hne].
  - exists t, p'. rewrite lookup_insert_eq. split; [done|]. apply Hf. congruence.
  - exists u, q. by rewrite lookup_insert_ne.
Qed.

Lemma copied_new s t p : copied s -> tasks s !! t = None -> copied (goes t p s).
Proof.
  intros (u & q & Hu & Hq) Hn. exists u, q. simpl. rewrite lookup_insert_ne; [done|congruence].
Qed.

Lemma copied_ends s s1 t p : copied s -> tasks s1 = tasks s -> tasks s !! t = Some p ->
  froze p = false -> copied (ends t s1).
Proof.
  intros (u & q & Hu & Hq) Ht Hp Hf. exists u, q. simpl. rewrite Ht.
  rewrite lookup_delete_ne; [done|congruence].
Qed.

(** A step of task [t] that freezes nothing: the task goes on with what it had
    frozen, or ends without. *)
Lemma copied_step s s1 s' t p : tasks s !! t = Some p ->
  (exists p', s' = goes t p' s1 /\ (froze p = true -> froze p' = true)) \/ s' = ends t s1 /\ froze p = false ->
  (frozen s = true -> copied s) -> tasks s1 = tasks s -> (frozen s1 = true -> frozen s = true) ->
  frozen s' = true -> copied s'.
Proof.
  intros Ht [(p' & -> & Hp)|[-> Hp]] Hc E1 Hf Hz; simpl in Hz.
  - by apply (copied_goes s s1 t p); auto.
  - by apply (copied_ends s s1 t p); auto.
Qed.

Ltac by_copied :=
  eapply copied_step;
    [eassumption|first [left; eexists; split; [reflexivity|done] | right; split; [reflexivity|done]]|try done..].

Lemma opens_same s i s1 : opens s = (i, s1) ->
  tasks s1 = tasks s /\ frozen s1 = frozen s /\ cgroup s1 = cgroup s /\ named s1 = named s /\ owner s1 = owner s /\
  row s1 = row s /\ alive s1 = alive s /\ pool s1 = pool s.
Proof. unfold opens. by destruct (lockfile s); intros [= <- <-]. Qed.

Lemma freezer_thaws s : frozen (freezer false s) = true -> frozen s = true.
Proof. simpl. by destruct (cgroup s). Qed.

Section calm_steps.
Context (s s' : sandbox) (t : N) (p : phase) (a : action).
Hypothesis Hi : inv s.
Hypothesis Hc : frozen s = true -> copied s.
Hypothesis Ht : tasks s !! t = Some p.
Hypothesis Ha : calm a.

Lemma calm_lock : step_lock a t p s = Some s' -> frozen s' = true -> copied s'.
Proof.
  intros E. destruct a; try done; destruct p; try done; simpl in E.
  - destruct (opens s) as [i s1] eqn:Eo. injection E as <-.
    destruct (opens_same _ _ _ Eo) as (? & Hfr & _). by_copied. by rewrite Hfr.
  - destruct (is_free _ s); [|done]. injection E as <-. destruct d; by_copied.
Qed.

Lemma calm_snapshot : step_snapshot a t p s = Some s' -> frozen s' = true -> copied s'.
Proof.
  intros E. pose proof (ok_froze _ _ _ (inv_tasks _ Hi _ _ Ht)) as K.
  destruct a; try done; destruct p; try done; simpl in E; injection E as <-.
  - destruct (row s); by_copied.
  - destruct (ok && named s && cgroup s) eqn:Ec; [|by_copied].
    intros _. exists t, (Copying i true). simpl. by rewrite lookup_insert_eq.
  - destruct f; by_copied.
  - destruct ok; [|done]. simpl. by destruct (K eq_refl) as [-> _].
Qed.

Lemma calm_destroy : step_destroy a t p s = Some s' -> frozen s' = true -> copied s'.
Proof.
  intros E. destruct a; try done; destruct p; try done; simpl in E; injection E as <-; try solve [by_copied].
  destruct (ok && named s); [done|by_copied].
Qed.

Lemma calm_reconcile : step_reconcile a t p s = Some s' -> frozen s' = true -> copied s'.
Proof.
  intros E. destruct a; try done; destruct p; try done; simpl in E.
  - destruct (named s && dir s); [|injection E as <-; by_copied].
    destruct (opens s) as [i s1] eqn:Eo. injection E as <-. destruct (opens_same _ _ _ Eo) as (? & Hfr & _).
    destruct (is_free i s1); by_copied; simpl; by rewrite Hfr.
  - destruct (dir s); [|injection E as <-; by_copied].
    destruct (opens s) as [i s1] eqn:Eo. injection E as <-. destruct (opens_same _ _ _ Eo) as (? & Hfr & _).
    destruct (is_free i s1); by_copied; simpl; by rewrite Hfr.
  - injection E as <-. destruct (frozen s) eqn:Hfr; by_copied; by rewrite Hfr.
  - injection E as <-. destruct ok; by_copied; apply freezer_thaws.
Qed.
End calm_steps.

Lemma calm_step s a s' : inv s -> (frozen s = true -> copied s) -> calm a -> step s a = Some s' ->
  frozen s' = true -> copied s'.
Proof.
  intros Hi Hc Ha E.
  assert (forall t f, on_task t s f = Some s' ->
    (forall p, tasks s !! t = Some p -> f p = Some s' -> frozen s' = true -> copied s') ->
    frozen s' = true -> copied s') as Hon.
  { intros t f Ef Hf. unfold on_task in Ef. destruct (tasks s !! t) eqn:Et; [eauto|done]. }
  assert (forall t p, (if is_new t s && row s then Some (goes t p s) else None) = Some s' ->
    frozen s' = true -> copied s') as Hnew.
  { intros t p Ep. unfold is_new in Ep. destruct (bool_decide_reflect (tasks s !! t = None)); [|done].
    simpl in Ep. destruct (row s); [|done]. injection Ep as <-. intros Hz. apply copied_new; auto. }
  destruct a; cbn [step] in E; try done; try (by eapply Hnew);
    try (eapply Hon; [exact E|intros p Hp Ep Hz];
         first [ by eapply calm_lock | by eapply calm_snapshot | by eapply calm_destroy | by eapply calm_reconcile ]).
  - by injection E as <-.
  - by rewrite (inv_pool _ Hi) in E.
Qed.

(** When nobody dies, nobody is dropped and no thaw fails, the sandbox is
    frozen exactly while a snapshot copies its layer or thaws it. *)
Theorem frozen_while_copying cg acts s : Forall calm acts -> run acts (spawned cg) = Some s ->
  frozen s = true <-> exists t p, tasks s !! t = Some p /\ froze p = true.
Proof.
  intros Ha E. split.
  - revert E. assert (inv (spawned cg) /\ (frozen (spawned cg) = true -> copied (spawned cg))) as [Hi Hc]
      by (split; [apply inv_spawned|done]).
    revert Hi Hc. generalize (spawned cg). induction Ha as [|a acts Ha Has IH]; simpl; intros s0 Hi Hc E.
    { by injection E as <-. }
    destruct (step s0 a) as [s1|] eqn:E1; [|done]. apply (IH s1); [| |done].
    + eapply orderly_step; [done|by apply calm_orderly|done].
    + by eapply calm_step.
  - intros (t & p & Ht & Hf).
    assert (inv s) as Hi.
    { eapply orderly_run; [apply inv_spawned| |exact E]. eapply Forall_impl; [done|]. by intros; apply calm_orderly. }
    by apply (ok_froze _ _ _ (inv_tasks _ Hi _ _ Ht) Hf).
Qed.

(** ** Any schedule *)

(** Every teardown that ran removed its cgroup. *)
Definition tears_down (a : action) : Prop := match a with TearCgroup _ false => False | _ => True end.

(** A cgroup that nothing names any more. *)
Definition lost (s : sandbox) : bool := cgroup s && negb (named s).

(** A teardown past its kill. *)
Definition killed (p : phase) : bool := match p with Killed _ | Down _ | Removed _ => true | _ => false end.

(** [b]: the teardowns removed their cgroups. *)
Record sane (b : Prop) (s : sandbox) : Prop := {
  s_owner : forall i t, owner s !! i = Some t -> is_Some (tasks s !! t);
  s_named : named s = true -> row s = true /\ dir s = true /\ lockfile s = Some 0%N;
  s_frozen : frozen s = true -> cgroup s = true;
  s_removed : forall t i, tasks s !! t = Some (Removed i) -> named s = false;
  s_killed : forall t p, tasks s !! t = Some p -> killed p = true -> alive s = false;
  s_alive : alive s = true -> cgroup s = true -> named s = true;
  s_down : b -> forall t i, tasks s !! t = Some (Down i) -> cgroup s = false;
  s_lost : b -> cgroup s = true -> named s = true;
}.

(** What a task's new phase needs. *)
Record fits (b : Prop) (p : phase) (s : sandbox) : Prop := {
  f_removed : forall i, p = Removed i -> named s = false;
  f_killed : killed p = true -> alive s = false;
  f_down : b -> forall i, p = Down i -> cgroup s = false;
}.

Lemma fits_early b p s : killed p = false -> fits b p s.
Proof. intros Hp. split; [by intros i ->|by rewrite Hp|by intros _ i ->]. Qed.

Section sane.
Context (b : Prop).
Implicit Types s : sandbox.

Lemma sane_goes s t p : sane b s -> fits b p s -> sane b (goes t p s).
Proof.
  intros [H1 H2 H3 H4 H5 H6 H7 H8] [F1 F2 F3]. split; simpl; try done.
  - intros i u Hu. destruct (decide (u = t)) as [->|]; [by rewrite lookup_insert_eq|].
    rewrite lookup_insert_ne by done. eauto.
  - intros u i [[_ ->]|[_ Hu]]%lookup_insert_Some; eauto.
  - intros u q [[_ <-]|[_ Hu]]%lookup_insert_Some; [done|eauto].
  - intros Hb u i [[_ ->]|[_ Hu]]%lookup_insert_Some; eauto.
Qed.

Lemma sane_ends s t : sane b s -> sane b (ends t s).
Proof.
  intros [H1 H2 H3 H4 H5 H6 H7 H8]. split; simpl; try done.
  - intros i u Hu. apply map_lookup_filter_Some in Hu as [Hu Hne].
    rewrite lookup_delete_ne by done. eauto.
  - intros u i Hu. apply lookup_delete_Some in Hu as [_ Hu]. eauto.
  - intros u q Hu. apply lookup_delete_Some in Hu as [_ Hu]. eauto.
  - intros Hb u i Hu. apply lookup_delete_Some in Hu as [_ Hu]. eauto.
Qed.

Lemma sane_grants s t i : sane b s -> is_Some (tasks s !! t) -> sane b (grants t i s).
Proof.
  intros [H1 H2 H3 H4 H5 H6 H7 H8] Ht. split; simpl; try done.
  intros j u Hu. apply lookup_insert_Some in Hu as [[_ ->]|[_ Hu]]; [done|eauto].
Qed.

Lemma sane_freezer s v : sane b s -> sane b (freezer v s).
Proof. intros [H1 H2 H3 H4 H5 H6 H7 H8]. split; simpl; try done. by destruct (cgroup s). Qed.

Lemma sane_no_cgroup s : sane b s -> sane b (no_cgroup s).
Proof. intros [H1 H2 H3 H4 H5 H6 H7 H8]. by split. Qed.

Lemma sane_no_guest s : sane b s -> sane b (no_guest s).
Proof. intros [H1 H2 H3 H4 H5 H6 H7 H8]. by split. Qed.

Lemma sane_with_pool s l : sane b s -> sane b (with_pool l s).
Proof. intros [H1 H2 H3 H4 H5 H6 H7 H8]. by split. Qed.

Lemma sane_no_dir s t i : sane b s -> tasks s !! t = Some (Down i) -> sane b (no_dir s).
Proof.
  intros [H1 H2 H3 H4 H5 H6 H7 H8] Ht. split; simpl; try done.
  - intros Ha. by rewrite (H5 _ _ Ht eq_refl) in Ha.
  - intros Hb. by rewrite (H7 Hb t i).
Qed.

Lemma sane_no_row s : sane b s -> named s = false -> sane b (no_row s).
Proof. intros [H1 H2 H3 H4 H5 H6 H7 H8] Hn. split; simpl; try done. by rewrite Hn. Qed.

Lemma sane_opens s i s1 : sane b s -> opens s = (i, s1) -> sane b s1.
Proof.
  intros [H1 H2 H3 H4 H5 H6 H7 H8] E. unfold opens in E. destruct (lockfile s) eqn:El; injection E as <- <-.
  - split; auto. by rewrite El.
  - split; simpl; auto. intros Hc. by destruct (H2 Hc) as (_ & _ & ?).
Qed.

Lemma sane_on s t p : sane b s -> killed p = false -> sane b (goes t p s).
Proof. intros ? Hp. by apply sane_goes, fits_early. Qed.

Lemma sane_try (c : bool) s t i p : sane b s -> is_Some (tasks s !! t) -> killed p = false ->
  sane b (if c then goes t p (grants t i s) else ends t s).
Proof.
  intros H Ht Hp. destruct c; [|by apply sane_ends]. by apply sane_on; [apply sane_grants|].
Qed.
End sane.
Create HintDb oplock.
#[export] Hint Resolve sane_ends sane_grants sane_freezer sane_no_cgroup sane_no_guest sane_with_pool : oplock.

Section sane_steps.
Context (b : Prop) (s s' : sandbox) (t : N) (p : phase) (a : action).
Hypothesis Hs : sane b s.
Hypothesis Ht : tasks s !! t = Some p.

Lemma sane_lock : step_lock a t p s = Some s' -> sane b s'.
Proof.
  intros E. destruct a; try done; destruct p; try done; simpl in E.
  - destruct (opens s) as [i s1] eqn:Eo. injection E as <-. destruct (opens_same _ _ _ Eo) as (E & _).
    apply sane_on; [by eapply sane_opens|done..].
  - destruct (is_free i s); [|done]. injection E as <-.
    apply sane_on; [apply sane_grants; [done|by rewrite Ht]|by destruct d].
  - injection E as <-. destruct d; [|by apply sane_ends]. by apply sane_on.
  - injection E as <-. destruct d; [|by apply sane_ends]. by apply sane_on.
Qed.

Lemma sane_snapshot : step_snapshot a t p s = Some s' -> sane b s'.
Proof.
  intros E. destruct a; try done; destruct p; try done; simpl in E; injection E as <-.
  - destruct (row s); [|by apply sane_ends]. by apply sane_on.
  - apply sane_on; [|done..].
    destruct (ok && named s && cgroup s); auto with oplock.
  - destruct f; [|by apply sane_ends]. by apply sane_on.
  - apply sane_ends. destruct ok; auto with oplock.
Qed.

Lemma sane_destroy : (b -> tears_down a) -> step_destroy a t p s = Some s' -> sane b s'.
Proof.
  intros Hb E. destruct a; try done; destruct p; try done; simpl in E; injection E as <-.
  - apply sane_goes; [auto with oplock|by split].
  - pose proof (s_killed _ _ Hs _ _ Ht eq_refl) as Hk. apply sane_goes; [destruct (ok && named s); auto with oplock|].
    split; [done|by destruct (ok && named s)|]. intros b' j _. destruct ok; [|by destruct (Hb b')]. simpl.
    destruct (named s) eqn:Hn; [done|]. destruct (cgroup s) eqn:Hc; [|done].
    by rewrite (s_lost _ _ Hs b' Hc) in Hn.
  - apply sane_goes; [by eapply sane_no_dir|]. by split; try done; intros _; apply (s_killed _ _ Hs _ _ Ht).
  - apply sane_ends, sane_no_row; [done|]. by eapply s_removed.
Qed.

Lemma sane_reconcile : step_reconcile a t p s = Some s' -> sane b s'.
Proof.
  intros E. destruct a; try done; destruct p; try done; simpl in E.
  - destruct (named s && dir s); [|by injection E as <-; apply sane_ends].
    destruct (opens s) as [i s1] eqn:Eo. injection E as <-. destruct (opens_same _ _ _ Eo) as (E & _).
    apply sane_try; [by eapply sane_opens|by rewrite E, Ht|done..].
  - destruct (dir s) eqn:Hd.
    + destruct (opens s) as [i s1] eqn:Eo. injection E as <-. destruct (opens_same _ _ _ Eo) as (E & _).
      apply sane_try; [by eapply sane_opens|by rewrite E, Ht|done..].
    + injection E as <-. apply sane_ends, sane_no_row; [done|]. destruct (named s) eqn:Hc; [|done].
      destruct (s_named _ _ Hs Hc) as (_ & ? & _). congruence.
  - injection E as <-. destruct (frozen s); [|by apply sane_ends]. by apply sane_on.
  - injection E as <-. apply sane_ends. destruct ok; auto with oplock.
Qed.
End sane_steps.

Lemma sane_step b s a s' : sane b s -> (b -> tears_down a) -> step s a = Some s' -> sane b s'.
Proof.
  intros Hs Hb E.
  assert (forall t f, on_task t s f = Some s' -> (forall p, tasks s !! t = Some p -> f p = Some s' -> sane b s') ->
    sane b s') as Hon.
  { intros t f Ef Hf. unfold on_task in Ef. destruct (tasks s !! t) eqn:Et; [eauto|done]. }
  assert (forall t (c : bool) p, (if c then Some (goes t p s) else None) = Some s' ->
    killed p = false -> sane b s') as Hnew.
  { intros t [] p Ep Hp; [|done]. injection Ep as <-. by apply sane_on. }
  destruct a; cbn [step] in E; try (by eapply Hnew); try (by eapply Hnew; [exact E|..]; destruct (alive s));
    try (eapply Hon; [exact E|intros p Hp Ep];
         first [ exact (sane_lock _ _ _ _ _ _ Hs Hp Ep) | exact (sane_snapshot _ _ _ _ _ _ Hs Hp Ep)
               | exact (sane_destroy _ _ _ _ _ _ Hs Hp Hb Ep) | exact (sane_reconcile _ _ _ _ _ _ Hs Hp Ep) ]).
  - injection E as <-. auto with oplock.
  - eapply Hon; [exact E|]. intros p Hp [= <-]. auto with oplock.
  - eapply Hon; [exact E|]. intros p Hp Ep.
    destruct p; try done; injection Ep as <-; try destruct (named s); auto with oplock.
  - destruct (pool s) as [|[] l]; [done|..]; injection E as <-; destruct ok; auto with oplock.
Qed.

Lemma sane_run b acts : forall s s', sane b s -> (b -> Forall tears_down acts) -> run acts s = Some s' -> sane b s'.
Proof.
  induction acts as [|a acts IH]; intros s s' Hs Hb E; simpl in E; [by injection E as <-|].
  destruct (step s a) as [s1|] eqn:E1; [|done]. eapply IH; [|..|exact E].
  - eapply sane_step; [done| |done]. intros b'. by destruct (Forall_cons_1 _ _ _ (Hb b')).
  - intros b'. by destruct (Forall_cons_1 _ _ _ (Hb b')).
Qed.

Lemma sane_spawned b cg : sane b (spawned cg).
Proof. by split. Qed.

(** C20: In any schedule - tasks may die, be dropped, or tear down without the
    lock - in which every teardown that gets as far as its cgroup removes it: a
    cgroup that is there has the row that leads to it and the directory whose
    cgroup.path names it.  In any schedule at all a cgroup.path has its row, a
    living guest its cgroup's name, and nothing is frozen without a cgroup. *)
Theorem cgroup_stays_named cg acts s : run acts (spawned cg) = Some s ->
  (Forall tears_down acts -> cgroup s = true -> row s = true /\ dir s = true /\ named s = true) /\
  (named s = true -> row s = true /\ dir s = true) /\
  (alive s = true -> cgroup s = true -> named s = true) /\ (frozen s = true -> cgroup s = true).
Proof.
  intros E. assert (sane (Forall tears_down acts) s) as Hs 
    by exact (sane_run _ _ _ _ (sane_spawned _ cg) (fun H => H) E).
  destruct Hs as [H1 H2 H3 H4 H5 H6 H7 H8]. split_and!; [|naive_solver|done|done].
  intros Ha Hc. pose proof (H8 Ha Hc) as Hn. by destruct (H2 Hn) as (? & ? & _).
Qed.

(** ** Reconcile *)

(** The steps of a reconcile that nobody disturbs. *)
Definition reconciles (t : N) (s : sandbox) : list action :=
  if alive s then
    [Reconcile t; TryLock t] ++ (if named s && dir s then [Look t] ++ (if frozen s then [Unfreeze t true] else [])
                                 else [])
  else [Reconcile t; TryLock t] ++ (if dir s then [Kill t; TearCgroup t true; RemoveDir t; RemoveRow t] else []).

Lemma nobody_holds b s : sane b s -> tasks s = ∅ -> owner s = ∅.
Proof.
  intros Hs Ht. apply map_empty. intros i. destruct (owner s !! i) eqn:Ho; [|done].
  destruct (s_owner _ _ Hs _ _ Ho) as [p Hp]. by rewrite Ht, lookup_empty in Hp.
Qed.

(** The task runs alone: the steps compute. *)
Lemma lone_task (t : N) (p : phase) : delete t (<[t := p]> (∅ : gmap N phase)) = ∅.
Proof. by rewrite delete_insert_eq, delete_empty. Qed.

Lemma lone_owner (t i : N) : filter (fun '(_, o) => o <> t) (<[i := t]> (∅ : gmap N N)) = ∅.
Proof.
  apply map_empty. intros j. apply map_lookup_filter_None. right. intros o Ho.
  apply lookup_insert_Some in Ho as [[_ <-]|[_ Ho]]; [naive_solver|by rewrite lookup_empty in Ho].
Qed.

Lemma no_owner (t : N) : filter (fun '(_, o) => o <> t) (∅ : gmap N N) = ∅.
Proof. apply map_filter_empty. Qed.

Ltac run_alone :=
  repeat (progress (unfold is_new, on_task, is_free; simpl;
    rewrite ?lookup_empty, ?lookup_insert_eq, ?insert_insert_eq, ?lone_task, ?lone_owner, ?no_owner)).

(** C19: From whatever the schedule before it left - deaths in the middle of a
    snapshot or a teardown, dropped calls - once no task is left and the pool
    is empty, a reconcile that runs through thaws the sandbox and keeps it when
    its guest lives, and when the guest is dead leaves neither row, directory,
    lock nor the cgroup that the directory named; one that a teardown had lost
    before, and only that, is still there. *)
Theorem reconcile_heals cg acts s t : run acts (spawned cg) = Some s ->
  tasks s = ∅ -> row s = true ->
  exists s', run (reconciles t s) s = Some s' /\ owner s' = ∅ /\ tasks s' = ∅ /\ pool s' = pool s /\
    (if alive s then frozen s' = false /\ alive s' = true /\ row s' = true /\ dir s' = dir s /\
       cgroup s' = cgroup s /\ named s' = named s
     else row s' = false /\ dir s' = false /\ cgroup s' = lost s /\ frozen s' = lost s && frozen s).
Proof.
  intros E Ht Hr. assert (sane False s) as Hs 
    by exact (sane_run _ acts _ _ (sane_spawned False cg) (False_ind _) E).
  pose proof (nobody_holds _ _ Hs Ht) as Ho. destruct Hs as [H1 H2 H3 H4 H5 H6 H7 H8]. unfold lost.
  destruct s as [r d lf nf ow al cgr nm fr tk pl]; simpl in *; subst tk ow r.
  unfold reconciles; simpl. destruct al; simpl.
  - destruct nm; simpl.
    + destruct (H2 eq_refl) as (_ & -> & ->).
      destruct fr; [rewrite (H3 eq_refl)|]; run_alone; eexists; split_and!; try reflexivity; run_alone; done.
    + destruct fr; [by specialize (H6 eq_refl (H3 eq_refl))|].
      run_alone. eexists; split_and!; try reflexivity; run_alone; done.
  - destruct d; simpl.
    + destruct nm; simpl.
      * destruct (H2 eq_refl) as (_ & _ & ->). run_alone.
        eexists; split_and!; try reflexivity; run_alone; by rewrite ?andb_false_r.
      * destruct lf; run_alone; eexists; split_and!; try reflexivity; run_alone; rewrite ?andb_true_r; try done;
          destruct fr; by rewrite ?andb_false_r, ?(H3 eq_refl).
    + destruct nm; [by destruct (H2 eq_refl) as (_ & ? & _)|].
      run_alone. eexists; split_and!; try reflexivity; run_alone; rewrite ?andb_true_r; try done;
          destruct fr; by rewrite ?andb_false_r, ?(H3 eq_refl).
Qed.

(** ** What the lock does not cover *)

Definition after (acts : list action) : sandbox := default (spawned true) (run acts (spawned true)).

(** A snapshot up to its copy. *)
Definition copying (t : N) : list action := [Snapshot t; Open t; Lock t; Recheck t; FreezeDone t true].

(** A snapshot that a deadline drops while it copies gives up the lock and
    leaves the sandbox frozen, with nobody left to thaw it: a later snapshot
    may run to its end meanwhile, and only the next reconcile helps.  One that
    is dropped while its thaw is on the pool lets the thaw hit the copy of the
    next snapshot. *)
Theorem deadline_leaves_frozen :
  (let s := after (copying 1 ++ [Cancel 1]) in
   frozen s = true /\ owner s = ∅ /\ tasks s = ∅ /\ pool s = [] /\ alive s = true) /\
  (let s := after (copying 1 ++ [Copied 1; Cancel 1] ++ copying 2 ++ [Late true]) in
   tasks s !! 2%N = Some (Copying 0 true) /\ frozen s = false).
Proof. vm_compute. split_and!; reflexivity. Qed.

(** The lock goes with the directory.  While a teardown holds op.lock and has
    just removed it, a snapshot makes the directory and a new op.lock and has
    that one: both are between acquiring and releasing the lock of the sandbox
    at once.  The snapshot then finds no row and ends, but the directory it made
    stays when everybody is gone. *)
Theorem lock_lost_with_directory :
  (let s := after [Destroy 1; Snapshot 2; Open 1; Lock 1; Kill 1; TearCgroup 1 true; RemoveDir 1; Open 2; Lock 2] in
   tasks s !! 1%N = Some (Removed (Some 0%N)) /\ tasks s !! 2%N = Some (Held 1) /\
   owner s !! 0%N = Some 1%N /\ owner s !! 1%N = Some 2%N) /\
  (let s := after [Destroy 1; Snapshot 2; Open 1; Lock 1; Kill 1; TearCgroup 1 true; RemoveDir 1; Open 2; Lock 2;
                   RemoveRow 1; Recheck 2] in
   tasks s = ∅ /\ row s = false /\ dir s = true).
Proof. vm_compute. split_and!; reflexivity. Qed.

(** A teardown whose cgroup could not be removed in time removes the directory
    and the row all the same. *)
Theorem teardown_forgets_cgroup :
  let s := after [Destroy 1; Open 1; Lock 1; Kill 1; TearCgroup 1 false; RemoveDir 1; RemoveRow 1] in
  tasks s = ∅ /\ row s = false /\ dir s = false /\ lost s = true.
Proof. vm_compute. split_and!; reflexivity. Qed.

(** ** Witnesses *)
Module Witness.

(** Two snapshots and a destroy, with a death before. *)
Definition busy_acts : list action :=
  copying 3 ++ [Crash 3] ++ copying 1 ++ [Snapshot 2; Open 2; Destroy 4; Open 4; Reconcile 5; TryLock 5].

Lemma copy_stays_frozen_witness : frozen (after busy_acts) = true /\ owner (after busy_acts) !! 0%N = Some 1%N.
Proof.
  destruct (copy_stays_frozen true busy_acts (after busy_acts) 1 (Copying 0 true)) as (H1 & _ & _ & H2 & _).
  - repeat constructor.
  - vm_compute. reflexivity.
  - vm_compute. reflexivity.
  - reflexivity.
  - split; [exact H1|exact H2].
Defined.

Lemma frozen_while_copying_witness : frozen (after (copying 1 ++ [Copied 1])) = true.
Proof.
  apply (frozen_while_copying true (copying 1 ++ [Copied 1])).
  - repeat constructor.
  - vm_compute. reflexivity.
  - exists 1%N, (Thawing 0). split; vm_compute; reflexivity.
Defined.

Definition dropped_acts : list action := copying 1 ++ [Cancel 1; Destroy 2; NoLock 2; Kill 2].

Lemma cgroup_stays_named_witness : cgroup (after dropped_acts) = true /\ dir (after dropped_acts) = true.
Proof.
  assert (cgroup (after dropped_acts) = true) as Hc by (vm_compute; reflexivity). split; [exact Hc|].
  destruct (cgroup_stays_named true dropped_acts (after dropped_acts)) as (H & _).
  - vm_compute. reflexivity.
  - destruct (H ltac:(repeat constructor) Hc) as (_ & Hd & _). exact Hd.
Defined.

Lemma reconcile_heals_witness :
  exists s', run (reconciles 7 (after (copying 1 ++ [Cancel 1]))) (after (copying 1 ++ [Cancel 1])) = Some s' /\
    frozen s' = false.
Proof.
  destruct (reconcile_heals true (copying 1 ++ [Cancel 1]) (after (copying 1 ++ [Cancel 1])) 7) as (s' & E & _ & _ & _ & H & _).
  - vm_compute. reflexivity.
  - vm_compute. reflexivity.
  - vm_compute. reflexivity.
  - exists s'. split; [exact E|exact H].
Defined.
End Witness.
