(* ===== verification/Mountinfo.v ===== *)
(** * /proc/self/mountinfo and the mount flags

    draug-ns/src/linux/setup.rs: [mounts_under], [parse_mount_opts] and
    [unescape_mountinfo], with the component view of paths that
    [Path::starts_with] and path equality take. *)

From S2P Require Import Prelude Text Types.

(** ** Paths by components

    [Path::components]: repeated slashes and [.] inside a path vanish, [..]
    stays; an absolute path starts with the root. *)

Definition is_absolute (p : path) : bool := starts_with "/" p.

Definition names (p : path) : list string :=
  filter (fun s => s <> EmptyString /\ s <> "."%string) (str_split 47 p).

(** A relative path keeps a leading [.]. *)
Definition components (p : path) : list string :=
  if is_absolute p then "/"%string :: names p
  else match str_split 47 p with "." :: _ => "."%string :: names p | _ => names p end.

(** [PathBuf] equality and [Path::starts_with]. *)
Definition path_eq (p q : path) : bool := bool_decide (components p = components q).
Definition path_starts_with (p q : path) : bool :=
  bool_decide (components q `prefix_of` components p).

(** ** Flags *)

Module Ms.

Definition RDONLY : Z := 1.
Definition NOSUID : Z := 2.
Definition NODEV : Z := 4.
Definition NOEXEC : Z := 8.
Definition REMOUNT : Z := 32.
Definition NOATIME : Z := 1024.
Definition NODIRATIME : Z := 2048.
Definition BIND : Z := 4096.
Definition REC : Z := 16384.
Definition SLAVE : Z := 2 ^ 19.
Definition RELATIME : Z := 2 ^ 21.

End Ms.

Infix ".|" := Z.lor (at level 50, left associativity) : draug_scope.

Definition opt_flag (o : string) : Z :=
  if decide (o = "nosuid") then Ms.NOSUID
  else if decide (o = "nodev") then Ms.NODEV
  else if decide (o = "noexec") then Ms.NOEXEC
  else if decide (o = "noatime") then Ms.NOATIME
  else if decide (o = "nodiratime") then Ms.NODIRATIME
  else if decide (o = "relatime") then Ms.RELATIME
  else 0.

Definition parse_mount_opts (opts : string) : Z :=
  fold_left (fun flags o => flags .| opt_flag o) (str_split 44 opts) 0.

(** ** Octal escapes *)

(** [str::chars] of valid UTF-8, a character being its bytes. *)
Fixpoint chars_fuel (fuel : nat) (l : list byte) : list (list byte) :=
  match fuel, l with
  | O, _ | _, [] => []
  | S fuel', _ =>
      let n := (utf8_next l).1 in take n l :: chars_fuel fuel' (drop n l)
  end.

Definition chars (l : list byte) : list (list byte) := chars_fuel (length l) l.

Definition octal_digit (b : byte) : option N :=
  if in_range 48 55 b then Some (byte_val b - 48)%N else None.

Fixpoint octal_val (acc : N) (l : list byte) : option N :=
  match l with
  | [] => Some acc
  | b :: l' =>
      match octal_digit b with
      | None => None
      | Some d => let acc' := (acc * 8 + d)%N in
                  if decide (acc' <= 255)%N then octal_val acc' l' else None
      end
  end.

(** [u8::from_str_radix(s, 8)]: an optional plus sign, then digits. *)
Definition u8_from_octal (l : list byte) : option N :=
  match l with
  | [] => None
  | b :: l' =>
      if is_byte 43 b then match l' with [] => None | _ => octal_val 0 l' end
      else octal_val 0 l
  end.

(** [v as char], pushed on a [String]. *)
Definition push_u8_char (v : N) : list byte :=
  if decide (v < 128)%N then [byte_of v]
  else [byte_of (192 + v / 64); byte_of (128 + v mod 64)].

Definition is_backslash (c : list byte) : bool := bool_decide (c = [Byte.x5c]).

(** What follows a backslash: up to three characters are taken; they become
    one character, or are kept as they are without the backslash. *)
Definition unescape_digits (digits : list (list byte)) : list byte :=
  match u8_from_octal (concat digits) with
  | Some v => push_u8_char v
  | None => concat digits
  end.

Fixpoint unescape_chars (cs : list (list byte)) : list byte :=
  match cs with
  | [] => []
  | c :: cs' =>
      if is_backslash c then
        match cs' with
        | d1 :: d2 :: d3 :: rest => unescape_digits [d1; d2; d3] ++ unescape_chars rest
        | digits => unescape_digits digits
        end
      else c ++ unescape_chars cs'
  end.

Definition unescape_mountinfo (s : string) : string :=
  string_of_bytes (unescape_chars (chars (bytes_of_string s))).

(** ** The table *)

Record mount_entry := mkEntry { me_point : path; me_flags : Z; me_ro : bool }.

(** One line: the fifth field is the mount point, the sixth the options. *)
Definition parse_mount_line (line : string) : option mount_entry :=
  let fields := str_split 32 line in
  match fields !! 4%nat, fields !! 5%nat with
  | Some mp, Some opts =>
      Some (mkEntry (unescape_mountinfo mp) (parse_mount_opts opts)
              (bool_decide ("ro"%string ∈ str_split 44 opts)))
  | _, _ => None
  end.

Definition depth (e : mount_entry) : nat := length (components (me_point e)).
Definition depth_le (a b : mount_entry) : Prop := (depth a <= depth b)%nat.

#[global] Instance depth_le_dec : RelDecision depth_le.
Proof. intros a b. unfold depth_le. apply _. Defined.
#[global] Instance depth_le_total : Total depth_le.
Proof. intros a b. unfold depth_le. lia. Qed.
#[global] Instance depth_le_trans : Transitive depth_le.
Proof. intros a b c. unfold depth_le. lia. Qed.

Definition is_under (top : path) (e : mount_entry) : bool :=
  path_eq (me_point e) top || path_starts_with (me_point e) top.

(** [mounts_under], given the text of mountinfo. *)
Definition entries_under (top : path) (info : string) : list mount_entry :=
  merge_sort depth_le
    (filter (fun e => is_under top e = true) (omap parse_mount_line (str_lines info))).

(** ** The kernel's escaping, undone

    The kernel prints a path with some ASCII bytes - space, tab, newline,
    backslash, in newer kernels the number sign - as a backslash and three
    octal digits. *)

Definition octal_escape (b : byte) : list byte :=
  let v := byte_val b in
  [Byte.x5c; byte_of (48 + v / 64); byte_of (48 + v / 8 mod 8); byte_of (48 + v mod 8)].

Section escape.
Context (special : byte -> bool).

Definition escape (l : list byte) : list byte :=
  concat ((fun b => if special b then octal_escape b else [b]) <$> l).

End escape.

Record escapes (special : byte -> bool) : Prop := mkEscapes {
  escapes_ascii : forall b, special b = true -> (byte_val b < 128)%N;
  escapes_backslash : special Byte.x5c = true;
  escapes_space : special Byte.x20 = true;
}.

Lemma chars_fuel_ge fuel l : (length l <= fuel)%nat -> chars_fuel fuel l = chars_fuel (length l) l.
Proof.
  remember (length l) as n eqn:Hn. assert (length l <= n)%nat as Hl by lia. clear Hn.
  intros Hf. revert fuel l Hl Hf.
  induction n as [|n IH]; intros fuel [|b l] Hl Hf; try (by destruct fuel); [simpl in Hl; lia|].
  destruct fuel as [|fuel]; [lia|]. cbn [chars_fuel]. f_equal.
  destruct (utf8_next (b :: l)) as [k good] eqn:E.
  apply utf8_next_bound in E as [_ Hk]. specialize (Hk ltac:(done)).
  apply IH; rewrite ?length_drop; simpl in *; lia.
Qed.

Lemma chars_cons c l : c <> [] -> utf8_next c = (length c, true) -> chars (c ++ l) = c :: chars l.
Proof.
  intros Hc Hn. destruct c as [|b c]; [done|]. unfold chars.
  change (length ((b :: c) ++ l)) with (S (length (c ++ l))). cbn [app chars_fuel].
  change (b :: c ++ l) with ((b :: c) ++ l). rewrite utf8_next_app by done. cbn [fst].
  rewrite take_app_length, drop_app_length. f_equal.
  apply chars_fuel_ge. rewrite length_app. lia.
Qed.

Lemma ascii_next b : (byte_val b < 128)%N -> utf8_next [b] = (1%nat, true).
Proof. intros. unfold utf8_next, utf8_width, in_range. repeat case_match; simplify_eq/=; try done; lia. Qed.

Definition escape_decodes (b : byte) : Prop :=
  u8_from_octal (concat [[byte_of (48 + byte_val b / 64)]; [byte_of (48 + byte_val b / 8 mod 8)];
    [byte_of (48 + byte_val b mod 8)]]) = Some (byte_val b) /\ push_u8_char (byte_val b) = [b] /\
  Forall (fun d => (byte_val d < 128)%N) (octal_escape b).

#[local] Instance escape_decodes_dec b : Decision (escape_decodes b).
Proof. unfold escape_decodes. apply _. Defined.

Lemma octal_escape_digits b : (byte_val b < 128)%N -> escape_decodes b.
Proof.
  intros Hb. rewrite <- (byte_of_val b).
  assert (Forall (fun n => escape_decodes (byte_of (N.of_nat n))) (seq 0 128)) as Hall
    by (apply (bool_decide_unpack _); by vm_compute).
  rewrite Forall_forall in Hall. rewrite <- (N2Nat.id (byte_val b)). apply Hall.
  apply elem_of_seq. lia.
Qed.

(** A character of more than one byte has no ASCII byte. *)
Lemma long_char_not_ascii b b' c x : utf8_next (b :: b' :: c) = (length (b :: b' :: c), true) ->
  x ∈ b :: b' :: c -> (128 <= byte_val x)%N.
Proof.
  intros H Hx. apply elem_of_cons in Hx as [->|Hx].
  - destruct (decide (byte_val b < 128)%N) as [Hb|]; [|lia]. exfalso.
    unfold utf8_next in H. assert (utf8_width b = 1%nat) as Hw.
    { unfold utf8_width. assert (in_range 0 127 b = true) as -> by (unfold in_range; lia). done. }
    rewrite Hw in H. simpl in H. by injection H.
  - apply list_elem_of_lookup in Hx as [i Hi].
    pose proof (utf8_next_cont _ i x H Hi) as Hc. unfold is_cont, in_range in Hc. lia.
Qed.

Section roundtrip.
Context (special : byte -> bool) (Hs : escapes special).

Lemma escape_app l k : escape special (l ++ k) = escape special l ++ escape special k.
Proof. unfold escape. by rewrite fmap_app, concat_app. Qed.

Lemma escape_plain l : (forall b, b ∈ l -> special b = false) -> escape special l = l.
Proof.
  unfold escape. induction l as [|b l IH]; intros H; [done|]. simpl. rewrite (H b) by left.
  simpl. f_equal. apply IH. intros. apply H. by right.
Qed.

Lemma chars_ascii b l : (byte_val b < 128)%N -> chars (b :: l) = [b] :: chars l.
Proof. intros. change (b :: l) with ([b] ++ l). apply chars_cons; [done|by apply ascii_next]. Qed.

Lemma unescape_escape l : utf8 l -> unescape_chars (chars (escape special l)) = l.
Proof.
  induction 1 as [|c l Hc Hn Hl IH]; [done|]. rewrite escape_app.
  destruct c as [|b [|b' c]]; [done| |].
  - destruct (special b) eqn:Eb.
    + pose proof (escapes_ascii _ Hs b Eb) as Hb.
      destruct (octal_escape_digits b Hb) as (Hd & Hp & Ha).
      change (escape special [b]) with ((if special b then octal_escape b else [b]) ++ []).
      rewrite Eb, app_nil_r. unfold octal_escape in *. cbn [app].
      apply Forall_cons in Ha as [_ Ha]. apply Forall_cons in Ha as [H1 Ha].
      apply Forall_cons in Ha as [H2 Ha]. apply Forall_cons in Ha as [H3 _].
      rewrite (chars_ascii Byte.x5c) by exact (escapes_ascii _ Hs _ (escapes_backslash _ Hs)). rewrite !chars_ascii by assumption.
      cbn [unescape_chars]. change (is_backslash [Byte.x5c]) with true. cbv iota.
      unfold unescape_digits. by rewrite Hd, Hp, IH.
    + rewrite (escape_plain [b]) by (by intros ? ->%list_elem_of_singleton).
      rewrite chars_cons by done. cbn [unescape_chars].
      unfold is_backslash. rewrite bool_decide_eq_false_2; [by rewrite IH|].
      intros [= ->]. by rewrite (escapes_backslash _ Hs) in Eb.
  - rewrite (escape_plain (b :: b' :: c)); [|].
    + rewrite chars_cons by done. cbn [unescape_chars].
      unfold is_backslash. rewrite bool_decide_eq_false_2 by done. by rewrite IH.
    + intros x Hx. destruct (special x) eqn:Ex; [|done].
      pose proof (escapes_ascii _ Hs x Ex). pose proof (long_char_not_ascii _ _ _ _ Hn Hx). lia.
Qed.

End roundtrip.

(** ** Reading the table back *)

(** A row of the mount table: where, and whether it is read-only. *)
Definition row : Type := path * bool.

Definition no_space (l : list byte) : Prop := Forall (fun b => is_byte 32 b = false) l.

Section reading.
Context (special : byte -> bool).

(** The line mountinfo has for a row: four fields, the escaped mount point, the
    options, then what the code does not look at. *)
Definition renders (r : row) (line : string) : Prop :=
  str_utf8 r.1 /\
  exists f0 f1 f2 f3 opts rest,
    bytes_of_string line = f0 ++ Byte.x20 :: f1 ++ Byte.x20 :: f2 ++ Byte.x20 :: f3 ++ Byte.x20 ::
      escape special (bytes_of_string r.1) ++ Byte.x20 :: opts ++ Byte.x20 :: rest /\
    Forall no_space [f0; f1; f2; f3; opts] /\
    (r.2 = true <-> "ro"%string ∈ str_split 44 (string_of_bytes opts)).

Context (Hs : escapes special).

Lemma octal_escape_no_space b : (byte_val b < 128)%N -> no_space (octal_escape b).
Proof.
  intros Hb. unfold no_space, octal_escape. pose proof (byte_val_bound b).
  repeat constructor; unfold is_byte; rewrite ?byte_val_of; try done;
    apply N.eqb_neq.
  - assert (byte_val b / 64 < 2)%N by (apply N.Div0.div_lt_upper_bound; lia).
    rewrite N.mod_small by lia. lia.
  - pose proof (N.mod_lt (byte_val b / 8) 8 ltac:(done)). rewrite N.mod_small by lia. lia.
  - pose proof (N.mod_lt (byte_val b) 8 ltac:(done)). rewrite N.mod_small by lia. lia.
Qed.

Lemma escape_no_space l : no_space (escape special l).
Proof.
  unfold escape. induction l as [|b l IH]; [constructor|].
  rewrite fmap_cons. cbn [concat]. unfold no_space. rewrite Forall_app. split; [|exact IH].
  destruct (special b) eqn:Eb; [by apply octal_escape_no_space, (escapes_ascii _ Hs)|].
  constructor; [|constructor]. unfold is_byte. apply N.eqb_neq. intros Hb.
  assert (b = Byte.x20) as -> by (by rewrite <- (byte_of_val b), Hb).
  by rewrite (escapes_space _ Hs) in Eb.
Qed.

Lemma unescape_mountinfo_escape p : str_utf8 p ->
  unescape_mountinfo (string_of_bytes (escape special (bytes_of_string p))) = p.
Proof.
  intros Hp. unfold unescape_mountinfo. rewrite bytes_of_string_of_bytes, unescape_escape by done.
  apply string_of_bytes_of_string.
Qed.

Lemma parse_mount_line_renders r line : renders r line ->
  exists flags, parse_mount_line line = Some (mkEntry r.1 flags r.2).
Proof.
  intros (Hp & f0 & f1 & f2 & f3 & opts & rest & El & Hsp & Hro).
  rewrite !Forall_cons in Hsp. destruct Hsp as (H0 & H1 & H2 & H3 & H4 & _).
  unfold parse_mount_line, str_split. rewrite El.
  assert (is_byte 32 Byte.x20 = true) as Hx by done.
  rewrite !(split_at_sep (is_byte 32)) by (done || apply escape_no_space).
  cbn [fmap list_fmap list_lookup lookup]. eexists. f_equal. f_equal.
  - by apply unescape_mountinfo_escape.
  - destruct r as [mp ro]. simpl in *.
    destruct ro; [apply bool_decide_eq_true_2; by apply Hro|].
    apply bool_decide_eq_false_2. by intros ?%Hro.
Qed.

Definition row_of (e : mount_entry) : row := (me_point e, me_ro e).

Definition row_under (top : path) (r : row) : Prop := components top `prefix_of` components r.1.

#[export] Instance row_under_dec top r : Decision (row_under top r).
Proof. unfold row_under. apply _. Defined.

Lemma is_under_row top e : is_under top e = true <-> row_under top (row_of e).
Proof.
  unfold is_under, path_eq, path_starts_with, row_under. simpl.
  rewrite orb_true_iff, !bool_decide_eq_true. split; [|by right].
  by intros [->|?].
Qed.

Lemma parse_table rows ls : Forall2 renders rows ls ->
  row_of <$> omap parse_mount_line ls = rows.
Proof.
  induction 1 as [|r l rows ls Hr Hls IH]; [done|].
  apply parse_mount_line_renders in Hr as [flags Hf].
  cbn [omap list_omap]. rewrite Hf, fmap_cons, IH. by destruct r.
Qed.

Lemma entries_under_exact top rows info : Forall2 renders rows (str_lines info) ->
  row_of <$> entries_under top info ≡ₚ filter (row_under top) rows /\
  StronglySorted depth_le (entries_under top info).
Proof.
  intros Hr. unfold entries_under. split; [|apply StronglySorted_merge_sort; apply _].
  rewrite merge_sort_Permutation, <- (parse_table _ _ Hr).
  generalize (omap parse_mount_line (str_lines info)). intros es.
  induction es as [|e es IH]; [done|].
  rewrite fmap_cons, !filter_cons. pose proof (is_under_row top e).
  repeat case_decide; rewrite ?fmap_cons; [by f_equiv|tauto|tauto|done].
Qed.

(** On the text the kernel prints, whatever the paths contain,
    [mounts_under] returns exactly the mounts at or below [top], each as often
    as the table has it and with its read-only flag, parents before children. *)
Theorem mounts_under_exact top rows info : Forall2 renders rows (str_lines info) ->
  row_of <$> entries_under top info ≡ₚ filter (row_under top) rows /\
  StronglySorted depth_le (entries_under top info).
Proof. apply entries_under_exact. Qed.

End reading.
