(* ===== verification/Setup.v ===== *)
(** * The sandbox setup process

    draug-ns/src/linux/setup.rs: the namespaces, the mounts that make the
    sandbox's root, the pivot into it and the lines the host reads.  The kernel
    is a parameter: how it runs each system call ([Kernel]).  The state is the
    kernel's and what was printed so far. *)

From S2P Require Import Prelude Text Types Mountinfo.

(** ** The calls *)

Record mount_args := mkMount {
  ma_source : option string;
  ma_target : path;
  ma_fstype : option string;
  ma_flags : Z;
  ma_data : option string;
}.

Inductive file_kind := KDir | KSymlink | KOther.

Inductive sys : Type -> Type :=
  | Mount (a : mount_args) : sys unit
  | Umount2 (p : path) (flags : Z) : sys unit
  | PivotRoot (new_root put_old : path) : sys unit
  | Chdir (p : path) : sys unit
  | CreateDirAll (p : path) : sys unit
  | CreateFile (p : path) : sys unit
  | Symlink (original link : path) : sys unit
  | SymlinkMetadata (p : path) : sys file_kind
  | ReadLink (p : path) : sys path
  | PathExists (p : path) : sys unit
  | ReadMountinfo : sys string
  | Unshare (flags : Z) : sys unit
  | SetHostname (name : string) : sys unit
  | Flush : sys unit
  | ReadStdin : sys string
  | Socket : sys Z
  | GetIfFlags (fd : Z) : sys Z
  | SetIfFlags (fd flags : Z) : sys unit
  | Close (fd : Z) : sys unit
  | Fork : sys Z.

Class Kernel (K : Type) := k_run : forall A, sys A -> K -> result Io.error A * K.
Arguments k_run {K _ A} c k.

Record SetupConfig := mkSetupConfig {
  sc_id : string;
  sc_state_dir : path;
  sc_project_dir : path;
  sc_hostname : string;
  sc_env : list (string * string);
  sc_network : bool;
  sc_host_is_root : bool;
  sc_allow_host_proc_fallback : bool;
}.

(** draug-guest/src/lib.rs *)
Record GuestConfig := mkGuestConfig {
  gc_socket_path : path;
  gc_log_path : path;
  gc_default_cwd : path;
  gc_env : list (string * string);
  gc_mount_proc : bool;
}.

Definition INSIDE_RT_DIR : path := "/run/draug".
Definition SOCKET_NAME : string := "guest.sock".
Definition LOG_NAME : string := "guest.log".

Definition RO_SYSTEM_DIRS : list path :=
  ["/usr"; "/bin"; "/sbin"; "/lib"; "/lib32"; "/lib64"; "/libx32"; "/etc"; "/opt"; "/var";
   "/nix"; "/snap"]%string.

Definition DEV_NODES : list string := ["null"; "zero"; "full"; "random"; "urandom"; "tty"]%string.

Definition DEV_LINKS : list (string * string) :=
  [("fd", "/proc/self/fd"); ("stdin", "/proc/self/fd/0"); ("stdout", "/proc/self/fd/1");
   ("stderr", "/proc/self/fd/2"); ("ptmx", "pts/ptmx")]%string.

(** [CloneFlags] and [MntFlags] *)
Definition CLONE_NEWNS : Z := 131072.
Definition CLONE_NEWUTS : Z := 67108864.
Definition CLONE_NEWUSER : Z := 268435456.
Definition CLONE_NEWPID : Z := 536870912.
Definition CLONE_NEWNET : Z := 1073741824.
Definition MNT_DETACH : Z := 2.
Definition EINVAL : Z := 22.
Definition ENOTSUP : Z := 95.
Definition IFF_UP : Z := 1.
Definition IFF_RUNNING : Z := 64.

(** The two warnings. *)
Definition WARN_OVERLAY : string := "warn state dir cannot host an overlay upper layer (nested overlayfs?); using a tmpfs upper — changes to the project will NOT survive destroy".
Definition WARN_PROC : string := "warn INSECURE: private /proc unavailable; bound the host's /proc as requested. The sandbox can reach host processes and the user's files via /proc/<pid>/root".

(** [Path::display] *)
Definition disp (p : path) : string := str_lossy p.

Section setup.
Context `{Kernel K}.

Record proc := mkProc { p_kernel : K; p_out : list string }.

Definition M := ST proc string.

(** A call whose failure the code looks at. *)
Definition raw {A} (c : sys A) : M (result Io.error A) := fun s =>
  let '(r, k) := k_run c (p_kernel s) in (Ok r, mkProc k (p_out s)).

(** A call with [map_err] and [?]. *)
Definition try_ {A} (f : Io.error -> string) (c : sys A) : M A :=
  do! r := raw c in st_lift (map_err f r).

Definition println (line : string) : M unit := fun s =>
  (Ok tt, mkProc (p_kernel s) (p_out s ++ [line])).

Fixpoint for_each {A} (f : A -> M unit) (l : list A) : M unit :=
  match l with
  | [] => st_ret tt
  | x :: l' => do! _ := f x in for_each f l'
  end.

(** ** Small pieces *)

Definition mkdir (p : path) : M unit :=
  try_ (fun e => "mkdir " +:+ disp p +:+ ": " +:+ Io.message e) (CreateDirAll p).

Definition bind (src dst : path) (extra : Z) : M unit :=
  try_ (fun e => "bind " +:+ disp src +:+ " -> " +:+ disp dst +:+ ": " +:+ Io.message e)
    (Mount (mkMount (Some src) dst None (Ms.BIND .| extra) None)).

Definition mount_tmpfs (target : path) (opts : string) : M unit :=
  do! _ := mkdir target in
  try_ (fun e => "mount tmpfs at " +:+ disp target +:+ ": " +:+ Io.message e)
    (Mount (mkMount (Some "tmpfs") target (Some "tmpfs") (Ms.NOSUID .| Ms.NODEV) (Some opts))).

(** SIOCGIFFLAGS, SIOCSIFFLAGS; the socket is closed on every path. *)
Definition bring_up_loopback : M unit :=
  do! fd := try_ (fun e => "socket: " +:+ Io.message e) Socket in
  do! got := raw (GetIfFlags fd) in
  match got with
  | Err e => do! _ := raw (Close fd) in st_fail ("SIOCGIFFLAGS(lo): " +:+ Io.message e)
  | Ok flags =>
      do! set := raw (SetIfFlags fd (flags .| (IFF_UP .| IFF_RUNNING))) in
      match set with
      | Err e => do! _ := raw (Close fd) in st_fail ("SIOCSIFFLAGS(lo): " +:+ Io.message e)
      | Ok _ => do! _ := raw (Close fd) in st_ret tt
      end
  end.

(** ** Read-only system directories *)

Definition mounts_under (top : path) : M (list mount_entry) :=
  do! info := try_ (fun e => "read mountinfo: " +:+ Io.message e) ReadMountinfo in
  st_ret (entries_under top info).

Definition remount_one (top : path) (e : mount_entry) : M unit :=
  let remount := Ms.REMOUNT .| Ms.BIND .| Ms.RDONLY .| me_flags e in
  do! r := raw (Mount (mkMount None (me_point e) None remount None)) in
  match r with
  | Ok _ => st_ret tt
  | Err err =>
      if path_eq (me_point e) top
      then st_fail ("remount " +:+ disp top +:+ " read-only: " +:+ Io.message err)
      else if negb (me_ro e)
      then st_fail ("refusing to continue: submount " +:+ disp (me_point e) +:+ " under a read-only system dir is writable and could not be remounted read-only (" +:+ Io.message err +:+ "); it would be a host-writable path inside the sandbox")
      else st_ret tt
  end.

Definition remount_ro_recursive (top : path) : M unit :=
  do! entries := mounts_under top in
  for_each (remount_one top) entries.

(** [&dir[1..]] of an ASCII constant. *)
Definition without_slash (dir : path) : path :=
  match dir with String _ s => s | EmptyString => EmptyString end.

Definition bind_system_dir (root dir : path) : M unit :=
  do! meta := raw (SymlinkMetadata dir) in
  match meta with
  | Err _ => st_ret tt
  | Ok kind =>
      let target := path_join root (without_slash dir) in
      match kind with
      | KSymlink =>
          do! dest := try_ (fun e => "readlink " +:+ dir +:+ ": " +:+ Io.message e) (ReadLink dir) in
          try_ (fun e => "symlink " +:+ disp target +:+ ": " +:+ Io.message e) (Symlink dest target)
      | KOther => st_ret tt
      | KDir =>
          do! _ := mkdir target in
          do! _ := bind dir target Ms.REC in
          remount_ro_recursive target
      end
  end.

(** ** /dev and /sys *)

Definition bind_dev_node (dev : path) (node : string) : M unit :=
  let src := path_join "/dev" node in
  do! there := raw (PathExists src) in
  if negb (is_ok there) then st_ret tt
  else
    let dst := path_join dev node in
    do! _ := try_ (fun e => "create " +:+ disp dst +:+ ": " +:+ Io.message e) (CreateFile dst) in
    bind src dst 0.

Definition link_dev (dev : path) (l : string * string) : M unit :=
  try_ (fun e => "symlink /dev/" +:+ l.1 +:+ ": " +:+ Io.message e) (Symlink l.2 (path_join dev l.1)).

Definition setup_dev (root : path) : M unit :=
  let dev := path_join root "dev" in
  do! _ := mount_tmpfs dev "mode=755" in
  do! _ := for_each (bind_dev_node dev) DEV_NODES in
  do! _ := for_each (link_dev dev) DEV_LINKS in
  let pts := path_join dev "pts" in
  do! _ := mkdir pts in
  do! _ := try_ (fun e => "mount devpts: " +:+ Io.message e)
    (Mount (mkMount (Some "devpts") pts (Some "devpts") (Ms.NOSUID .| Ms.NOEXEC)
              (Some "newinstance,ptmxmode=0666,mode=0620"))) in
  mount_tmpfs (path_join dev "shm") "mode=1777".

Definition setup_sys (root : path) (host_network : bool) : M unit :=
  let sysd := path_join root "sys" in
  do! made := st_try (mkdir sysd) in
  if negb (is_ok made) then st_ret tt
  else if host_network then st_ret tt
  else
    do! _ := raw (Mount (mkMount (Some "sysfs") sysd (Some "sysfs")
                    (Ms.NOSUID .| Ms.NODEV .| Ms.NOEXEC .| Ms.RDONLY) None)) in
    st_ret tt.

(** ** The project overlay *)

Definition overlay_opts (cfg : SetupConfig) (upper work : path) : string :=
  "lowerdir=" +:+ disp (sc_project_dir cfg) +:+ ",upperdir=" +:+ disp upper +:+ ",workdir=" +:+ disp work
  +:+ (if sc_host_is_root cfg then EmptyString else ",userxattr").

Definition overlay (cfg : SetupConfig) (target upper work : path) : M (result Io.error unit) :=
  raw (Mount (mkMount (Some "overlay") target (Some "overlay") (Ms.NOSUID .| Ms.NODEV)
        (Some (overlay_opts cfg upper work)))).

(** [Path::strip_prefix("/")] *)
Definition strip_root (p : path) : option path :=
  if is_absolute p then Some (String.concat "/" (names p)) else None.

Definition errno_is (e : Io.error) (n : Z) : bool := bool_decide (Io.raw_os_error e = Some n).

Definition overlay_fallback (cfg : SetupConfig) (target : path) : M unit :=
  let ovl := path_join (sc_state_dir cfg) "ovl" in
  do! _ := mount_tmpfs ovl "mode=755" in
  let upper := path_join ovl "upper" in
  let work := path_join ovl "work" in
  do! _ := mkdir upper in
  do! _ := mkdir work in
  do! r := overlay cfg target upper work in
  do! _ := st_lift (map_err (fun e => "overlay mount (tmpfs fallback): " +:+ Io.message e) r) in
  println WARN_OVERLAY.

Definition mount_project_overlay (cfg : SetupConfig) (root : path) : M unit :=
  match strip_root (sc_project_dir cfg) with
  | None => st_fail "project dir must be absolute"
  | Some rel =>
      let target := path_join root rel in
      do! _ := mkdir target in
      let upper := path_join (sc_state_dir cfg) "upper" in
      let work := path_join (sc_state_dir cfg) "work" in
      do! r := overlay cfg target upper work in
      match r with
      | Ok _ => st_ret tt
      | Err e =>
          if errno_is e EINVAL || errno_is e ENOTSUP then overlay_fallback cfg target
          else st_fail ("overlay mount: " +:+ Io.message e +:+ " (lower=" +:+ disp (sc_project_dir cfg) +:+ ", upper=" +:+ disp upper +:+ "); kernel >= 5.11 with unprivileged overlayfs support is required")
      end
  end.

(** ** The root *)

Definition build_rootfs (cfg : SetupConfig) : M path :=
  let root := path_join (sc_state_dir cfg) "root" in
  do! _ := try_ (fun e => "make / rslave: " +:+ Io.message e)
    (Mount (mkMount None "/" None (Ms.REC .| Ms.SLAVE) None)) in
  do! _ := mount_tmpfs root "mode=755" in
  do! _ := for_each (bind_system_dir root) RO_SYSTEM_DIRS in
  do! _ := setup_dev root in
  do! _ := mkdir (path_join root "proc") in
  do! _ := mkdir (path_join root "root") in
  do! _ := mount_tmpfs (path_join root "tmp") "mode=1777" in
  do! _ := setup_sys root (sc_network cfg) in
  let run := path_join root "run" in
  do! _ := mount_tmpfs run "mode=755" in
  let run_draug := path_join run "draug" in
  do! _ := mkdir run_draug in
  do! _ := bind (path_join (sc_state_dir cfg) "rt") run_draug 0 in
  do! _ := mount_project_overlay cfg root in
  st_ret root.

Definition proc_refused (e : Io.error) : string :=
  "cannot mount a private /proc for the sandbox (fresh procfs refused: " +:+ Io.message e +:+ "). This host masks parts of /proc (common inside hardened containers). Refusing to fall back to the host's /proc, which would expose host processes and the user's files via /proc/<pid>/root. Run draug on a host that permits a private procfs, or pass --insecure-host-proc to override (unsafe).".

Definition mount_proc (root : path) (allow_host_proc_fallback : bool) : M unit :=
  let proc_dir := path_join root "proc" in
  do! fresh := raw (Mount (mkMount (Some "proc") proc_dir (Some "proc")
                      (Ms.NOSUID .| Ms.NODEV .| Ms.NOEXEC) None)) in
  match fresh with
  | Ok _ => st_ret tt
  | Err e =>
      if negb allow_host_proc_fallback then st_fail (proc_refused e)
      else
        do! bound := st_try (bind "/proc" proc_dir Ms.REC) in
        do! _ := st_lift (map_err (fun e =>
          "fresh proc mount refused and bind fallback failed (" +:+ e +:+ ")") bound) in
        println WARN_PROC
  end.

Definition mount_proc_and_pivot (root : path) (allow_host_proc_fallback : bool) : M unit :=
  do! _ := mount_proc root allow_host_proc_fallback in
  do! _ := try_ (fun e => "chdir(new root): " +:+ Io.message e) (Chdir root) in
  do! _ := try_ (fun e => "pivot_root: " +:+ Io.message e) (PivotRoot "." ".") in
  do! _ := try_ (fun e => "detach old root: " +:+ Io.message e) (Umount2 "." MNT_DETACH) in
  try_ (fun e => "chdir(/): " +:+ Io.message e) (Chdir "/").

Definition base_env (cfg : SetupConfig) : list (string * string) :=
  [("PATH", "/usr/local/sbin:/usr/local/bin:/usr/sbin:/usr/bin:/sbin:/bin"); ("HOME", "/root");
   ("USER", "root"); ("LOGNAME", "root"); ("TERM", "xterm")]%string ++ sc_env cfg.

(** ** The process, up to the fork and after it *)

Definition namespace_flags (cfg : SetupConfig) : Z :=
  CLONE_NEWNS .| CLONE_NEWPID .| CLONE_NEWUTS .| (if sc_network cfg then 0 else CLONE_NEWNET).

(** [run_inner] up to the fork: the new root, and the child's pid. *)
Definition run_inner (cfg : SetupConfig) : M (path * Z) :=
  do! _ := try_ (fun e => "unshare(CLONE_NEWUSER) failed: " +:+ Io.message e +:+ ". Unprivileged user namespaces appear to be unavailable on this host") (Unshare CLONE_NEWUSER) in
  do! _ := println "unshared" in
  do! _ := try_ Io.message Flush in
  do! line := try_ (fun e => "waiting for host: " +:+ Io.message e) ReadStdin in
  do! _ := (if bool_decide (str_trim line = "go") then st_ret tt
            else st_fail "host aborted during uid mapping") in
  do! _ := try_ (fun e => "unshare(mount/pid/uts/net): " +:+ Io.message e)
    (Unshare (namespace_flags cfg)) in
  do! _ := (if negb (sc_network cfg) then bring_up_loopback else st_ret tt) in
  do! _ := try_ (fun e => "sethostname: " +:+ Io.message e) (SetHostname (sc_hostname cfg)) in
  do! root := build_rootfs cfg in
  do! child := try_ (fun e => "fork: " +:+ Io.message e) Fork in
  st_ret (root, child).

(** [msg.replace('\n', " ")] *)
Fixpoint newlines_to_spaces (s : string) : string :=
  match s with
  | EmptyString => EmptyString
  | String a s' => String (if decide (a = "010"%char) then " "%char else a) (newlines_to_spaces s')
  end.

Definition err_line (msg : string) : string := "err " +:+ newlines_to_spaces msg.

(** [run]: a failure is printed and the process exits. *)
Definition run (cfg : SetupConfig) : ST proc string (path * Z) := fun s =>
  match run_inner cfg s with
  | (Ok r, s') => (Ok r, s')
  | (Err msg, s') => (Err msg, mkProc (p_kernel s') (p_out s' ++ [err_line msg]))
  end.

(** The parent's last line. *)
Definition parent_line (child : Z) : string := "pid " +:+ pretty child.

Definition guest_config (cfg : SetupConfig) : GuestConfig :=
  mkGuestConfig (path_join INSIDE_RT_DIR SOCKET_NAME) (path_join INSIDE_RT_DIR LOG_NAME)
    (sc_project_dir cfg) (base_env cfg) false.

(** The child: into the new root, then it is the guest. *)
Definition child_main (cfg : SetupConfig) (root : path) : ST proc string GuestConfig := fun s =>
  match mount_proc_and_pivot root (sc_allow_host_proc_fallback cfg) s with
  | (Ok _, s') => (Ok (guest_config cfg), s')
  | (Err msg, s') => (Err msg, mkProc (p_kernel s') (p_out s' ++ [err_line msg]))
  end.

End setup.
