(* ===== verification/SetupSpec.v ===== *)
(** * What the sandbox's root is made of

    The mount table as the kernel documents it, as laws of the [Kernel]
    interface, and what Setup.v guarantees under them: system directories are
    read-only or the setup fails, and every mount the sandbox can reach is
    read-only, private to the sandbox, or one of the few windows the code
    opens on purpose. *)

From S2P Require Import Prelude Text Types Mountinfo Setup.

(** ** The mount table *)

Inductive origin :=
  | FromFs (fstype : string) (data : option string)   (* a new instance *)
  | FromBind (source : path)                          (* a bind of [source], or of a mount below it *)
  | Inherited.

#[global] Instance origin_eq_dec : EqDecision origin.
Proof. solve_decision. Defined.

Record mnt := mkMnt { m_path : path; m_ro : bool; m_origin : origin }.

#[global] Instance mnt_eq_dec : EqDecision mnt.
Proof. solve_decision. Defined.

Definition point (m : mnt) : list string := components (m_path m).
Definition row_of_mnt (m : mnt) : row := (m_path m, m_ro m).
Definition set_ro (m : mnt) : mnt := mkMnt (m_path m) true (m_origin m).

(** The mount a path leads to is the last one at its point. *)
Fixpoint seal (c : list string) (l : list mnt) : list mnt :=
  match l with
  | [] => []
  | m :: l' =>
      if decide (Exists (fun m' => point m' = c) l') then m :: seal c l'
      else if decide (point m = c) then set_ro m :: l'
      else m :: l'
  end.

Definition visible (l : list mnt) (i : nat) (m : mnt) : Prop :=
  l !! i = Some m /\ forall j m', (i < j)%nat -> l !! j = Some m' -> point m' <> point m.

(** What one mount call does, by its flags. *)
Inductive mount_class := RemountRo | Bind (rec : bool) | Propagation | NewMount | OtherMount.

Definition class_of (flags : Z) : mount_class :=
  if Z.testbit flags 5 then if Z.testbit flags 12 && Z.testbit flags 0 then RemountRo else OtherMount
  else if Z.testbit flags 12 then Bind (Z.testbit flags 14)
  else if Z.testbit flags 19 then Propagation
  else NewMount.

(** Where the process is: its root, its directory, and whether the old root
    is still attached below it; in the names of the first root. *)
Record view := mkView { v_root : list string; v_cwd : list string; v_old : bool }.

Definition is_mount {A} (c : sys A) : bool := match c with Mount _ => true | _ => false end.
Definition moves {A} (c : sys A) : bool :=
  match c with Chdir _ | PivotRoot _ _ | Umount2 _ _ => true | _ => false end.

Class KernelLaws (K : Type) `{Kernel K} := {
  k_mounts : K -> list mnt;
  k_view : K -> view;
  (* the point a path leads to; links are followed *)
  k_real : path -> list string;
  k_special : byte -> bool;
  law_escapes : escapes k_special;
  law_points : forall k m, m ∈ k_mounts k -> k_real (m_path m) = point m;
  law_mountinfo : forall k k' text, k_run ReadMountinfo k = (Ok text, k') ->
    Forall2 (renders k_special) (row_of_mnt <$> k_mounts k) (str_lines text);
  law_quiet : forall A (c : sys A) k r k', k_run c k = (r, k') -> is_mount c = false ->
    k_mounts k' = k_mounts k;
  law_still : forall A (c : sys A) k r k', k_run c k = (r, k') -> moves c = false ->
    k_view k' = k_view k;
  law_refused : forall a k e k', k_run (Mount a) k = (Err e, k') -> k_mounts k' = k_mounts k;
  law_mount : forall a k u k', k_run (Mount a) k = (Ok u, k') ->
    match class_of (ma_flags a) with
    | RemountRo => k_mounts k' = seal (k_real (ma_target a)) (k_mounts k)
    | Bind rec => exists new, k_mounts k' = k_mounts k ++ new /\
        Forall (fun m => m_origin m = FromBind (default EmptyString (ma_source a)) /\
          k_real (ma_target a) `prefix_of` point m /\
          (rec = false -> point m = k_real (ma_target a))) new
    | Propagation => k_mounts k' = k_mounts k
    | NewMount => exists m, k_mounts k' = k_mounts k ++ [m] /\
        m_origin m = FromFs (default EmptyString (ma_fstype a)) (ma_data a) /\
        point m = k_real (ma_target a)
    | OtherMount => True
    end;
  law_chdir : forall p k u k', k_run (Chdir p) k = (Ok u, k') ->
    v_root (k_view k') = v_root (k_view k) /\ v_old (k_view k') = v_old (k_view k) /\
    (v_root (k_view k) = ["/"] -> v_cwd (k_view k') = k_real p);
  law_pivot : forall k u k', k_run (PivotRoot "." ".") k = (Ok u, k') ->
    k_view k' = mkView (v_cwd (k_view k)) (v_cwd (k_view k)) true;
  law_detach : forall k u k', k_run (Umount2 "." MNT_DETACH) k = (Ok u, k') ->
    v_root (k_view k') = v_root (k_view k) /\ v_old (k_view k') = false;
}.

(** The mounts a process can reach. *)
Definition reachable `{KernelLaws K} (k : K) (m : mnt) : Prop :=
  exists i, visible (k_mounts k) i m /\
    (v_root (k_view k) `prefix_of` point m \/ v_old (k_view k) = true).

(** ** Sealing *)

(** The table later: the same mounts, and what was read-only still is. *)
Definition grows (m m' : mnt) : Prop :=
  m_path m' = m_path m /\ m_origin m' = m_origin m /\ (m_ro m = true -> m_ro m' = true).

#[export] Instance grows_refl : Reflexive grows.
Proof. by intros m. Qed.
#[export] Instance grows_trans : Transitive grows.
Proof. intros a b c (? & ? & ?) (? & ? & ?). split_and!; [congruence..|auto]. Qed.

Abbreviation later := (Forall2 grows).

Lemma later_refl l : later l l.
Proof. induction l; by constructor. Qed.

Lemma seal_later c l : later l (seal c l).
Proof.
  induction l as [|m l IH]; simpl; [constructor|].
  case_decide; [by constructor|]. case_decide; constructor; try apply later_refl; by split_and!.
Qed.

Lemma grows_point m m' : grows m m' -> point m' = point m.
Proof. intros (E & _ & _). unfold point. by rewrite E. Qed.

(** A visible mount was visible before. *)
Lemma visible_before l l' i m' : later l l' -> visible l' i m' ->
  exists m, visible l i m /\ grows m m'.
Proof.
  intros Hl [Hi Hv]. destruct (Forall2_lookup_r _ _ _ _ _ Hl Hi) as (m & Hm & Hg).
  exists m. split; [|done]. split; [done|]. intros j x Hj Hx.
  destruct (Forall2_lookup_l _ _ _ _ _ Hl Hx) as (x' & Hx' & Hgx).
  rewrite <- (grows_point _ _ Hgx), <- (grows_point _ _ Hg). eauto.
Qed.

Lemma visible_cons m l i x : visible (m :: l) (S i) x <-> visible l i x.
Proof.
  unfold visible. simpl. split; intros [Hi Hv]; (split; [done|]); intros j y Hj Hy.
  - apply (Hv (S j)); [lia|done].
  - destruct j as [|j]; [lia|]. apply (Hv j); [lia|done].
Qed.

Lemma visible_0 m l x : visible (m :: l) 0 x <-> x = m /\ Forall (fun y => point y <> point m) l.
Proof.
  unfold visible. simpl. split.
  - intros [[= ->] Hv]. split; [done|]. apply Forall_lookup. intros j y Hy. by apply (Hv (S j)); [lia|].
  - intros [-> Hl]. split; [done|]. intros [|j] y Hj Hy; [lia|].
    rewrite Forall_lookup in Hl. by eapply Hl.
Qed.

(** Sealing a point leaves no writable mount visible there. *)
Lemma seal_visible c l i m : visible (seal c l) i m -> point m = c -> m_ro m = true.
Proof.
  revert i. induction l as [|x l IH]; intros i; simpl; [by intros [? _]|].
  case_decide as Hex; [|case_decide as Hx].
  - destruct i as [|i].
    + rewrite visible_0. intros [-> Hl] Hc. exfalso.
      apply Exists_exists in Hex as (y & [j Hy]%list_elem_of_lookup & Hyc).
      destruct (Forall2_lookup_l _ _ _ _ _ (seal_later c l) Hy) as (y' & Hy' & Hg).
      rewrite Forall_lookup in Hl. apply (Hl _ _ Hy'). rewrite (grows_point _ _ Hg). congruence.
    + rewrite visible_cons. apply IH.
  - destruct i as [|i]; [rewrite visible_0; by intros [-> _]|]. rewrite visible_cons. intros [Hi _] Hc.
    exfalso. apply Hex, Exists_exists. exists m. split; [by eapply list_elem_of_lookup_2|done].
  - destruct i as [|i]; [rewrite visible_0; by intros [-> _] ?|]. rewrite visible_cons. intros [Hi _] Hc.
    exfalso. apply Hex, Exists_exists. exists m. split; [by eapply list_elem_of_lookup_2|done].
Qed.

(** Mounting on top adds visible mounts and hides some. *)
Lemma visible_app l new i m : visible (l ++ new) i m -> visible l i m \/ m ∈ new.
Proof.
  intros [Hi Hv]. rewrite lookup_app_Some in Hi. destruct Hi as [Hi|[_ Hi]].
  - left. split; [done|]. intros j m' Hj Hm'. apply (Hv j); [done|]. by apply lookup_app_l_Some.
  - right. by eapply list_elem_of_lookup_2.
Qed.

(** ** The remount loop *)

Section remount.
Context `{KernelLaws K}.
Implicit Types s : proc (K := K).

Definition table s : list mnt := k_mounts (p_kernel s).

Lemma raw_run {A} (c : sys A) s r s' : raw c s = (r, s') ->
  exists a k', k_run c (p_kernel s) = (a, k') /\ r = Ok a /\ s' = mkProc k' (p_out s).
Proof. unfold raw. destruct (k_run c (p_kernel s)) as [a k']. intros [= <- <-]. eauto. Qed.

Lemma try_Ok {A} f (c : sys A) s x s' : try_ f c s = (Ok x, s') ->
  exists k', k_run c (p_kernel s) = (Ok x, k') /\ s' = mkProc k' (p_out s).
Proof.
  intros (a & s1 & (a' & k' & E & [= ->] & ->)%raw_run & E2)%st_bind_Ok.
  destruct a' as [x'|e]; [|done]. injection E2 as -> <-. eauto.
Qed.

Lemma remount_flags flags : class_of (Ms.REMOUNT .| Ms.BIND .| Ms.RDONLY .| flags) = RemountRo.
Proof. unfold class_of. by rewrite !Z.lor_spec. Qed.

Lemma remount_one_Ok top e s u s' : remount_one top e s = (Ok u, s') ->
  k_real (me_point e) = components (me_point e) ->
  later (table s) (table s') /\
  (me_ro e = true \/
   forall i m, visible (table s') i m -> point m = components (me_point e) -> m_ro m = true).
Proof.
  intros E Hreal. apply st_bind_Ok in E as (r & s1 & (a & k' & E & [= ->] & ->)%raw_run & E2).
  destruct a as [v|err].
  - injection E2 as _ <-. apply law_mount in E. cbn [ma_flags] in E. rewrite remount_flags in E.
    unfold table. simpl. rewrite E. simpl. rewrite Hreal.
    split; [apply seal_later|right]. intros i m. apply seal_visible.
  - apply law_refused in E. destruct (path_eq _ _); [done|]. destruct (me_ro e); [|done].
    injection E2 as _ <-. unfold table. simpl. rewrite E. split; [apply later_refl|by left].
Qed.

Lemma remount_loop top es s u s' : for_each (remount_one top) es s = (Ok u, s') ->
  Forall (fun e => k_real (me_point e) = components (me_point e)) es ->
  later (table s) (table s') /\
  forall e i m, e ∈ es -> visible (table s') i m -> point m = components (me_point e) ->
    me_ro e = true \/ m_ro m = true.
Proof.
  intros E Hes. revert s E. induction Hes as [|e es He Hes IH]; intros s E; cbn [for_each] in E.
  - injection E as _ <-. split; [apply later_refl|set_solver].
  - apply st_bind_Ok in E as ([] & s1 & E1 & E). apply remount_one_Ok in E1 as [Hl1 H1]; [|done].
    destruct (IH _ E) as [Hl2 H2]. split; [by etrans|].
    intros e' i m He' Hv Hm. apply elem_of_cons in He' as [->|He']; [|by eapply H2].
    destruct H1 as [Hro|Hs]; [by left|right].
    destruct (visible_before _ _ _ _ Hl2 Hv) as (m0 & Hv0 & Hg).
    apply Hg, (Hs i m0 Hv0). by rewrite <- (grows_point _ _ Hg).
Qed.

Lemma remount_ro_recursive_Ok top s u s' : remount_ro_recursive top s = (Ok u, s') ->
  later (table s) (table s') /\
  forall i m, visible (table s') i m -> components top `prefix_of` point m -> m_ro m = true.
Proof.
  intros E. apply st_bind_Ok in E as (es & s1 & E1 & E).
  apply st_bind_Ok in E1 as (info & s2 & (k' & E2 & ->)%try_Ok & [= <- <-]).
  assert (k_mounts k' = table s) as Hq by (by apply law_quiet in E2).
  apply law_mountinfo in E2.
  destruct (entries_under_exact _ law_escapes top _ _ E2) as [Hperm _].
  assert (forall e, e ∈ entries_under top info -> exists m, m ∈ table s /\ row_of e = row_of_mnt m) as Hin.
  { intros e He. assert (row_of e ∈ row_of <$> entries_under top info) as Hr by (by apply list_elem_of_fmap_2).
    rewrite Hperm in Hr. apply list_elem_of_filter in Hr as [_ (m & ? & ?)%list_elem_of_fmap]. eauto. }
  apply remount_loop in E as [Hl Hall].
  2: { apply Forall_forall. intros e (m & Hm & [= Hp _])%Hin. rewrite Hp. by eapply law_points. }
  unfold table in Hl at 1. simpl in Hl. rewrite Hq in Hl. split; [done|].
  intros i m Hv Htop. destruct (visible_before _ _ _ _ Hl Hv) as (m0 & [Hi0 Hv0] & Hg).
  assert (row_of_mnt m0 ∈ row_of <$> entries_under top info) as He.
  { rewrite Hperm. apply list_elem_of_filter. split.
    - unfold row_under. simpl. fold (point m0). by rewrite <- (grows_point _ _ Hg).
    - apply list_elem_of_fmap_2. by eapply list_elem_of_lookup_2. }
  apply list_elem_of_fmap in He as (e & [= Hp Hro] & He).
  destruct (Hall e i m He Hv) as [Hr|Hr]; [|apply Hg; congruence|done].
  rewrite <- Hp. by apply grows_point.
Qed.

Lemma remount_ro_recursive_still top s r s' : remount_ro_recursive top s = (r, s') ->
  k_view (p_kernel s') = k_view (p_kernel s).
Proof.
  assert (forall A (c : sys A) s r s', moves c = false -> raw c s = (r, s') ->
    k_view (p_kernel s') = k_view (p_kernel s)) as Hraw.
  { intros A c s0 r0 s0' Hc (a & k' & E & _ & ->)%raw_run. simpl. by eapply law_still. }
  assert (forall es s r s', for_each (remount_one top) es s = (r, s') ->
    k_view (p_kernel s') = k_view (p_kernel s)) as Hloop.
  { intros es. induction es as [|e es IH]; intros s0 r0 s0'; cbn [for_each]; [by intros [= _ <-]|].
    unfold st_bind. destruct (remount_one top e s0) as [r1 s1] eqn:E1.
    assert (k_view (p_kernel s1) = k_view (p_kernel s0)) as <-.
    { unfold remount_one, st_bind in E1. destruct (raw _ s0) as [[a|e0] s2] eqn:E2.
      - rewrite <- (Hraw _ (Mount _) _ _ _ eq_refl E2). by repeat case_match; injection E1 as _ <-.
      - by injection E1 as _ <-; eapply (Hraw _ (Mount _)). }
    destruct r1; [apply IH|by intros [= _ <-]]. }
  unfold remount_ro_recursive, mounts_under, try_, st_bind.
  destruct (raw ReadMountinfo s) as [[a|e] s1] eqn:E1; pose proof (Hraw _ ReadMountinfo _ _ _ eq_refl E1) as H1.
  - destruct a as [t|e]; simpl; [intros E; by rewrite (Hloop _ _ _ _ E)|by intros [= _ <-]].
  - by intros [= _ <-].
Qed.

(** C21: When the remount of a system directory returns success, no mount the
    sandbox can see at or below it is writable - whatever was mounted there,
    whatever the paths contain, and whatever the kernel refused - and no mount
    appeared, vanished or lost a read-only flag. *)
Theorem remount_fails_closed top s u s' : remount_ro_recursive top s = (Ok u, s') ->
  later (table s) (table s') /\
  forall i m, visible (table s') i m -> components top `prefix_of` point m -> m_ro m = true.
Proof. apply remount_ro_recursive_Ok. Qed.

End remount.

(** ** What may be mounted in the sandbox *)

Definition root_of (cfg : SetupConfig) : path := path_join (sc_state_dir cfg) "root".
Definition ovl_of (cfg : SetupConfig) : path := path_join (sc_state_dir cfg) "ovl".
Definition dev_of (cfg : SetupConfig) : path := path_join (root_of cfg) "dev".
Definition rt_target (cfg : SetupConfig) : path := path_join (path_join (root_of cfg) "run") "draug".
Definition project_target (cfg : SetupConfig) : path :=
  path_join (root_of cfg) (default EmptyString (strip_root (sc_project_dir cfg))).

(** File systems whose contents are the sandbox's own. *)
Definition private_fs : list string := ["tmpfs"; "devpts"; "sysfs"; "proc"]%string.

(** The places the overlay's writable layer may be. *)
Definition layer_dirs (cfg : SetupConfig) : list (path * path) :=
  [(path_join (sc_state_dir cfg) "upper", path_join (sc_state_dir cfg) "work");
   (path_join (ovl_of cfg) "upper", path_join (ovl_of cfg) "work")].

Inductive allowed (cfg : SetupConfig) (m : mnt) : Prop :=
  | allowed_ro : m_ro m = true -> allowed cfg m
  | allowed_private fs data : m_origin m = FromFs fs data -> fs ∈ private_fs -> allowed cfg m
  | allowed_project upper work :
      m_origin m = FromFs "overlay" (Some (overlay_opts cfg upper work)) -> (upper, work) ∈ layer_dirs cfg ->
      point m = components (project_target cfg) -> allowed cfg m
  | allowed_node node : node ∈ DEV_NODES -> m_origin m = FromBind (path_join "/dev" node) ->
      point m = components (path_join (dev_of cfg) node) -> allowed cfg m
  | allowed_rt : m_origin m = FromBind (path_join (sc_state_dir cfg) "rt") ->
      point m = components (rt_target cfg) -> allowed cfg m.

(** The paths whose resolution matters: none of them goes through a link. *)
Definition mount_points (cfg : SetupConfig) : list path :=
  root_of cfg :: rt_target cfg :: project_target cfg
  :: ((fun d => path_join (root_of cfg) (without_slash d)) <$> RO_SYSTEM_DIRS)
  ++ ((fun n => path_join (dev_of cfg) n) <$> DEV_NODES).

Lemma grows_allowed cfg m m' : grows m m' -> allowed cfg m -> allowed cfg m'.
Proof.
  intros Hg [Hro|fs d Ho Hf|u w Ho Hd Hp|n Hn Ho Hp|Ho Hp]; pose proof (grows_point _ _ Hg) as Hpt;
    destruct Hg as (_ & Hog & Hr); try rewrite <- Hog in Ho.
  - apply allowed_ro. auto.
  - by eapply allowed_private.
  - eapply allowed_project; [done..|congruence].
  - eapply allowed_node; [done..|congruence].
  - eapply allowed_rt; [done|congruence].
Qed.

Section build.
Context `{KernelLaws K} (cfg : SetupConfig).
Context (Hreal : forall p, p ∈ mount_points cfg -> k_real p = components p).
Implicit Types s : proc (K := K).

Context (v : view).

(** The invariant: what is visible under the new root is allowed, and the
    process has not moved. *)
Definition sealed s : Prop :=
  k_view (p_kernel s) = v /\
  forall i m, visible (table s) i m -> components (root_of cfg) `prefix_of` point m -> allowed cfg m.

Definition keeps {A} (m : M (K := K) A) : Prop :=
  forall s x s', m s = (Ok x, s') -> sealed s -> sealed s'.

(** The calls of [m] leave table and process alone, also when it fails. *)
Definition calm {A} (m : M (K := K) A) : Prop := forall s r s', m s = (r, s') ->
  table s' = table s /\ k_view (p_kernel s') = k_view (p_kernel s).

Lemma calm_keeps {A} (m : M A) : calm m -> keeps m.
Proof. intros Hm s x s' E. unfold sealed. by destruct (Hm _ _ _ E) as [-> ->]. Qed.

Lemma keeps_try {A} (m : M A) : calm m -> keeps (st_try m).
Proof.
  intros Hm s x s'. unfold st_try. destruct (m s) as [r s1] eqn:E. intros [= _ <-].
  unfold sealed. by destruct (Hm _ _ _ E) as [-> ->].
Qed.

Lemma keeps_ret {A} (x : A) : keeps (st_ret x).
Proof. by intros s y s' [= _ <-]. Qed.
Lemma keeps_fail {A} e : keeps (@st_fail _ _ A e).
Proof. by intros s y s'. Qed.
Lemma keeps_lift {A} (r : result string A) : keeps (st_lift r).
Proof. by intros s y s' [= _ <-]. Qed.
Lemma keeps_println l : keeps (println l).
Proof. by intros s y s' [= _ <-]. Qed.

Lemma keeps_bind {A A'} (m : M A) (k : A -> M A') : keeps m -> (forall x, keeps (k x)) -> keeps (st_bind m k).
Proof. intros Hm Hk s x s' (y & s1 & E1 & E2)%st_bind_Ok Hs. eapply Hk; eauto. Qed.

Lemma keeps_for_each {A} (f : A -> M unit) l : (forall x, x ∈ l -> keeps (f x)) -> keeps (for_each f l).
Proof.
  induction l as [|x l IH]; intros Hf; [apply keeps_ret|]. apply keeps_bind; [apply Hf; left|].
  intros _. apply IH. intros y Hy. apply Hf. by right.
Qed.

Definition quiet {A} (c : sys A) : Prop := is_mount c = false /\ moves c = false.

Lemma calm_raw {A} (c : sys A) : quiet c -> calm (raw c).
Proof.
  intros [Hc Hm] s r s' (a & k' & E & _ & ->)%raw_run. unfold table. simpl.
  split; [by eapply law_quiet|by eapply law_still].
Qed.

Lemma calm_try {A} f (c : sys A) : quiet c -> calm (try_ f c).
Proof.
  intros Hc s r s'. unfold try_, st_bind. destruct (raw c s) as [[a|e] s1] eqn:E;
    intros [= _ <-]; by eapply calm_raw.
Qed.

(** What a mount call may put in the table. *)
Definition added (a : mount_args) (m : mnt) : Prop :=
  match class_of (ma_flags a) with
  | Bind rec => m_origin m = FromBind (default EmptyString (ma_source a)) /\
      (rec = false -> point m = k_real (ma_target a))
  | NewMount => m_origin m = FromFs (default EmptyString (ma_fstype a)) (ma_data a) /\
      point m = k_real (ma_target a)
  | Propagation => False
  | _ => True
  end.

Lemma keeps_raw_mount a : (forall m, added a m -> allowed cfg m) -> keeps (raw (Mount a)).
Proof.
  intros Ha s x s' (r & k' & E & _ & ->)%raw_run [Hview Hs].
  split; [by rewrite <- Hview; eapply law_still|]. intros i m Hv Hm. unfold table in Hv. simpl in Hv.
  destruct r as [u|e]; [|apply law_refused in E; rewrite E in Hv; by eapply Hs].
  apply law_mount in E. unfold added in Ha. destruct (class_of (ma_flags a)); try (by apply Ha).
  - destruct E as (new & E & Hnew). rewrite E in Hv. apply visible_app in Hv as [Hv|Hin]; [by eapply Hs|].
    rewrite Forall_forall in Hnew. apply Ha. destruct (Hnew _ Hin) as (? & _ & ?). auto.
  - rewrite E in Hv. by eapply Hs.
  - destruct E as (m1 & E & Hnew). rewrite E in Hv. apply visible_app in Hv as [Hv|Hin]; [by eapply Hs|].
    apply list_elem_of_singleton in Hin as ->. by apply Ha.
Qed.

Lemma keeps_mount f a : (forall m, added a m -> allowed cfg m) -> keeps (try_ f (Mount a)).
Proof. intros Ha. apply keeps_bind; [by apply keeps_raw_mount|]. intros r. apply keeps_lift. Qed.

Lemma keeps_quiet {A} f (c : sys A) : quiet c -> keeps (try_ f c).
Proof. intros. by apply calm_keeps, calm_try. Qed.

Lemma keeps_raw_quiet {A} (c : sys A) : quiet c -> keeps (raw c).
Proof. intros. by apply calm_keeps, calm_raw. Qed.

Lemma keeps_mkdir p : keeps (mkdir p).
Proof. by apply keeps_quiet. Qed.

Lemma keeps_tmpfs p o : keeps (mount_tmpfs p o).
Proof.
  apply keeps_bind; [apply keeps_mkdir|]. intros _. apply keeps_mount. intros m [Ho _].
  eapply allowed_private; [exact Ho|]. set_solver.
Qed.

(** A bound directory may be writable; the remount that follows seals it, or
    the setup fails. *)
Lemma keeps_system_dir dir : dir ∈ RO_SYSTEM_DIRS -> keeps (bind_system_dir (root_of cfg) dir).
Proof.
  intros Hdir. unfold bind_system_dir. apply keeps_bind; [by apply keeps_raw_quiet|].
  intros [kind|e]; [|apply keeps_ret]. destruct kind; [| |apply keeps_ret].
  - apply keeps_bind; [apply keeps_mkdir|]. intros _ s x s' E [Hview Hs].
    apply st_bind_Ok in E as ([] & s1 & (k' & E1 & ->)%try_Ok & E).
    split.
    { rewrite (remount_ro_recursive_still _ _ _ _ E). rewrite <- Hview. by eapply law_still. }
    apply remount_ro_recursive_Ok in E as [Hl Hro]. intros i m Hv Hm.
    destruct (visible_before _ _ _ _ Hl Hv) as (m0 & Hv0 & Hg).
    apply law_mount in E1 as (new & E1 & Hnew). unfold table in Hv0. simpl in Hv0. rewrite E1 in Hv0.
    apply visible_app in Hv0 as [Hv0|Hin].
    + apply (grows_allowed _ m0); [done|]. apply (Hs i); [done|]. by rewrite <- (grows_point _ _ Hg).
    + apply allowed_ro, (Hro i); [done|]. rewrite Forall_forall in Hnew.
      destruct (Hnew _ Hin) as (_ & Hp & _). simpl in Hp. rewrite (grows_point _ _ Hg).
      rewrite Hreal in Hp; [done|]. unfold mount_points.
      do 3 apply list_elem_of_further. apply elem_of_app. left.
      exact (list_elem_of_fmap_2 (fun d => path_join (root_of cfg) (without_slash d)) _ _ Hdir).
  - apply keeps_bind; [by apply keeps_quiet|]. intros dest. by apply keeps_quiet.
Qed.

Lemma keeps_dev_node node : node ∈ DEV_NODES -> keeps (bind_dev_node (dev_of cfg) node).
Proof.
  intros Hn. unfold bind_dev_node. apply keeps_bind; [by apply keeps_raw_quiet|].
  intros there. destruct (negb _); [apply keeps_ret|].
  apply keeps_bind; [by apply keeps_quiet|]. intros _. apply keeps_mount. intros m [Ho Hp].
  apply (allowed_node _ _ node); [done|exact Ho|]. rewrite Hp by done. apply Hreal. unfold mount_points.
  do 3 apply list_elem_of_further. apply elem_of_app. right.
  exact (list_elem_of_fmap_2 (fun n => path_join (dev_of cfg) n) _ _ Hn).
Qed.

Lemma keeps_dev : keeps (setup_dev (root_of cfg)).
Proof.
  unfold setup_dev. apply keeps_bind; [apply keeps_tmpfs|]. intros _.
  apply keeps_bind; [apply keeps_for_each; intros; by apply keeps_dev_node|]. intros _.
  apply keeps_bind; [apply keeps_for_each; intros; by apply keeps_quiet|]. intros _.
  apply keeps_bind; [apply keeps_mkdir|]. intros _.
  apply keeps_bind; [|intros _; apply keeps_tmpfs]. apply keeps_mount. intros m [Ho _].
  eapply allowed_private; [exact Ho|]. set_solver.
Qed.

Lemma keeps_sys : keeps (setup_sys (root_of cfg) (sc_network cfg)).
Proof.
  unfold setup_sys. apply keeps_bind; [by apply keeps_try, calm_try|]. intros made.
  destruct (negb _); [apply keeps_ret|]. destruct (sc_network cfg); [apply keeps_ret|].
  apply keeps_bind; [|intros _; apply keeps_ret]. apply keeps_raw_mount. intros m [Ho _].
  eapply allowed_private; [exact Ho|]. set_solver.
Qed.

Lemma keeps_overlay rel upper work : strip_root (sc_project_dir cfg) = Some rel ->
  (upper, work) ∈ layer_dirs cfg -> keeps (overlay cfg (path_join (root_of cfg) rel) upper work).
Proof.
  intros Hrel Hd. assert (path_join (root_of cfg) rel = project_target cfg) as ->
    by (unfold project_target; by rewrite Hrel).
  apply keeps_raw_mount. intros m [Ho Hp]. eapply allowed_project; [exact Ho|done|].
  rewrite Hp. apply Hreal. unfold mount_points. set_solver.
Qed.

Lemma keeps_project : keeps (mount_project_overlay cfg (root_of cfg)).
Proof.
  unfold mount_project_overlay. destruct (strip_root _) as [rel|] eqn:Hrel; [|apply keeps_fail].
  apply keeps_bind; [apply keeps_mkdir|]. intros _.
  apply keeps_bind; [apply keeps_overlay; [done|left]|]. intros [u|e]; [apply keeps_ret|].
  destruct (_ || _); [|apply keeps_fail]. unfold overlay_fallback.
  apply keeps_bind; [apply keeps_tmpfs|]. intros _. do 2 (apply keeps_bind; [apply keeps_mkdir|]; intros _).
  apply keeps_bind; [apply keeps_overlay; [done|right; left]|]. intros r.
  apply keeps_bind; [apply keeps_lift|]. intros _. apply keeps_println.
Qed.

Lemma keeps_build : keeps (build_rootfs cfg).
Proof.
  unfold build_rootfs. fold (root_of cfg). apply keeps_bind; [by apply keeps_mount|]. intros _.
  apply keeps_bind; [apply keeps_tmpfs|]. intros _.
  apply keeps_bind; [apply keeps_for_each; intros; by apply keeps_system_dir|]. intros _.
  apply keeps_bind; [apply keeps_dev|]. intros _.
  do 2 (apply keeps_bind; [apply keeps_mkdir|]; intros _).
  apply keeps_bind; [apply keeps_tmpfs|]. intros _. apply keeps_bind; [apply keeps_sys|]. intros _.
  apply keeps_bind; [apply keeps_tmpfs|]. intros _. apply keeps_bind; [apply keeps_mkdir|]. intros _.
  apply keeps_bind.
  { apply keeps_mount. intros m [Ho Hp]. apply allowed_rt; [exact Ho|]. rewrite Hp by done.
    apply Hreal. unfold mount_points. set_solver. }
  intros _. apply keeps_bind; [apply keeps_project|]. intros _. apply keeps_ret.
Qed.

End build.

(** ** The whole setup *)

Section sandbox.
Context `{KernelLaws K} (cfg : SetupConfig).
Implicit Types s : proc (K := K).

Lemma keeps_proc v : keeps cfg v (mount_proc (K := K) (root_of cfg) false).
Proof.
  unfold mount_proc. apply keeps_bind.
  - apply keeps_raw_mount. intros m [Ho _]. eapply allowed_private; [exact Ho|]. set_solver.
  - intros [u|e]; [apply keeps_ret|apply keeps_fail].
Qed.

(** Into the new root: only the view moves. *)
Lemma pivot_run s root u s' : k_real root = components root -> v_root (k_view (p_kernel s)) = ["/"] ->
  (do! _ := try_ (fun e => "chdir(new root): " +:+ Io.message e) (Chdir root) in
   do! _ := try_ (fun e => "pivot_root: " +:+ Io.message e) (PivotRoot "." ".") in
   do! _ := try_ (fun e => "detach old root: " +:+ Io.message e) (Umount2 "." MNT_DETACH) in
   try_ (fun e => "chdir(/): " +:+ Io.message e) (Chdir "/")) s = (Ok u, s') ->
  table s' = table s /\ v_root (k_view (p_kernel s')) = components root /\
  v_old (k_view (p_kernel s')) = false.
Proof.
  intros Hr Hv E.
  apply st_bind_Ok in E as ([] & ? & (k1 & E1 & ->)%try_Ok & E).
  apply st_bind_Ok in E as ([] & ? & (k2 & E2 & ->)%try_Ok & E).
  apply st_bind_Ok in E as ([] & ? & (k3 & E3 & ->)%try_Ok & E).
  apply try_Ok in E as (k4 & E4 & ->). unfold table. simpl in *.
  pose proof (law_quiet _ _ _ _ _ E1 eq_refl) as Q1. pose proof (law_quiet _ _ _ _ _ E2 eq_refl) as Q2.
  pose proof (law_quiet _ _ _ _ _ E3 eq_refl) as Q3. pose proof (law_quiet _ _ _ _ _ E4 eq_refl) as Q4.
  apply law_chdir in E1 as (_ & _ & E1). apply law_pivot in E2. apply law_detach in E3 as [E3 E3'].
  apply law_chdir in E4 as (E4 & E4' & _). split; [congruence|].
  rewrite E4, E4', E3, E2. simpl. rewrite (E1 Hv). by rewrite Hr.
Qed.

(** C7: A sandbox whose setup succeeded is sealed, provided that no mount point
    in the new root is reached through a symbolic link - with one it is not:
    [link_fails_open] -, and that nothing is mounted there yet.  When [build_rootfs] returns
    the root and the child has pivoted into it, without the option that shares
    the host's /proc, the process's root is the new root, the old one is no
    longer attached, and every mount it can reach is read-only, a file system
    of the sandbox's own, the project's overlay with its layer in the state
    directory, one of the six device nodes, or the runtime directory. *)
Theorem sandbox_sealed s root s1 g s2 :
  (forall p, p ∈ mount_points cfg -> k_real p = components p) ->
  v_root (k_view (p_kernel s)) = ["/"] ->
  (forall i m, visible (table s) i m -> ~ components (root_of cfg) `prefix_of` point m) ->
  sc_allow_host_proc_fallback cfg = false ->
  build_rootfs cfg s = (Ok root, s1) -> child_main cfg root s1 = (Ok g, s2) ->
  v_root (k_view (p_kernel s2)) = components (root_of cfg) /\ v_old (k_view (p_kernel s2)) = false /\
  forall m, reachable (p_kernel s2) m -> allowed cfg m.
Proof.
  intros Hreal Hv Hfresh Hproc E1 E2.
  assert (sealed cfg (k_view (p_kernel s)) s) as Hs0.
  { split; [done|]. intros i m Hvis Hm. by destruct (Hfresh i m Hvis). }
  pose proof (keeps_build cfg Hreal _ _ _ _ E1 Hs0) as Hs1.
  assert (root = root_of cfg) as ->.
  { unfold build_rootfs in E1. repeat (apply st_bind_Ok in E1 as (? & ? & _ & E1)). by injection E1 as <- _. }
  unfold child_main in E2. rewrite Hproc in E2.
  destruct (mount_proc_and_pivot _ _ _) as [[[]|e] s3] eqn:E3; [|done]. injection E2 as _ <-.
  apply st_bind_Ok in E3 as ([] & s4 & E3 & E4).
  destruct (keeps_proc _ _ _ _ E3 Hs1) as [Hv4 Hs4].
  apply pivot_run in E4 as (Ht & Hr & Ho); [|apply Hreal; left|congruence].
  split_and!; [done..|]. intros m (i & Hvis & [Hp|Hold]); [|congruence].
  rewrite Hr in Hp. apply (Hs4 i); [|done]. unfold table in Ht. unfold table. by rewrite <- Ht.
Qed.

(** The remount sees mountinfo's names.  Where a path into the state
    directory goes through a link, the mounts made at [target] are listed under
    other names: the setup goes on, and what the bind left writable stays
    writable. *)
Theorem link_fails_open root dir s u s' k1 :
  let target := path_join root (without_slash dir) in
  k_run (SymlinkMetadata dir) (p_kernel s) = (Ok KDir, k1) ->
  (forall c, k_real target `prefix_of` c -> ~ components target `prefix_of` c) ->
  (forall m, m ∈ table s -> ~ components target `prefix_of` point m) ->
  bind_system_dir root dir s = (Ok u, s') ->
  exists new, table s' = table s ++ new /\ Forall (fun m => m_origin m = FromBind dir) new.
Proof.
  intros target Hk Hlink Hnone E. unfold bind_system_dir in E. fold target in E.
  apply st_bind_Ok in E as (kind & s1 & (a & k' & E1 & [= ->] & ->)%raw_run & E).
  rewrite Hk in E1. injection E1 as <- <-.
  apply st_bind_Ok in E as ([] & ? & (k2 & E2 & ->)%try_Ok & E).
  apply st_bind_Ok in E as ([] & ? & (k3 & E3 & ->)%try_Ok & E). simpl in *.
  apply law_quiet in Hk as Q1; [|done]. apply law_quiet in E2 as Q2; [|done].
  apply law_mount in E3 as (new & E3 & Hnew). rewrite Q2, Q1 in E3. exists new.
  assert (Forall (fun m => m_origin m = FromBind dir) new) as Ho by (eapply Forall_impl; [exact Hnew|]; naive_solver).
  split; [|done]. apply st_bind_Ok in E as (es & s2 & E4 & E).
  apply st_bind_Ok in E4 as (info & s3 & (k4 & E4 & ->)%try_Ok & [= <- <-]). simpl in *.
  apply law_quiet in E4 as Q4; [|done]. apply law_mountinfo in E4.
  destruct (entries_under_exact _ law_escapes target _ _ E4) as [Hperm _].
  assert (filter (row_under target) (row_of_mnt <$> k_mounts k3) = []) as Hnil.
  { apply elem_of_nil_inv. intros r [Hr (m & -> & Hm)%list_elem_of_fmap]%list_elem_of_filter.
    unfold row_under in Hr. simpl in Hr. rewrite E3 in Hm. apply elem_of_app in Hm as [Hm|Hm].
    - by apply (Hnone m).
    - rewrite Forall_forall in Hnew. destruct (Hnew _ Hm) as (_ & Hp & _). by apply (Hlink (point m)). }
  rewrite Hnil in Hperm. apply Permutation_nil_r, fmap_nil_inv in Hperm. rewrite Hperm in E.
  injection E as _ <-. unfold table. simpl. by rewrite Q4, E3.
Qed.

End sandbox.

(** ** A kernel that satisfies the laws

    Its table has only mounts under the names paths resolve to; a call that
    would make another is refused. *)

Module Toy.

Definition special (b : byte) : bool :=
  bool_decide (b ∈ [Byte.x20; Byte.x09; Byte.x0a; Byte.x5c]).

Lemma special_escapes : escapes special.
Proof.
  split; [|by vm_compute..]. intros b Hb. unfold special in Hb. apply bool_decide_eq_true in Hb.
  assert (Forall (fun b => (byte_val b < 128)%N) [Byte.x20; Byte.x09; Byte.x0a; Byte.x5c]) as Hall
    by (apply (bool_decide_unpack _); by vm_compute).
  rewrite Forall_forall in Hall. by apply Hall.
Qed.

Definition line_of (r : row) : string :=
  string_of_bytes (bytes_of_string "1" ++ Byte.x20 :: bytes_of_string "2" ++ Byte.x20 ::
    bytes_of_string "0:3" ++ Byte.x20 :: bytes_of_string "/" ++ Byte.x20 ::
    escape special (bytes_of_string r.1) ++ Byte.x20 ::
    bytes_of_string (if r.2 then "ro,relatime" else "rw,nosuid") ++ Byte.x20 :: bytes_of_string "- x").

Definition info_of (rows : list row) : string :=
  foldr (fun r s => line_of r +:+ String "010" s) EmptyString rows.

Lemma line_of_renders r : utf8_valid (bytes_of_string r.1) = true -> renders special r (line_of r).
Proof.
  intros Hr. split; [by apply utf8_valid_utf8|].
  eexists (bytes_of_string "1"), (bytes_of_string "2"), (bytes_of_string "0:3"), (bytes_of_string "/"),
    (bytes_of_string (if r.2 then "ro,relatime" else "rw,nosuid")), (bytes_of_string "- x").
  unfold line_of. split; [by rewrite bytes_of_string_of_bytes|]. split.
  - repeat constructor; by destruct (r.2); repeat constructor.
  - rewrite string_of_bytes_of_string. destruct (r.2); vm_compute; split; intros Hx; try done.
    + left.
    + repeat (apply elem_of_cons in Hx as [Hx|Hx]; [discriminate Hx|]). by apply elem_of_nil in Hx.
Qed.

Section kernel.
Context (real : path -> list string).

Record state := mkState { t_mounts : list mnt; t_view : view; t_dirs : list (path * file_kind) }.

Definition good (m : mnt) : Prop := real (m_path m) = point m.

#[local] Instance good_dec m : Decision (good m).
Proof. unfold good. apply _. Defined.

(** The path of a point. *)
Definition show (c : list string) : path :=
  match c with r :: rest => r +:+ String.concat "/" rest | [] => EmptyString end.

Definition enoent : Io.error := Io.mk Io.NotFound (Some 2) "No such file or directory".
Definition refused : Io.error := Io.mk Io.InvalidInput (Some 22) "EINVAL: Invalid argument".

(** What is added, and whether it is as the documentation says. *)
Definition described (a : mount_args) (m : mnt) : Prop :=
  match class_of (ma_flags a) with
  | Bind rec => real (ma_target a) `prefix_of` point m /\ (rec = false -> point m = real (ma_target a))
  | _ => point m = real (ma_target a)
  end.

#[local] Instance described_dec a m : Decision (described a m).
Proof. unfold described. destruct (class_of _); apply _. Defined.

Definition add (a : mount_args) (new : list mnt) (k : state) : result Io.error unit * state :=
  if decide (Forall good new /\ Forall (described a) new)
  then (Ok tt, mkState (t_mounts k ++ new) (t_view k) (t_dirs k)) else (Err refused, k).

Definition submounts (src : path) (target : list string) (l : list mnt) : list mnt :=
  (fun m => mkMnt (show (target ++ drop (length (components src)) (point m))) (m_ro m) (FromBind src))
  <$> filter (fun m => components src `prefix_of` point m /\ point m <> components src) l.

Definition t_mount (a : mount_args) (k : state) : result Io.error unit * state :=
  let target := real (ma_target a) in
  if decide (Forall good (t_mounts k)) then
    match class_of (ma_flags a) with
    | RemountRo =>
        if decide (Exists (fun m => point m = target) (t_mounts k))
        then (Ok tt, mkState (seal target (t_mounts k)) (t_view k) (t_dirs k)) else (Err refused, k)
    | Bind rec =>
        let src := default EmptyString (ma_source a) in
        add a (mkMnt (show target) false (FromBind src)
               :: (if rec then submounts src target (t_mounts k) else [])) k
    | Propagation => (Ok tt, k)
    | NewMount =>
        add a [mkMnt (show target) (Z.testbit (ma_flags a) 0)
                 (FromFs (default EmptyString (ma_fstype a)) (ma_data a))] k
    | OtherMount => (Err refused, k)
    end
  else (Err refused, k).

Definition t_mountinfo (k : state) : result Io.error string * state :=
  let rows := row_of_mnt <$> t_mounts k in
  if decide (Forall good (t_mounts k) /\ Forall (fun r => utf8_valid (bytes_of_string r.1) = true) rows /\
             str_lines (info_of rows) = line_of <$> rows)
  then (Ok (info_of rows), k)
  else (Err (Io.new Io.InvalidData "stream did not contain valid UTF-8"), k).

Definition with_view (v : view) (k : state) : state := mkState (t_mounts k) v (t_dirs k).

#[local] Instance t_kernel : Kernel state := fun A c k =>
  match c with
  | Mount a => t_mount a k
  | Umount2 _ _ => (Ok tt, with_view (mkView (v_root (t_view k)) (v_cwd (t_view k)) false) k)
  | PivotRoot _ _ => (Ok tt, with_view (mkView (v_cwd (t_view k)) (v_cwd (t_view k)) true) k)
  | Chdir p => (Ok tt, with_view (mkView (v_root (t_view k)) (real p) (v_old (t_view k))) k)
  | SymlinkMetadata p =>
      match list_find (fun e => e.1 = p) (t_dirs k) with
      | Some (_, e) => (Ok (snd e), k)
      | None => (Err enoent, k)
      end
  | ReadLink _ => (Ok "usr/bin"%string, k)
  | ReadMountinfo => t_mountinfo k
  | ReadStdin => (Ok "go"%string, k)
  | Socket => (Ok 3, k)
  | GetIfFlags _ => (Ok 0, k)
  | Fork => (Ok 77, k)
  | CreateDirAll _ | CreateFile _ | Symlink _ _ | PathExists _ | Unshare _ | SetHostname _ | Flush
  | SetIfFlags _ _ | Close _ => (Ok tt, k)
  end.

Definition t_table (k : state) : list mnt :=
  if decide (Forall good (t_mounts k)) then t_mounts k else [].

Lemma good_seal c l : Forall good l -> Forall good (seal c l).
Proof.
  intros Hl. rewrite Forall_lookup in *. intros i m' Hm'.
  destruct (Forall2_lookup_r _ _ _ _ _ (seal_later c l) Hm') as (m & Hm & Hg).
  apply Hl in Hm. unfold good. by rewrite (grows_point _ _ Hg), (proj1 Hg).
Qed.

Lemma add_Ok a new k u k' : Forall good (t_mounts k) -> add a new k = (Ok u, k') ->
  t_table k' = t_table k ++ new /\ Forall (described a) new.
Proof.
  unfold add, t_table. intros Hk. case_decide as Hd; [|done]. destruct Hd. intros [= _ <-]. simpl.
  by rewrite !decide_True by (try apply Forall_app; done).
Qed.

Lemma t_mount_view a k r k' : t_mount a k = (r, k') -> t_view k' = t_view k.
Proof. unfold t_mount, add. by repeat (case_match || case_decide); intros [= _ <-]. Qed.

Lemma t_mount_Err a k e k' : t_mount a k = (Err e, k') -> k' = k.
Proof. unfold t_mount, add. by repeat (case_match || case_decide); intros [= _ <-]. Qed.

Lemma submounts_origin src target l m : m ∈ submounts src target l -> m_origin m = FromBind src.
Proof. unfold submounts. by intros (x & -> & _)%list_elem_of_fmap. Qed.

#[local] Instance t_laws : KernelLaws state.
Proof.
  refine {| k_mounts := t_table; k_view := t_view; k_real := real; k_special := special |}.
  - apply special_escapes.
  - intros k m. unfold t_table. case_decide as Hg; [|by intros ?%elem_of_nil].
    rewrite Forall_forall in Hg. apply Hg.
  - intros k k' text. unfold k_run. simpl. unfold t_mountinfo. case_decide as Hd; [|done].
    destruct Hd as (Hg & Hu & Hl). intros [= <- <-]. rewrite Hl. unfold t_table. rewrite decide_True by done.
    generalize dependent (row_of_mnt <$> t_mounts k). intros rows Hu _. clear Hg.
    induction Hu; constructor; [by apply line_of_renders|done].
  - intros A c k r k' E Hc. destruct c; try discriminate Hc; unfold k_run in E; simpl in E;
      unfold t_mountinfo, with_view in E; repeat case_match; by injection E as _ <-.
  - intros A c k r k' E Hc. destruct c; try discriminate Hc; unfold k_run in E; simpl in E;
      first [by apply t_mount_view in E
            |unfold t_mountinfo in E; repeat case_match; by injection E as _ <-].
  - intros a k e k' E. by apply t_mount_Err in E as ->.
  - intros a k u k' E. unfold k_run in E. simpl in E. unfold t_mount in E.
    case_decide as Hg; [|done]. destruct (class_of (ma_flags a)) eqn:Ec.
    + case_decide; [|done]. injection E as _ <-. unfold t_table. simpl.
      by rewrite !decide_True by (try apply good_seal; done).
    + apply add_Ok in E as [E Hd]; [|done]. eexists. split; [exact E|].
      rewrite Forall_forall in Hd |- *. intros m Hm. split.
      * apply elem_of_cons in Hm as [->|Hm]; [done|]. destruct rec; [by eapply submounts_origin|].
        by apply elem_of_nil in Hm.
      * specialize (Hd m Hm). unfold described in Hd. by rewrite Ec in Hd.
    + by injection E as _ <-.
    + apply add_Ok in E as [E Hd]; [|done]. eexists. split; [exact E|]. split; [done|].
      apply Forall_cons in Hd as [Hd _]. unfold described in Hd. by rewrite Ec in Hd.
    + done.
  - by intros p k u k' [= _ <-].
  - by intros k u k' [= _ <-].
  - by intros k u k' [= _ <-].
Defined.

End kernel.

End Toy.

Module Witness.

Definition cfg : SetupConfig :=
  mkSetupConfig "a1" "/s/a1" "/home/me/proj" "a1" [] false false false.

(** The host: /usr with a writable mount below it, /bin a link, no other
    system directory. *)
Definition host_mounts : list mnt :=
  [mkMnt "/" false Inherited; mkMnt "/usr" false Inherited; mkMnt "/usr/my data" false Inherited].

Definition host : proc (K := Toy.state) :=
  mkProc (Toy.mkState host_mounts (mkView ["/"%string] ["/"%string] false)
            [("/usr"%string, KDir); ("/bin"%string, KSymlink)]) [].

#[local] Instance kernel : Kernel Toy.state := Toy.t_kernel components.
#[local] Instance laws : KernelLaws Toy.state := Toy.t_laws components.

Definition built := build_rootfs cfg host.
Definition inside := child_main cfg "/s/a1/root" built.2.

Lemma sandbox_sealed_witness : inside.1 = Ok (guest_config cfg) /\
  v_root (k_view (p_kernel inside.2)) = components (root_of cfg) /\
  v_old (k_view (p_kernel inside.2)) = false /\
  forall m, reachable (p_kernel inside.2) m -> allowed cfg m.
Proof.
  split; [vm_compute; reflexivity|].
  apply (sandbox_sealed cfg host "/s/a1/root" built.2 (guest_config cfg) inside.2).
  - intros p _. reflexivity.
  - reflexivity.
  - intros i m [Hi _] Hp. unfold host in Hi.
    assert (Forall (fun m => ~ components (root_of cfg) `prefix_of` point m) host_mounts) as Hall
      by (apply (bool_decide_unpack _); by vm_compute).
    rewrite Forall_lookup in Hall. exact (Hall i m Hi Hp).
  - reflexivity.
  - vm_compute. reflexivity.
  - vm_compute. reflexivity.
Defined.

(** The mount below /usr is there and read-only. *)
Example built_usr : mkMnt "/s/a1/root/usr/my data" true (FromBind "/usr") ∈ table built.2.
Proof. apply (bool_decide_unpack _). by vm_compute. Qed.

(** Names with spaces and a row that is only a prefix by its letters. *)
Definition rows : list row := [("/a b", false); ("/a b/c", true); ("/a bc", false)]%string.

Lemma mounts_under_exact_witness :
  row_of <$> entries_under "/a b" (Toy.info_of rows) ≡ₚ filter (row_under "/a b") rows /\
  StronglySorted depth_le (entries_under "/a b" (Toy.info_of rows)).
Proof.
  apply (mounts_under_exact Toy.special Toy.special_escapes).
  replace (str_lines (Toy.info_of rows)) with (Toy.line_of <$> rows) by (vm_compute; reflexivity).
  repeat constructor; apply Toy.line_of_renders; vm_compute; reflexivity.
Defined.

Definition one := remount_ro_recursive "/usr" host.

Lemma remount_fails_closed_witness : one.1 = Ok tt /\ later (table host) (table one.2) /\
  forall i m, visible (table one.2) i m -> components "/usr" `prefix_of` point m -> m_ro m = true.
Proof.
  split; [vm_compute; reflexivity|]. apply (remount_fails_closed "/usr" host tt one.2).
  vm_compute. reflexivity.
Defined.

End Witness.

(** /home is a link to /data/home; the state directory is under it. *)
Module LinkWitness.

Definition real (p : path) : list string :=
  match components p with
  | "/" :: "home" :: rest => "/" :: "data" :: "home" :: rest
  | c => c
  end%string.

#[local] Instance kernel : Kernel Toy.state := Toy.t_kernel real.
#[local] Instance laws : KernelLaws Toy.state := Toy.t_laws real.

Definition start : proc (K := Toy.state) :=
  mkProc (Toy.mkState [mkMnt "/" false Inherited; mkMnt "/usr" false Inherited]
            (mkView ["/"%string] ["/"%string] false) [("/usr"%string, KDir)]) [].

Definition linked := bind_system_dir "/home/u/s/root" "/usr" start.

Lemma link_fails_open_witness :
  (linked.1 = Ok tt /\ mkMnt "/data/home/u/s/root/usr" false (FromBind "/usr") ∈ table linked.2) /\
  exists new, table linked.2 = table start ++ new /\ Forall (fun m => m_origin m = FromBind "/usr"%string) new.
Proof.
  split; [split; [vm_compute; reflexivity|apply (bool_decide_unpack _); by vm_compute]|].
  apply (link_fails_open (K := Toy.state) "/home/u/s/root" "/usr" start tt linked.2 (p_kernel start)).
  - vm_compute. reflexivity.
  - intros c [k1 Hk1] [k2 Hk2]. assert (take 2 c = ["/"; "data"]%string) as H1 by (by rewrite Hk1).
    assert (take 2 c = ["/"; "home"]%string) as H2 by (by rewrite Hk2). by rewrite H1 in H2.
  - intros m Hm.
    assert (Forall (fun m => ~ components "/home/u/s/root/usr" `prefix_of` point m) (table start)) as Hall
      by (apply (bool_decide_unpack _); by vm_compute).
    rewrite Forall_forall in Hall. by apply Hall.
  - vm_compute. reflexivity.
Defined.

End LinkWitness.
