(* ===== verification/Backend.v ===== *)
(** * The namespace backend: spawn, snapshot, restore, destroy, reconcile

    draug-ns/src/linux/backend.rs.  The world is what these operations share:
    the registry, the state and snapshot directories with their upper layers,
    the guest processes and the cgroups.  Everything the outside decides - the
    next I/O failure, the next random id, how the next setup process behaves -
    is a schedule in the world, consumed in order.  A failure that the code
    ignores takes its effect away and is noted in the world. *)

From S2P Require Import Prelude Text Types FsTree Registry Cgroup.

Definition BACKEND_NAME : string := "ns".

(** ** Paths and the checks on them *)

Definition join (a b : path) : path := a +:+ "/" +:+ b.

Definition hex_digit (n : N) : ascii :=
  ascii_of_N (if (n <? 10)%N then 48 + n else 87 + n).

Fixpoint hex_fuel (fuel : nat) (n : N) (acc : string) : string :=
  match fuel with
  | O => acc
  | S fuel' =>
      let acc := String (hex_digit (n mod 16)) acc in
      if (n <? 16)%N then acc else hex_fuel fuel' (n / 16) acc
  end.

(** [{c:?}] of the characters [validate_project_dir] refuses. *)
Definition char_debug (c : N) : string :=
  "'" +:+ (if decide (c = 44)%N then "," else if decide (c = 58)%N then ":"
           else if decide (c = 92)%N then "\\" else if decide (c = 0)%N then "\0"
           else if decide (c = 9)%N then "\t" else if decide (c = 10)%N then "\n"
           else if decide (c = 13)%N then "\r" else "\u{" +:+ hex_fuel 8 c EmptyString +:+ "}") +:+ "'".

(** The first of [,], [:], [\] and the control characters, which are U+0000 to
    U+001F and U+007F to U+009F. *)
Fixpoint bad_char (s : list byte) : option N :=
  match s with
  | [] => None
  | b :: s' =>
      let c := byte_val b in
      if ((c =? 44) || (c =? 58) || (c =? 92) || (c <? 32) || (c =? 127))%N then Some c
      else match s' with
           | b' :: _ =>
               if ((c =? 194) && (128 <=? byte_val b') && (byte_val b' <? 160))%N
               then Some (byte_val b') else bad_char s'
           | [] => None
           end
  end.

(** What the file system says of a path: its canonical form and its type. *)
Record project_fs := mkProjectFs {
  canonicalize : path -> result Io.error path;
  is_directory : path -> bool;
}.

Definition validate_project_dir (fs : project_fs) (p : path) : result Error path :=
  match canonicalize fs p with
  | Err e => Err (InvalidSpec ("project dir " +:+ str_lossy p +:+ ": " +:+ Io.message e))
  | Ok canon =>
      if negb (is_directory fs canon)
      then Err (InvalidSpec ("project path " +:+ str_lossy canon +:+ " is not a directory"))
      else match bad_char (bytes_of_string (str_lossy canon)) with
           | Some bad =>
               Err (InvalidSpec ("project path " +:+ str_lossy canon +:+ " contains " +:+ char_debug bad +:+
                 ", which cannot be expressed safely in overlayfs mount options"))
           | None => Ok canon
           end
  end.

Definition setup_error (msg : string) : Error :=
  if contains "CLONE_NEWUSER" msg
  then Unsupported (msg +:+ ". Check `sysctl kernel.unprivileged_userns_clone` (Debian-family), `sysctl user.max_user_namespaces`, and any container seccomp policy")
  else if contains "overlay" msg then Unsupported msg
  else Error_io "sandbox setup" (Io.other msg).

(** ** The setup process, as the drive loop of [do_spawn] sees it *)

Record setup_run := mkSetupRun {
  sr_lines : list string;          (* what setup and guest print *)
  sr_read_error : option Io.error; (* then: a read error, *)
  sr_stalls : bool;                (* silence until the timeout, or end of file *)
  sr_stderr : string;
  sr_maps : result Error unit;
  sr_add_pid : result Error unit;
  sr_go : option Io.error;
  sr_guest : option N;             (* the guest that was forked, if any *)
  sr_starttime : option N;         (* proc_starttime of the reported pid *)
}.

Fixpoint drive (r : setup_run) (has_cgroup : bool) (guest_pid : option N) (lines : list string)
  : result Error N :=
  match lines with
  | [] =>
      match sr_read_error r with
      | Some e => Err (Error_io "read setup output" e)
      | None =>
          Err (setup_error (if sr_stalls r then "sandbox setup timed out"
            else "setup process exited before the guest was ready: " +:+ str_trim (sr_stderr r)))
      end
  | line :: rest =>
      if decide (line = "unshared")%string then
        let? _ := sr_maps r in
        let? _ := if has_cgroup then sr_add_pid r else Ok tt in
        match sr_go r with
        | Some e => Err (Error_io "signal setup process" e)
        | None => drive r has_cgroup guest_pid rest
        end
      else match strip_prefix "pid " line with
      | Some pid => drive r has_cgroup (parse_uint u32_max (str_trim pid)) rest
      | None =>
          if decide (line = "ready")%string then
            match guest_pid with
            | Some pid => Ok pid
            | None => Err (setup_error "guest ready before pid was reported")
            end
          else match strip_prefix "warn " line with
          | Some _ => drive r has_cgroup guest_pid rest
          | None =>
              match strip_prefix "err " line with
              | Some msg => Err (setup_error msg)
              | None => drive r has_cgroup guest_pid rest
              end
          end
      end
  end.

(** ** The world *)

(** A per-sandbox state directory. *)
Record state_dir_t := mkStateDir {
  sd_upper : node;                (* the writable layer *)
  sd_cgroup_path : option path;   (* cgroup.path *)
  sd_pidfile : option N;          (* guest.pid *)
}.

Record world := mkWorld {
  w_db : db;
  w_dirs : gmap path state_dir_t;
  w_snapshots : gmap path (option node);  (* a snapshot dir and its upper, once copied in full *)
  w_guests : gmap N (option path);        (* live guests and their cgroup *)
  w_cgroups : gset path;
  w_faults : list (option Io.error);
  w_random : list (result Io.error (list byte));  (* what the next reads of urandom give *)
  w_setups : list setup_run;
  w_dropped : list (string * path);       (* the failures that the code ignores, so far *)
}.

Definition B := ST world Error.

Definition set_db d w := mkWorld d (w_dirs w) (w_snapshots w) (w_guests w) (w_cgroups w) (w_faults w)
  (w_random w) (w_setups w) (w_dropped w).
Definition set_dirs d w := mkWorld (w_db w) d (w_snapshots w) (w_guests w) (w_cgroups w) (w_faults w)
  (w_random w) (w_setups w) (w_dropped w).
Definition set_snapshots s w := mkWorld (w_db w) (w_dirs w) s (w_guests w) (w_cgroups w) (w_faults w)
  (w_random w) (w_setups w) (w_dropped w).
Definition set_guests g w := mkWorld (w_db w) (w_dirs w) (w_snapshots w) g (w_cgroups w) (w_faults w)
  (w_random w) (w_setups w) (w_dropped w).
Definition set_cgroups c w := mkWorld (w_db w) (w_dirs w) (w_snapshots w) (w_guests w) c (w_faults w)
  (w_random w) (w_setups w) (w_dropped w).

(** A system call, or a helper built on them: the next failure, or its effect. *)
Definition sys {A} (on_error : Io.error -> Error) (a : A) (effect : world -> world) : B A := fun w =>
  let w' := mkWorld (w_db w) (w_dirs w) (w_snapshots w) (w_guests w) (w_cgroups w)
              (tail (w_faults w)) (w_random w) (w_setups w) (w_dropped w) in
  match w_faults w with
  | Some e :: _ => (Err (on_error e), w')
  | _ => (Ok a, effect w')
  end.

Definition drop_error (op : string) (p : path) (w : world) : world :=
  mkWorld (w_db w) (w_dirs w) (w_snapshots w) (w_guests w) (w_cgroups w) (w_faults w) (w_random w)
    (w_setups w) (w_dropped w ++ [(op, p)]).

(** [let _ = ...]: a call on [p] whose failure is ignored. *)
Definition best_effort (op : string) (p : path) (effect : world -> world) : B unit := fun w =>
  match sys (Error_io op) tt effect w with
  | (Ok _, w') => (Ok tt, w')
  | (Err _, w') => (Ok tt, drop_error op p w')
  end.

(** [self.reg(|r| ...)] *)
Definition reg {A} (f : db -> result Error A * db) : B A := fun w =>
  let '(r, d) := f (w_db w) in (r, set_db d w).

(** [format!("{b:02x}")] of every byte. *)
Definition hex_byte (b : byte) : string :=
  String (hex_digit (byte_val b / 16)) (String (hex_digit (byte_val b mod 16)) EmptyString).

Definition hex_bytes (bs : list byte) : string := foldr (fun b s => hex_byte b +:+ s) EmptyString bs.

Definition short_read : Error :=
  Error_io "read /dev/urandom" (Io.new Io.UnexpectedEof "failed to fill whole buffer").

(** Sixteen bytes, read exactly. *)
Definition random_id : B string := fun w =>
  let w' r := mkWorld (w_db w) (w_dirs w) (w_snapshots w) (w_guests w) (w_cgroups w) (w_faults w) r
                (w_setups w) (w_dropped w) in
  match w_random w with
  | Ok bs :: r => (if (16 <=? length bs)%nat then Ok (hex_bytes (take 16 bs)) else Err short_read, w' r)
  | Err e :: r => (Err (Error_io "read /dev/urandom" e), w' r)
  | [] => (Err short_read, w)
  end.

(** How the next setup process behaves; one that is never there exits at once. *)
Definition no_setup : setup_run :=
  mkSetupRun [] None false EmptyString (Ok tt) (Ok tt) None None None.

Definition next_setup : B setup_run := fun w =>
  (Ok (default no_setup (head (w_setups w))),
   mkWorld (w_db w) (w_dirs w) (w_snapshots w) (w_guests w) (w_cgroups w) (w_faults w) (w_random w)
     (tail (w_setups w)) (w_dropped w)).

Definition empty_layer : node := Node (mkInode (mkStat 16877 0 0 4096 0) [] [] None None) [].

Definition update_dir (d : path) (f : state_dir_t -> state_dir_t) (w : world) : world :=
  set_dirs (alter f d (w_dirs w)) w.

Definition set_upper l sd := mkStateDir l (sd_cgroup_path sd) (sd_pidfile sd).
Definition set_cgroup_path c sd := mkStateDir (sd_upper sd) (Some c) (sd_pidfile sd).
Definition set_pidfile p sd := mkStateDir (sd_upper sd) (sd_cgroup_path sd) (Some p).

(** [create_dir_all] of a state directory, which may be there already. *)
Definition make_state_dir (d : path) (w : world) : world :=
  set_dirs (<[d := default (mkStateDir empty_layer None None) (w_dirs w !! d)]> (w_dirs w)) w.

Definition acquire_op_lock (d : path) : B unit :=
  sys (Error_io "acquire op lock") tt (make_state_dir d).

(** ** The operations *)

(** The cgroup v2 directory this process lives in. *)
Class CgroupBase := cgroup_base : path.

Definition id_world (w : world) : world := w.

Section backend.
Context `{SqlEngine, LimitsJson, CgroupBase}.
Context (state_root : path) (fs : project_fs) (unix_now : Z).

Definition state_dir (id : string) : path := join state_root id.
Definition snapshot_dir (id : string) : path := join (join state_root "snapshots") id.

(** [kill_guest]: through the pidfile, if the process it names is alive.  Reading
    the pidfile and /proc is in Pidfile.v and taken to succeed here. *)
Definition kill_guest (d : path) : B unit := fun w =>
  match w_dirs w !! d ≫= sd_pidfile with
  | Some pid =>
      match w_guests w !! pid with
      | Some _ =>
          sys (Error_io "kill sandbox") tt (fun w => set_guests (delete pid (w_guests w)) w) w
      | None => (Ok tt, w)
      end
  | None => (Ok tt, w)
  end.

(** The live guests in a cgroup. *)
Definition members (c : path) (w : world) : gmap N (option path) :=
  filter (fun '(_, g) => g = Some c) (w_guests w).

Definition kill_members (c : path) (w : world) : world :=
  set_guests (filter (fun '(_, g) => g <> Some c) (w_guests w)) w.

Definition drop_cgroup (c : path) (w : world) : world := set_cgroups (w_cgroups w ∖ {[c]}) w.

Definition busy : Error := Error_io "remove cgroup" (Io.other "Device or resource busy").

(** One [rmdir] of a cgroup; one with members is busy. *)
Definition rmdir_cgroup (c : path) : B unit := fun w =>
  match sys (Error_io "remove cgroup") tt id_world w with
  | (Ok _, w') => if decide (members c w' = ∅) then (Ok tt, drop_cgroup c w') else (Err busy, w')
  | x => x
  end.

(** It is tried again until it works, is not there, or was tried often enough;
    then it is given up, silently. *)
Fixpoint rmdir_attempts (fuel : nat) (c : path) : B unit := fun w =>
  match fuel with
  | O => (Ok tt, drop_error "remove cgroup" c w)
  | S fuel' =>
      match rmdir_cgroup c w with
      | (Ok _, w') => (Ok tt, w')
      | (Err (IoErr _ e), w') =>
          if decide (Io.kind e = Io.NotFound) then (Ok tt, drop_cgroup c w') else rmdir_attempts fuel' c w'
      | (Err _, w') => rmdir_attempts fuel' c w'
      end
  end.

(** [cgroup::destroy]: cgroup.kill, then rmdir.  Cgroup.v has its calls. *)
Definition cgroup_destroy (c : path) : B unit :=
  do! _ := best_effort "kill cgroup" c (kill_members c) in
  rmdir_attempts 20 c.

(** A cgroup.path that is not there, or cannot be read, leaves the cgroup be. *)
Definition remove_cgroup (d : path) : B unit := fun w =>
  match w_dirs w !! d ≫= sd_cgroup_path with
  | Some c =>
      match sys (Error_io "read cgroup path") tt id_world w with
      | (Ok _, w') => cgroup_destroy c w'
      | (Err _, w') => (Ok tt, drop_error "read cgroup path" c w')
      end
  | None => (Ok tt, w)
  end.

Definition drop_dir (d : path) (w : world) : world := set_dirs (delete d (w_dirs w)) w.

(** Where permission is denied the work is done again by a helper in a user
    namespace; its protocol is in Helper.v, and whatever it fails with is
    reported here under one operation name. *)
Definition remove_state_dir (d : path) : B unit := fun w =>
  match sys (Error_io "remove state dir") tt (drop_dir d) w with
  | (Err (IoErr op e), w') =>
      if decide (Io.kind e = Io.NotFound) then (Ok tt, drop_dir d w')
      else if decide (Io.kind e = Io.PermissionDenied)
      then sys (Error_io "cleanup helper") tt (drop_dir d) w'
      else (Err (IoErr op e), w')
  | x => x
  end.

(** [copy_layer]; [effect] is what the copy leaves, which FsCopySpec.v proves
    to be a copy of the source. *)
Definition copy_layer (effect : world -> world) : B unit := fun w =>
  match sys (Error_io "copy layer") tt effect w with
  | (Err (IoErr op e), w') =>
      if decide (Io.kind e = Io.PermissionDenied) then sys (Error_io "copy helper") tt effect w'
      else (Err (IoErr op e), w')
  | x => x
  end.

Definition destroy_inner (sb : Sandbox) : B unit :=
  do! _ := kill_guest (sb_state_dir sb) in
  do! _ := remove_cgroup (sb_state_dir sb) in
  do! _ := remove_state_dir (sb_state_dir sb) in
  reg (remove_sandbox (sb_id sb)).

Definition destroy (id : string) : B unit := fun w =>
  match reg (get_sandbox id) w with
  | (Ok sb, w1) =>
      (do! _ := st_try (acquire_op_lock (sb_state_dir sb)) in destroy_inner sb) w1
  | (Err (NotFound _ _), w1) => (Ok tt, w1)
  | (Err e, w1) => (Err e, w1)
  end.

(** [cgroup::create], which Cgroup.v has call by call: the directory is made,
    then the limits are written; a refused limit leaves the directory.  With
    limits a failure is an error, without there is no cgroup. *)
Definition create_cgroup (id : string) (l : ResourceLimits) : B (option path) := fun w =>
  let c := path_join cgroup_base ("draug-" +:+ id) in
  match sys (Error_io "create sandbox cgroup") tt (fun w => set_cgroups ({[c]} ∪ w_cgroups w) w) w with
  | (Ok _, w') =>
      if Cgroup.required l
      then (do! _ := sys (Error_io "write cgroup limit") tt id_world in st_ret (Some c)) w'
      else (Ok (Some c), w')
  | (Err e, w') => if Cgroup.required l then (Err e, w') else (Ok None, w')
  end.

Definition ready_sandbox (sb : Sandbox) : Sandbox :=
  mkSandbox (sb_id sb) (sb_name sb) Ready (sb_backend sb) (sb_rootfs sb) (sb_state_dir sb)
    (sb_limits sb) (sb_created_at sb).

(** The guest that the setup process forked runs from then on. *)
Definition start_guest (r : setup_run) (cg : option path) (w : world) : world :=
  match sr_guest r with
  | Some pid => set_guests (<[pid := cg]> (w_guests w)) w
  | None => w
  end.

(** [serde_json::to_string] of a [SetupConfig] fails on a path that is not text. *)
Definition setup_config_json (sb : Sandbox) : result Error unit :=
  if utf8_valid (bytes_of_string (sb_state_dir sb)) && utf8_valid (bytes_of_string (sb_rootfs sb))
  then Ok tt
  else Err (InvalidSpec "unserializable spec: path contains invalid UTF-8 characters").

Definition do_spawn (sb : Sandbox) (spec : SandboxSpec) : B Sandbox :=
  let d := sb_state_dir sb in
  do! cg := create_cgroup (sb_id sb) (spec_limits spec) in
  do! _ := match cg with
           | Some c => sys (Error_io "record cgroup path") tt (update_dir d (set_cgroup_path c))
           | None => st_ret tt
           end in
  do! _ := st_lift (setup_config_json sb) in
  do! _ := sys (Error_io "spawn setup process") tt id in
  do! r := next_setup in
  do! pid := (fun w => (drive r (bool_decide (is_Some cg)) None (sr_lines r), start_guest r cg w)) in
  do! _ := st_lift (match sr_starttime r with
                    | Some _ => Ok tt
                    | None => Err (setup_error "guest died immediately after setup")
                    end) in
  do! _ := sys (Error_io "write pidfile") tt (update_dir d (set_pidfile pid)) in
  do! _ := reg (update_sandbox_state (sb_id sb) Ready) in
  st_ret (ready_sandbox sb).

(** What [copy_layer] returns is a function of the layer. *)
Context (layer_bytes : node -> Z).

Definition create_subdirs (d : path) : B unit :=
  do! _ := sys (Error_io "create state dir") tt (make_state_dir d) in
  do! _ := sys (Error_io "create state dir") tt id in
  do! _ := sys (Error_io "create state dir") tt id in
  sys (Error_io "create state dir") tt id.

(** The layer a snapshot captured. *)
Definition snapshot_layer (p : path) (w : world) : node :=
  default empty_layer (mjoin (w_snapshots w !! p)).

Definition seed_error (e : Error) : Error :=
  Error_io "seed upper from snapshot" (Io.other (Error_fmt e)).

Definition seed_upper (d : path) (from_snapshot : option string) : B unit :=
  match from_snapshot with
  | None => st_ret tt
  | Some snap_id =>
      do! snap := reg (get_snapshot snap_id) in
      fun w =>
        match copy_layer (fun w => update_dir d (set_upper (snapshot_layer (sn_path snap) w)) w) w with
        | (Ok _, w') => (Ok tt, w')
        | (Err e, w') => (Err (seed_error e), w')
        end
  end.

(** [do_spawn], and the teardown of what it left behind when it fails. *)
Definition spawn_or_rollback (sb : Sandbox) (spec : SandboxSpec) : B Sandbox := fun w =>
  match do_spawn sb spec w with
  | (Ok r, w') => (Ok r, w')
  | (Err e, w') => let '(_, w'') := destroy_inner sb w' in (Err e, w'')
  end.

Definition new_sandbox (id : string) (spec : SandboxSpec) (project_dir : path) : Sandbox :=
  mkSandbox id (spec_name spec) Creating BACKEND_NAME project_dir (state_dir id) (spec_limits spec) unix_now.

Definition spawn (spec : SandboxSpec) : B Sandbox :=
  do! project_dir := st_lift (validate_project_dir fs (spec_rootfs spec)) in
  do! id := random_id in
  let d := state_dir id in
  do! _ := create_subdirs d in
  do! _ := acquire_op_lock d in
  do! _ := seed_upper d (spec_from_snapshot spec) in
  let sb := new_sandbox id spec project_dir in
  do! _ := reg (insert_sandbox sb) in
  spawn_or_rollback sb spec.

Definition drop_snapshot (snap_dir : path) (w : world) : world :=
  set_snapshots (delete snap_dir (w_snapshots w)) w.

(** [let _ = remove_dir_all(&snap_dir)] *)
Definition remove_snapshot_dir (snap_dir : path) : B unit :=
  best_effort "remove snapshot dir" snap_dir (drop_snapshot snap_dir).

(** The copy of the layer into a snapshot, and what follows it. *)
Definition copy_or_rollback (snap_id : string) (snap_dir : path) (layer : node) : B string := fun w =>
  match copy_layer (fun w => set_snapshots (<[snap_dir := Some layer]> (w_snapshots w)) w) w with
  | (Ok _, w') =>
      (do! _ := reg (set_snapshot_size snap_id (layer_bytes layer)) in st_ret snap_id) w'
  | (Err e, w') =>
      (do! _ := remove_snapshot_dir snap_dir in
       do! _ := st_try (reg (remove_snapshot snap_id)) in
       st_fail e) w'
  end.

(** The snapshot's directory, which must not exist yet. *)
Definition make_snapshot_dir (snap_id : string) (snap_dir : path) : B unit :=
  do! _ := sys (Error_io "create snapshots dir") tt id in
  fun w =>
    match w_snapshots w !! snap_dir with
    | Some _ => (Err (AlreadyExists RSnapshot snap_id), w)
    | None =>
        sys (Error_io "create snapshot dir") tt
          (fun w => set_snapshots (<[snap_dir := None]> (w_snapshots w)) w) w
    end.

(** Registry first: the row is there before the copy. *)
Definition record_snapshot (meta : SnapshotMeta) : B unit := fun w =>
  match reg (insert_snapshot meta) w with
  | (Ok _, w') => (Ok tt, w')
  | (Err e, w') => (do! _ := remove_snapshot_dir (sn_path meta) in st_fail e) w'
  end.

(** [snapshot]; freezing and thawing the cgroup are best effort and change
    nothing that is modelled. *)
Definition snapshot (id name : string) : B string :=
  if decide (str_trim name = EmptyString)
  then st_fail (InvalidSpec "snapshot name must not be empty")
  else
    do! sb := reg (get_sandbox id) in
    do! _ := acquire_op_lock (sb_state_dir sb) in
    do! sb := reg (get_sandbox (sb_id sb)) in
    do! snap_id := random_id in
    let snap_dir := snapshot_dir snap_id in
    do! _ := make_snapshot_dir snap_id snap_dir in
    do! _ := record_snapshot (mkSnapshot snap_id (Some (sb_id sb)) name snap_dir (sb_rootfs sb) 0 unix_now) in
    fun w =>
      copy_or_rollback snap_id snap_dir (default empty_layer (sd_upper <$> w_dirs w !! sb_state_dir sb)) w.

Definition restore (snapshot_id : string) (name : option string) : B Sandbox :=
  do! snap := reg (get_snapshot snapshot_id) in
  spawn (mkSpec name (sn_rootfs snap) (Some (sn_id snap)) unlimited [] false false).

(** [resolve_layer]: the layer and the base that a diff compares; snapshots win. *)
Inductive layer_ref := SnapshotLayer (p : path) | SandboxLayer (d : path).

Definition resolve_layer (target : string) : B (layer_ref * path) := fun w =>
  match reg (get_snapshot target) w with
  | (Ok snap, w') => (Ok (SnapshotLayer (sn_path snap), sn_rootfs snap), w')
  | (Err _, w') =>
      (do! sb := reg (get_sandbox target) in st_ret (SandboxLayer (sb_state_dir sb), sb_rootfs sb)) w'
  end.

Definition guest_alive (d : path) (w : world) : bool :=
  match w_dirs w !! d ≫= sd_pidfile with
  | Some pid => bool_decide (is_Some (w_guests w !! pid))
  | None => false
  end.

(** One sandbox of [reconcile]; [lock_held]: an operation on it is in flight;
    [others]: what other processes do between the liveness check and the lock.
    Thawing a frozen cgroup changes nothing that is modelled. *)
Definition reconcile_one (lock_held : path -> bool) (others : Sandbox -> world -> world)
    (sb : Sandbox) (reaped : nat) : B nat := fun w =>
  if decide (sb_backend sb <> BACKEND_NAME) then (Ok reaped, w)
  else if guest_alive (sb_state_dir sb) w then (Ok reaped, w)
  else match w_dirs w !! sb_state_dir sb with
       | None => let '(_, w') := reg (remove_sandbox (sb_id sb)) w in (Ok (S reaped), w')
       | Some _ =>
           let w := others sb w in
           if lock_held (sb_state_dir sb) then (Ok reaped, w)
           else match destroy_inner sb w with
                | (Ok _, w') => (Ok (S reaped), w')
                | (Err _, w') => (Ok reaped, w')
                end
       end.

Fixpoint reconcile_loop (lock_held : path -> bool) (others : Sandbox -> world -> world)
    (sbs : list Sandbox) (reaped : nat) : B nat :=
  match sbs with
  | [] => st_ret reaped
  | sb :: sbs' =>
      do! reaped := reconcile_one lock_held others sb reaped in
      reconcile_loop lock_held others sbs' reaped
  end.

Definition reconcile (lock_held : path -> bool) (others : Sandbox -> world -> world) : B nat :=
  do! sbs := reg list_sandboxes in reconcile_loop lock_held others sbs 0.

End backend.
