(* ===== verification/Handshake.v ===== *)
(** * The handshake between setup and host

    draug-ns/src/linux/setup.rs prints lines, the drive loop of
    draug-ns/src/linux/backend.rs reads them.  Here the two models meet: what
    the host concludes from what Setup.v prints, for every order in which the
    setup process and the sandbox's first process write to their shared pipe. *)

From S2P Require Import Prelude Text Types Mountinfo Backend Setup SetupSpec.

(** ** What setup prints *)

Definition chatter (line : string) : Prop :=
  line = "unshared"%string \/ line = WARN_OVERLAY \/ line = WARN_PROC.

Section prints.
Context `{Kernel K}.
Implicit Types s : proc (K := K).

(** [m] prints only lines the host takes no decision on. *)
Definition prints {A} (m : M (K := K) A) : Prop :=
  forall s r s', m s = (r, s') -> exists t, p_out s' = p_out s ++ t /\ Forall chatter t.

Lemma prints_nothing {A} (m : M A) : (forall s r s', m s = (r, s') -> p_out s' = p_out s) -> prints m.
Proof. intros Hm s r s' E. exists []. by rewrite (Hm _ _ _ E), app_nil_r. Qed.

Lemma prints_ret {A} (x : A) : prints (st_ret x).
Proof. apply prints_nothing. by intros s r s' [= _ <-]. Qed.
Lemma prints_fail {A} e : prints (@st_fail _ _ A e).
Proof. apply prints_nothing. by intros s r s' [= _ <-]. Qed.
Lemma prints_lift {A} (x : result string A) : prints (st_lift x).
Proof. apply prints_nothing. by intros s r s' [= _ <-]. Qed.
Lemma prints_raw {A} (c : sys A) : prints (raw c).
Proof. apply prints_nothing. intros s r s'. unfold raw. destruct (k_run c _). by intros [= _ <-]. Qed.

Lemma prints_println line : chatter line -> prints (println line).
Proof. intros Hl s r s' [= _ <-]. exists [line]. split; [done|]. by apply Forall_singleton. Qed.

Lemma prints_bind {A A'} (m : M A) (k : A -> M A') : prints m -> (forall x, prints (k x)) -> prints (st_bind m k).
Proof.
  intros Hm Hk s r s'. unfold st_bind. destruct (m s) as [[x|e] s1] eqn:E1; intros E.
  - destruct (Hm _ _ _ E1) as (t1 & Ho1 & H1). destruct (Hk _ _ _ _ E) as (t2 & Ho2 & H2).
    exists (t1 ++ t2). by rewrite Ho2, Ho1, app_assoc, Forall_app.
  - injection E as _ <-. by apply (Hm _ _ _ E1).
Qed.

Lemma prints_st_try {A} (m : M A) : prints m -> prints (st_try m).
Proof. intros Hm s r s'. unfold st_try. destruct (m s) as [x s1] eqn:E. intros [= _ <-]. by apply Hm in E. Qed.

Lemma prints_try {A} f (c : sys A) : prints (try_ f c).
Proof. apply prints_bind; [apply prints_raw|]. intros r. apply prints_lift. Qed.

Lemma prints_for_each {A} (f : A -> M unit) l : (forall x, prints (f x)) -> prints (for_each f l).
Proof. intros Hf. induction l; [apply prints_ret|]. by apply prints_bind. Qed.
End prints.

Create HintDb handshake.
#[local] Hint Resolve prints_ret prints_fail prints_lift prints_raw prints_try : handshake.

Ltac prints :=
  repeat first
    [ by auto with handshake
    | apply prints_println; unfold chatter; tauto
    | apply prints_bind; [|intros ?]
    | apply prints_st_try
    | apply prints_for_each; intros ?
    | case_match ].

Section run.
Context `{Kernel K} (cfg : SetupConfig).
Implicit Types s : proc (K := K).

Lemma build_prints : prints (K := K) (build_rootfs cfg).
Proof.
  unfold build_rootfs, mount_tmpfs, bind_system_dir, setup_dev, setup_sys, mkdir, bind, bind_dev_node,
    link_dev, mount_tmpfs, mkdir, bind, remount_ro_recursive, mounts_under, remount_one,
    mount_project_overlay, overlay_fallback, overlay, mount_tmpfs, mkdir.
  prints.
Qed.

Lemma run_inner_prints : prints (K := K) (run_inner cfg).
Proof. pose proof build_prints. unfold run_inner, bring_up_loopback. prints. Qed.

Lemma pivot_prints root allow : prints (K := K) (mount_proc_and_pivot root allow).
Proof. unfold mount_proc_and_pivot, mount_proc, bind. prints. Qed.
End run.

(** ** What the host concludes *)

(** Every step the host takes in between succeeds. *)
Definition host_willing (r : setup_run) (has_cgroup : bool) : Prop :=
  sr_maps r = Ok tt /\ (has_cgroup = true -> sr_add_pid r = Ok tt) /\ sr_go r = None.

Section drive.
Context (r : setup_run) (has_cgroup : bool) (Hr : host_willing r has_cgroup).

Lemma drive_chatter gp t rest : Forall chatter t ->
  drive r has_cgroup gp (t ++ rest) = drive r has_cgroup gp rest.
Proof.
  destruct Hr as (Hm & Ha & Hg). intros Ht. induction Ht as [|l t Hl Ht IH]; [done|].
  cbn [app drive]. destruct Hl as [->|[->| ->]].
  - rewrite decide_True by done. rewrite Hm, Hg. destruct has_cgroup; [by rewrite Ha|done].
  - rewrite decide_False by done. by rewrite decide_False by done.
  - rewrite decide_False by done. by rewrite decide_False by done.
Qed.

Lemma pretty_child child : 0 <= child < 2 ^ 32 ->
  parse_uint u32_max (str_trim (pretty child)) = Some (Z.to_N child).
Proof.
  intros Hc. assert (pretty child = pretty (Z.to_N child)) as -> by (destruct child; [done|done|lia]).
  rewrite str_trim_pretty. apply parse_uint_pretty. unfold u32_max. lia.
Qed.

Lemma drive_pid gp child rest : 0 <= child < 2 ^ 32 ->
  drive r has_cgroup gp (parent_line child :: rest) = drive r has_cgroup (Some (Z.to_N child)) rest.
Proof.
  intros Hc. cbn [drive]. rewrite decide_False by done. unfold parent_line.
  rewrite strip_prefix_app. by rewrite pretty_child.
Qed.

Lemma drive_err gp msg rest :
  drive r has_cgroup gp (err_line msg :: rest) = Err (setup_error (newlines_to_spaces msg)).
Proof. cbn [drive]. rewrite decide_False by done. by rewrite decide_False by done. Qed.

Lemma drive_ready gp rest : drive r has_cgroup gp ("ready"%string :: rest) =
  match gp with
  | Some pid => Ok pid
  | None => Err (setup_error "guest ready before pid was reported")
  end.
Proof. done. Qed.

End drive.

Section handshake.
Context `{Kernel K} (cfg : SetupConfig).
Context (r : setup_run) (has_cgroup : bool) (Hr : host_willing r has_cgroup).

(** C22: The host learns what became of the sandbox, whatever the order in which
    the setup process and its child write.  A setup that failed is reported
    with its message.  After the fork, whatever place the line with the pid has
    among the child's lines: a child that could not enter its root is reported
    as the failure it printed; a child that became the guest, which prints
    [ready], is accepted with the pid of the fork - unless [ready] came before
    the pid, which the host takes for an error. *)
Theorem handshake k : 
  match run cfg (mkProc k []) with
  | (Err msg, s1) => drive r has_cgroup None (p_out s1) = Err (setup_error (newlines_to_spaces msg))
  | (Ok (root, child), s1) =>
      0 <= child < 2 ^ 32 ->
      match child_main cfg root (mkProc (p_kernel s1) []) with
      | (Err msg, s2) => forall c1 c2, p_out s2 = c1 ++ c2 ->
          drive r has_cgroup None (p_out s1 ++ c1 ++ parent_line child :: c2)
          = Err (setup_error (newlines_to_spaces msg))
      | (Ok _, s2) => forall c1 c2, p_out s2 ++ ["ready"%string] = c1 ++ c2 ->
          drive r has_cgroup None (p_out s1 ++ c1 ++ parent_line child :: c2)
          = if decide (c2 = []) then Err (setup_error "guest ready before pid was reported")
            else Ok (Z.to_N child)
      end
  end.
Proof.
  unfold run. destruct (run_inner cfg (mkProc k [])) as [[[root child]|msg] s1] eqn:E1;
    destruct (run_inner_prints _ _ _ _ E1) as (t1 & Ho1 & H1); cbn [p_out] in Ho1; simpl app in Ho1.
  2: { cbn [p_out]. rewrite Ho1, drive_chatter by done. by apply drive_err. }
  intros Hc. rewrite Ho1. unfold child_main.
  destruct (mount_proc_and_pivot _ _ _) as [[u|msg] s2] eqn:E2;
    destruct (pivot_prints _ _ _ _ _ E2) as (t2 & Ho2 & H2); cbn [p_out] in *; simpl app in Ho2;
    rewrite Ho2; intros c1 c2 Hsplit; rewrite drive_chatter by done.
  - destruct c2 as [|x c2 _] using rev_ind.
    + rewrite app_nil_r in Hsplit. subst c1. rewrite decide_True by done.
      by rewrite <- app_assoc, drive_chatter by done.
    + rewrite decide_False by (by destruct c2). rewrite app_assoc in Hsplit.
      apply app_inj_tail in Hsplit as [Ht <-]. rewrite Ht in H2. apply Forall_app in H2 as [Hc1 Hc2].
      rewrite drive_chatter by done. rewrite drive_pid by done. by rewrite drive_chatter by done.
  - destruct c2 as [|x c2 _] using rev_ind.
    + rewrite app_nil_r in Hsplit. subst c1. rewrite <- app_assoc, drive_chatter by done. by apply drive_err.
    + rewrite app_assoc in Hsplit. apply app_inj_tail in Hsplit as [Ht <-].
      rewrite Ht in H2. apply Forall_app in H2 as [Hc1 Hc2].
      rewrite drive_chatter by done. rewrite drive_pid, drive_chatter by done. by apply drive_err.
Qed.

End handshake.

Module Witness.

#[local] Existing Instance SetupSpec.Witness.kernel.

Definition willing : setup_run :=
  mkSetupRun [] None false EmptyString (Ok tt) (Ok tt) None (Some 77%N) (Some 5%N).

Definition cfg := SetupSpec.Witness.cfg.
Definition host := p_kernel SetupSpec.Witness.host.

Lemma handshake_witness :
  ((run cfg (mkProc host [])).1 = Ok ("/s/a1/root"%string, 77) /\ host_willing willing true) /\
  match run cfg (mkProc host []) with
  | (Err msg, s1) => drive willing true None (p_out s1) = Err (setup_error (newlines_to_spaces msg))
  | (Ok (root, child), s1) =>
      0 <= child < 2 ^ 32 ->
      match child_main cfg root (mkProc (p_kernel s1) []) with
      | (Err msg, s2) => forall c1 c2, p_out s2 = c1 ++ c2 ->
          drive willing true None (p_out s1 ++ c1 ++ parent_line child :: c2)
          = Err (setup_error (newlines_to_spaces msg))
      | (Ok _, s2) => forall c1 c2, p_out s2 ++ ["ready"%string] = c1 ++ c2 ->
          drive willing true None (p_out s1 ++ c1 ++ parent_line child :: c2)
          = if decide (c2 = []) then Err (setup_error "guest ready before pid was reported")
            else Ok (Z.to_N child)
      end
  end.
Proof.
  split; [split; [vm_compute; reflexivity|by split_and!]|].
  apply (handshake cfg willing true); by split_and!.
Defined.

End Witness.
