(* ===== verification/Startup.v ===== *)
(** * The guest's start

    draug-guest/src/server.rs, [guest_main], [run] and [redirect_stdio], which
    setup's child becomes, and draug-guest/src/main.rs: from the socket and the
    line the host waits for to the accept loop.  The kernel answers every call
    as it likes; the calls and whether they succeeded are recorded.  Then the
    meeting with Setup.v and the host's drive loop. *)

From S2P Require Import Prelude Text Types Mountinfo Backend Setup SetupSpec Handshake.

(** ** The calls *)

Inductive gsys : Type -> Type :=
  | MountProc : gsys unit
  | RemoveFile (p : path) : gsys unit
  | BindSocket (p : path) : gsys unit
  | Println (line : string) : gsys unit   (* to stdout, with the flush *)
  | OpenLog (p : path) : gsys Z
  | OpenDevNull : gsys Z
  | Dup2 (fd target : Z) : gsys unit
  | SpawnReaper : gsys unit
  | Accept : gsys N
  | SpawnConn (stream : N) : gsys unit.

Class GuestKernel (K : Type) := g_run : forall A, gsys A -> K -> result Io.error A * K.
Arguments g_run {K _ A} c k.

(** A call, and what came of it. *)
Inductive event :=
  | Called {A : Type} (c : gsys A) (r : result Io.error A).

(** A call that fails ends [run] with an error; stdout that cannot be written
    and a thread that cannot be made are panics. *)
Inductive death := Fatal (message : string) | Panic.

(** How far the process is. *)
Inductive status := Serving | Exited (code : Z).

(** The code of a Rust process whose main thread panicked. *)
Definition PANIC : Z := 101.

Section guest.
Context `{GuestKernel K}.

Record guest := mkGuest { g_kernel : K; g_trace : list event }.

Definition G := ST guest death.

Definition ask {A} (c : gsys A) : G (result Io.error A) := fun g =>
  let '(r, k) := g_run c (g_kernel g) in (Ok r, mkGuest k (g_trace g ++ [Called c r])).

Definition must {A} (c : gsys A) : G A :=
  do! r := ask c in st_lift (map_err (fun e => Fatal (Io.message e)) r).

Definition or_panic {A} (c : gsys A) : G A := do! r := ask c in st_lift (map_err (fun _ => Panic) r).

Definition redirect_stdio (cfg : GuestConfig) : G unit :=
  do! log := must (OpenLog (gc_log_path cfg)) in
  do! devnull := must OpenDevNull in
  do! _ := must (Dup2 devnull 0) in
  do! _ := must (Dup2 log 1) in
  must (Dup2 log 2).

Definition accept_one : G unit :=
  do! conn := ask Accept in
  match conn with
  | Ok stream => or_panic (SpawnConn stream)
  | Err _ => st_ret tt   (* eprintln *)
  end.

(** [listener.incoming()] never ends: [rounds] calls of accept. *)
Fixpoint accept_loop (rounds : nat) : G unit :=
  match rounds with
  | O => st_ret tt
  | S rounds' => do! _ := accept_one in accept_loop rounds'
  end.

Definition mount_proc (cfg : GuestConfig) : G unit :=
  if gc_mount_proc cfg then
    do! r := ask MountProc in st_lift (map_err (fun e => Fatal ("mount /proc: " +:+ Io.message e)) r)
  else st_ret tt.

Definition listen (cfg : GuestConfig) : G unit :=
  do! _ := mount_proc cfg in
  do! _ := ask (RemoveFile (gc_socket_path cfg)) in
  do! _ := must (BindSocket (gc_socket_path cfg)) in
  or_panic (Println "ready").

Definition run (cfg : GuestConfig) (rounds : nat) : G unit :=
  do! _ := listen cfg in
  do! _ := redirect_stdio cfg in
  do! _ := or_panic SpawnReaper in
  accept_loop rounds.

(** What [guest_main] prints to stderr with its exit, if it does. *)
Definition guest_main (cfg : GuestConfig) (rounds : nat) (g : guest) : status * option string * guest :=
  match run cfg rounds g with
  | (Ok _, g') => (Serving, None, g')
  | (Err (Fatal e), g') => (Exited 1, Some ("draug-guest: fatal: " +:+ e), g')
  | (Err Panic, g') => (Exited PANIC, None, g')
  end.

(** draug-guest/src/main.rs: the configuration as an argument. *)
Definition main (from_str : string -> result string GuestConfig) (args : list string) (rounds : nat) (g : guest)
    : status * option string * guest :=
  match args !! 1%nat with
  | None => (Exited 2, Some "usage: draug-guest <guest-config-json>"%string, g)
  | Some arg =>
      match from_str arg with
      | Err e => (Exited 2, Some ("draug-guest: bad config: " +:+ e), g)
      | Ok cfg => guest_main cfg rounds g
      end
  end.

(** ** What a trace shows *)

(** The lines that went into the pipe to the host. *)
Definition line_of (e : event) : option string :=
  match e with Called (Println l) (Ok _) => Some l | _ => None end.
Definition printed : list event -> list string := omap line_of.

(** The connections, in order, and the handlers that were started. *)
Definition accepted_of (e : event) : option N :=
  match e with Called Accept (Ok n) => Some n | _ => None end.
Definition handled_of (e : event) : option N :=
  match e with Called (SpawnConn n) (Ok _) => Some n | _ => None end.
Definition accepted : list event -> list N := omap accepted_of.
Definition handled : list event -> list N := omap handled_of.

Definition bound (cfg : GuestConfig) : event := Called (BindSocket (gc_socket_path cfg)) (Ok tt).
Definition ready : event := Called (Println "ready") (Ok tt).
End guest.

(** ** The start *)

Definition silent (t : list event) : Prop := printed t = [] /\ accepted t = [] /\ handled t = [].

Lemma silent_app t t' : silent t -> silent t' -> silent (t ++ t').
Proof.
  unfold silent, printed, accepted, handled. rewrite !omap_app. intros (-> & -> & ->) (-> & -> & ->). done.
Qed.

Section start.
Context `{GuestKernel K}.
Implicit Types g : guest (K := K).

(** [m] makes silent calls only, and [Q] holds of them and of what it gives. *)
Definition does {A} (m : G (K := K) A) (Q : result death A -> list event -> Prop) : Prop :=
  forall g r g', m g = (r, g') -> exists t, g_trace g' = g_trace g ++ t /\ Q r t.

Lemma does_ret {A} (a : A) (Q : result death A -> list event -> Prop) : Q (Ok a) [] -> does (st_ret a) Q.
Proof. intros HQ g r g' [= <- <-]. exists []. by rewrite app_nil_r. Qed.

Lemma does_ask {A} (c : gsys A) Q : (forall r, Q (Ok r) [Called c r]) -> does (ask c) Q.
Proof. intros HQ g r g'. unfold ask. destruct (g_run c _) as [x k]. intros [= <- <-]. by eexists. Qed.

Lemma does_bind {A B} (m : G A) (k : A -> G B) P Q : does m P ->
  (forall e t, P (Err e) t -> Q (Err e) t) ->
  (forall a t, P (Ok a) t -> does (k a) (fun r t' => Q r (t ++ t'))) -> does (st_bind m k) Q.
Proof.
  intros Hm Herr Hk g r g' E. unfold st_bind in E. destruct (m g) as [[a|e] g1] eqn:Em.
  - destruct (Hm _ _ _ Em) as (t & Ht & HP). destruct (Hk a t HP _ _ _ E) as (t' & Ht' & HQ).
    exists (t ++ t'). by rewrite Ht', Ht, app_assoc.
  - injection E as <- <-. destruct (Hm _ _ _ Em) as (t & Ht & HP). eauto.
Qed.

Lemma does_weaken {A} (m : G A) P Q : does m P -> (forall r t, P r t -> Q r t) -> does m Q.
Proof. intros Hm HPQ g r g' E. destruct (Hm _ _ _ E) as (t & ? & ?). eauto. Qed.

Lemma does_must {A} (c : gsys A) Q : (forall a, Q (Ok a) [Called c (Ok a)]) ->
  (forall e, Q (Err (Fatal (Io.message e))) [Called c (Err e)]) -> does (must c) Q.
Proof.
  intros H1 H2 g r g'. unfold must, st_bind, ask. destruct (g_run c _) as [[a|e] k]; intros [= <- <-]; by eexists.
Qed.

Lemma does_or_panic {A} (c : gsys A) Q : (forall a, Q (Ok a) [Called c (Ok a)]) ->
  (forall e, Q (Err Panic) [Called c (Err e)]) -> does (or_panic c) Q.
Proof.
  intros H1 H2 g r g'. unfold or_panic, st_bind, ask.
  destruct (g_run c _) as [[a|e] k]; intros [= <- <-]; by eexists.
Qed.

(** What [listen] leaves: the socket, then the line; or neither. *)
Definition listened (cfg : GuestConfig) (r : result death unit) (t : list event) : Prop :=
  match r with
  | Ok _ => exists before, t = before ++ [bound cfg; ready] /\ silent before /\
              (gc_mount_proc cfg = true -> Called MountProc (Ok tt) ∈ before)
  | Err _ => silent t
  end.

Lemma does_listen cfg : does (listen cfg) (listened cfg).
Proof.
  unfold listen. apply (does_bind _ _ (fun r t => silent t /\
    (r = Ok tt -> gc_mount_proc cfg = true -> Called MountProc (Ok tt) ∈ t))).
  - unfold mount_proc. destruct (gc_mount_proc cfg); [|by apply does_ret].
    intros g r g'. unfold st_bind, ask. destruct (g_run MountProc _) as [[[]|e] k]; intros [= <- <-];
      eexists; (split; [done|]); (split; [done|]); [intros _ _; by apply list_elem_of_singleton|done].
  - by intros e t [? _].
  - intros [] t [Hs Hm]. eapply (does_bind _ _ (fun r t => silent t)); [by apply does_ask|by intros; apply silent_app|].
    intros _ t1 Hs1. eapply (does_bind _ _ (fun r t2 => match r with Ok _ => t2 = [bound cfg] | _ => silent t2 end)).
    + apply does_must; [by intros []|done].
    + intros e t2 Hs2. repeat apply silent_app; done.
    + intros _ t2 ->. apply does_or_panic.
      * intros []. exists (t ++ t1). split; [by rewrite <- !app_assoc|]. split; [by apply silent_app|].
        intros Hp. apply elem_of_app. left. auto.
      * intros e. repeat apply silent_app; done.
Qed.

(** The end of a run in trouble: nothing more is said, and at most the last
    connection has no handler. *)
Definition served (r : result death unit) (t : list event) : Prop :=
  printed t = [] /\
  match r with
  | Ok _ => handled t = accepted t
  | Err _ => handled t = accepted t \/ exists last, accepted t = handled t ++ [last]
  end.

Lemma served_app t r t' : printed t = [] -> handled t = accepted t -> served r t' -> served r (t ++ t').
Proof.
  unfold served, printed, accepted, handled. rewrite !omap_app. intros Hp Hh [Hp' Ht'].
  rewrite Hp, Hp', Hh. split; [done|]. destruct r; [by rewrite Ht'|].
  destruct Ht' as [->|[last ->]]; [by left|right]. exists last. by rewrite app_assoc.
Qed.

Lemma does_accept_loop rounds : does (accept_loop rounds) served.
Proof.
  induction rounds as [|rounds IH]; [by apply does_ret|]. cbn [accept_loop].
  apply (does_bind _ _ served).
  - unfold accept_one. eapply (does_bind _ _ (fun r t => exists c, r = Ok c /\ t = [Called Accept c])).
    + apply does_ask. by eexists.
    + by intros e t (? & ? & _).
    + intros ? t (c & [= ->] & ->). destruct c as [n|e]; [|by apply does_ret].
      apply does_or_panic; [by intros []|]. intros e. split; [done|]. right. by exists n.
  - done.
  - intros [] t [Hp Ht]. eapply does_weaken; [apply IH|]. intros r t'. by apply served_app.
Qed.

Lemma does_redirect cfg : does (redirect_stdio cfg) (fun _ t => silent t).
Proof.
  unfold redirect_stdio.
  repeat (eapply (does_bind _ _ (fun _ t => silent t));
    [by apply does_must|done|intros ? ? ?; eapply does_weaken; [|intros ? ?; apply silent_app; eassumption]]).
  by apply does_must.
Qed.

Definition started (cfg : GuestConfig) (r : result death unit) (t : list event) : Prop :=
  (exists before after, t = before ++ bound cfg :: ready :: after /\ silent before /\
     (gc_mount_proc cfg = true -> Called MountProc (Ok tt) ∈ before) /\ served r after) \/
  (silent t /\ exists d, r = Err d).

Lemma served_silent e t : silent t -> served (Err e) t.
Proof. intros (? & Ha & Hh). split; [done|]. left. congruence. Qed.

Lemma does_run cfg rounds : does (run cfg rounds) (started cfg).
Proof.
  unfold run. eapply does_bind; [apply does_listen| |].
  - intros e t Hs. right. eauto.
  - intros _ t (before & -> & Hb & Hm). eapply does_weaken with (P := served).
    + eapply (does_bind _ _ (fun _ t => silent t)); [apply does_redirect|intros; by apply served_silent|].
      intros _ t1 Ht1. eapply (does_bind _ _ (fun _ t => silent t)).
      * by apply does_or_panic.
      * intros e t2 Ht2. by apply served_silent, silent_app.
      * intros _ t2 Ht2. eapply does_weaken; [apply does_accept_loop|]. intros r t3 H3.
        rewrite app_assoc. pose proof (silent_app _ _ Ht1 Ht2) as (? & ? & ?).
        apply served_app; [done|congruence|done].
    + intros r t1 H1. left. exists before, t1. split_and!; [by rewrite <- app_assoc|done..].
Qed.

Lemma started_lines cfg before after : silent before ->
  printed (before ++ bound cfg :: ready :: after) = "ready"%string :: printed after /\
  accepted (before ++ bound cfg :: ready :: after) = accepted after /\
  handled (before ++ bound cfg :: ready :: after) = handled after.
Proof.
  intros (Hp & Ha & Hh). unfold printed, accepted, handled in *. by rewrite !omap_app, Hp, Ha, Hh.
Qed.

(** What the calls of a guest that came as far as [st] show. *)
Record well_started (cfg : GuestConfig) (st : status) (t : list event) : Prop := {
  ws_lines : printed t = ["ready"%string] \/ printed t = [];
  ws_ready : printed t = ["ready"%string] -> exists before after, t = before ++ bound cfg :: ready :: after /\
    silent before /\ (gc_mount_proc cfg = true -> Called MountProc (Ok tt) ∈ before);
  ws_serving : st = Serving -> printed t = ["ready"%string] /\ handled t = accepted t;
  ws_exited : st <> Serving -> exists code, st = Exited code /\ code <> 0 /\
    (handled t = accepted t \/ exists last, accepted t = handled t ++ [last]);
}.

(** The line the host waits for is the truth.  Nothing but [ready] goes into
    the pipe to the host, once at most; before it the socket was bound where
    the host will look for it, and /proc was mounted where that was asked for.
    A guest that serves said it and has given every connection it accepted one
    handler, in order, whatever became of other calls of accept; one that ended
    says so with its exit status. *)
Lemma guest_main_run cfg rounds g st err g' : guest_main cfg rounds g = (st, err, g') ->
  exists t, g_trace g' = g_trace g ++ t /\ well_started cfg st t.
Proof.
  unfold guest_main. destruct (run cfg rounds g) as [r g1] eqn:E. intros Est.
  destruct (does_run cfg rounds _ _ _ E) as (t & Ht & Hr). exists t.
  assert (g' = g1 /\ (st = Serving <-> r = Ok tt) /\ (st <> Serving -> exists code, st = Exited code /\ code <> 0))
    as (-> & Hst & Hcode).
  { destruct r as [[]|[|]]; injection Est as <- _ <-; split_and!; try done; intros _; by eexists. }
  split; [done|]. destruct Hr as [(before & after & -> & Hb & Hm & Hp & Hs)|((Hp & Ha & Hh) & d & ->)].
  - destruct (started_lines cfg before after Hb) as (El & Ea & Eh). split; rewrite ?El, ?Ea, ?Eh, ?Hp.
    + by left.
    + intros _. by exists before, after.
    + intros Hs'. apply Hst in Hs' as ->. done.
    + intros Hn. destruct (Hcode Hn) as (code & -> & Hc). exists code. split_and!; [done..|].
      destruct r; [by left|done].
  - split; rewrite ?Hp, ?Ha, ?Hh; [by right|done| |].
    + intros Hs'. by apply Hst in Hs'.
    + intros Hn. destruct (Hcode Hn) as (code & -> & Hc). exists code. split_and!; [done..|by left].
Qed.
End start.

(** ** From spawn to the guest *)

Section boot.
Context {K : Type} {Hk : Kernel K} {KG : Type} {Hg : GuestKernel KG} (cfg : SetupConfig).
Context (r : setup_run) (has_cgroup : bool) (Hr : host_willing r has_cgroup).

Lemma run_chatter k root child s1 : Setup.run cfg (mkProc (K := K) k []) = (Ok (root, child), s1) ->
  Forall chatter (p_out s1).
Proof.
  unfold Setup.run. destruct (run_inner cfg _) as [[?|?] s] eqn:E; intros [= -> ->].
  by destruct (run_inner_prints _ _ _ _ E) as (t & -> & ?).
Qed.

Lemma child_chatter k root gcfg s2 : child_main cfg root (mkProc (K := K) k []) = (Ok gcfg, s2) ->
  gcfg = guest_config cfg /\ Forall chatter (p_out s2).
Proof.
  unfold child_main. destruct (mount_proc_and_pivot root _ _) as [[?|?] s] eqn:E; intros [= <- <-].
  split; [done|]. by destruct (pivot_prints _ _ _ _ _ E) as (t & -> & ?).
Qed.

(** The lines of the parent and of the child, with the guest's at the end. *)
Lemma drive_merged child out1 out2 said c1 c2 : 0 <= child < 2 ^ 32 ->
  Forall chatter out1 -> Forall chatter out2 -> said = [] \/ said = ["ready"%string] ->
  out2 ++ said = c1 ++ c2 ->
  drive r has_cgroup None (out1 ++ c1 ++ parent_line child :: c2) =
    if decide (said = []) then drive r has_cgroup None []
    else if decide (c2 = []) then Err (setup_error "guest ready before pid was reported")
    else Ok (Z.to_N child).
Proof.
  intros Hc H1 H2 Hsaid E. rewrite drive_chatter by done. destruct Hsaid as [->| ->].
  - rewrite app_nil_r in E. rewrite decide_True by done. rewrite E in H2. apply Forall_app in H2 as [? ?].
    rewrite drive_chatter, drive_pid by done. rewrite <- (app_nil_r c2). by rewrite drive_chatter.
  - rewrite decide_False by done. destruct c2 as [|x c2 _] using rev_ind.
    + rewrite app_nil_r in E. subst c1. rewrite decide_True by done.
      by rewrite <- app_assoc, drive_chatter by done.
    + rewrite decide_False by (by destruct c2). rewrite app_assoc in E.
      apply app_inj_tail in E as [Ht <-]. rewrite Ht in H2. apply Forall_app in H2 as [? ?].
      rewrite drive_chatter, drive_pid by done. by rewrite drive_chatter.
Qed.

Lemma said_ready (t : list event) : printed t = ["ready"%string] \/ printed t = [] ->
  printed t = [] \/ printed t = ["ready"%string].
Proof. tauto. Qed.

(** C23: A sandbox that is reported ready has a guest that listens.  Setup, its
    child and the guest the child becomes write to one pipe, in whatever order;
    what the host concludes is right: it takes the pid of the fork only when
    the guest of that pid has bound the socket in its run directory, and a
    guest that ended before is reported as the end of the setup process.  Only
    a guest that is faster than the parent's line is turned down though it
    listens. *)
Theorem boot k root child s1 gcfg s2 rounds g st err g' c1 c2 :
  Setup.run cfg (mkProc (K := K) k []) = (Ok (root, child), s1) -> 0 <= child < 2 ^ 32 ->
  child_main cfg root (mkProc (p_kernel s1) []) = (Ok gcfg, s2) ->
  g_trace g = [] -> guest_main (K := KG) gcfg rounds g = (st, err, g') ->
  p_out s2 ++ printed (g_trace g') = c1 ++ c2 ->
  match drive r has_cgroup None (p_out s1 ++ c1 ++ parent_line child :: c2) with
  | Ok pid => pid = Z.to_N child /\ exists before after,
      g_trace g' = before ++ Called (BindSocket "/run/draug/guest.sock") (Ok tt) :: ready :: after
  | Err e => (exists code, st = Exited code /\ code <> 0 /\ drive r has_cgroup None [] = Err e) \/
      c2 = [] /\ e = setup_error "guest ready before pid was reported"
  end.
Proof.
  intros E1%run_chatter Hc [-> E2]%child_chatter Hg0 Eg Hsplit.
  destruct (guest_main_run _ _ _ _ _ _ Eg) as (t & Ht & [Hp Hready Hserves Hcode]).
  rewrite Hg0 in Ht. simpl in Ht. rewrite Ht in Hsplit |- *.
  rewrite (drive_merged _ _ _ _ _ _ Hc E1 E2 (said_ready _ Hp) Hsplit). repeat case_decide.
  - destruct (drive r has_cgroup None []) as [pid|e] eqn:Ed; [by simpl in Ed; destruct (sr_read_error r)|].
    left. destruct st as [|code]; [by destruct (Hserves eq_refl) as [Hs _]; rewrite Hs in *|].
    destruct (Hcode ltac:(done)) as (? & [= <-] & ? & _).
    by exists code.
  - by right.
  - split; [done|]. destruct Hp as [Hp|Hp]; [|done]. destruct (Hready Hp) as (before & after & -> & _).
    by exists before, after.
Qed.
End boot.

(** ** Witnesses *)
Module Witness.
#[local] Existing Instance SetupSpec.Witness.kernel.

(** A kernel whose accept gives 1, an error, 2, ..., and whose log may be
    missing; the state counts. *)
Definition answer (log : bool) A (c : gsys A) (n : N) : result Io.error A * N :=
  match c in gsys A' return result Io.error A' * N with
  | OpenLog _ => (if log then Ok 5 else Err (Io.other "no log"), n)
  | OpenDevNull => (Ok 6, n)
  | Accept => (if (n =? 2)%N then Err (Io.other "aborted") else Ok n, (n + 1)%N)
  | MountProc | RemoveFile _ | BindSocket _ | Println _ | Dup2 _ _ | SpawnReaper | SpawnConn _ => (Ok tt, n)
  end.

Definition gcfg : GuestConfig := guest_config Handshake.Witness.cfg.
Definition booted (log : bool) : status * option string * guest :=
  guest_main (H := answer log) gcfg 3 (mkGuest 1%N []).

Lemma guest_main_example : (booted true).1.1 = Serving /\
  exists t, g_trace (booted true).2 = [] ++ t /\ well_started gcfg Serving t.
Proof.
  split; [reflexivity|]. apply (guest_main_run (H := answer true) gcfg 3 (mkGuest 1%N []) Serving None (booted true).2).
  vm_compute. reflexivity.
Qed.

Example two_handlers : handled (g_trace (booted true).2) = [1; 3]%N.
Proof. by vm_compute. Qed.

Definition host := Setup.run Handshake.Witness.cfg (mkProc Handshake.Witness.host []).
Definition child := child_main Handshake.Witness.cfg "/s/a1/root" (mkProc (p_kernel host.2) []).

Lemma accepted_pid :
  drive Handshake.Witness.willing true None (p_out host.2 ++ [] ++ parent_line 77 :: ["ready"%string])
  = Ok 77%N.
Proof. vm_compute. reflexivity. Qed.

Lemma boot_witness : exists before after,
  g_trace (booted true).2 = before ++ Called (BindSocket "/run/draug/guest.sock") (Ok tt) :: ready :: after.
Proof.
  pose proof (boot (Hg := answer true) Handshake.Witness.cfg Handshake.Witness.willing true ltac:(by split_and!)
    Handshake.Witness.host "/s/a1/root" 77 host.2 gcfg child.2 3 (mkGuest 1%N []) Serving None (booted true).2
    [] ["ready"%string]) as B.
  rewrite accepted_pid in B. apply B.
  - vm_compute. reflexivity.
  - split; vm_compute; congruence.
  - vm_compute. reflexivity.
  - reflexivity.
  - vm_compute. reflexivity.
  - vm_compute. reflexivity.
Defined.

(** The line comes before the log is opened: a guest that said [ready] may be
    gone. *)
Example ready_and_gone : (booted false).1.1 = Exited 1 /\ printed (g_trace (booted false).2) = ["ready"%string].
Proof. by vm_compute. Qed.

End Witness.
