(* ===== verification/Reexec.v ===== *)
(** * One binary, five roles

    draug-ns/src/linux/reexec.rs, [maybe_run], and linux/mod.rs,
    [userns_available]: what a process of this binary does, from its
    environment, and the environments that backend.rs and the probe start it
    with. *)

From S2P Require Import Prelude Text Types Mountinfo Setup Helper.

Definition REEXEC_ENV : string := "DRAUG_REEXEC".
Definition CONFIG_ENV : string := "DRAUG_SETUP_CONFIG".
Definition CLEANUP_DIR_ENV : string := "DRAUG_CLEANUP_DIR".
Definition COPY_SRC_ENV : string := "DRAUG_COPY_SRC".
Definition COPY_DST_ENV : string := "DRAUG_COPY_DST".

Definition MODE_SETUP : string := "setup".
Definition MODE_PROBE : string := "probe".
Definition MODE_CLEANUP : string := "cleanup".
Definition MODE_COPY : string := "copy".

(** The environment, as bytes. *)
Notation environ := (gmap string string).

Definition unicode (s : string) : bool := utf8_valid (bytes_of_string s).

(** [std::env::var] and [var_os] *)
Inductive var_error := NotPresent | NotUnicode.
Definition var_os (k : string) (env : environ) : option string := env !! k.
Definition var (k : string) (env : environ) : result var_error string :=
  match env !! k with
  | None => Err NotPresent
  | Some v => if unicode v then Ok v else Err NotUnicode
  end.

(** serde_json, on a [SetupConfig]: it writes a path only when that is
    Unicode, and reads back what it wrote. *)
Class ConfigJson := {
  to_string : SetupConfig -> result string string;
  from_str : string -> result string SetupConfig;
}.
Class ConfigJsonLaws `{ConfigJson} := {
  config_text : forall cfg, unicode (sc_state_dir cfg) = true -> unicode (sc_project_dir cfg) = true ->
    exists j, to_string cfg = Ok j;
  config_unicode : forall cfg j, to_string cfg = Ok j -> unicode j = true;
  config_roundtrip : forall cfg j, to_string cfg = Ok j -> from_str j = Ok cfg;
}.

(** What a process is for: the rest of [main], setup, one of the two helpers
    with its arguments, or an exit with what it prints. *)
Inductive role :=
  | Host
  | SetupProcess (cfg : SetupConfig)
  | CleanupHelper (dir : string)
  | CopyHelper (src dst : string)
  | Exits (code : Z) (out err : list string).

Section reexec.
Context `{ConfigJson}.
(** [Display] of a [VarError], [Debug] of a [String]. *)
Context (var_message : var_error -> string) (str_debug : string -> string).
(** What unshare(CLONE_NEWUSER) answers: the text of its error, if any. *)
Context (unshare : option string).

Definition probe_text (e : string) : string :=
  "unshare(CLONE_NEWUSER) failed: " +:+ e +:+
  ". Unprivileged user namespaces appear to be disabled " +:+
  "(check `sysctl kernel.unprivileged_userns_clone` on Debian-family kernels, " +:+
  "`sysctl user.max_user_namespaces`, and any seccomp/AppArmor policy of the containing environment).".

Definition setup_role (env : environ) : role :=
  match (let? j := map_err var_message (var CONFIG_ENV env) in from_str j) with
  | Ok cfg => SetupProcess cfg
  | Err e => Exits 1 ["err bad setup config: " +:+ e] []
  end.

Definition maybe_run (env : environ) : role :=
  match var REEXEC_ENV env with
  | Err _ => Host
  | Ok mode =>
      if decide (mode = MODE_SETUP) then setup_role env
      else if decide (mode = MODE_PROBE) then
        match unshare with
        | None => Exits 0 [] []
        | Some e => Exits 3 [] [probe_text e]
        end
      else if decide (mode = MODE_CLEANUP) then
        CleanupHelper (match var CLEANUP_DIR_ENV env with Ok d => d | Err _ => EmptyString end)
      else if decide (mode = MODE_COPY) then
        CopyHelper (default EmptyString (var_os COPY_SRC_ENV env)) (default EmptyString (var_os COPY_DST_ENV env))
      else Exits 2 [] ["draug-ns: unknown re-exec mode " +:+ str_debug mode]
  end.

(** ** The environments the processes are started with *)

Definition setup_env (cfg : SetupConfig) (env : environ) : result Error environ :=
  let? cfg_json := map_err (fun e => InvalidSpec ("unserializable spec: " +:+ e)) (to_string cfg) in
  Ok (<[CONFIG_ENV := cfg_json]> (<[REEXEC_ENV := MODE_SETUP]> env)).
Definition copy_env (src dst : path) (env : environ) : environ :=
  <[COPY_DST_ENV := dst]> (<[COPY_SRC_ENV := src]> (<[REEXEC_ENV := MODE_COPY]> env)).
Definition cleanup_env (dir : path) (env : environ) : environ :=
  <[CLEANUP_DIR_ENV := dir]> (<[REEXEC_ENV := MODE_CLEANUP]> env).
Definition probe_env (env : environ) : environ := <[REEXEC_ENV := MODE_PROBE]> env.

(** What a child that exits has written to a stream. *)
Definition text_of (lines : list string) : string := foldr (fun l t => l +:+ String "010" t) EmptyString lines.

(** [userns_available]: [started] is the error of starting the probe. *)
Definition userns_available (started : option string) (env : environ) : result string unit :=
  match started with
  | Some e => Err ("failed to re-exec self for probe: " +:+ e)
  | None =>
      match maybe_run (probe_env env) with
      | Exits code _ err => if decide (code = 0) then Ok tt else Err (str_trim (str_lossy (text_of err)))
      | _ => Err EmptyString
      end
  end.

(** The work of the helpers, for Helper.v. *)
Definition helper_job (copied : result Io.error N) (removed : option Io.error) (r : role) : option job :=
  match r with
  | CleanupHelper dir => Some (cleanup_job dir unshare removed)
  | CopyHelper src dst => Some (copy_job src dst unshare copied)
  | _ => None
  end.

(** ** The roles *)

Lemma run_mode mode env : unicode mode = true -> var REEXEC_ENV (<[REEXEC_ENV := mode]> env) = Ok mode.
Proof. intros Hu. unfold var. by rewrite lookup_insert_eq, Hu. Qed.

Lemma var_other k k' v env : k <> k' -> var k (<[k' := v]> env) = var k env.
Proof. intros Hk. unfold var. by rewrite lookup_insert_ne. Qed.

Lemma var_here k v env : unicode v = true -> var k (<[k := v]> env) = Ok v.
Proof. intros Hu. unfold var. by rewrite lookup_insert_eq, Hu. Qed.

Lemma maybe_run_probe env : maybe_run (probe_env env) =
  match unshare with None => Exits 0 [] [] | Some e => Exits 3 [] [probe_text e] end.
Proof. unfold maybe_run, probe_env. by rewrite run_mode. Qed.

(** C38: Every process plays the role it was started for, with the arguments it
    was given, whatever else is in the environment it inherits: setup has the
    very configuration that [do_spawn] wrote, if it was written, as it is when
    the state and project directories are Unicode; the copy helper has both
    directories byte for byte, the cleanup helper the directory - when it is
    Unicode; for any other it has none, and refuses -, the probe exits and the
    caller learns whether unshare worked; and a process that nobody started
    this way is an ordinary one. *)
Theorem reexec_roles `{!ConfigJsonLaws} (env : environ) cfg src dst dir copied removed :
  (forall env', setup_env cfg env = Ok env' -> maybe_run env' = SetupProcess cfg) /\
  (unicode (sc_state_dir cfg) = true -> unicode (sc_project_dir cfg) = true ->
   exists env', setup_env cfg env = Ok env') /\
  helper_job copied removed (maybe_run (copy_env src dst env)) = Some (copy_job src dst unshare copied) /\
  helper_job copied removed (maybe_run (cleanup_env dir env)) =
    Some (cleanup_job (if unicode dir then dir else EmptyString) unshare removed) /\
  (unicode dir = false ->
   exists j, helper_job copied removed (maybe_run (cleanup_env dir env)) = Some j /\
     bad_args j = Some "cleanup: no directory given"%string) /\
  (userns_available None env = Ok tt <-> unshare = None) /\
  (env !! REEXEC_ENV = None -> maybe_run env = Host).
Proof.
  assert (helper_job copied removed (maybe_run (cleanup_env dir env)) =
    Some (cleanup_job (if unicode dir then dir else EmptyString) unshare removed)) as Hclean.
  { unfold maybe_run, cleanup_env. rewrite var_other, run_mode by done. rewrite !decide_False by done.
    rewrite decide_True by done. unfold var. rewrite lookup_insert_eq. by destruct (unicode dir). }
  split_and!.
  - intros env' Henv. unfold setup_env in Henv. destruct (to_string cfg) as [j|] eqn:Hj; [|done].
    injection Henv as <-. unfold maybe_run. rewrite var_other, run_mode by done. rewrite decide_True by done.
    unfold setup_role. rewrite var_here by by apply (config_unicode cfg). cbn [map_err].
    by rewrite (config_roundtrip _ _ Hj).
  - intros Hs Hp. destruct (config_text cfg Hs Hp) as (j & Hj). unfold setup_env. rewrite Hj. by eexists.
  - unfold maybe_run, copy_env. rewrite !var_other, run_mode by done. rewrite !decide_False by done.
    rewrite decide_True by done. unfold var_os. rewrite lookup_insert_eq.
    rewrite lookup_insert_ne, lookup_insert_eq by done. done.
  - done.
  - intros Hu. rewrite Hclean, Hu. by eexists.
  - unfold userns_available. rewrite maybe_run_probe. by destruct unshare.
  - intros Hn. unfold maybe_run, var. by rewrite Hn.
Qed.

End reexec.

(** ** A configuration as text *)
Module Witness.

Fixpoint bits (p : positive) : string :=
  match p with xH => EmptyString | xO p => String "0" (bits p) | xI p => String "1" (bits p) end.
Fixpoint of_bits (s : string) : positive :=
  match s with
  | EmptyString => xH
  | String a s' => if decide (a = "1"%char) then xI (of_bits s') else xO (of_bits s')
  end.

Definition fields (c : SetupConfig) :=
  (sc_id c, sc_state_dir c, sc_project_dir c, sc_hostname c, sc_env c,
   (sc_network c, sc_host_is_root c, sc_allow_host_proc_fallback c)).
Definition of_fields x : SetupConfig :=
  let '(i, s, p, h, e, (n, r, a)) := x in mkSetupConfig i s p h e n r a.

Instance text : ConfigJson := {
  to_string c :=
    if unicode (sc_state_dir c) && unicode (sc_project_dir c) then Ok (bits (encode (fields c)))
    else Err "path contains invalid UTF-8 characters"%string;
  from_str s := match decode (of_bits s) with Some x => Ok (of_fields x) | None => Err "bad"%string end;
}.

Lemma of_bits_bits p : of_bits (bits p) = p.
Proof. induction p as [p IH|p IH|]; simpl; [by rewrite IH..|done]. Qed.

Lemma bits_unicode p : unicode (bits p) = true.
Proof.
  unfold unicode, utf8_valid. induction p as [p IH|p IH|]; [..|done]; exact IH.
Qed.

Instance text_laws : ConfigJsonLaws.
Proof.
  split; simpl.
  - intros c -> ->. by eexists.
  - intros c j Hj. destruct (_ && _); [|done]. injection Hj as <-. apply bits_unicode.
  - intros c j Hj. destruct (_ && _); [|done]. injection Hj as <-.
    rewrite of_bits_bits, decode_encode. by destruct c.
Qed.

Definition cfg : SetupConfig := mkSetupConfig "a1" "/s/a1" "/p" "box" [("A", "1")]%string false false false.

(** The second directory is not Unicode. *)
Definition raw_dir : path := "/s/" +:+ String "255"%char EmptyString.
Definition shell_env : environ := {[ "PATH" := "/bin"; "DRAUG_REEXEC" := "probe" ]}%string.

Lemma reexec_roles_witness :
  (exists env', setup_env cfg shell_env = Ok env' /\
     maybe_run (fun _ => EmptyString) (fun s => s) None env' = SetupProcess cfg) /\
  helper_job None (Ok 0%N) None (maybe_run (fun _ => EmptyString) (fun s => s) None (cleanup_env raw_dir shell_env)) =
    Some (cleanup_job EmptyString None None).
Proof.
  destruct (reexec_roles (fun _ => EmptyString) (fun s => s) None shell_env cfg "/s" "/d" raw_dir (Ok 0%N) None)
    as (Hrole & Htext & _ & Hclean & _).
  split; [|exact Hclean]. destruct Htext as (env' & Henv); [reflexivity..|].
  exists env'. split; [exact Henv|by apply Hrole].
Defined.

End Witness.
