(* ===== verification/BackendSpec.v ===== *)
(** * What the backend's operations promise

    Spawn, destroy, snapshot and restore of Backend.v against the abstract
    registry and the directories: what a success leaves behind, and what a
    failure takes back. *)

From S2P Require Import Prelude Text Types FsTree Registry RegistrySpec Backend.

(** ** Stepping through the monad *)

Lemma st_bind_inv {S E A C} (m : ST S E A) (k : A -> ST S E C) s r s' : st_bind m k s = (r, s') ->
  (exists e, m s = (Err e, s') /\ r = Err e) \/ (exists a s1, m s = (Ok a, s1) /\ k a s1 = (r, s')).
Proof. unfold st_bind. destruct (m s) as [[a|e] s1]; [eauto|]. intros [= <- <-]. eauto. Qed.

(** One fault consumed. *)
Definition tick (w : world) : world :=
  mkWorld (w_db w) (w_dirs w) (w_snapshots w) (w_guests w) (w_cgroups w) (tail (w_faults w))
    (w_random w) (w_setups w) (w_dropped w).

Lemma sys_inv {A} (f : Io.error -> Error) (a : A) eff w r w' : sys f a eff w = (r, w') ->
  (exists e, r = Err (f e) /\ w' = tick w) \/ (r = Ok a /\ w' = eff (tick w)).
Proof.
  unfold sys, tick. destruct (w_faults w) as [|[e|] fs]; intros [= <- <-]; eauto.
Qed.

Lemma sys_Ok {A} (f : Io.error -> Error) (a b : A) eff w w' : sys f a eff w = (Ok b, w') ->
  b = a /\ w' = eff (tick w).
Proof. intros [(e & ? & ?)|[? ?]]%sys_inv; naive_solver. Qed.

Lemma sys_Err {A} (f : Io.error -> Error) (a : A) e eff w w' : sys f a eff w = (Err e, w') -> w' = tick w.
Proof. intros [(e' & ? & ?)|[? ?]]%sys_inv; naive_solver. Qed.

(** Only the schedule of failures has moved on. *)
Definition ticked (w w' : world) : Prop := exists fs,
  w' = mkWorld (w_db w) (w_dirs w) (w_snapshots w) (w_guests w) (w_cgroups w) fs (w_random w) (w_setups w)
    (w_dropped w).

(** Work that was done, perhaps by a helper, or not at all. *)
Definition done_or_not (eff : world -> world) (w : world) (r : result Error unit) (w' : world) : Prop :=
  match r with
  | Ok _ => exists w1, ticked w w1 /\ w' = eff w1
  | Err _ => ticked w w'
  end.

Lemma ticked_tick w : ticked w (tick w).
Proof. by eexists. Qed.

Lemma ticked_trans w1 w2 w3 : ticked w1 w2 -> ticked w2 w3 -> ticked w1 w3.
Proof. intros [fs1 ->] [fs2 ->]. by eexists. Qed.

Lemma sys_done (f : Io.error -> Error) eff w r w' : sys f tt eff w = (r, w') -> done_or_not eff w r w'.
Proof.
  destruct r as [[]|e]; [intros [_ ->]%sys_Ok; exists (tick w)|intros ->%sys_Err; simpl];
    [split; [|done]|]; apply ticked_tick.
Qed.

Lemma done_later eff w w1 r w' : ticked w w1 -> done_or_not eff w1 r w' -> done_or_not eff w r w'.
Proof.
  intros Ht. destruct r; simpl; [|by apply ticked_trans].
  intros (w2 & Ht2 & ->). exists w2. split; [by eapply ticked_trans|done].
Qed.

Lemma copy_layer_done eff w r w' : copy_layer eff w = (r, w') -> done_or_not eff w r w'.
Proof.
  unfold copy_layer. destruct (sys _ tt eff w) as [x w1] eqn:E1. pose proof (sys_done _ _ _ _ _ E1) as Hd.
  destruct x as [[]|[]]; try by intros [= <- <-].
  case_decide; [|by intros [= <- <-]]. intros E%sys_done. eapply done_later; [exact Hd|exact E].
Qed.

Lemma remove_state_dir_done d w r w' : remove_state_dir d w = (r, w') -> done_or_not (drop_dir d) w r w'.
Proof.
  unfold remove_state_dir. destruct (sys _ tt (drop_dir d) w) as [x w1] eqn:E1.
  pose proof (sys_done _ _ _ _ _ E1) as Hd.
  destruct x as [[]|[]]; try by intros [= <- <-].
  case_decide; [intros [= <- <-]; by exists w1|].
  case_decide; [|by intros [= <- <-]]. intros E%sys_done. eapply done_later; [exact Hd|exact E].
Qed.

Lemma reg_inv {A} (f : db -> result Error A * db) w r w' : reg f w = (r, w') ->
  exists d, f (w_db w) = (r, d) /\ w' = set_db d w.
Proof. unfold reg. destruct (f (w_db w)) as [r0 d]. intros [= <- <-]. eauto. Qed.

(** No failure is scheduled any more. *)
Definition calm (w : world) : Prop := w_faults w = [] /\ db_faults (w_db w) = [].

Lemma sys_calm {A} (f : Io.error -> Error) (a : A) eff w : calm w -> sys f a eff w = (Ok a, eff w).
Proof.
  intros [Hf _]. unfold sys. rewrite Hf. destruct w. simpl in *. by subst.
Qed.

Lemma copy_layer_calm eff w : calm w -> copy_layer eff w = (Ok tt, eff w).
Proof. intros Hc. unfold copy_layer. by rewrite sys_calm. Qed.

Lemma remove_state_dir_calm d w : calm w -> remove_state_dir d w = (Ok tt, drop_dir d w).
Proof. intros Hc. unfold remove_state_dir. by rewrite sys_calm. Qed.

Lemma calm_next_fault w : calm w -> next_fault (w_db w) = None.
Proof. intros [_ H]. unfold next_fault. by rewrite H. Qed.

Lemma settle_calm w : calm w -> settle (w_db w) = w_db w.
Proof. intros [_ H]. unfold settle. rewrite H. destruct (w_db w). simpl in *. by subst. Qed.

Section spec.
Context `{SqlEngine, LimitsJsonLaws, CgroupBase}.

Lemma abstract_tables d d' : db_sandbox d' = db_sandbox d -> db_snapshot d' = db_snapshot d ->
  abstract d' = abstract d.
Proof. intros Hs Hn. unfold abstract. by rewrite Hs, Hn. Qed.

Lemma wf_tables d d' : db_sandbox d' = db_sandbox d -> db_snapshot d' = db_snapshot d -> wf d -> wf d'.
Proof. intros Hs Hn []. split; rewrite ?Hs, ?Hn; done. Qed.

Lemma get_sandbox_tables k d r d' : get_sandbox k d = (r, d') ->
  db_sandbox d' = db_sandbox d /\ db_snapshot d' = db_snapshot d.
Proof.
  unfold get_sandbox. destruct (next_fault d) as [[n m]|] eqn:Hf;
    [erewrite statement_fault by exact Hf|rewrite (statement_run _ _ Hf)].
  - by intros [= <- <-].
  - by destruct (query_row _ _); intros [= <- <-].
Qed.

Lemma get_snapshot_tables k d r d' : get_snapshot k d = (r, d') ->
  db_sandbox d' = db_sandbox d /\ db_snapshot d' = db_snapshot d.
Proof.
  unfold get_snapshot. destruct (next_fault d) as [[n m]|] eqn:Hf;
    [erewrite statement_fault by exact Hf|rewrite (statement_run _ _ Hf)].
  - by intros [= <- <-].
  - by destruct (query_row _ _); intros [= <- <-].
Qed.

Lemma get_sandbox_Ok k d sb d' : wf d -> get_sandbox k d = (Ok sb, d') ->
  s_sandboxes (abstract d) !! sb_id sb = Some sb /\ (sb_id sb = k \/ sb_name sb = Some k).
Proof.
  intros Hd Hg. destruct (next_fault d) as [[n m]|] eqn:Hf.
  - unfold get_sandbox in Hg. erewrite statement_fault in Hg by exact Hf. done.
  - by apply (get_sandbox_lookup _ _ _ _ Hd Hf Hg).
Qed.

Lemma get_sandbox_NotFound k d kind i d' : wf d -> get_sandbox k d = (Err (NotFound kind i), d') ->
  forall id sb, s_sandboxes (abstract d) !! id = Some sb -> id <> k /\ sb_name sb <> Some k.
Proof.
  intros Hd Hg. destruct (next_fault d) as [[n m]|] eqn:Hf.
  - unfold get_sandbox in Hg. erewrite statement_fault in Hg by exact Hf. done.
  - by apply (get_sandbox_lookup _ _ _ _ Hd Hf Hg).
Qed.

Lemma get_snapshot_Ok k d sn d' : wf d -> get_snapshot k d = (Ok sn, d') ->
  s_snapshots (abstract d) !! sn_id sn = Some sn /\ (sn_id sn = k \/ sn_name sn = k).
Proof.
  intros Hd. unfold get_snapshot. destruct (next_fault d) as [[n m]|] eqn:Hf;
    [erewrite statement_fault by exact Hf; done|rewrite (statement_run _ _ Hf)].
  destruct (query_row _ _) as [q|] eqn:Hq; [|done]. intros [= <- <-].
  apply head_scan_filter in Hq as [Hrow Hk]. rewrite orb_true_iff, !bool_decide_eq_true in Hk.
  split; [|done]. apply abstract_snapshot; eauto.
Qed.

(** What an operation of the abstract registry makes of it when it succeeds. *)
Lemma spec_update_ok f id st s s' : spec_step f (OUpdateState id st) s (Ok tt) s' -> exists sb,
  s_sandboxes s !! id = Some sb /\
  s' = mkSpecState (<[id := with_state st sb]> (s_sandboxes s)) (s_snapshots s).
Proof. inversion 1; subst; eauto. Qed.

Lemma spec_remove_ok f id s s' : spec_step f (ORemoveSandbox id) s (Ok tt) s' ->
  s' = mkSpecState (delete id (s_sandboxes s)) (orphaned id <$> s_snapshots s).
Proof. by inversion 1. Qed.

Lemma spec_insert_ok f sb s s' : spec_step f (OInsertSandbox sb) s (Ok tt) s' ->
  s_sandboxes s !! sb_id sb = None /\
  s' = mkSpecState (<[sb_id sb := stored_sandbox sb]> (s_sandboxes s)) (s_snapshots s).
Proof.
  inversion 1 as [| | |? ? l Hl Hnew| | | | | | | | |]; subst. split; [|done].
  apply eq_None_not_Some. intros Hs. apply Hnew. by left.
Qed.

(** ** Frames: what a part of an operation leaves alone *)

Context (state_root : path) (fs : project_fs) (unix_now : Z) (layer_bytes : node -> Z).

(** Everything but the directory [d] and the schedules is as it was. *)
Definition frame (d : path) (w w' : world) : Prop :=
  db_sandbox (w_db w') = db_sandbox (w_db w) /\ db_snapshot (w_db w') = db_snapshot (w_db w) /\
  w_snapshots w' = w_snapshots w /\ w_guests w' = w_guests w /\ w_cgroups w' = w_cgroups w /\
  w_setups w' = w_setups w /\ delete d (w_dirs w') = delete d (w_dirs w).

Lemma frame_refl d w : frame d w w.
Proof. by split_and!. Qed.

Lemma frame_trans d w1 w2 w3 : frame d w1 w2 -> frame d w2 w3 -> frame d w1 w3.
Proof. unfold frame. intros; destruct_and?; split_and!; congruence. Qed.

Lemma frame_abstract d w w' : frame d w w' -> abstract (w_db w') = abstract (w_db w).
Proof. intros (? & ? & _). by apply abstract_tables. Qed.

Lemma frame_wf d w w' : frame d w w' -> wf (w_db w) -> wf (w_db w').
Proof. intros (? & ? & _). by apply wf_tables. Qed.

Lemma frame_tick d w : frame d w (tick w).
Proof. by split_and!. Qed.

Lemma frame_make d w : frame d w (make_state_dir d (tick w)).
Proof. split_and!; try done. simpl. by rewrite delete_insert_eq. Qed.

Lemma frame_update d f w : frame d w (update_dir d f (tick w)).
Proof. split_and!; try done. simpl. by rewrite delete_alter_eq. Qed.

Lemma random_id_inv w r w' : random_id w = (r, w') ->
  (forall d, frame d w w') /\ w_dirs w' = w_dirs w.
Proof.
  unfold random_id. destruct (w_random w) as [|[id|e] rs]; intros [= <- <-]; split; try done.
Qed.

Lemma random_id_hex w id w' : random_id w = (Ok id, w') -> exists bs, id = hex_bytes bs.
Proof.
  unfold random_id. destruct (w_random w) as [|[bs|e] rs]; [done| |done].
  destruct (16 <=? length bs)%nat; [|done]. intros [= <- _]. eauto.
Qed.

(** Invert the steps of an operation one by one. *)
Ltac bind_step H1 H2 :=
  apply st_bind_inv in H1 as [(? & H1 & ->)|(? & ? & H1 & H2)].

Lemma create_subdirs_inv d w r w' : create_subdirs d w = (r, w') ->
  frame d w w' /\ (r = Ok tt -> w_dirs w' !! d = Some (default (mkStateDir empty_layer None None) (w_dirs w !! d))).
Proof.
  unfold create_subdirs. intros E1.
  assert (forall w1, frame d (make_state_dir d (tick w)) w1 -> frame d w w1) as Hmk.
  { intros w1. apply frame_trans, frame_make. }
  bind_step E1 E2; [apply sys_Err in E1 as ->; split; [apply frame_tick|done]|].
  apply sys_Ok in E1 as [-> ->].
  bind_step E2 E3; [apply sys_Err in E2 as ->; split; [by apply Hmk|done]|].
  apply sys_Ok in E2 as [-> ->].
  bind_step E3 E4; [apply sys_Err in E3 as ->; split; [by apply Hmk|done]|].
  apply sys_Ok in E3 as [-> ->].
  destruct r as [[]|]; [apply sys_Ok in E4 as [_ ->]|apply sys_Err in E4 as ->];
    (split; [by apply Hmk|]); [|done].
  intros _. simpl. by rewrite lookup_insert_eq.
Qed.

Lemma acquire_op_lock_inv d w r w' : acquire_op_lock d w = (r, w') ->
  frame d w w' /\ (r = Ok tt -> w_dirs w' !! d = Some (default (mkStateDir empty_layer None None) (w_dirs w !! d))).
Proof.
  unfold acquire_op_lock. intros E. destruct r as [[]|].
  - apply sys_Ok in E as [_ ->]. split; [apply frame_make|]. intros _. simpl. by rewrite lookup_insert_eq.
  - apply sys_Err in E as ->. split; [apply frame_tick|done].
Qed.

Lemma acquire_op_lock_keeps d w r w' sd : acquire_op_lock d w = (r, w') ->
  w_dirs w !! d = Some sd -> w_dirs w' !! d = Some sd.
Proof.
  unfold acquire_op_lock. intros E Hd. destruct r as [[]|].
  - apply sys_Ok in E as [_ ->]. simpl. by rewrite lookup_insert_eq, Hd.
  - by apply sys_Err in E as ->.
Qed.

(** The layer a spawn starts from. *)
Definition seeded (w : world) (from_snapshot : option string) (l : node) : Prop :=
  match from_snapshot with
  | None => True
  | Some sid => exists sn, s_snapshots (abstract (w_db w)) !! sn_id sn = Some sn /\
      (sn_id sn = sid \/ sn_name sn = sid) /\ l = snapshot_layer (sn_path sn) w
  end.

Lemma seed_upper_inv d o w r w' sd : wf (w_db w) -> seed_upper d o w = (r, w') ->
  w_dirs w !! d = Some sd ->
  frame d w w' /\
  (r = Ok tt -> exists l, w_dirs w' !! d = Some (set_upper l sd) /\ seeded w o l /\ (o = None -> l = sd_upper sd)).
Proof.
  intros Hwf. unfold seed_upper. intros E Hd. destruct o as [sid|].
  - bind_step E E2.
    + apply reg_inv in E as (dd & E & ->). apply get_snapshot_tables in E as [??].
      split; [by split_and!|done].
    + apply reg_inv in E as (dd & E & ->). pose proof (get_snapshot_tables _ _ _ _ E) as [??].
      match type of E2 with match ?c with _ => _ end = _ => destruct c as [xr w2] eqn:E3 end.
      apply copy_layer_done in E3.
      destruct xr as [u|e]; injection E2 as <- <-; simpl in E3.
      * destruct E3 as (w1 & [fs1 ->] & ->). split.
        { split_and!; try done. simpl. by rewrite delete_alter_eq. }
        intros _. eexists. simpl. rewrite lookup_alter_eq, Hd. simpl. split; [done|].
        split; [|done]. eexists. destruct (get_snapshot_Ok _ _ _ _ Hwf E) as [??]. by split_and!.
      * destruct E3 as [fs1 ->]. by split; [split_and!|].
  - injection E as <- <-. split; [apply frame_refl|]. intros _. exists (sd_upper sd). destruct sd. done.
Qed.

(** ** do_spawn *)

Definition setup_of (w : world) : setup_run := default no_setup (head (w_setups w)).

(** The guests after a setup process ran. *)
Definition guests_after (w : world) (cg : option path) (guests : gmap N (option path)) : Prop :=
  guests = w_guests w \/
  exists pid, sr_guest (setup_of w) = Some pid /\ guests = <[pid := cg]> (w_guests w).

(** A [do_spawn] that failed: only the directory, the cgroup and the guest are touched. *)
Definition spawn_failed (d : path) (sd : state_dir_t) (w w' : world) : Prop :=
  abstract (w_db w') = abstract (w_db w) /\ wf (w_db w') /\ w_snapshots w' = w_snapshots w /\
  delete d (w_dirs w') = delete d (w_dirs w) /\
  exists sd' cg, w_dirs w' !! d = Some sd' /\ guests_after w cg (w_guests w') /\
    (sd_pidfile sd' = sd_pidfile sd \/ exists pid, sd_pidfile sd' = Some pid) /\
    forall c, cg = Some c -> sd_cgroup_path sd' = Some c.

(** A [do_spawn] that succeeded. *)
Definition spawn_succeeded (sb : Sandbox) (sd : state_dir_t) (w w' : world) : Prop :=
  (exists row, s_sandboxes (abstract (w_db w)) !! sb_id sb = Some row /\
     abstract (w_db w') = mkSpecState (<[sb_id sb := with_state Ready row]> (s_sandboxes (abstract (w_db w))))
                            (s_snapshots (abstract (w_db w)))) /\
  wf (w_db w') /\ w_snapshots w' = w_snapshots w /\
  delete (sb_state_dir sb) (w_dirs w') = delete (sb_state_dir sb) (w_dirs w) /\
  exists sd' cg pid, w_dirs w' !! sb_state_dir sb = Some sd' /\ sd_upper sd' = sd_upper sd /\
    sd_pidfile sd' = Some pid /\ sd_cgroup_path sd' = (match cg with Some c => Some c | None => sd_cgroup_path sd end) /\
    drive (setup_of w) (bool_decide (is_Some cg)) None (sr_lines (setup_of w)) = Ok pid /\
    is_Some (sr_starttime (setup_of w)) /\
    (sr_guest (setup_of w) = Some pid -> w_guests w' !! pid = Some cg).

(** The part of the world that a cgroup or a schedule is not. *)
Definition core (w : world) := (w_db w, w_dirs w, w_snapshots w, w_guests w, w_setups w).

Lemma create_cgroup_inv id l w r w' : create_cgroup id l w = (r, w') -> core w' = core w.
Proof.
  unfold create_cgroup. destruct (sys _ tt _ w) as [[[]|e] w1] eqn:E.
  - apply sys_Ok in E as [_ ->]. destruct (Cgroup.required l); [|by intros [= <- <-]].
    unfold st_bind. destruct (sys _ tt id_world _) as [[[]|e] w2] eqn:E2.
    + apply sys_Ok in E2 as [_ ->]. by intros [= <- <-].
    + apply sys_Err in E2 as ->. by intros [= <- <-].
  - apply sys_Err in E as ->. destruct (Cgroup.required l); by intros [= <- <-].
Qed.

(** The cgroup of the backend model is an abstraction of the calls of cgroup.rs.
    When the process's own cgroup is found, and however the kernel answers the
    rest of [Cgroup.create], there are failures under which [create_cgroup] has
    the same outcome - a handle on the same
    path, no cgroup, an error - and its directory is there whenever the calls
    have left one, the one of a refused limit included. *)
Theorem create_cgroup_abstracts kernel id l hist r hist' :
  (Cgroup.own_cgroup_dir kernel hist).1 = Ok cgroup_base ->
  Cgroup.create kernel id l hist = (r, hist') ->
  exists fl, forall w rest, w_faults w = fl ++ rest ->
    exists r' w', create_cgroup id l w = (r', w') /\ w_faults w' = rest /\
      match r with
      | Ok (Some c) => r' = Ok (Some (Cgroup.h_path c)) /\ Cgroup.h_path c ∈ w_cgroups w'
      | Ok None => r' = Ok None /\ w_cgroups w' = w_cgroups w
      | Err e => (exists e', r' = Err e') /\
                 (Cgroup.refused_limit e -> path_join cgroup_base ("draug-" +:+ id) ∈ w_cgroups w')
      end.
Proof.
  intros Hbase Hc. unfold Cgroup.create, st_bind, st_try in Hc.
  destruct (Cgroup.own_cgroup_dir kernel hist) as [a h1]. simpl in Hbase. subst a.
  apply Cgroup.create_under_run in Hc as (t1 & t2 & _ & Hl & _).
  unfold Cgroup.limited in Hl. pose (boom := Io.other EmptyString).
  destruct r as [[c|]|e].
  - destruct Hl as (Hp & _). exists (if Cgroup.required l then [None; None] else [None]).
    intros w rest Hw. unfold create_cgroup, sys, st_bind. rewrite Hw.
    destruct (Cgroup.required l); simpl; eexists _, _; (split; [done|]); simpl;
      rewrite Hp; (split; [done|]); split; set_solver.
  - exists [Some boom]. intros w rest Hw. unfold create_cgroup, sys. rewrite Hw. simpl. rewrite Hl.
    by eexists _, _.
  - destruct Hl as [Hreq Hr]. exists [None; Some boom]. intros w rest Hw.
    unfold create_cgroup, sys, st_bind. rewrite Hw. simpl. rewrite Hreq. simpl.
    eexists _, _. split; [done|]. simpl. split; [done|]. split; [by eexists|set_solver].
Qed.

Lemma spawn_failed_core d sd w w' cg0 : wf (w_db w) -> w_dirs w !! d = Some sd -> core w' = core w ->
  cg0 = @None path -> spawn_failed d sd w w'.
Proof.
  unfold core. intros Hwf Hd [= Hdb Hdirs Hsn Hg Hset] _. unfold spawn_failed.
  rewrite Hdb, Hdirs, Hsn, Hg. split_and!; try done.
  exists sd, None. split_and!; try done; [by left|by left].
Qed.

(** The end of [do_spawn]: the guest runs, the pidfile and the row are written. *)
Lemma do_spawn_end sb cg w w1 sd1 r w' : wf (w_db w) ->
  w_db w1 = w_db w -> w_snapshots w1 = w_snapshots w -> w_guests w1 = w_guests w ->
  w_setups w1 = w_setups w -> delete (sb_state_dir sb) (w_dirs w1) = delete (sb_state_dir sb) (w_dirs w) ->
  w_dirs w1 !! sb_state_dir sb = Some sd1 -> (forall c, cg = Some c -> sd_cgroup_path sd1 = Some c) ->
  (do! r := next_setup in
   do! pid := (fun w => (drive r (bool_decide (is_Some cg)) None (sr_lines r), start_guest r cg w)) in
   do! _ := st_lift (match sr_starttime r with
                     | Some _ => Ok tt
                     | None => Err (setup_error "guest died immediately after setup")
                     end) in
   do! _ := sys (Error_io "write pidfile") tt (update_dir (sb_state_dir sb) (set_pidfile pid)) in
   do! _ := reg (update_sandbox_state (sb_id sb) Ready) in
   st_ret (ready_sandbox sb)) w1 = (r, w') ->
  match r with
  | Ok r' => r' = ready_sandbox sb /\
      (exists row, s_sandboxes (abstract (w_db w)) !! sb_id sb = Some row /\
         abstract (w_db w') = mkSpecState (<[sb_id sb := with_state Ready row]> (s_sandboxes (abstract (w_db w))))
                                (s_snapshots (abstract (w_db w)))) /\
      wf (w_db w') /\ w_snapshots w' = w_snapshots w /\
      delete (sb_state_dir sb) (w_dirs w') = delete (sb_state_dir sb) (w_dirs w) /\
      exists pid, w_dirs w' !! sb_state_dir sb = Some (set_pidfile pid sd1) /\
        drive (setup_of w) (bool_decide (is_Some cg)) None (sr_lines (setup_of w)) = Ok pid /\
        is_Some (sr_starttime (setup_of w)) /\
        (sr_guest (setup_of w) = Some pid -> w_guests w' !! pid = Some cg)
  | Err _ => spawn_failed (sb_state_dir sb) sd1 w w'
  end.
Proof.
  intros Hwf Hdb Hsn Hg Hset Hdel Hd Hcg E1.
  bind_step E1 E2; [done|]. injection E1 as <- <-.
  change (default no_setup (head (w_setups w1))) with (setup_of w1) in E2.
  assert (setup_of w1 = setup_of w) as Hsetup by (unfold setup_of; by rewrite Hset). rewrite Hsetup in E2.
  assert (forall w2, start_guest (setup_of w) cg (mkWorld (w_db w1) (w_dirs w1) (w_snapshots w1)
      (w_guests w1) (w_cgroups w1) (w_faults w1) (w_random w1) (tail (w_setups w1)) (w_dropped w1)) = w2 ->
    w_db w2 = w_db w /\ w_snapshots w2 = w_snapshots w /\
    delete (sb_state_dir sb) (w_dirs w2) = delete (sb_state_dir sb) (w_dirs w) /\
    w_dirs w2 !! sb_state_dir sb = Some sd1 /\ guests_after w cg (w_guests w2) /\
    (forall pid, sr_guest (setup_of w) = Some pid -> w_guests w2 !! pid = Some cg)) as Hstarted.
  { intros w2 <-. unfold start_guest. destruct (sr_guest (setup_of w)) as [pid|] eqn:Hpid; simpl; split_and!; try done.
    - right. exists pid. by rewrite Hg.
    - intros ? [= <-]. by rewrite lookup_insert_eq.
    - by left. }
  assert (exists x w2, (drive (setup_of w) (bool_decide (is_Some cg)) None (sr_lines (setup_of w)) = x) /\
    start_guest (setup_of w) cg (mkWorld (w_db w1) (w_dirs w1) (w_snapshots w1)
      (w_guests w1) (w_cgroups w1) (w_faults w1) (w_random w1) (tail (w_setups w1)) (w_dropped w1)) = w2)
    as (x & w2 & Hdrive & Hw2) by eauto.
  destruct (Hstarted _ Hw2) as (Hdb2 & Hsn2 & Hdel2 & Hd2 & Hg2 & Hpid2).
  unfold st_bind at 1 in E2. rewrite Hdrive, Hw2 in E2.
  assert (forall w3 sd3, w_db w3 = w_db w -> w_snapshots w3 = w_snapshots w ->
    delete (sb_state_dir sb) (w_dirs w3) = delete (sb_state_dir sb) (w_dirs w) ->
    w_dirs w3 !! sb_state_dir sb = Some sd3 -> sd_cgroup_path sd3 = sd_cgroup_path sd1 ->
    sd_pidfile sd3 = sd_pidfile sd1 -> w_guests w3 = w_guests w2 -> spawn_failed (sb_state_dir sb) sd1 w w3) as Hfail.
  { intros w3 sd3 H1' H2' H3' H4' H5' H6' H7'. unfold spawn_failed. rewrite H1', H2', H3', H7'.
    split_and!; try done. exists sd3, cg. split_and!; [done..|by left|]. intros c Hc. rewrite H5'. auto. }
  destruct x as [pid|e]; [|injection E2 as <- <-; by eapply Hfail]. rename E2 into E3.
  bind_step E3 E4; [injection E3 as _ <-; by eapply Hfail|].
  injection E3 as Hstart <-. destruct (sr_starttime (setup_of w)) as [st|]; [|done].
  bind_step E4 E5; [apply sys_Err in E4 as ->; by eapply Hfail|].
  apply sys_Ok in E4 as [_ ->].
  bind_step E5 E6.
  - apply reg_inv in E5 as (dd & E5 & ->). simpl in E5. rewrite Hdb2 in E5.
    pose proof (run_Err_tables (OUpdateState _ _) _ _ _ E5) as [Ht1 Ht2].
    unfold spawn_failed. simpl. rewrite (abstract_tables _ _ Ht1 Ht2), delete_alter_eq, Hsn2, Hdel2.
    split_and!; try done; [by eapply wf_tables|]. rewrite lookup_alter_eq, Hd2. simpl.
    eexists _, cg. split_and!; [done|exact Hg2|right; by eexists|]. intros c Hc. by apply Hcg.
  - apply reg_inv in E5 as (dd & E5 & ->). simpl in E5. rewrite Hdb2 in E5.
    match type of E5 with _ = (Ok ?u, _) => destruct u end.
    injection E6 as <- <-. split; [done|].
    destruct (update_state_refines _ _ _ _ _ Hwf E5) as [Hstep Hwf'].
    apply spec_update_ok in Hstep as (row & Hrow & Habs). simpl.
    rewrite lookup_alter_eq, Hd2, delete_alter_eq, Hsn2, Hdel2. simpl.
    split; [by exists row|]. split_and!; try done. exists pid. split_and!; [done|exact Hdrive|by eexists|].
    apply Hpid2.
Qed.

Lemma do_spawn_inv sb spec w r w' sd : wf (w_db w) -> w_dirs w !! sb_state_dir sb = Some sd ->
  do_spawn sb spec w = (r, w') ->
  match r with
  | Ok r' => r' = ready_sandbox sb /\ spawn_succeeded sb sd w w'
  | Err _ => spawn_failed (sb_state_dir sb) sd w w'
  end.
Proof.
  intros Hwf Hd E. unfold do_spawn in E. bind_step E E2.
  { apply create_cgroup_inv in E. by eapply spawn_failed_core. }
  apply create_cgroup_inv in E. unfold core in E.
  match type of E2 with st_bind _ _ ?w1 = _ => rename w1 into w1v end.
  injection E as Hdb Hdirs Hsn Hg Hset.
  match type of E2 with context [bool_decide (is_Some ?c)] => rename c into cg end.
  bind_step E2 E3.
  { destruct cg as [c|]; [|done]. apply sys_Err in E2 as ->.
    eapply spawn_failed_core; [done..| |done]. unfold core. simpl. congruence. }
  assert (exists w2 sd2, core w2 = (w_db w, (w_dirs w2), w_snapshots w, w_guests w, w_setups w) /\
    delete (sb_state_dir sb) (w_dirs w2) = delete (sb_state_dir sb) (w_dirs w) /\
    w_dirs w2 !! sb_state_dir sb = Some sd2 /\ sd_upper sd2 = sd_upper sd /\ sd_pidfile sd2 = sd_pidfile sd /\
    sd_cgroup_path sd2 = (match cg with Some c => Some c | None => sd_cgroup_path sd end) /\
    (do! _ := st_lift (setup_config_json sb) in
     do! _ := sys (Error_io "spawn setup process") tt id in
     do! r := next_setup in
     do! pid := (fun w => (drive r (bool_decide (is_Some cg)) None (sr_lines r), start_guest r cg w)) in
     do! _ := st_lift (match sr_starttime r with
                       | Some _ => Ok tt
                       | None => Err (setup_error "guest died immediately after setup")
                       end) in
     do! _ := sys (Error_io "write pidfile") tt (update_dir (sb_state_dir sb) (set_pidfile pid)) in
     do! _ := reg (update_sandbox_state (sb_id sb) Ready) in
     st_ret (ready_sandbox sb)) w2 = (r, w'))
    as (w2 & sd2 & Hcore & Hdel2 & Hd2 & Hup2 & Hpf2 & Hcg2 & E4).
  { destruct cg as [c|].
    - apply sys_Ok in E2 as [_ ->]. eexists _, (set_cgroup_path c sd). split_and!; [..|exact E3]; try done.
      + unfold core. simpl. congruence.
      + simpl. by rewrite delete_alter_eq, Hdirs.
      + simpl. by rewrite lookup_alter_eq, Hdirs, Hd.
    - injection E2 as _ ->. eexists _, sd. split_and!; [..|exact E3]; try done.
      + unfold core. congruence.
      + by rewrite Hdirs.
      + by rewrite Hdirs. }
  unfold core in Hcore. injection Hcore as Hdb2 Hsn2 Hg2 Hset2. clear E2 E3.
  assert (forall w3, spawn_failed (sb_state_dir sb) sd2 w w3 -> spawn_failed (sb_state_dir sb) sd w w3) as Hwk.
  { intros w3 (? & ? & ? & ? & sd' & cg' & ? & ? & ? & ?). unfold spawn_failed. rewrite Hpf2 in *.
    split_and!; try done. by exists sd', cg'. }
  assert (spawn_failed (sb_state_dir sb) sd w (tick w2) /\ spawn_failed (sb_state_dir sb) sd w w2) as [Hf1 Hf2].
  { split; apply Hwk; unfold spawn_failed; simpl; rewrite Hdb2, Hsn2, Hg2;
      (split_and!; try done; exists sd2, None; split_and!; try done; by left). }
  bind_step E4 E4'; [by injection E4 as _ <-|]. injection E4 as _ <-.
  bind_step E4' E5; [by apply sys_Err in E4' as ->|]. rename E4' into E4.
  apply sys_Ok in E4 as [_ ->]. unfold id in E5.
  apply (do_spawn_end sb cg w (tick w2) sd2) in E5; try done.
  2: { intros c ->. exact Hcg2. }
  destruct r as [r'|e]; [|by apply Hwk].
  destruct E5 as (-> & Hrow & Hwf' & Hsn' & Hdel' & pid & Hd' & Hdrive & Hst & Hguest).
  split; [done|]. unfold spawn_succeeded. split; [done|]. split_and!; try done.
  exists (set_pidfile pid sd2), cg, pid. by split_and!.
Qed.

(** ** destroy_inner *)

(** The ignored failures [l] that leave the members of cgroup [c] alive, and
    those that leave the cgroup. *)
Definition spared_in (c : path) (l : list (string * path)) : Prop :=
  ("read cgroup path"%string, c) ∈ l \/ ("kill cgroup"%string, c) ∈ l.
Definition kept_in (c : path) (l : list (string * path)) : Prop :=
  ("read cgroup path"%string, c) ∈ l \/ ("remove cgroup"%string, c) ∈ l.

#[export] Instance kept_in_dec c l : Decision (kept_in c l).
Proof. unfold kept_in. apply _. Defined.

(** The guests that survive a teardown of directory [d] that ignored [l]: all but
    the one its pidfile names and those of its cgroup. *)
Definition survivors (l : list (string * path)) (d : path) (w w' : world) : Prop := forall pid g,
  w_guests w' !! pid = Some g <->
  w_guests w !! pid = Some g /\ w_dirs w !! d ≫= sd_pidfile <> Some pid /\
  (forall c, w_dirs w !! d ≫= sd_cgroup_path = Some c -> g = Some c -> spared_in c l).

Definition cgroups_after (l : list (string * path)) (d : path) (w : world) : gset path :=
  match w_dirs w !! d ≫= sd_cgroup_path with
  | Some c => if decide (kept_in c l) then w_cgroups w else w_cgroups w ∖ {[c]}
  | None => w_cgroups w
  end.

Definition torn_down (sb : Sandbox) (l : list (string * path)) (w w' : world) : Prop :=
  abstract (w_db w') = mkSpecState (delete (sb_id sb) (s_sandboxes (abstract (w_db w))))
                         (orphaned (sb_id sb) <$> s_snapshots (abstract (w_db w))) /\
  wf (w_db w') /\ w_dirs w' = delete (sb_state_dir sb) (w_dirs w) /\ w_snapshots w' = w_snapshots w /\
  w_dropped w' = w_dropped w ++ l /\
  survivors l (sb_state_dir sb) w w' /\ w_cgroups w' = cgroups_after l (sb_state_dir sb) w.

Lemma kill_guest_inv d w r w' : kill_guest d w = (r, w') -> 
  w_db w' = w_db w /\ w_dirs w' = w_dirs w /\ w_snapshots w' = w_snapshots w /\ w_cgroups w' = w_cgroups w /\
  w_dropped w' = w_dropped w /\
  (r = Ok tt -> w_guests w' = match w_dirs w !! d ≫= sd_pidfile with
                              | Some pid => delete pid (w_guests w)
                              | None => w_guests w
                              end) /\
  (calm w -> calm w' /\ r = Ok tt).
Proof.
  unfold kill_guest. destruct (w_dirs w !! d ≫= sd_pidfile) as [pid|].
  2: { by intros [= <- <-]. }
  destruct (w_guests w !! pid) eqn:Hg.
  2: { intros [= <- <-]. split_and!; try done. intros _. symmetry. by apply delete_id. }
  intros E. split_and!; try (intros Hc; rewrite sys_calm in E by done; injection E as <- <-; by split).
  all: destruct r as [[]|]; [apply sys_Ok in E as [_ ->]|apply sys_Err in E as ->]; done.
Qed.

(** The parts of the world that the end of a cgroup leaves alone. *)
Definition steady (w w' : world) : Prop :=
  w_db w' = w_db w /\ w_dirs w' = w_dirs w /\ w_snapshots w' = w_snapshots w /\ w_setups w' = w_setups w.

Lemma steady_trans w1 w2 w3 : steady w1 w2 -> steady w2 w3 -> steady w1 w3.
Proof. unfold steady. intros; destruct_and?; split_and!; congruence. Qed.

Lemma rmdir_cgroup_inv c w r w' : rmdir_cgroup c w = (r, w') ->
  (r = Ok tt /\ w' = drop_cgroup c (tick w)) \/ (exists e, r = Err e) /\ w' = tick w.
Proof.
  unfold rmdir_cgroup. destruct (sys _ tt id_world w) as [x w1] eqn:E.
  apply sys_inv in E as [(e & -> & ->)|[-> ->]]; [intros [= <- <-]; right; by eauto|].
  unfold id_world. case_decide; intros [= <- <-]; [by left|right; by eauto].
Qed.

Lemma rmdir_attempts_inv fuel c : forall w r w', rmdir_attempts fuel c w = (r, w') ->
  r = Ok tt /\ steady w w' /\ w_guests w' = w_guests w /\ exists l, w_dropped w' = w_dropped w ++ l /\
  (l = [] /\ w_cgroups w' = w_cgroups w ∖ {[c]} \/ l = [("remove cgroup"%string, c)] /\ w_cgroups w' = w_cgroups w).
Proof.
  induction fuel as [|fuel IH]; intros w r w' E; cbn [rmdir_attempts] in E.
  { injection E as <- <-. split_and!; try done. eexists. split; [done|]. by right. }
  destruct (rmdir_cgroup c w) as [x w1] eqn:E1. pose proof (rmdir_cgroup_inv _ _ _ _ E1) as Hx.
  assert (forall w1, w1 = tick w -> rmdir_attempts fuel c w1 = (r, w') -> r = Ok tt /\ steady w w' /\
    w_guests w' = w_guests w /\ exists l, w_dropped w' = w_dropped w ++ l /\
    (l = [] /\ w_cgroups w' = w_cgroups w ∖ {[c]} \/ l = [("remove cgroup"%string, c)] /\ w_cgroups w' = w_cgroups w))
    as Hagain.
  { intros ? -> E'. by apply IH in E'. }
  destruct Hx as [[-> ->]|[[e ->] ->]].
  - injection E as <- <-. split_and!; try done. exists []. split; [by rewrite app_nil_r|]. by left.
  - destruct e; try (by eapply Hagain). case_decide; [|by eapply Hagain].
    injection E as <- <-. split_and!; try done. exists []. split; [by rewrite app_nil_r|]. by left.
Qed.

(** Without failures a cgroup that nobody is in is removed at once. *)
Lemma rmdir_attempts_calm fuel c w : w_faults w = [] -> members c w = ∅ ->
  rmdir_attempts (S fuel) c w = (Ok tt, drop_cgroup c w).
Proof.
  intros Hf Hm. cbn [rmdir_attempts]. unfold rmdir_cgroup, sys. rewrite Hf. cbn [tail id_world].
  unfold members in *. cbn [w_guests]. rewrite decide_True by done. destruct w. simpl in *. by subst.
Qed.

Lemma members_killed c w : members c (kill_members c w) = ∅.
Proof.
  apply map_empty. intros pid. unfold members, kill_members. cbn [w_guests set_guests].
  apply map_lookup_filter_None. right. intros g [_ Hg]%map_lookup_filter_Some. done.
Qed.

(** The guests a kill of cgroup [c], which succeeded or not, leaves. *)
Lemma best_effort_kill c w : exists w1 l1, best_effort "kill cgroup" c (kill_members c) w = (Ok tt, w1) /\
  steady w w1 /\ w_cgroups w1 = w_cgroups w /\ w_dropped w1 = w_dropped w ++ l1 /\
  (l1 = [] /\ members c w1 = ∅ /\ w_guests w1 = w_guests (kill_members c w) \/
   l1 = [("kill cgroup"%string, c)] /\ w_guests w1 = w_guests w) /\
  (w_faults w = [] -> l1 = [] /\ w_faults w1 = []).
Proof.
  unfold best_effort. destruct (sys _ tt _ w) as [[[]|e] w1] eqn:E.
  - apply sys_Ok in E as [_ ->]. eexists _, []. split_and!; try done; [by rewrite app_nil_r| |].
    + left. split_and!; try done. apply members_killed.
    + intros Hf. split; [done|]. simpl. by rewrite Hf.
  - pose proof E as Ef. apply sys_Err in E as ->. eexists _, _. split_and!; try done; [by right|].
    intros Hf. exfalso. unfold sys in Ef. by rewrite Hf in Ef.
Qed.

Lemma cgroup_destroy_inv c w r w' : cgroup_destroy c w = (r, w') ->
  r = Ok tt /\ steady w w' /\ exists l, w_dropped w' = w_dropped w ++ l /\ (("read cgroup path"%string, c) ∉ l) /\
  (forall pid g, w_guests w' !! pid = Some g <->
     w_guests w !! pid = Some g /\ (g = Some c -> ("kill cgroup"%string, c) ∈ l)) /\
  w_cgroups w' = (if decide (("remove cgroup"%string, c) ∈ l) then w_cgroups w else w_cgroups w ∖ {[c]}) /\
  (w_faults w = [] -> l = [] /\ w_faults w' = []).
Proof.
  unfold cgroup_destroy. destruct (best_effort_kill c w) as (w1 & l1 & E1 & Hs1 & Hc1 & Hd1 & Hg1 & Hf1).
  unfold st_bind. rewrite E1. intros E2. pose proof (rmdir_attempts_inv _ _ _ _ _ E2) as (-> & Hs2 & Hg2 & l2 & Hd2 & Hl2).
  split; [done|]. split; [by eapply steady_trans|]. exists (l1 ++ l2).
  split; [by rewrite Hd2, Hd1, (assoc_L (++))|]. rewrite Hg2. split; [|split; [|split]].
  - assert (forall op, op <> "read cgroup path"%string -> ("read cgroup path"%string, c) ∉ [(op, c)]) as Hop.
    { intros op Ho [= <-]%list_elem_of_singleton. done. }
    rewrite elem_of_app. destruct Hg1 as [(-> & _)|(-> & _)], Hl2 as [[-> _]|[-> _]]; intros [Hin|Hin];
      first [by apply not_elem_of_nil in Hin|revert Hin; by apply Hop].
  - intros pid g. destruct Hg1 as [(-> & _ & ->)|(-> & ->)].
    2: { split; [|tauto]. intros Hw. split; [done|]. intros _. apply elem_of_app. left. apply list_elem_of_here. }
    unfold kill_members. cbn [w_guests set_guests]. rewrite map_lookup_filter_Some.
    split; [intros [Hw Hg]; split; [done|by intros ->]|].
    intros [Hw Hg]. split; [done|]. intros ->. specialize (Hg eq_refl). simpl in Hg.
    destruct Hl2 as [[-> _]|[-> _]]; [by apply not_elem_of_nil in Hg|by apply list_elem_of_singleton in Hg].
  - destruct Hl2 as [[-> Hc2]|[-> Hc2]]; rewrite Hc2, Hc1.
    + rewrite decide_False; [done|]. rewrite app_nil_r. intros Hin.
      destruct Hg1 as [(-> & _)|(-> & _)]; [by apply not_elem_of_nil in Hin|by apply list_elem_of_singleton in Hin].
    + rewrite decide_True; [done|]. apply elem_of_app. right. apply list_elem_of_here.
  - intros Hf. destruct (Hf1 Hf) as [-> Hfw1]. destruct Hg1 as [(_ & Hm & _)|[? _]]; [|done].
    rewrite (rmdir_attempts_calm 19 c w1 Hfw1 Hm) in E2. injection E2 as <-. split; [|done].
    simpl in Hd2. rewrite <- (app_nil_r (w_dropped w1)) in Hd2 at 1. by apply app_inv_head in Hd2.
Qed.

Lemma remove_cgroup_inv d w r w' : remove_cgroup d w = (r, w') ->
  r = Ok tt /\ steady w w' /\ exists l, w_dropped w' = w_dropped w ++ l /\
  (forall pid g, w_guests w' !! pid = Some g <->
     w_guests w !! pid = Some g /\
     (forall c, w_dirs w !! d ≫= sd_cgroup_path = Some c -> g = Some c -> spared_in c l)) /\
  w_cgroups w' = cgroups_after l d w /\ (calm w -> l = [] /\ calm w').
Proof.
  unfold remove_cgroup, cgroups_after. destruct (w_dirs w !! d ≫= sd_cgroup_path) as [c|] eqn:Hc.
  2: { intros [= <- <-]. split_and!; try done. exists []. split_and!; [by rewrite app_nil_r| |done..].
       intros pid g. split; [|tauto]. intros Hg. split; [done|]. by intros ?. }
  destruct (sys _ tt id_world w) as [[[]|e] w1] eqn:E.
  - pose proof E as Ef. apply sys_Ok in E as [_ ->]. intros E.
    destruct (cgroup_destroy_inv _ _ _ _ E) as (-> & Hs & l & Hd & Hr & Hg & Hcs & Hf).
    split; [done|]. split; [exact Hs|]. exists l. split; [exact Hd|]. unfold spared_in, kept_in. split; [|split].
    + intros pid g. rewrite Hg. simpl. naive_solver.
    + rewrite Hcs. repeat case_decide; [done|tauto|tauto|done].
    + intros [Hf0 Hdb]. simpl in Hf. rewrite Hf0 in Hf. destruct (Hf eq_refl) as [-> Hf']. split; [done|].
      split; [done|]. destruct Hs as (-> & _). exact Hdb.
  - pose proof E as Ef. apply sys_Err in E as ->. intros [= <- <-]. split_and!; try done.
    eexists. split; [done|]. unfold spared_in, kept_in. split_and!.
    + intros pid g. split; [|tauto]. intros Hg. split; [done|]. intros c' [= <-] _. left. apply list_elem_of_here.
    + rewrite decide_True; [done|]. left. apply list_elem_of_here.
    + intros [Hf _]. exfalso. unfold sys in Ef. by rewrite Hf in Ef.
Qed.

Lemma destroy_inner_Ok sb w w' : wf (w_db w) -> destroy_inner sb w = (Ok tt, w') ->
  exists l, torn_down sb l w w' /\ (calm w -> l = []).
Proof.
  intros Hwf E1. unfold destroy_inner in E1.
  apply st_bind_Ok in E1 as (u & w1 & E1 & E2). destruct u.
  apply kill_guest_inv in E1 as (Hdb1 & Hd1 & Hs1 & Hcg1 & Hl1 & Hg1 & Hc1). specialize (Hg1 eq_refl).
  apply st_bind_Ok in E2 as (u & w2 & E2 & E3). 
  apply remove_cgroup_inv in E2 as (_ & (Hdb2 & Hd2 & Hs2 & _) & l & Hl2 & Hg2 & Hcg2 & Hc2).
  apply st_bind_Ok in E3 as (u' & w3 & E3 & E4).
  apply remove_state_dir_done in E3 as (w2' & [fs1 ->] & ->).
  apply reg_inv in E4 as (dd & E4 & ->). simpl in E4.
  rewrite Hdb2, Hdb1 in E4. destruct (remove_sandbox_refines _ _ _ _ Hwf E4) as [Hstep Hwf'].
  apply spec_remove_ok in Hstep. exists l. split; [|intros Hc; apply Hc2, Hc1, Hc].
  unfold torn_down. simpl. rewrite Hd2, Hd1, Hs2, Hs1, Hl2, Hl1. split_and!; try done.
  - intros pid g. simpl. rewrite Hg2, Hd1, Hg1. destruct (w_dirs w !! sb_state_dir sb ≫= sd_pidfile) as [p|].
    + rewrite lookup_delete_Some. naive_solver.
    + naive_solver.
  - rewrite Hcg2. unfold cgroups_after. by rewrite Hd1, Hcg1.
Qed.

Lemma destroy_inner_calm sb w : calm w -> exists w', destroy_inner sb w = (Ok tt, w') /\ calm w'.
Proof.
  intros Hc. unfold destroy_inner. unfold st_bind at 1. destruct (kill_guest _ w) as [r w1] eqn:E1.
  apply kill_guest_inv in E1 as (_ & _ & _ & _ & _ & _ & Hc1). destruct (Hc1 Hc) as [Hc1' ->].
  unfold st_bind at 1. destruct (remove_cgroup _ w1) as [r w2] eqn:E2.
  apply remove_cgroup_inv in E2 as (-> & _ & l & _ & _ & _ & Hc2). destruct (Hc2 Hc1') as [_ Hc2'].
  unfold st_bind. rewrite remove_state_dir_calm by done.
  unfold reg, remove_sandbox. simpl. rewrite (statement_run _ _ (calm_next_fault _ Hc2')). simpl.
  eexists. split; [done|]. destruct Hc2' as [Hf Hdb]. split; [done|]. simpl. by rewrite Hdb.
Qed.

(** *** Who survives *)

Lemma survivors_pidfile l d w w' pid : survivors l d w w' -> w_dirs w !! d ≫= sd_pidfile = Some pid ->
  w_guests w' !! pid = None.
Proof. intros Hs Hp. apply eq_None_not_Some. intros [g (_ & Hn & _)%Hs]. done. Qed.

Lemma survivors_cgroup d w w' c : survivors [] d w w' -> w_dirs w !! d ≫= sd_cgroup_path = Some c ->
  forall pid, w_guests w' !! pid <> Some (Some c).
Proof.
  intros Hs Hc pid (_ & _ & Hn)%Hs. destruct (Hn c Hc eq_refl) as [[]%not_elem_of_nil|[]%not_elem_of_nil].
Qed.

Lemma survivors_subseteq l d w w' : survivors l d w w' -> w_guests w' ⊆ w_guests w.
Proof. intros Hs. apply map_subseteq_spec. by intros pid g [Hg _]%Hs. Qed.

Lemma spawn_Ok spec w sb w' : wf (w_db w) ->
  spawn state_root fs unix_now spec w = (Ok sb, w') ->
  validate_project_dir fs (spec_rootfs spec) = Ok (sb_rootfs sb) /\
  sb_state sb = Ready /\ sb_state_dir sb = state_dir state_root (sb_id sb) /\ sb_name sb = spec_name spec /\
  s_sandboxes (abstract (w_db w)) !! sb_id sb = None /\
  abstract (w_db w') = mkSpecState (<[sb_id sb := stored_sandbox sb]> (s_sandboxes (abstract (w_db w))))
                         (s_snapshots (abstract (w_db w))) /\
  delete (sb_state_dir sb) (w_dirs w') = delete (sb_state_dir sb) (w_dirs w) /\ w_snapshots w' = w_snapshots w /\
  exists sd pid cg, w_dirs w' !! sb_state_dir sb = Some sd /\ sd_pidfile sd = Some pid /\
    drive (setup_of w) (bool_decide (is_Some cg)) None (sr_lines (setup_of w)) = Ok pid /\
    is_Some (sr_starttime (setup_of w)) /\ (forall c, cg = Some c -> sd_cgroup_path sd = Some c) /\
    (sr_guest (setup_of w) = Some pid -> w_guests w' !! pid = Some cg) /\
    seeded w (spec_from_snapshot spec) (sd_upper sd) /\
    (spec_from_snapshot spec = None -> w_dirs w !! sb_state_dir sb = None -> sd_upper sd = empty_layer).
Proof.
  intros Hwf E1. unfold spawn in E1.
  apply st_bind_Ok in E1 as (pd & w1 & E1 & E2). unfold st_lift in E1. injection E1 as Hval <-.
  apply st_bind_Ok in E2 as (id & w2 & E2 & E3). apply random_id_inv in E2 as [Hf2 Hd2].
  set (d := state_dir state_root id) in *.
  apply st_bind_Ok in E3 as ([] & w3 & E3 & E4). apply create_subdirs_inv in E3 as [Hf3 Hd3].
  apply st_bind_Ok in E4 as ([] & w4 & E4 & E5). apply acquire_op_lock_inv in E4 as [Hf4 Hd4].
  apply st_bind_Ok in E5 as ([] & w5 & E5 & E6).
  assert (frame d w w4) as Hw4 by (eapply frame_trans; [apply Hf2|]; eapply frame_trans; [exact Hf3|exact Hf4]).
  specialize (Hd3 eq_refl). specialize (Hd4 eq_refl). rewrite Hd3 in Hd4. simpl in Hd4.
  destruct (seed_upper_inv d _ w4 _ w5 _ (frame_wf _ _ _ Hw4 Hwf) E5 Hd4) as [Hf5 Hl].
  pose proof (Hl eq_refl) as (l & Hd5 & Hseed & Hnone).
  assert (frame d w w5) as Hw5 by (by eapply frame_trans).
  apply st_bind_Ok in E6 as ([] & w6 & E6 & E7). apply reg_inv in E6 as (dd & E6 & ->).
  destruct (insert_sandbox_refines _ _ _ _ (frame_wf _ _ _ Hw5 Hwf) E6) as [Hstep Hwf6].
  apply spec_insert_ok in Hstep as [Hfresh Habs6]. rewrite (frame_abstract _ _ _ Hw5) in *.
  unfold spawn_or_rollback in E7.
  destruct (do_spawn _ spec (set_db dd w5)) as [[r|e] w7] eqn:E8.
  2: { by destruct (destroy_inner _ w7). }
  injection E7 as -> <-. apply (do_spawn_inv _ _ _ _ _ (set_upper l
    (default (mkStateDir empty_layer None None) (w_dirs w2 !! d)))) in E8; [|exact Hwf6|exact Hd5].
  destruct E8 as (-> & (row & Hrow & Habs7) & Hwf7 & Hsn7 & Hdel7 & sd & cg & pid & Hd7 & Hup & Hpf & Hcg & Hdrive & Hstart & Hguest).
  assert (w_setups w5 = w_setups w) as Hset by apply Hw5.
  assert (setup_of (set_db dd w5) = setup_of w) as Hsetup by (unfold setup_of; simpl; by rewrite Hset).
  change (w_db (set_db dd w5)) with dd in *. rewrite Habs6 in Habs7, Hrow.
  cbn [s_sandboxes s_snapshots] in *. rewrite lookup_insert_eq in Hrow. injection Hrow as <-.
  split_and!; try done.
  - rewrite Habs7. f_equal. apply insert_insert_eq.
  - etrans; [exact Hdel7|]. apply Hw5.
  - etrans; [exact Hsn7|]. apply Hw5.
  - rewrite Hsetup in *. exists sd, pid, cg. split_and!; [exact Hd7|exact Hpf|exact Hdrive|exact Hstart| |exact Hguest| |].
    + intros c ->. exact Hcg.
    + rewrite Hup. simpl. unfold seeded in *. destruct (spec_from_snapshot spec); [|done].
      destruct Hseed as (sn & Hsn & Hkey & ->). rewrite (frame_abstract _ _ _ Hw4) in Hsn.
      exists sn. split_and!; [done..|]. unfold snapshot_layer. by destruct Hw4 as (_ & _ & -> & _).
    + intros Hfrom Habsent. rewrite Hup. simpl. rewrite (Hnone Hfrom).
      change (w_dirs w !! d = None) in Habsent. by rewrite Hd2, Habsent.
Qed.

(** ** Snapshots *)

Lemma get_sandbox_no_faults k d r d' : get_sandbox k d = (r, d') -> db_faults d = [] -> d' = d.
Proof.
  intros E Hf. assert (next_fault d = None) as Hn by (unfold next_fault; by rewrite Hf).
  unfold get_sandbox in E. rewrite (statement_run _ _ Hn) in E.
  assert (settle d = d) as Hs by (unfold settle; rewrite Hf; destruct d; simpl in *; by subst).
  rewrite Hs in E. by destruct (query_row _ _); injection E as <- <-.
Qed.

Lemma spec_insert_taken sb s r s' l : limits_to_json (sb_limits sb) = Ok l -> sandbox_taken sb s ->
  spec_step None (OInsertSandbox sb) s r s' ->
  r = Err (AlreadyExists RSandbox (default (sb_id sb) (sb_name sb))) /\ s' = s.
Proof. intros Hl Ht Hstep. inversion Hstep; subst; try done; congruence. Qed.

Lemma spec_insert_snapshot_ok f sn s s' : spec_step f (OInsertSnapshot sn) s (Ok tt) s' ->
  ~ snapshot_taken sn s /\ (forall id, sn_sandbox_id sn = Some id -> is_Some (s_sandboxes s !! id)) /\
  s' = mkSpecState (s_sandboxes s) (<[sn_id sn := stored_snapshot sn]> (s_snapshots s)).
Proof. inversion 1; subst; by split_and!. Qed.

Lemma spec_set_size_None id z s r s' : spec_step None (OSetSize id z) s r s' -> is_Some (s_snapshots s !! id) ->
  r = Ok tt /\ exists sn, s_snapshots s !! id = Some sn /\
    s' = mkSpecState (s_sandboxes s) (<[id := with_size z sn]> (s_snapshots s)).
Proof. intros Hstep [x Hx]. inversion Hstep; subst; [congruence|eauto]. Qed.

Lemma spec_remove_snapshot_None id s r s' : spec_step None (ORemoveSnapshot id) s r s' ->
  s' = mkSpecState (s_sandboxes s) (delete id (s_snapshots s)).
Proof. by inversion 1. Qed.

(** ** The theorems *)

(** C15: a [spawn] that returns a sandbox has registered it [Ready] and nothing
    else, under the validated project directory, in a state directory of its
    own whose pidfile holds the very pid that the drive loop got from the lines
    of the setup process - a process that was seen alive, and is alive in the
    sandbox's cgroup if it is the one that was forked - and whose writable layer
    is the snapshot's, if one was asked for. *)
Theorem spawn_ready spec w sb w' : wf (w_db w) ->
  spawn state_root fs unix_now spec w = (Ok sb, w') ->
  validate_project_dir fs (spec_rootfs spec) = Ok (sb_rootfs sb) /\
  sb_state sb = Ready /\ sb_state_dir sb = state_dir state_root (sb_id sb) /\ sb_name sb = spec_name spec /\
  s_sandboxes (abstract (w_db w)) !! sb_id sb = None /\
  abstract (w_db w') = mkSpecState (<[sb_id sb := stored_sandbox sb]> (s_sandboxes (abstract (w_db w))))
                         (s_snapshots (abstract (w_db w))) /\
  delete (sb_state_dir sb) (w_dirs w') = delete (sb_state_dir sb) (w_dirs w) /\ w_snapshots w' = w_snapshots w /\
  exists sd pid cg, w_dirs w' !! sb_state_dir sb = Some sd /\ sd_pidfile sd = Some pid /\
    drive (setup_of w) (bool_decide (is_Some cg)) None (sr_lines (setup_of w)) = Ok pid /\
    is_Some (sr_starttime (setup_of w)) /\ (forall c, cg = Some c -> sd_cgroup_path sd = Some c) /\
    (sr_guest (setup_of w) = Some pid -> w_guests w' !! pid = Some cg) /\
    seeded w (spec_from_snapshot spec) (sd_upper sd) /\
    (spec_from_snapshot spec = None -> w_dirs w !! sb_state_dir sb = None -> sd_upper sd = empty_layer).
Proof. apply spawn_Ok. Qed.

(** C14: restoring a snapshot gives a new sandbox over the snapshot's base image,
    and changes no other row.  The layer is resolved a second time, by the id of
    the snapshot that was found: it is the layer that snapshot captured, unless
    another snapshot has that id for a name, and then it may be the other's. *)
Theorem restore_materializes sid name w sb w' : wf (w_db w) ->
  restore state_root fs unix_now sid name w = (Ok sb, w') -> exists sn sn' sd,
  s_snapshots (abstract (w_db w)) !! sn_id sn = Some sn /\ (sn_id sn = sid \/ sn_name sn = sid) /\
  validate_project_dir fs (sn_rootfs sn) = Ok (sb_rootfs sb) /\ sb_name sb = name /\
  s_snapshots (abstract (w_db w)) !! sn_id sn' = Some sn' /\ (sn' = sn \/ sn_name sn' = sn_id sn) /\
  w_dirs w' !! sb_state_dir sb = Some sd /\ sd_upper sd = snapshot_layer (sn_path sn') w /\
  s_sandboxes (abstract (w_db w)) !! sb_id sb = None /\
  abstract (w_db w') = mkSpecState (<[sb_id sb := stored_sandbox sb]> (s_sandboxes (abstract (w_db w))))
                         (s_snapshots (abstract (w_db w))) /\
  delete (sb_state_dir sb) (w_dirs w') = delete (sb_state_dir sb) (w_dirs w) /\ w_snapshots w' = w_snapshots w.
Proof.
  intros Hwf E1. unfold restore in E1. apply st_bind_Ok in E1 as (sn & w1 & E1 & E2).
  apply reg_inv in E1 as (dd & E1 & ->). destruct (get_snapshot_Ok _ _ _ _ Hwf E1) as [Hsn Hkey].
  pose proof (get_snapshot_tables _ _ _ _ E1) as [Ht1 Ht2].
  assert (abstract dd = abstract (w_db w)) as Habs by (by apply abstract_tables).
  apply spawn_Ok in E2; [|by eapply wf_tables].
  destruct E2 as (Hval & _ & _ & Hname & Hnew & Hreg & Hdirs & Hsnaps & sd & pid & cg & Hd & _ & _ & _ & _ & _ & Hseed & _).
  change (w_db (set_db dd w)) with dd in *. rewrite Habs in Hreg, Hnew.
  destruct Hseed as (sn' & Hsn' & Hkey' & Hl). change (w_db (set_db dd w)) with dd in *. rewrite Habs in Hsn'.
  exists sn, sn', sd. split_and!; try done.
  destruct Hkey' as [Hid|Hid]; [left; congruence|by right].
Qed.

(** C24: when [do_spawn] fails and the teardown meets no failure of its own,
    nothing is left of the sandbox: its row and its directory are gone, no other
    row or directory changed, and if its cgroup had been created every process
    in it was killed. *)
Theorem spawn_rollback_clean sb spec w sd e w1 w' : wf (w_db w) ->
  w_dirs w !! sb_state_dir sb = Some sd -> do_spawn sb spec w = (Err e, w1) -> calm w1 ->
  spawn_or_rollback sb spec w = (Err e, w') ->
  abstract (w_db w') = mkSpecState (delete (sb_id sb) (s_sandboxes (abstract (w_db w))))
                         (orphaned (sb_id sb) <$> s_snapshots (abstract (w_db w))) /\
  w_dirs w' = delete (sb_state_dir sb) (w_dirs w) /\ w_snapshots w' = w_snapshots w /\
  forall sd1 c, w_dirs w1 !! sb_state_dir sb = Some sd1 -> sd_cgroup_path sd1 = Some c ->
    forall pid, w_guests w' !! pid <> Some (Some c).
Proof.
  intros Hwf Hd Hspawn Hcalm Hroll. unfold spawn_or_rollback in Hroll. rewrite Hspawn in Hroll.
  pose proof (do_spawn_inv _ _ _ _ _ _ Hwf Hd Hspawn) as (Habs & Hwf1 & Hsn & Hdel & sd' & cg & Hd1 & _).
  destruct (destroy_inner_calm sb w1 Hcalm) as (w2 & Hdestroy & _). rewrite Hdestroy in Hroll.
  injection Hroll as <-.
  destruct (destroy_inner_Ok _ _ _ Hwf1 Hdestroy) as (l & (Habs2 & _ & Hdirs2 & Hsn2 & _ & Hg2 & _) & Hl).
  rewrite (Hl Hcalm) in Hg2.
  rewrite Habs in Habs2. split_and!; [done|congruence|congruence|].
  intros sd1 c Hsd1 Hc. eapply survivors_cgroup; [exact Hg2|]. rewrite Hsd1. exact Hc.
Qed.

(** A rollback that finds neither a pidfile nor a cgroup kills nobody: a guest
    that was forked before the failure outlives its row and its directory. *)
Theorem rollback_leaves_guest sb spec w e w1 w' : do_spawn sb spec w = (Err e, w1) ->
  w_dirs w1 !! sb_state_dir sb ≫= sd_pidfile = None ->
  w_dirs w1 !! sb_state_dir sb ≫= sd_cgroup_path = None ->
  spawn_or_rollback sb spec w = (Err e, w') -> w_guests w' = w_guests w1.
Proof.
  intros Hspawn Hp Hc Hroll. unfold spawn_or_rollback in Hroll. rewrite Hspawn in Hroll.
  destruct (destroy_inner sb w1) as [r w2] eqn:E. injection Hroll as <-.
  unfold destroy_inner, st_bind at 1, kill_guest in E. rewrite Hp in E.
  unfold st_bind at 1, remove_cgroup in E. rewrite Hc in E. unfold st_bind in E.
  destruct (remove_state_dir _ w1) as [[u|e'] w3] eqn:E3; apply remove_state_dir_done in E3; simpl in E3.
  - apply reg_inv in E as (dd & _ & ->). by destruct E3 as (w1' & [fs1 ->] & ->).
  - injection E as _ <-. by destruct E3 as [fs1 ->].
Qed.

(** The lock may make the state directory, which then records nothing. *)
Lemma lock_keeps_records d w r w' : acquire_op_lock d w = (r, w') ->
  w_dirs w' !! d ≫= sd_pidfile = w_dirs w !! d ≫= sd_pidfile /\
  w_dirs w' !! d ≫= sd_cgroup_path = w_dirs w !! d ≫= sd_cgroup_path /\
  w_cgroups w' = w_cgroups w /\ w_dropped w' = w_dropped w /\ (calm w -> calm w').
Proof.
  intros E. assert (calm w -> calm (tick w)) as Hc by (intros [Hf Hdb]; split; [simpl; by rewrite Hf|done]).
  destruct r as [[]|]; [apply sys_Ok in E as [_ ->]|by apply sys_Err in E as ->].
  simpl. rewrite lookup_insert_eq. by destruct (w_dirs w !! d).
Qed.

Lemma destroy_cases k w w' : wf (w_db w) -> destroy k w = (Ok tt, w') ->
  (abstract (w_db w') = abstract (w_db w) /\ w_dirs w' = w_dirs w /\ w_guests w' = w_guests w /\
   w_snapshots w' = w_snapshots w /\ w_cgroups w' = w_cgroups w /\
   forall id sb, s_sandboxes (abstract (w_db w)) !! id = Some sb -> id <> k /\ sb_name sb <> Some k) \/
  exists sb l, s_sandboxes (abstract (w_db w)) !! sb_id sb = Some sb /\ (sb_id sb = k \/ sb_name sb = Some k) /\
    abstract (w_db w') = mkSpecState (delete (sb_id sb) (s_sandboxes (abstract (w_db w))))
                           (orphaned (sb_id sb) <$> s_snapshots (abstract (w_db w))) /\
    w_dirs w' = delete (sb_state_dir sb) (w_dirs w) /\ w_snapshots w' = w_snapshots w /\
    survivors l (sb_state_dir sb) w w' /\ w_cgroups w' = cgroups_after l (sb_state_dir sb) w /\
    w_dropped w' = w_dropped w ++ l /\ (calm w -> l = []).
Proof.
  intros Hwf E. unfold destroy in E. destruct (reg (get_sandbox k) w) as [[sb|e] w1] eqn:E1.
  - apply reg_inv in E1 as (dd & E1 & ->). pose proof (get_sandbox_tables _ _ _ _ E1) as [Ht1 Ht2].
    assert (calm w -> calm (set_db dd w)) as Hcalm1.
    { intros [Hf Hdb]. split; [done|]. by rewrite (get_sandbox_no_faults _ _ _ _ E1 Hdb). }
    apply st_bind_Ok in E as (r & w2 & E & E2). unfold st_try in E.
    destruct (acquire_op_lock _ _) as [r' w2'] eqn:E3. injection E as _ <-.
    pose proof (lock_keeps_records _ _ _ _ E3) as (Hp & Hc & Hcg & Hdr & Hcalm2).
    apply acquire_op_lock_inv in E3 as [Hf _].
    assert (wf dd) as Hwfd by (by eapply wf_tables).
    destruct (destroy_inner_Ok _ _ _ (frame_wf _ _ _ Hf Hwfd) E2) as (l & (Habs & _ & Hdirs & Hsn & Hl & Hg & Hcs) & Hcl).
    rewrite (frame_abstract _ _ _ Hf) in Habs. change (w_db (set_db dd w)) with dd in *.
    rewrite (abstract_tables _ _ Ht1 Ht2) in Habs. destruct Hf as (_ & _ & Hf3 & Hf4 & _ & _ & Hf7).
    destruct (get_sandbox_Ok _ _ _ _ Hwf E1) as [Hsb Hkey].
    right. exists sb, l. split_and!; [done..|by rewrite Hdirs, Hf7|by rewrite Hsn, Hf3| | | |].
    + unfold survivors in *. intros pid g. rewrite Hg, Hp, Hc, Hf4. done.
    + rewrite Hcs. unfold cgroups_after. by rewrite Hc, Hcg.
    + by rewrite Hl, Hdr.
    + intros Hcw. apply Hcl, Hcalm2, Hcalm1, Hcw.
  - left. apply reg_inv in E1 as (dd & E1 & ->). pose proof (get_sandbox_tables _ _ _ _ E1) as [Ht1 Ht2].
    assert (abstract dd = abstract (w_db w)) as Habs by (by apply abstract_tables).
    destruct e; try done. injection E as <-. split_and!; try done. by eapply get_sandbox_NotFound.
Qed.

(** C16: a [destroy] that returns success has removed the row and the directory
    of the sandbox it found.  Exactly these guests are dead: the one its pidfile
    names and the members of its recorded cgroup - these unless reading
    cgroup.path or writing cgroup.kill failed, which the code ignores and the
    model records in [l]; every guest of another sandbox is alive as before.  Its
    cgroup is removed, no other is, unless the rmdir was given up; when no call
    fails nothing is ignored.  Or it found no sandbox and changed nothing. *)
Theorem destroy_complete k w w' : wf (w_db w) -> destroy k w = (Ok tt, w') ->
  (abstract (w_db w') = abstract (w_db w) /\ w_dirs w' = w_dirs w /\ w_guests w' = w_guests w /\
   w_snapshots w' = w_snapshots w /\ w_cgroups w' = w_cgroups w /\
   forall id sb, s_sandboxes (abstract (w_db w)) !! id = Some sb -> id <> k /\ sb_name sb <> Some k) \/
  exists sb l, s_sandboxes (abstract (w_db w)) !! sb_id sb = Some sb /\ (sb_id sb = k \/ sb_name sb = Some k) /\
    abstract (w_db w') = mkSpecState (delete (sb_id sb) (s_sandboxes (abstract (w_db w))))
                           (orphaned (sb_id sb) <$> s_snapshots (abstract (w_db w))) /\
    w_dirs w' = delete (sb_state_dir sb) (w_dirs w) /\ w_snapshots w' = w_snapshots w /\
    survivors l (sb_state_dir sb) w w' /\ w_cgroups w' = cgroups_after l (sb_state_dir sb) w /\
    w_dropped w' = w_dropped w ++ l /\ (calm w -> l = []).
Proof. apply destroy_cases. Qed.

(** What a snapshot of [sb] called [name] adds. *)
Definition captured (sb : Sandbox) (name : string) (layer : node) (sid : string) (w w' : world) : Prop :=
  let dir := snapshot_dir state_root sid in
  let meta := mkSnapshot sid (Some (sb_id sb)) name dir (sb_rootfs sb) 0 unix_now in
  ~ snapshot_taken meta (abstract (w_db w)) /\
  abstract (w_db w') = mkSpecState (s_sandboxes (abstract (w_db w)))
    (<[sid := with_size (layer_bytes layer) (stored_snapshot meta)]> (s_snapshots (abstract (w_db w)))) /\
  w_snapshots w !! dir = None /\ w_snapshots w' = <[dir := Some layer]> (w_snapshots w) /\
  w_dropped w' = w_dropped w.

(** A failed snapshot left nothing, or its removal failed too and the one new
    directory is left, without a complete layer. *)
Definition undone (l : list (string * path)) (w w' : world) : Prop :=
  w_dropped w' = w_dropped w ++ l /\
  match l with
  | [] => w_snapshots w' = w_snapshots w
  | _ => exists sid, let dir := snapshot_dir state_root sid in
      l = [("remove snapshot dir"%string, dir)] /\ w_snapshots w !! dir = None /\
      w_snapshots w' = <[dir := None]> (w_snapshots w)
  end.

Lemma undone_nothing w w' : w_dropped w' = w_dropped w -> w_snapshots w' = w_snapshots w -> exists l, undone l w w'.
Proof. intros Hd Hs. exists []. split; [by rewrite app_nil_r|done]. Qed.

(** The directory [dir] is removed, or its removal failed and is in [l]. *)
Definition cleaned (dir : path) (l : list (string * path)) (w w' : world) : Prop :=
  w_dropped w' = w_dropped w ++ l /\
  (l = [] /\ w_snapshots w' = delete dir (w_snapshots w) \/
   l = [("remove snapshot dir"%string, dir)] /\ w_snapshots w' = w_snapshots w).

Lemma remove_snapshot_dir_run dir w : exists w1 l, remove_snapshot_dir dir w = (Ok tt, w1) /\
  w_db w1 = w_db w /\ w_guests w1 = w_guests w /\ w_dirs w1 = w_dirs w /\ cleaned dir l w w1.
Proof.
  unfold remove_snapshot_dir, best_effort, cleaned. destruct (sys _ tt _ w) as [[[]|e] w1] eqn:E.
  - apply sys_Ok in E as [_ ->]. eexists _, []. do 4 (split; [done|]). split; [by rewrite app_nil_r|by left].
  - apply sys_Err in E as ->. eexists _, _. do 4 (split; [done|]). split; [done|by right].
Qed.

(** The copy and what follows it, from a world in which the row and the empty
    directory were made. *)
Lemma snapshot_copy sid dir meta layer w r w' : wf (w_db w) -> db_faults (w_db w) = [] ->
  u64_range (layer_bytes layer) ->
  s_snapshots (abstract (w_db w)) !! sid = Some meta ->
  copy_or_rollback layer_bytes sid dir layer w = (r, w') ->
  match r with
  | Ok sid' => sid' = sid /\
      abstract (w_db w') = mkSpecState (s_sandboxes (abstract (w_db w)))
        (<[sid := with_size (layer_bytes layer) meta]> (s_snapshots (abstract (w_db w)))) /\
      w_snapshots w' = <[dir := Some layer]> (w_snapshots w) /\ w_dropped w' = w_dropped w
  | Err _ =>
      abstract (w_db w') = mkSpecState (s_sandboxes (abstract (w_db w)))
        (delete sid (s_snapshots (abstract (w_db w)))) /\ exists l, cleaned dir l w w'
  end /\ w_guests w' = w_guests w /\ w_dirs w' = w_dirs w.
Proof.
  intros Hwf Hnf Hu64 Hmeta E. unfold copy_or_rollback in E.
  assert (next_fault (w_db w) = None) as Hnext by (unfold next_fault; by rewrite Hnf).
  destruct (copy_layer _ w) as [[u|e] w1] eqn:E1; apply copy_layer_done in E1; simpl in E1.
  - destruct E1 as (w2' & [fs1 ->] & ->). unfold st_bind in E.
    destruct (reg (set_snapshot_size sid (layer_bytes layer)) _) as [r1 w2] eqn:E2. apply reg_inv in E2 as (dd & E2 & ->).
    change (set_snapshot_size sid (layer_bytes layer) (w_db w) = (r1, dd)) in E2.
    destruct (set_size_refines _ _ _ _ _ Hwf Hu64 E2) as [Hstep Hwf']. rewrite Hnext in Hstep.
    apply spec_set_size_None in Hstep as [-> (sn & Hsn & Habs)]; [|by eexists].
    injection E as <- <-. split_and!; try done. change (w_db (set_db dd _)) with dd.
    rewrite Hmeta in Hsn. injection Hsn as <-. exact Habs.
  - destruct E1 as [fs1 ->]. unfold st_bind at 1 in E.
    match type of E with context [remove_snapshot_dir dir ?w0] =>
      destruct (remove_snapshot_dir_run dir w0) as (w1 & l & Er & Hdb & Hg & Hd & Hcl) end.
    rewrite Er in E. apply st_try_bind in E as (r1 & w2 & E2 & [= <- <-]).
    apply reg_inv in E2 as (dd & E2 & ->). rewrite Hdb in E2. change (remove_snapshot sid (w_db w) = (r1, dd)) in E2.
    destruct (remove_snapshot_refines _ _ _ _ Hwf E2) as [Hstep Hwf']. rewrite Hnext in Hstep.
    apply spec_remove_snapshot_None in Hstep. split; [split; [exact Hstep|by exists l]|done].
Qed.

(** The parts of the world that a snapshot may touch or depend on. *)
Definition parts (w : world) := (w_db w, w_snapshots w, w_guests w, w_dropped w).

Lemma make_snapshot_dir_inv sid dir w r w' : make_snapshot_dir sid dir w = (r, w') ->
  match r with
  | Ok _ => w_snapshots w !! dir = None /\
      parts w' = (w_db w, <[dir := None]> (w_snapshots w), w_guests w, w_dropped w) /\ w_dirs w' = w_dirs w
  | Err _ => parts w' = parts w /\ w_dirs w' = w_dirs w
  end.
Proof.
  intros E. unfold make_snapshot_dir in E. bind_step E E2; [by apply sys_Err in E as ->|].
  apply sys_Ok in E as [_ ->]. simpl in E2. destruct (w_snapshots w !! dir) eqn:Hd; [by injection E2 as <- <-|].
  destruct r as [[]|]; [apply sys_Ok in E2 as [_ ->]|apply sys_Err in E2 as ->]; done.
Qed.

Lemma record_snapshot_inv meta w r w' : wf (w_db w) -> db_faults (w_db w) = [] -> sn_size_bytes meta = 0 ->
  record_snapshot meta w = (r, w') ->
  w_guests w' = w_guests w /\ w_dirs w' = w_dirs w /\
  match r with
  | Ok _ => wf (w_db w') /\ db_faults (w_db w') = [] /\ w_snapshots w' = w_snapshots w /\ w_dropped w' = w_dropped w /\
      ~ snapshot_taken meta (abstract (w_db w)) /\
      abstract (w_db w') = mkSpecState (s_sandboxes (abstract (w_db w)))
        (<[sn_id meta := stored_snapshot meta]> (s_snapshots (abstract (w_db w))))
  | Err _ => abstract (w_db w') = abstract (w_db w) /\ exists l, cleaned (sn_path meta) l w w'
  end.
Proof.
  intros Hwf Hnf Hz E. unfold record_snapshot in E. destruct (reg (insert_snapshot meta) w) as [x w1] eqn:E1.
  apply reg_inv in E1 as (dd & E1 & ->). destruct x as [u|e].
  - injection E as <- <-. do 2 (split; [done|]).
    destruct u. assert (u64_range (sn_size_bytes meta)) as H0u by (rewrite Hz; unfold u64_range; lia).
    destruct (insert_snapshot_refines meta _ _ _ Hwf H0u E1) as [Hstep Hwf'].
    apply spec_insert_snapshot_ok in Hstep as (Hnew & _ & Habs).
    pose proof (run_no_faults (OInsertSnapshot meta) _ _ _ E1 Hnf) as Hnf'. by split_and!.
  - pose proof (run_Err_tables (OInsertSnapshot meta) _ _ _ E1) as [Ht1 Ht2]. unfold st_bind in E.
    destruct (remove_snapshot_dir_run (sn_path meta) (set_db dd w)) as (w1 & l & Er & Hdb & Hg & Hd & Hcl).
    rewrite Er in E. injection E as <- <-. split; [by rewrite Hg|]. split; [by rewrite Hd|].
    rewrite Hdb. split; [by apply abstract_tables|]. by exists l.
Qed.

(** The layer in a directory; one that is not there would be made empty. *)
Definition layer_in (d : path) (w : world) : node := default empty_layer (sd_upper <$> w_dirs w !! d).

(** Nothing that a snapshot may touch or depend on has changed. *)
Definition same (w w' : world) : Prop := parts w' = parts w /\ forall d, layer_in d w' = layer_in d w.

Lemma same_trans w1 w2 w3 : same w1 w2 -> same w2 w3 -> same w1 w3.
Proof. intros [P1 L1] [P2 L2]. split; [congruence|]. intros d. by rewrite L2. Qed.

Lemma same_undone w w' : same w w' -> w_guests w' = w_guests w /\ (forall d, layer_in d w' = layer_in d w) /\
  abstract (w_db w') = abstract (w_db w) /\ exists l, undone l w w'.
Proof. intros [[= -> Hs -> Hd] Hl]. split_and!; [done..|]. by apply undone_nothing. Qed.

(** The lock may make the state directory, but not a layer. *)
Lemma lock_keeps_layers d w r w' : acquire_op_lock d w = (r, w') -> same w w'.
Proof.
  intros E. destruct r as [[]|]; [apply sys_Ok in E as [_ ->]|by apply sys_Err in E as ->].
  split; [done|]. intros d'. unfold layer_in. simpl. destruct (decide (d' = d)) as [->|Hd].
  - rewrite lookup_insert_eq. by destruct (w_dirs w !! d).
  - by rewrite lookup_insert_ne.
Qed.

Lemma random_id_same w r w' : random_id w = (r, w') -> same w w'.
Proof. unfold random_id. destruct (w_random w) as [|[]]; by intros [= _ <-]. Qed.

(** Looking a sandbox up in a registry that does not fail changes nothing. *)
Lemma reg_get_sandbox_calm k w r w' : db_faults (w_db w) = [] -> reg (get_sandbox k) w = (r, w') -> w' = w.
Proof.
  intros Hnf E. apply reg_inv in E as (dd & E & ->). rewrite (get_sandbox_no_faults _ _ _ _ E Hnf). by destruct w.
Qed.

(** What [snapshot] does once it has a directory to itself. *)
Lemma snapshot_end sb name bs w r w' : let sid := hex_bytes bs in let dir := snapshot_dir state_root sid in
  wf (w_db w) -> db_faults (w_db w) = [] -> (forall l, u64_range (layer_bytes l)) ->
  (do! _ := make_snapshot_dir sid dir in
   do! _ := record_snapshot (mkSnapshot sid (Some (sb_id sb)) name dir (sb_rootfs sb) 0 unix_now) in
   fun w => copy_or_rollback layer_bytes sid dir (layer_in (sb_state_dir sb) w) w) w = (r, w') ->
  w_guests w' = w_guests w /\ (forall d, layer_in d w' = layer_in d w) /\
  match r with
  | Ok sid' => sid' = sid /\ captured sb name (layer_in (sb_state_dir sb) w) sid w w'
  | Err _ => abstract (w_db w') = abstract (w_db w) /\ exists l, undone l w w'
  end.
Proof.
  intros sid dir Hwf Hnf Hu64 E. 
  bind_step E E2; [apply make_snapshot_dir_inv in E as [HP Hd]; apply same_undone; split; [done|];
    intros d; unfold layer_in; by rewrite Hd|].
  apply make_snapshot_dir_inv in E as (Hdir & [= Hdb Hsn Hg Hdr] & Hd).
  bind_step E2 E3; apply record_snapshot_inv in E2 as (Hg1 & Hd1 & E2); rewrite ?Hdb; try done;
    rewrite Hdb in E2; rewrite Hg in Hg1; rewrite Hd in Hd1; (split; [|split; [intros d; unfold layer_in|]]).
  - done.
  - by rewrite Hd1.
  - destruct E2 as [Hab (l & Hl & Hcl)]. rewrite Hdr in Hl. split; [done|]. exists l. split; [done|].
    rewrite Hsn in Hcl. cbn [sn_path] in Hcl. destruct Hcl as [[-> ->]|[-> ->]].
    + by apply delete_insert_id.
    + by exists sid.
  - destruct E2 as (Hwf2 & Hnf2 & Hsn2 & Hdr2 & Hnew & Hab2).
    eapply snapshot_copy in E3 as (_ & Hg3 & _); [congruence|done|done|apply Hu64|rewrite Hab2; apply lookup_insert_eq].
  - destruct E2 as (Hwf2 & Hnf2 & Hsn2 & Hdr2 & Hnew & Hab2).
    eapply snapshot_copy in E3 as (_ & _ & Hd3); [by rewrite Hd3, Hd1|done|done|apply Hu64|rewrite Hab2; apply lookup_insert_eq].
  - destruct E2 as (Hwf2 & Hnf2 & Hsn2 & Hdr2 & Hnew & Hab2).
    eapply snapshot_copy in E3 as (E3 & _ & _); [|done|done|apply Hu64|rewrite Hab2; apply lookup_insert_eq].
    rewrite Hab2 in E3. cbn [s_sandboxes s_snapshots sn_id] in E3. unfold cleaned in E3. 
    rewrite Hsn2, Hdr2, Hsn, Hdr in E3.
    destruct r as [sid'|e].
    + destruct E3 as (-> & Hab & Hs & Hdr'). split; [done|]. unfold captured. fold sid dir. split; [exact Hnew|].
      unfold layer_in in Hab, Hs |- *. rewrite Hd1 in Hab, Hs.
      rewrite Hab, Hs. split; [f_equal; apply insert_insert_eq|]. split; [exact Hdir|]. by rewrite insert_insert_eq.
    + destruct E3 as [Hab (l & Hl & Hcl)]. rewrite Hab. split.
      { rewrite delete_insert_id; [by destruct (abstract (w_db w))|].
        apply eq_None_not_Some. intros Hs'. apply Hnew. by left. }
      exists l. split; [done|]. destruct Hcl as [[-> ->]|[-> ->]]; [by apply delete_insert_id|by exists sid].
Qed.

Lemma snapshot_cases id name w r w' : wf (w_db w) -> db_faults (w_db w) = [] ->
  (forall l, u64_range (layer_bytes l)) ->
  snapshot state_root unix_now layer_bytes id name w = (r, w') ->
  w_guests w' = w_guests w /\ (forall d, layer_in d w' = layer_in d w) /\
  match r with
  | Ok sid => exists sb sb1 bs, s_sandboxes (abstract (w_db w)) !! sb_id sb = Some sb /\
      (sb_id sb1 = id \/ sb_name sb1 = Some id) /\ (sb_id sb = sb_id sb1 \/ sb_name sb = Some (sb_id sb1)) /\
      s_sandboxes (abstract (w_db w)) !! sb_id sb1 = Some sb1 /\ sid = hex_bytes bs /\
      captured sb name (layer_in (sb_state_dir sb) w) sid w w'
  | Err _ => abstract (w_db w') = abstract (w_db w) /\ exists l, undone l w w'
  end.
Proof.
  intros Hwf Hnf Hu64 E. unfold snapshot in E. case_decide; [injection E as <- <-; by apply same_undone|].
  bind_step E E2; [apply reg_get_sandbox_calm in E as ->; [by apply same_undone|done]|].
  match type of E with reg _ _ = (Ok ?x, _) => rename x into sb1 end.
  pose proof (reg_get_sandbox_calm _ _ _ _ Hnf E) as Hw1. rewrite Hw1 in *. apply reg_inv in E as (dd1 & E & _).
  destruct (get_sandbox_Ok _ _ _ _ Hwf E) as [Hsb1 Hkey1]. clear E Hw1.
  bind_step E2 E3; apply lock_keeps_layers in E2 as HS2; [by apply same_undone|]. pose proof HS2 as [[= Hdb2 _ _ _] _].
  rewrite <- Hdb2 in Hnf.
  bind_step E3 E4; [apply reg_get_sandbox_calm in E3 as ->; [by apply same_undone|done]|].
  match type of E3 with reg _ _ = (Ok ?x, _) => rename x into sb end.
  pose proof (reg_get_sandbox_calm _ _ _ _ Hnf E3) as Hw3. rewrite Hw3 in *.
  apply reg_inv in E3 as (dd & E3 & _). rewrite Hdb2 in E3, Hnf. clear Hw3.
  destruct (get_sandbox_Ok _ _ _ _ Hwf E3) as [Hsb Hkey]. clear E3.
  bind_step E4 E5; [apply random_id_same in E4; apply same_undone; by eapply same_trans|].
  destruct (random_id_hex _ _ _ E4) as [bs ->].
  apply random_id_same in E4. pose proof (same_trans _ _ _ HS2 E4) as [[= Hdb Hsn Hg Hdr] Hlay].
  apply (snapshot_end sb name bs) in E5 as (Hg' & Hl' & Hr); [|by rewrite Hdb..|done].
  rewrite Hg in Hg'. split; [done|]. split; [intros d; by rewrite Hl', Hlay|].
  unfold captured, undone in Hr. rewrite Hdb, Hsn, Hdr, Hlay in Hr. destruct r as [sid'|e]; [|done].
  destruct Hr as [-> Hcap]. exists sb, sb1, bs. by do 5 (split; [done|]).
Qed.


(** A spawn whose name is taken - with nothing failing outside - returns
    [AlreadyExists], but leaves the state directory it made behind: no row
    names it, and the next spawn makes another one. *)
Theorem spawn_name_taken_leaks spec w pd bs id rs l : wf (w_db w) -> calm w ->
  validate_project_dir fs (spec_rootfs spec) = Ok pd -> w_random w = Ok bs :: rs -> length bs = 16%nat -> id = hex_bytes bs ->
  spec_from_snapshot spec = None -> limits_to_json (spec_limits spec) = Ok l ->
  w_dirs w !! state_dir state_root id = None -> s_sandboxes (abstract (w_db w)) !! id = None ->
  sandbox_taken (new_sandbox state_root unix_now id spec pd) (abstract (w_db w)) ->
  exists w', spawn state_root fs unix_now spec w
    = (Err (AlreadyExists RSandbox (default id (spec_name spec))), w') /\
  w_dirs w' = <[state_dir state_root id := mkStateDir empty_layer None None]> (w_dirs w) /\
  abstract (w_db w') = abstract (w_db w) /\ s_sandboxes (abstract (w_db w')) !! id = None.
Proof.
  intros Hwf Hcalm Hval Hrand Hlen Eid Hfrom Hl Hfresh Hid Htaken. destruct Hcalm as [Hf Hdf].
  unfold spawn, st_bind at 1, st_lift. rewrite Hval. unfold st_bind at 1, random_id.
  rewrite Hrand, Hlen, take_ge, <- Eid by lia. cbn [Nat.leb].
  unfold create_subdirs, acquire_op_lock, seed_upper, st_bind, sys. simpl. rewrite !Hf, Hfrom. simpl.
  unfold st_ret, reg. simpl.
  set (sb := new_sandbox state_root unix_now id spec pd) in *.
  destruct (insert_sandbox sb (w_db w)) as [r d] eqn:E.
  destruct (insert_sandbox_refines _ _ _ _ Hwf E) as [Hstep _].
  assert (next_fault (w_db w) = None) as Hn by (unfold next_fault; by rewrite Hdf). rewrite Hn in Hstep.
  assert (r = Err (AlreadyExists RSandbox (default id (spec_name spec))) /\ abstract d = abstract (w_db w))
    as [-> Habs] by exact (spec_insert_taken sb _ _ _ l Hl Htaken Hstep).
  eexists. split; [done|]. split_and!; [|done|change (s_sandboxes (abstract d) !! id = None); by rewrite Habs].
  simpl. rewrite Hfresh. simpl. rewrite lookup_insert_eq. simpl. apply insert_insert_eq.
Qed.

End spec.

(** ** Examples and witnesses *)
Module Witness.

#[local] Existing Instance RegistrySpec.Witness.json.
#[local] Existing Instance RegistrySpec.Witness.json_laws.
#[local] Existing Instance RegistrySpec.Witness.in_order.
#[local] Instance base : CgroupBase := "/sys/fs/cgroup"%string.

Definition id1 : string := "01010101010101010101010101010101".
Definition id2 : string := "02020202020202020202020202020202".
Definition id3 : string := "03030303030303030303030303030303".

Definition any_dir : project_fs := mkProjectFs (fun p => Ok p) (fun _ => true).
Definition no_bytes (_ : node) : Z := 0.

(** A setup process whose guest gets pid 7; [ready_first]: the guest's line
    overtakes the one that reports its pid. *)
Definition setup7 (ready_first : bool) : setup_run :=
  mkSetupRun ("unshared" :: (if ready_first then ["ready"; "pid 7"] else ["pid 7"; "ready"]))%string
    None false EmptyString (Ok tt) (Ok tt) None (Some 7%N) (Some 1%N).

(** [cgroup]: there is a delegated cgroup subtree; without one the sixth call
    of the spawn, creating the cgroup, fails. *)
Definition world0 (cgroup ready_first : bool) : world :=
  mkWorld RegistrySpec.Witness.empty ∅ ∅ ∅ ∅
    (if cgroup then [] else replicate 5 None ++ [Some (Io.new Io.PermissionDenied "denied")])
    [Ok (replicate 16 Byte.x01); Ok (replicate 16 Byte.x02); Ok (replicate 16 Byte.x03)] [setup7 ready_first; setup7 false] [].

Definition spec0 (name : option string) : SandboxSpec :=
  mkSpec name "/project" None unlimited [] false false.

Definition spawned (cgroup : bool) : world :=
  snd (spawn "/s" any_dir 0 (spec0 (Some "box"%string)) (world0 cgroup false)).

Lemma wf_world0 c r : wf (w_db (world0 c r)).
Proof. apply RegistrySpec.Witness.wf_empty. Qed.

Definition the_sandbox : Sandbox :=
  ready_sandbox (new_sandbox "/s" 0 id1 (spec0 (Some "box"%string)) "/project").

Lemma spawn_ready_witness :
  spawn "/s" any_dir 0 (spec0 (Some "box"%string)) (world0 true false) = (Ok the_sandbox, spawned true) /\
  validate_project_dir any_dir "/project" = Ok (sb_rootfs the_sandbox) /\
  exists sd, w_dirs (spawned true) !! ("/s/" +:+ id1) = Some sd /\ sd_pidfile sd = Some 7%N.
Proof.
  assert (spawn "/s" any_dir 0 (spec0 (Some "box"%string)) (world0 true false) = (Ok the_sandbox, spawned true))
    as E by (unfold spawned; apply ran; by vm_compute).
  split; [exact E|].
  destruct (spawn_ready "/s" any_dir 0 _ _ _ _ (wf_world0 true false) E)
    as (Hval & _ & _ & _ & _ & _ & _ & _ & sd & pid & cg & Hd & Hpid & Hdrive & _).
  split; [exact Hval|]. exists sd. split; [exact Hd|]. rewrite Hpid. f_equal.
  assert (forall b, drive (setup7 false) b None (sr_lines (setup7 false)) = Ok 7%N) as H7 by (by intros []).
  revert Hdrive. change (setup_of (world0 true false)) with (setup7 false). rewrite H7. by intros [= <-].
Defined.

(** *** A snapshot and its restore *)

Definition snapped : world := snd (snapshot "/s" 5 no_bytes "box" "snap" (spawned true)).

Definition the_snapshot : SnapshotMeta :=
  mkSnapshot id2 (Some id1) "snap" ("/s/snapshots/" +:+ id2) "/project" 0 5.

Lemma wf_ops os d : Forall op_ok os -> run_all os RegistrySpec.Witness.empty = d -> wf d.
Proof. intros Hos <-. apply run_all_wf; [apply RegistrySpec.Witness.wf_empty|done]. Qed.

Definition creating : Sandbox := new_sandbox "/s" 0 id1 (spec0 (Some "box"%string)) "/project".

Lemma wf_spawned : wf (w_db (spawned true)).
Proof.
  apply (wf_ops [OInsertSandbox creating; OUpdateState id1 Ready]); [by repeat constructor|by vm_compute].
Qed.

Lemma wf_snapped : wf (w_db snapped).
Proof.
  apply (wf_ops [OInsertSandbox creating; OUpdateState id1 Ready; OInsertSnapshot the_snapshot;
    OSetSize id2 0]); [|vm_cast_no_check (eq_refl (w_db snapped))].
  repeat constructor; unfold u64_range; simpl; lia.
Qed.

Definition the_copy : Sandbox :=
  ready_sandbox (new_sandbox "/s" 9 id3 (spec0 (Some "copy"%string)) "/project").

Definition restored : world := snd (restore "/s" any_dir 9 "snap" (Some "copy"%string) snapped).

Lemma snapped_snapshots : s_snapshots (abstract (w_db snapped)) = {[id2 := the_snapshot]}.
Proof. vm_cast_no_check (eq_refl ({[id2 := the_snapshot]} : gmap string SnapshotMeta)). Qed.

Lemma restore_materializes_witness :
  restore "/s" any_dir 9 "snap" (Some "copy"%string) snapped = (Ok the_copy, restored) /\
  exists sn sd, sn_name sn = "snap"%string /\ w_dirs restored !! ("/s/" +:+ id3) = Some sd /\
    sd_upper sd = snapshot_layer (sn_path sn) snapped.
Proof.
  assert (restore "/s" any_dir 9 "snap" (Some "copy"%string) snapped = (Ok the_copy, restored)) as E
    by (unfold restored; apply ran; by vm_compute).
  split; [exact E|].
  destruct (restore_materializes "/s" any_dir 9 "snap" (Some "copy"%string) snapped the_copy restored
    wf_snapped E) as (sn & sn' & sd & Hsn & Hkey & _ & _ & Hsn' & _ & Hd & Hl & _).
  assert (sn' = sn) as Heq.
  { rewrite snapped_snapshots in Hsn, Hsn'. apply lookup_singleton_Some in Hsn as [_ <-].
    by apply lookup_singleton_Some in Hsn' as [_ <-]. }
  rewrite Heq in Hl. exists sn, sd. split; [|split; [exact Hd|exact Hl]]. destruct Hkey as [Hk|Hk]; [|exact Hk].
  rewrite Hk, snapped_snapshots in Hsn. apply lookup_singleton_Some in Hsn as [Hsn _].
  discriminate Hsn.
Defined.


(** *** Teardown *)

(** Another sandbox's guest is about. *)
Definition crowded : world := set_guests (<[8%N := Some "/other"%string]> (w_guests (spawned true))) (spawned true).
Definition destroyed : world := snd (destroy "box" crowded).

Lemma crowded_boxes : s_sandboxes (abstract (w_db crowded)) = {[id1 := the_sandbox]}.
Proof. vm_cast_no_check (eq_refl ({[id1 := the_sandbox]} : gmap string Sandbox)). Qed.

Lemma destroy_complete_witness : destroy "box" crowded = (Ok tt, destroyed) /\
  w_guests destroyed !! 7%N = None /\ w_guests destroyed !! 8%N = Some (Some "/other"%string).
Proof.
  assert (destroy "box" crowded = (Ok tt, destroyed)) as E by (unfold destroyed; apply ran; by vm_compute).
  split; [exact E|].
  destruct (destroy_complete "box" crowded destroyed wf_spawned E)
    as [(_ & _ & _ & _ & _ & Hnone)|(sb & l & Hsb & _ & _ & _ & _ & Hg & _)].
  - exfalso. apply (proj2 (Hnone id1 the_sandbox ltac:(rewrite crowded_boxes; apply lookup_singleton_eq))).
    reflexivity.
  - rewrite crowded_boxes in Hsb. apply lookup_singleton_Some in Hsb as [_ <-].
    assert (w_dirs crowded !! sb_state_dir the_sandbox ≫= sd_pidfile = Some 7%N) as Hp by (by vm_compute).
    assert (w_dirs crowded !! sb_state_dir the_sandbox ≫= sd_cgroup_path = Some ("/sys/fs/cgroup/draug-" +:+ id1))
      as Hc by (by vm_compute).
    split; [exact (survivors_pidfile _ _ _ _ _ Hg Hp)|]. apply Hg. split; [by vm_compute|].
    rewrite Hp, Hc. split; [discriminate|]. intros c Hc1 Hc2. rewrite <- Hc1 in Hc2. discriminate Hc2.
Defined.

(** A sandbox about to be started: its row and its directory exist. *)
Definition about_to (cgroup ready_first : bool) : world :=
  mkWorld (run_all [OInsertSandbox creating] RegistrySpec.Witness.empty)
    {[("/s/" +:+ id1) := mkStateDir empty_layer None None]} ∅ ∅ ∅
    (if cgroup then [] else [Some (Io.new Io.PermissionDenied "denied")]) [] [setup7 ready_first] [].

Definition no_pid : Error := setup_error "guest ready before pid was reported".
Definition failed (cgroup : bool) : world := snd (do_spawn creating (spec0 None) (about_to cgroup true)).
Definition rolled_back (cgroup : bool) : world :=
  snd (spawn_or_rollback creating (spec0 None) (about_to cgroup true)).

Lemma wf_about_to cgroup ready_first : wf (w_db (about_to cgroup ready_first)).
Proof. apply (wf_ops [OInsertSandbox creating]); [by repeat constructor|by destruct cgroup]. Qed.

Lemma spawn_rollback_clean_witness :
  do_spawn creating (spec0 None) (about_to true true) = (Err no_pid, failed true) /\
  spawn_or_rollback creating (spec0 None) (about_to true true) = (Err no_pid, rolled_back true) /\
  w_guests (failed true) = {[7%N := Some ("/sys/fs/cgroup/draug-" +:+ id1)]} /\
  w_guests (rolled_back true) !! 7%N <> Some (Some ("/sys/fs/cgroup/draug-" +:+ id1)).
Proof.
  assert (do_spawn creating (spec0 None) (about_to true true) = (Err no_pid, failed true)) as E1 by (by vm_compute).
  assert (spawn_or_rollback creating (spec0 None) (about_to true true) = (Err no_pid, rolled_back true)) as E2
    by (by vm_compute).
  split; [exact E1|]. split; [exact E2|]. split; [by vm_compute|].
  assert (exists sd, w_dirs (failed true) !! ("/s/" +:+ id1) = Some sd /\
    sd_cgroup_path sd = Some ("/sys/fs/cgroup/draug-" +:+ id1)) as (sd & Hsd & Hc).
  { eexists. split; by vm_compute. }
  destruct (spawn_rollback_clean creating (spec0 None) (about_to true true) (mkStateDir empty_layer None None)
    no_pid (failed true) (rolled_back true) (wf_about_to true true) eq_refl E1) as (_ & _ & _ & Hg).
  - split; by vm_compute.
  - exact E2.
  - exact (Hg _ _ Hsd Hc 7%N).
Defined.

(** Without a cgroup the same failure leaves the guest running. *)
Lemma rollback_leaves_guest_witness :
  spawn_or_rollback creating (spec0 None) (about_to false true) = (Err no_pid, rolled_back false) /\
  w_guests (rolled_back false) = {[7%N := None]} /\ w_dirs (rolled_back false) = ∅ /\
  s_sandboxes (abstract (w_db (rolled_back false))) = ∅.
Proof.
  assert (spawn_or_rollback creating (spec0 None) (about_to false true) = (Err no_pid, rolled_back false)) as E
    by (by vm_compute).
  split; [exact E|]. split; [|split; by vm_compute].
  rewrite (rollback_leaves_guest creating (spec0 None) (about_to false true) no_pid (failed false) _
    ltac:(by vm_compute) eq_refl eq_refl E).
  by vm_compute.
Defined.

(** *** A name that is taken *)

Definition taken_spec : SandboxSpec := spec0 (Some "box"%string).

Definition calm_world : world :=
  mkWorld (w_db (spawned true)) (w_dirs (spawned true)) ∅ (w_guests (spawned true)) ∅ []
    [Ok (replicate 16 Byte.x02)] [setup7 false] [].

Lemma wf_calm_world : wf (w_db calm_world).
Proof.
  apply (wf_ops [OInsertSandbox creating; OUpdateState id1 Ready]); [by repeat constructor|by vm_compute].
Qed.

Lemma spawn_name_taken_leaks_witness : exists w',
  spawn "/s" any_dir 0 taken_spec calm_world = (Err (AlreadyExists RSandbox "box"), w') /\
  w_dirs w' !! ("/s/" +:+ id2) = Some (mkStateDir empty_layer None None) /\
  s_sandboxes (abstract (w_db w')) !! id2 = None.
Proof.
  destruct (spawn_name_taken_leaks "/s" any_dir 0 taken_spec calm_world "/project" (replicate 16 Byte.x02) id2 []
    "{}" wf_calm_world)
    as (w' & E & Hd & _ & Hn).
  - by split; vm_compute.
  - reflexivity.
  - reflexivity.
  - reflexivity.
  - reflexivity.
  - reflexivity.
  - reflexivity.
  - by vm_compute.
  - by vm_compute.
  - right. exists id1, the_sandbox. split; [by vm_compute|done].
  - exists w'. split; [exact E|]. split; [|exact Hn]. rewrite Hd. apply lookup_insert_eq.
Defined.

End Witness.

Module CgroupWitness.

#[local] Existing Instance RegistrySpec.Witness.json.
#[local] Existing Instance RegistrySpec.Witness.json_laws.
#[local] Existing Instance RegistrySpec.Witness.in_order.
#[local] Instance base : CgroupBase := "/sys/fs/cgroup/u.scope"%string.

Definition run := Cgroup.Witness.run.
Definition cg : path := "/sys/fs/cgroup/u.scope/draug-a1"%string.

Lemma create_cgroup_abstracts_witness :
  exists fl, forall w rest, w_faults w = fl ++ rest ->
    exists r' w', create_cgroup "a1" Cgroup.Witness.limits w = (r', w') /\ w_faults w' = rest /\
      r' = Ok (Some cg) /\ cg ∈ w_cgroups w'.
Proof.
  apply (create_cgroup_abstracts Cgroup.Witness.delegated "a1" Cgroup.Witness.limits []
    (Ok (Some (Cgroup.mkHandle cg))) run.2); vm_compute; reflexivity.
Defined.

End CgroupWitness.
