(* ===== verification/ReconcileSpec.v ===== *)
(** * Reconciliation

    draug-ns/src/linux/backend.rs, [NsBackend::reconcile]: which sandboxes a
    pass over the registry reaps, and what happens when another process
    finishes a spawn in the middle of it. *)

From S2P Require Import Prelude Text Types FsTree Registry RegistrySpec Backend BackendSpec.

(** A sandbox of this backend without a live guest. *)
Definition dead (w : world) (sb : Sandbox) : Prop :=
  sb_backend sb = BACKEND_NAME /\ guest_alive (sb_state_dir sb) w = false.

#[export] Instance dead_dec w sb : Decision (dead w sb).
Proof. unfold dead. apply _. Defined.

(** No live guest is in a cgroup that another sandbox's directory records. *)
Definition apart (w : world) : Prop :=
  forall d d' sd sd' c pid, w_dirs w !! d = Some sd -> w_dirs w !! d' = Some sd' ->
    sd_cgroup_path sd = Some c -> sd_pidfile sd' = Some pid -> w_guests w !! pid = Some (Some c) -> d = d'.

(** Every row has a state directory of its own. *)
Definition own_dirs (s : spec_state) : Prop :=
  forall id id' sb sb', s_sandboxes s !! id = Some sb -> s_sandboxes s !! id' = Some sb' ->
    sb_state_dir sb = sb_state_dir sb' -> id = id'.

Section reconcile.
Context `{SqlEngine, LimitsJson, !LimitsJsonLaws, CgroupBase}.

(** The rest of the world after the sandbox in [d] was reaped. *)
Definition spared (d : path) (w w' : world) : Prop :=
  forall d', d' <> d -> w_dirs w' !! d' = w_dirs w !! d' /\ guest_alive d' w' = guest_alive d' w.

Lemma torn_down_spared sb l w w' : apart w -> guest_alive (sb_state_dir sb) w = false ->
  torn_down sb l w w' -> spared (sb_state_dir sb) w w'.
Proof.
  intros Hap Hdead (_ & _ & Hdirs & _ & _ & Hg & _) d' Hne. rewrite Hdirs, lookup_delete_ne by done.
  split; [done|]. unfold guest_alive. rewrite Hdirs, lookup_delete_ne by done.
  destruct (w_dirs w !! d') as [sd'|] eqn:Hd'; [|done]. simpl.
  destruct (sd_pidfile sd') as [pid|] eqn:Hp; [|done]. apply bool_decide_ext. split.
  - intros [g (Hgw & _)%Hg]. by exists g.
  - intros [g Hgw]. exists g. apply Hg. split; [done|]. split.
    + intros Hpd. unfold guest_alive in Hdead. rewrite Hpd in Hdead. apply bool_decide_eq_false in Hdead. apply Hdead.
      by exists g.
    + intros c Hc ->. destruct (w_dirs w !! sb_state_dir sb) as [sd|] eqn:Hsd; [|done]. simpl in Hc.
      by destruct (Hap _ _ _ _ _ _ Hsd Hd' Hc Hp Hgw).
Qed.

Lemma apart_shrinks w w' : w_dirs w' ⊆ w_dirs w -> w_guests w' ⊆ w_guests w -> apart w -> apart w'.
Proof. intros Hd Hg Hap d d' sd sd' c pid ?????. eapply Hap; eauto using lookup_weaken. Qed.

(** What reaping one dead sandbox does to an undisturbed world. *)
Definition reaped_one (sb : Sandbox) (w w' : world) : Prop :=
  s_sandboxes (abstract (w_db w')) = delete (sb_id sb) (s_sandboxes (abstract (w_db w))) /\
  w_dirs w' = delete (sb_state_dir sb) (w_dirs w) /\
  wf (w_db w') /\ calm w' /\ apart w' /\ spared (sb_state_dir sb) w w'.

Definition alone (_ : Sandbox) (w : world) : world := w.
Definition no_lock (_ : path) : bool := false.

Lemma reconcile_one_live sb n w : ~ dead w sb -> reconcile_one no_lock alone sb n w = (Ok n, w).
Proof.
  intros Hl. unfold reconcile_one. case_decide as Hb; [done|].
  destruct (guest_alive _ w) eqn:Ha; [done|]. destruct Hl.
  split; [|done]. by destruct (decide (sb_backend sb = BACKEND_NAME)).
Qed.

Lemma reconcile_one_dead sb n w : calm w -> wf (w_db w) -> apart w -> dead w sb ->
  exists w', reconcile_one no_lock alone sb n w = (Ok (S n), w') /\ reaped_one sb w w'.
Proof.
  intros Hcalm Hwf Hap [Hb Ha]. unfold reconcile_one. rewrite decide_False by tauto. rewrite Ha.
  destruct (w_dirs w !! sb_state_dir sb) as [sd|] eqn:Hd.
  - destruct (destroy_inner_calm sb w Hcalm) as (w' & E & Hcalm'). unfold alone, no_lock. rewrite E.
    exists w'. split; [done|]. destruct (destroy_inner_Ok _ _ _ Hwf E) as (l & Ht & _).
    pose proof (torn_down_spared _ _ _ _ Hap Ha Ht) as Hsp. destruct Ht as (Habs & Hwf' & Hdirs & _ & _ & Hg & _).
    split_and!; try done; [by rewrite Habs|]. eapply apart_shrinks; [| |exact Hap].
    + rewrite Hdirs. apply delete_subseteq.
    + by eapply survivors_subseteq.
  - unfold reg. destruct (remove_sandbox (sb_id sb) (w_db w)) as [r d'] eqn:E. eexists. split; [done|].
    destruct (remove_sandbox_refines _ _ _ _ Hwf E) as [Hstep Hwf'].
    rewrite (calm_next_fault _ Hcalm) in Hstep.
    assert (r = Ok tt) as -> by (by inversion Hstep). apply spec_remove_ok in Hstep.
    pose proof (run_no_faults (ORemoveSandbox (sb_id sb)) _ _ _ E (proj2 Hcalm)) as Hnf.
    split_and!; try done; [cbn [w_db set_db]; by rewrite Hstep|simpl; by rewrite delete_id|].
    split; [apply Hcalm|done].
Qed.

(** What a pass over the sandboxes [sbs] leaves. *)
Definition swept (gone : list Sandbox) (w w' : world) : Prop :=
  (forall id, id ∈ sb_id <$> gone -> s_sandboxes (abstract (w_db w')) !! id = None) /\
  (forall id, id ∉ sb_id <$> gone ->
     s_sandboxes (abstract (w_db w')) !! id = s_sandboxes (abstract (w_db w)) !! id) /\
  (forall d, d ∈ sb_state_dir <$> gone -> w_dirs w' !! d = None) /\
  (forall d, d ∉ sb_state_dir <$> gone ->
     w_dirs w' !! d = w_dirs w !! d /\ guest_alive d w' = guest_alive d w).

Lemma swept_cons sb gone w w1 w' : sb_state_dir sb ∉ sb_state_dir <$> gone -> reaped_one sb w w1 ->
  swept gone w1 w' -> swept (sb :: gone) w w'.
Proof.
  intros Hnot (Habs & Hdirs & _ & _ & _ & Hsp) (Hs & Hk & Hd & Hg).
  rewrite Habs in Hk. unfold swept. rewrite !fmap_cons. split_and!.
  - intros id [->|Hin]%elem_of_cons; [|by apply Hs].
    destruct (decide (sb_id sb ∈ sb_id <$> gone)); [by apply Hs|]. rewrite Hk by done. apply lookup_delete_eq.
  - intros id [Hne Hin]%not_elem_of_cons. rewrite Hk by done. by apply lookup_delete_ne.
  - intros d [->|Hin]%elem_of_cons; [|by apply Hd].
    destruct (Hg _ Hnot) as [-> _]. rewrite Hdirs. apply lookup_delete_eq.
  - intros d [Hne Hin]%not_elem_of_cons. destruct (Hg _ Hin) as [-> ->]. by apply Hsp.
Qed.

Lemma spared_dead sb w w1 (sbs : list Sandbox) : spared (sb_state_dir sb) w w1 -> sb_state_dir sb ∉ sb_state_dir <$> sbs ->
  filter (dead w1) sbs = filter (dead w) sbs.
Proof.
  intros Hsp Hnot. apply filter_ext_in. intros sb' Hin. unfold dead.
  destruct (Hsp (sb_state_dir sb')) as [_ ->]; [|done].
  intros E. apply Hnot. rewrite <- E. by apply list_elem_of_fmap_2.
Qed.

Lemma reconcile_loop_exact sbs : forall n w, calm w -> wf (w_db w) -> apart w ->
  NoDup (sb_state_dir <$> sbs) ->
  exists w', reconcile_loop no_lock alone sbs n w = (Ok (n + length (filter (dead w) sbs))%nat, w') /\
  swept (filter (dead w) sbs) w w'.
Proof.
  induction sbs as [|sb sbs IH]; intros n w Hcalm Hwf Hap Hnd; simpl.
  { exists w. rewrite Nat.add_0_r. split; [done|].
    split_and!; try done; intros ? []%not_elem_of_nil; done. }
  apply NoDup_cons in Hnd as [Hnot Hnd]. unfold st_bind.
  destruct (decide (dead w sb)) as [Hdead|Hlive].
  - destruct (reconcile_one_dead sb n w Hcalm Hwf Hap Hdead) as (w1 & -> & Hone).
    destruct Hone as (Habs1 & Hdirs1 & Hwf1 & Hcalm1 & Hap1 & Hsp).
    destruct (IH (S n) w1 Hcalm1 Hwf1 Hap1 Hnd) as (w' & -> & Hsw).
    pose proof (spared_dead _ _ _ _ Hsp Hnot) as Hf. rewrite Hf in Hsw |- *. rewrite filter_cons_True by done. exists w'.
    split; [do 2 f_equal; simpl; lia|]. eapply swept_cons; [|by split_and!|exact Hsw].
    intros (x & E & [_ Hx]%list_elem_of_filter)%list_elem_of_fmap. apply Hnot. rewrite E. by apply list_elem_of_fmap_2.
  - rewrite reconcile_one_live by done. rewrite filter_cons_False by done. by apply IH.
Qed.

(** *** The listed sandboxes are the registered ones *)

Notation rows w := (row_to_sandbox <$> db_sandbox (w_db w)) (only parsing).

Lemma listed w id sb : wf (w_db w) ->
  s_sandboxes (abstract (w_db w)) !! id = Some sb <-> sb ∈ rows w /\ sb_id sb = id.
Proof.
  intros Hwf. rewrite abstract_sandbox by done. rewrite list_elem_of_fmap. split.
  - intros (r & Hr & <- & <-). split; [by eexists|done].
  - intros [(r & -> & Hr) <-]. by exists r.
Qed.

Lemma own_dirs_inj w x y : wf (w_db w) -> own_dirs (abstract (w_db w)) -> x ∈ rows w -> y ∈ rows w ->
  sb_state_dir x = sb_state_dir y -> x = y.
Proof.
  intros Hwf Hown Hx Hy E.
  assert (s_sandboxes (abstract (w_db w)) !! sb_id x = Some x) as Hx' by (by apply listed).
  assert (s_sandboxes (abstract (w_db w)) !! sb_id y = Some y) as Hy' by (by apply listed).
  pose proof (Hown _ _ _ _ Hx' Hy' E) as Heq. congruence.
Qed.

Lemma own_dirs_NoDup w : wf (w_db w) -> own_dirs (abstract (w_db w)) -> NoDup (sb_state_dir <$> rows w).
Proof.
  intros Hwf Hown. apply NoDup_fmap_2_strong; [by eauto using own_dirs_inj|].
  apply (NoDup_fmap_1 sb_id). rewrite <- list_fmap_compose. apply (wf_ids _ Hwf).
Qed.

(** A key that separates the rows tells the dead ones. *)
Lemma dead_by_key {K} (key : Sandbox -> K) w (l : list Sandbox) sb : (forall x, x ∈ l -> key x = key sb -> x = sb) -> sb ∈ l ->
  dead w sb <-> key sb ∈ key <$> filter (dead w) l.
Proof.
  intros Hkey Hin. split.
  - intros Hd. by apply list_elem_of_fmap_2, list_elem_of_filter.
  - intros (x & E & [Hd Hx]%list_elem_of_filter)%list_elem_of_fmap. by rewrite (Hkey x) in Hd.
Qed.

Lemma list_calm w : calm w -> exists l, reg list_sandboxes w = (Ok l, w) /\ Permutation l (rows w).
Proof.
  intros Hc. unfold reg, list_sandboxes. rewrite (statement_run _ _ (calm_next_fault _ Hc)), (settle_calm _ Hc).
  simpl. eexists. split; [by destruct w|]. by rewrite (proj2 (order_by_sorted _ _)).
Qed.

Lemma reconcile_alone w : calm w -> wf (w_db w) -> apart w -> own_dirs (abstract (w_db w)) ->
  exists l w', Permutation l (rows w) /\ swept (filter (dead w) l) w w' /\
    reconcile no_lock alone w = (Ok (length (filter (dead w) (rows w))), w').
Proof.
  intros Hcalm Hwf Hap Hown. destruct (list_calm w Hcalm) as (l & Hl & Hp). unfold reconcile, st_bind.
  rewrite Hl. destruct (reconcile_loop_exact l 0 w Hcalm Hwf Hap) as (w' & E & Hsw).
  { rewrite Hp. by apply own_dirs_NoDup. }
  exists l, w'. split; [done|]. split; [done|]. rewrite E. by rewrite Hp.
Qed.

(** A row is dead exactly when its id and its directory are swept. *)
Lemma dead_swept w l id sb : wf (w_db w) -> own_dirs (abstract (w_db w)) -> Permutation l (rows w) ->
  s_sandboxes (abstract (w_db w)) !! id = Some sb ->
  (dead w sb <-> id ∈ sb_id <$> filter (dead w) l) /\
  (dead w sb <-> sb_state_dir sb ∈ sb_state_dir <$> filter (dead w) l).
Proof.
  intros Hwf Hown Hp Hsb. pose proof (proj1 (listed _ _ _ Hwf) Hsb) as [Hin <-].
  split; apply dead_by_key; try by rewrite Hp.
  - intros x Hx E'. rewrite Hp in Hx. pose proof (proj2 (listed _ _ _ Hwf) (conj Hx E')). congruence.
  - intros x Hx E'. rewrite Hp in Hx. by eapply own_dirs_inj.
Qed.

(** C17: reconciling a registry that nothing else is using reaps exactly the
    sandboxes of this backend that have no live guest - row and directory - and
    counts them; every other sandbox keeps its row, its directory and its guest. *)
Theorem reconcile_exact w : calm w -> wf (w_db w) -> apart w -> own_dirs (abstract (w_db w)) ->
  exists w', reconcile no_lock alone w = (Ok (length (filter (dead w) (rows w))), w') /\
  (forall id sb, s_sandboxes (abstract (w_db w)) !! id = Some sb -> dead w sb ->
     s_sandboxes (abstract (w_db w')) !! id = None /\ w_dirs w' !! sb_state_dir sb = None) /\
  (forall id sb, s_sandboxes (abstract (w_db w)) !! id = Some sb -> ~ dead w sb ->
     s_sandboxes (abstract (w_db w')) !! id = Some sb /\
     w_dirs w' !! sb_state_dir sb = w_dirs w !! sb_state_dir sb /\
     guest_alive (sb_state_dir sb) w' = guest_alive (sb_state_dir sb) w).
Proof.
  intros Hcalm Hwf Hap Hown. destruct (reconcile_alone w Hcalm Hwf Hap Hown) as (l & w' & Hp & Hsw & E).
  destruct Hsw as (Hs & Hk & Hd & Hg). exists w'. split; [exact E|].
  split; intros id sb Hsb Hl'; destruct (dead_swept _ _ _ _ Hwf Hown Hp Hsb) as [H1' H2']; split.
  - by apply Hs, H1'.
  - by apply Hd, H2'.
  - rewrite Hk; [done|]. by rewrite <- H1'.
  - apply Hg. by rewrite <- H2'.
Qed.

(** The liveness check is not repeated under the lock: if the spawn that held
    the lock finishes in between, [reconcile] tears down the sandbox it has
    just made ready, and counts it as reaped. *)
Theorem reconcile_reaps_live held others sb n w sd : wf (w_db (others sb w)) -> calm (others sb w) ->
  sb_backend sb = BACKEND_NAME -> guest_alive (sb_state_dir sb) w = false ->
  w_dirs w !! sb_state_dir sb = Some sd -> held (sb_state_dir sb) = false ->
  guest_alive (sb_state_dir sb) (others sb w) = true ->
  exists w' pid, reconcile_one held others sb n w = (Ok (S n), w') /\
  s_sandboxes (abstract (w_db w')) !! sb_id sb = None /\ w_dirs w' !! sb_state_dir sb = None /\
  is_Some (w_guests (others sb w) !! pid) /\ w_guests w' !! pid = None.
Proof.
  intros Hwf Hcalm Hb Ha Hd Hl Hlive. unfold reconcile_one. rewrite decide_False by tauto. rewrite Ha, Hd.
  cbn zeta. rewrite Hl. destruct (destroy_inner_calm sb _ Hcalm) as (w' & E & _). rewrite E.
  unfold guest_alive in Hlive. destruct (w_dirs (others sb w) !! _ ≫= sd_pidfile) as [pid|] eqn:Hp; [|done].
  apply bool_decide_eq_true in Hlive.
  exists w', pid. split; [done|]. destruct (destroy_inner_Ok _ _ _ Hwf E) as (l & (Habs & _ & Hdirs & _ & _ & Hg & _) & _).
  rewrite Habs, Hdirs. cbn [s_sandboxes]. rewrite !lookup_delete_eq. split_and!; [done..|].
  by eapply survivors_pidfile.
Qed.

End reconcile.

(** ** Examples and witnesses *)
Module Witness.

#[local] Existing Instance RegistrySpec.Witness.json.
#[local] Existing Instance RegistrySpec.Witness.json_laws.
#[local] Existing Instance RegistrySpec.Witness.in_order.
#[local] Existing Instance BackendSpec.Witness.base.

Definition unnamed (id : string) : Sandbox :=
  new_sandbox "/s" 0 id (BackendSpec.Witness.spec0 None) "/project".

Definition lived : state_dir_t := mkStateDir empty_layer (Some "/cg/a"%string) (Some 7%N).
Definition crashed : state_dir_t := mkStateDir empty_layer (Some "/cg/b"%string) (Some 9%N).

(** Sandbox [a] runs as pid 7; the guest of [b] is gone. *)
Definition mixed : world :=
  mkWorld (run_all [OInsertSandbox (unnamed "a"); OInsertSandbox (unnamed "b")] RegistrySpec.Witness.empty)
    {["/s/a"%string := lived; "/s/b"%string := crashed]} ∅ {[7%N := Some "/cg/a"%string]} ∅ [] [] [] [].

Lemma wf_mixed : wf (w_db mixed).
Proof. apply run_all_wf; [apply RegistrySpec.Witness.wf_empty|by repeat constructor]. Qed.

Lemma mixed_apart : apart mixed.
Proof.
  unfold apart, mixed. cbn [w_dirs w_guests]. intros d d' sd sd' c pid Hd Hd' Hc Hp Hg.
  apply lookup_singleton_Some in Hg as [<- [= <-]].
  apply lookup_insert_Some in Hd as [[<- <-]|[_ [<- <-]%lookup_singleton_Some]]; [|done].
  by apply lookup_insert_Some in Hd' as [[<- <-]|[_ [<- <-]%lookup_singleton_Some]].
Qed.

Lemma mixed_rows : s_sandboxes (abstract (w_db mixed)) = {["a"%string := unnamed "a"; "b"%string := unnamed "b"]}.
Proof. by vm_compute. Qed.

Lemma mixed_own_dirs : own_dirs (abstract (w_db mixed)).
Proof.
  unfold own_dirs. rewrite mixed_rows. intros id id' sb sb' Hs Hs' Hdir.
  apply lookup_insert_Some in Hs as [[<- <-]|[_ [<- <-]%lookup_singleton_Some]];
    by apply lookup_insert_Some in Hs' as [[<- <-]|[_ [<- <-]%lookup_singleton_Some]].
Qed.

Lemma reconcile_exact_witness : exists w',
  reconcile no_lock alone mixed = (Ok 1%nat, w') /\
  s_sandboxes (abstract (w_db w')) !! "a"%string = Some (unnamed "a") /\
  s_sandboxes (abstract (w_db w')) !! "b"%string = None /\ w_dirs w' !! "/s/b"%string = None.
Proof.
  destruct (reconcile_exact mixed) as (w' & E & Hdead & Hlive).
  - by split; vm_compute.
  - exact wf_mixed.
  - exact mixed_apart.
  - exact mixed_own_dirs.
  - assert (length (filter (dead mixed) (row_to_sandbox <$> db_sandbox (w_db mixed))) = 1%nat) as Hn by (by vm_compute).
    rewrite Hn in E.
    assert (s_sandboxes (abstract (w_db mixed)) !! "b"%string = Some (unnamed "b")) as Hb by (by vm_compute).
    assert (s_sandboxes (abstract (w_db mixed)) !! "a"%string = Some (unnamed "a")) as Ha by (by vm_compute).
    assert (dead mixed (unnamed "b")) as Hd by (split; by vm_compute).
    assert (~ dead mixed (unnamed "a")) as Hl.
    { intros [_ Hx]. vm_compute in Hx. discriminate Hx. }
    exists w'. split; [exact E|]. split; [exact (proj1 (Hlive _ _ Ha Hl))|exact (Hdead _ _ Hb Hd)].
Defined.

(** The spawn that was in flight when [reconcile] looked. *)
Definition in_flight : world := BackendSpec.Witness.about_to true false.
Definition finish (_ : Sandbox) (w : world) : world :=
  snd (do_spawn BackendSpec.Witness.creating (BackendSpec.Witness.spec0 None) w).

Lemma wf_finish : wf (w_db (finish BackendSpec.Witness.creating in_flight)).
Proof.
  apply (BackendSpec.Witness.wf_ops [OInsertSandbox BackendSpec.Witness.creating; OUpdateState BackendSpec.Witness.id1 Ready]);
    [by repeat constructor|by vm_compute].
Qed.

Lemma reconcile_reaps_live_witness :
  fst (do_spawn BackendSpec.Witness.creating (BackendSpec.Witness.spec0 None) in_flight)
    = Ok (ready_sandbox BackendSpec.Witness.creating) /\
  exists w' pid, reconcile_one no_lock finish BackendSpec.Witness.creating 0 in_flight = (Ok 1%nat, w') /\
    is_Some (w_guests (finish BackendSpec.Witness.creating in_flight) !! pid) /\ w_guests w' !! pid = None.
Proof.
  split; [by vm_compute|].
  destruct (reconcile_reaps_live no_lock finish BackendSpec.Witness.creating 0 in_flight
    (mkStateDir empty_layer None None) wf_finish) as (w' & pid & E & _ & _ & Hp & Hn).
  - by split; vm_compute.
  - reflexivity.
  - by vm_compute.
  - by vm_compute.
  - reflexivity.
  - by vm_compute.
  - exists w', pid. split; [exact E|]. split; [exact Hp|exact Hn].
Defined.

End Witness.
