(* ===== verification/Recovery.v ===== *)
(** * Any history, then a reconcile

    draug-ns/src/linux/backend.rs.  ReconcileSpec.v says what a reconcile does
    to a registry in which every row has a directory of its own and no two
    sandboxes share a cgroup.  Here: every history of calls leaves the registry
    like that, whatever failed on the way and whoever died, so a reconcile
    that nothing disturbs always heals it. *)

From S2P Require Import Prelude Text Types FsTree Registry RegistrySpec Backend BackendSpec ReconcileSpec.

(** ** Names of directories and cgroups *)

Lemma app_string_inj s a b : (s +:+ a)%string = s +:+ b -> a = b.
Proof. induction s as [|c s IH]; simpl; [done|]. intros [= ?]. auto. Qed.

Lemma state_dir_inj root id id' : state_dir root id = state_dir root id' -> id = id'.
Proof. unfold state_dir, join. by intros ?%app_string_inj%app_string_inj. Qed.

(** The cgroup [create_cgroup] makes for a sandbox. *)
Definition cgroup_of `{CgroupBase} (id : string) : path := path_join cgroup_base ("draug-" +:+ id).

Lemma cgroup_of_inj `{CgroupBase} id id' : cgroup_of id = cgroup_of id' -> id = id'.
Proof.
  unfold cgroup_of, path_join. simpl. destruct cgroup_base; [by intros [= ?]|].
  destruct (ends_with_slash _); [|intros E%app_string_inj; injection E as ?; done].
  intros E%app_string_inj. by injection E as ?.
Qed.

Lemma hex_bytes_ascii bs : Forall is_ascii (bytes_of_string (hex_bytes bs)).
Proof.
  induction bs as [|b bs IH]; [constructor|]. simpl hex_bytes. rewrite bytes_of_string_app.
  apply Forall_app. split; [|done]. clear. by destruct b; repeat constructor.
Qed.

(** A directory named after a random id is text when the state root is. *)
Lemma state_dir_text root bs : str_utf8 root -> str_utf8 (state_dir root (hex_bytes bs)).
Proof.
  intros Hr. unfold str_utf8, state_dir, join. rewrite !bytes_of_string_app. apply utf8_app; [done|].
  apply utf8_ascii, Forall_app. split; [by repeat constructor|apply hex_bytes_ascii].
Qed.

(** ** Operations that only take away

    No row, directory record or guest appears; a directory may be made, empty. *)

Section mild.
Context `{SqlEngine, LimitsJson, !LimitsJsonLaws, CgroupBase}.

Record milder (w w' : world) : Prop := {
  mild_wf : wf (w_db w');
  mild_rows : forall id sb', s_sandboxes (abstract (w_db w')) !! id = Some sb' ->
    exists sb, s_sandboxes (abstract (w_db w)) !! id = Some sb /\ sb_state_dir sb' = sb_state_dir sb /\
      sb_backend sb' = sb_backend sb;
  mild_dirs : forall d sd', w_dirs w' !! d = Some sd' ->
    (sd_cgroup_path sd' = None /\ sd_pidfile sd' = None) \/
    exists sd, w_dirs w !! d = Some sd /\ sd_cgroup_path sd' = sd_cgroup_path sd /\ sd_pidfile sd' = sd_pidfile sd;
  mild_guests : w_guests w' ⊆ w_guests w;
  mild_setups : w_setups w' = w_setups w;
}.

Lemma milder_refl w : wf (w_db w) -> milder w w.
Proof. intros Hwf. split; [done|by eauto|by eauto|done|done]. Qed.

Lemma milder_trans w1 w2 w3 : milder w1 w2 -> milder w2 w3 -> milder w1 w3.
Proof.
  intros [W1 R1 D1 G1 S1] [W2 R2 D2 G2 S2]. split; [done| | |by etrans|congruence].
  - intros id sb' (sb & Hsb & -> & ->)%R2. eauto.
  - intros d sd' [?|(sd & Hsd & -> & ->)]%D2; eauto.
Qed.

(** A change of what is not looked at. *)
Lemma milder_core w w' : wf (w_db w) -> db_sandbox (w_db w') = db_sandbox (w_db w) ->
  db_snapshot (w_db w') = db_snapshot (w_db w) -> w_dirs w' = w_dirs w -> w_guests w' = w_guests w ->
  w_setups w' = w_setups w -> milder w w'.
Proof.
  intros Hwf Hs Hn Hd Hg Hp. split; rewrite ?Hd, ?Hg, ?Hp; [by eapply wf_tables| |by eauto|done|done].
  rewrite (abstract_tables _ _ Hs Hn). eauto.
Qed.

Definition mild {E A} (m : ST world E A) : Prop := forall w, wf (w_db w) -> milder w (m w).2.

Lemma mild_ret {E A} (a : A) : mild (@st_ret _ E _ a).
Proof. intros w. apply milder_refl. Qed.
Lemma mild_fail {E A} (e : E) : mild (@st_fail _ _ A e).
Proof. intros w. apply milder_refl. Qed.
Lemma mild_lift {E A} (r : result E A) : mild (@st_lift world _ _ r).
Proof. intros w. apply milder_refl. Qed.

Lemma mild_bind {E A A'} (m : ST world E A) (k : A -> ST world E A') :
  mild m -> (forall a, mild (k a)) -> mild (st_bind m k).
Proof.
  intros Hm Hk w Hwf. unfold st_bind. specialize (Hm w Hwf). destruct (m w) as [[a|e] w1]; [|done].
  eapply milder_trans; [exact Hm|]. apply Hk, Hm.
Qed.

Lemma mild_try {E A} (m : ST world E A) : mild m -> mild (st_try m).
Proof. intros Hm w Hwf. unfold st_try. specialize (Hm w Hwf). by destruct (m w). Qed.

Lemma mild_sys {A} (f : Io.error -> Error) (a : A) eff : (forall w, wf (w_db w) -> milder w (eff w)) ->
  mild (sys f a eff).
Proof.
  intros He w Hwf. unfold sys. cbv zeta. set (w1 := mkWorld _ _ _ _ _ _ _ _ _).
  assert (milder w w1) as Hw1 by (by apply milder_core).
  destruct (w_faults w) as [|[e|] fs]; [|exact Hw1|]; (eapply milder_trans; [exact Hw1|by apply He]).
Qed.

(** *** The registry *)

Lemma mild_reg {A} (f : db -> result Error A * db) :
  (forall w, wf (w_db w) -> milder w (set_db (f (w_db w)).2 w)) -> mild (reg f).
Proof. intros Hf w Hwf. specialize (Hf w Hwf). unfold reg. by destruct (f (w_db w)). Qed.

(** An operation of the abstract registry other than an insert. *)
Lemma mild_run o : op_ok o -> (forall sb, o <> OInsertSandbox sb) -> mild (reg (run o)).
Proof.
  intros Ho Hi. apply mild_reg. intros w Hwf. destruct (run o (w_db w)) as [r d] eqn:E.
  destruct (run_refines _ _ _ _ Hwf Ho E) as [Hstep Hwf']. split; simpl; [done| |by eauto|done|done].
  inversion Hstep; subst; try (by destruct (Hi sb)); simpl; try (by eauto).
  - intros i sb'. destruct (decide (i = id)) as [->|Hne]; [rewrite lookup_insert_eq; intros [= <-]; by exists sb|].
    rewrite lookup_insert_ne by done. eauto.
  - intros i sb' [_ Hl]%lookup_delete_Some. eauto.
Qed.

Lemma mild_get_sandbox k : mild (reg (get_sandbox k)).
Proof.
  apply mild_reg. intros w Hwf. destruct (get_sandbox k (w_db w)) as [r d] eqn:E.
  apply get_sandbox_tables in E as [Hs Hn]. by apply milder_core.
Qed.

Lemma mild_get_snapshot k : mild (reg (get_snapshot k)).
Proof.
  apply mild_reg. intros w Hwf. destruct (get_snapshot k (w_db w)) as [r d] eqn:E.
  apply get_snapshot_tables in E as [Hs Hn]. by apply milder_core.
Qed.

Lemma mild_list_sandboxes : mild (reg list_sandboxes).
Proof.
  apply mild_reg. intros w Hwf. unfold list_sandboxes.
  destruct (next_fault (w_db w)) as [[n m]|] eqn:Hf;
    [erewrite statement_fault by exact Hf|rewrite (statement_run _ _ Hf)]; by apply milder_core.
Qed.

Lemma mild_remove_sandbox id : mild (reg (remove_sandbox id)).
Proof. by apply (mild_run (ORemoveSandbox id)). Qed.
Lemma mild_update_state id st : mild (reg (update_sandbox_state id st)).
Proof. by apply (mild_run (OUpdateState id st)). Qed.
Lemma mild_insert_snapshot sn : u64_range (sn_size_bytes sn) -> mild (reg (insert_snapshot sn)).
Proof. intros Hu. by apply (mild_run (OInsertSnapshot sn)). Qed.
Lemma mild_set_size id z : u64_range z -> mild (reg (set_snapshot_size id z)).
Proof. intros Hu. by apply (mild_run (OSetSize id z)). Qed.
Lemma mild_remove_snapshot id : mild (reg (remove_snapshot id)).
Proof. by apply (mild_run (ORemoveSnapshot id)). Qed.

(** *** Effects *)

Lemma milder_make d w : wf (w_db w) -> milder w (make_state_dir d w).
Proof.
  intros Hwf. split; [done|by eauto| |done|done]. intros d' sd'. simpl.
  destruct (decide (d' = d)) as [->|Hne]; [|rewrite lookup_insert_ne by done; eauto].
  rewrite lookup_insert_eq. intros [= <-]. destruct (w_dirs w !! d) as [sd|] eqn:Hd; simpl; eauto.
Qed.

Lemma milder_dirs w m : wf (w_db w) -> m ⊆ w_dirs w -> milder w (set_dirs m w).
Proof.
  intros Hwf Hm. split; [done|by eauto| |done|done]. intros d sd Hd. right. exists sd.
  split; [by eapply lookup_weaken|done].
Qed.

Lemma milder_guests w g : wf (w_db w) -> g ⊆ w_guests w -> milder w (set_guests g w).
Proof. intros Hwf Hg. split; [done|by eauto|by eauto|done|done]. Qed.

(** A change of a directory's layer. *)
Lemma milder_write d (f : state_dir_t -> node) w : wf (w_db w) ->
  milder w (update_dir d (fun sd => set_upper (f sd) sd) w).
Proof.
  intros Hwf. split; [done|by eauto| |done|done]. intros d' sd'. simpl.
  destruct (decide (d' = d)) as [->|Hne]; [|rewrite lookup_alter_ne by done; eauto].
  rewrite lookup_alter_eq. destruct (w_dirs w !! d) as [sd|] eqn:Hd; simpl; [|done]. intros [= <-]. eauto.
Qed.

Lemma milder_upper d l w : wf (w_db w) -> milder w (update_dir d (set_upper l) w).
Proof. apply (milder_write d (fun _ => l)). Qed.

Create HintDb mild.
#[local] Hint Resolve mild_ret mild_fail mild_lift mild_try mild_get_sandbox mild_get_snapshot mild_list_sandboxes
  mild_remove_sandbox mild_update_state mild_remove_snapshot mild_insert_snapshot mild_set_size
  milder_make milder_upper milder_refl : mild.
#[local] Hint Extern 2 (milder _ _) => apply milder_core; done : mild.
#[local] Hint Extern 1 (mild (sys _ _ _)) => apply mild_sys; intros : mild.

(** A sequence of operations that only take away. *)
Ltac mild := repeat first [by eauto with mild | apply mild_bind; [|intros ?] | apply mild_try | case_match].

Lemma mild_random_id : mild random_id.
Proof. intros w Hwf. unfold random_id. repeat case_match; by apply milder_core. Qed.

Lemma mild_kill_guest d : mild (kill_guest d).
Proof.
  intros w Hwf. unfold kill_guest. repeat case_match; try by apply milder_refl.
  apply (mild_sys (Error_io "kill sandbox") tt); [|done]. intros w1 Hwf1. apply milder_guests; [done|].
  apply delete_subseteq.
Qed.

Lemma mild_best_effort op p eff : (forall w, wf (w_db w) -> milder w (eff w)) -> mild (best_effort op p eff).
Proof.
  intros He w Hwf. unfold best_effort. pose proof (mild_sys (Error_io op) tt eff He w Hwf) as Hs.
  destruct (sys _ tt eff w) as [[[]|e] w1]; [done|]. cbn [snd] in *. eapply milder_trans; [exact Hs|].
  apply milder_core; [apply Hs|done..].
Qed.

Lemma mild_rmdir_attempts c : forall fuel, mild (rmdir_attempts fuel c).
Proof.
  induction fuel as [|fuel IH]; intros w Hwf; cbn [rmdir_attempts]; [by apply milder_core|].
  destruct (rmdir_cgroup c w) as [r w1] eqn:E.
  assert (milder w w1) as Hm by (apply rmdir_cgroup_inv in E as [[_ ->]|[_ ->]]; by apply milder_core).
  pose proof (mild_wf _ _ Hm) as Hwf1. destruct r as [[]|[]]; try case_decide; try done;
    (eapply milder_trans; [exact Hm|]); first [by apply IH|by apply milder_core].
Qed.

Lemma mild_cgroup_destroy c : mild (cgroup_destroy c).
Proof.
  unfold cgroup_destroy. apply mild_bind; [|intros _; apply mild_rmdir_attempts].
  apply mild_best_effort. intros w Hwf. apply milder_guests; [done|]. apply map_filter_subseteq.
Qed.

Lemma mild_remove_cgroup d : mild (remove_cgroup d).
Proof.
  intros w Hwf. unfold remove_cgroup. case_match; [|by apply milder_refl].
  pose proof (mild_sys (Error_io "read cgroup path") tt id_world (fun w => milder_refl w) w Hwf) as Hs.
  destruct (sys _ tt id_world w) as [[[]|e] w1]; cbn [snd] in *; (eapply milder_trans; [exact Hs|]).
  - apply mild_cgroup_destroy, Hs.
  - apply milder_core; [apply Hs|done..].
Qed.

Lemma mild_drop d w : wf (w_db w) -> milder w (drop_dir d w).
Proof. intros Hwf. apply milder_dirs; [done|]. apply delete_subseteq. Qed.
#[local] Hint Resolve mild_random_id mild_kill_guest mild_remove_cgroup mild_drop : mild.

Lemma mild_done (m : B unit) eff : (forall w r w', m w = (r, w') -> done_or_not eff w r w') ->
  (forall w, wf (w_db w) -> milder w (eff w)) -> mild m.
Proof.
  intros Hm He w Hwf. destruct (m w) as [r w'] eqn:E. apply Hm in E. destruct r as [[]|e]; simpl in *.
  - destruct E as (w1 & [fs ->] & ->). eapply milder_trans; [|apply He; exact Hwf]. by apply milder_core.
  - destruct E as [fs ->]. by apply milder_core.
Qed.

Lemma mild_remove_state_dir d : mild (remove_state_dir d).
Proof. eapply mild_done; [intros ???; apply remove_state_dir_done|]. intros w. apply mild_drop. Qed.

Lemma mild_copy_layer eff : (forall w, wf (w_db w) -> milder w (eff w)) -> mild (copy_layer eff).
Proof. apply mild_done. intros ???. apply copy_layer_done. Qed.
#[local] Hint Resolve mild_remove_state_dir mild_copy_layer : mild.

(** Run [m] at [w], which is where the goal starts. *)
Ltac run m w Hwf w1 Hwf1 :=
  let Hm := fresh in assert (mild m) as Hm by mild; specialize (Hm w Hwf);
  destruct (m w) as [[a|e] w1]; cbn [snd] in Hm; (eapply milder_trans; [exact Hm|]);
  pose proof (mild_wf _ _ Hm) as Hwf1; clear Hm.

Lemma mild_destroy_inner sb : mild (destroy_inner sb).
Proof. unfold destroy_inner. mild. Qed.

Lemma mild_acquire d : mild (acquire_op_lock d).
Proof. unfold acquire_op_lock. mild. Qed.
#[local] Hint Resolve mild_destroy_inner mild_acquire : mild.

Lemma mild_destroy id : mild (destroy id).
Proof.
  intros w Hwf. unfold destroy. run (reg (get_sandbox id)) w Hwf w1 Hwf1.
  - assert (mild (do! _ := st_try (acquire_op_lock (sb_state_dir a)) in destroy_inner a)) as Hd by mild. by apply Hd.
  - case_match; by apply milder_refl.
Qed.

Lemma mild_create_cgroup id l : mild (create_cgroup id l).
Proof.
  intros w Hwf. unfold create_cgroup. cbv zeta.
  match goal with |- context [sys ?f ?a ?e w] => run (sys f a e) w Hwf w1 Hwf1 end.
  - case_match; [|by apply milder_refl].
    match goal with |- milder ?x (st_bind ?m ?k ?x).2 => assert (mild (st_bind m k)) as Hb by mild; by apply Hb end.
  - case_match; by apply milder_refl.
Qed.

Lemma mild_create_subdirs d : mild (create_subdirs d).
Proof. unfold create_subdirs. mild. Qed.

Lemma mild_seed_upper d o : mild (seed_upper d o).
Proof.
  unfold seed_upper. destruct o; [|mild]. apply mild_bind; [mild|]. intros snap w Hwf.
  match goal with |- context [copy_layer ?e w] => run (copy_layer e) w Hwf w1 Hwf1 end; by apply milder_refl.
Qed.
#[local] Hint Resolve mild_create_cgroup mild_create_subdirs mild_seed_upper : mild.

(** *** Snapshots *)

Context (root : path) (unix_now : Z) (layer_bytes : node -> Z).
Context (Hbytes : forall l, u64_range (layer_bytes l)).

Lemma mild_make_snapshot_dir id d : mild (make_snapshot_dir id d).
Proof.
  unfold make_snapshot_dir. apply mild_bind; [mild|]. intros [] w Hwf. case_match; [by apply milder_refl|].
  apply (mild_sys (Error_io "create snapshot dir") tt); [|done]. mild.
Qed.

Lemma mild_remove_snapshot_dir d : mild (remove_snapshot_dir d).
Proof. apply mild_best_effort. intros w Hwf. by apply milder_core. Qed.
#[local] Hint Resolve mild_remove_snapshot_dir : mild.

Lemma mild_record_snapshot meta : u64_range (sn_size_bytes meta) -> mild (record_snapshot meta).
Proof.
  intros Hu w Hwf. unfold record_snapshot. run (reg (insert_snapshot meta)) w Hwf w1 Hwf1; [by apply milder_refl|].
  assert (mild (do! _ := remove_snapshot_dir (sn_path meta) in @st_fail _ _ unit e)) as Hm by mild. by apply Hm.
Qed.

Lemma mild_copy_or_rollback id d l : mild (copy_or_rollback layer_bytes id d l).
Proof.
  intros w Hwf. unfold copy_or_rollback.
  match goal with |- context [copy_layer ?e w] => run (copy_layer e) w Hwf w1 Hwf1 end.
  - assert (mild (do! _ := reg (set_snapshot_size id (layer_bytes l)) in st_ret id)) as Hm by mild. by apply Hm.
  - assert (mild (do! _ := remove_snapshot_dir d in do! _ := st_try (reg (remove_snapshot id)) in
                  @st_fail _ _ string e)) as Hm by mild.
    by apply Hm.
Qed.

Lemma mild_snapshot id name : mild (snapshot root unix_now layer_bytes id name).
Proof.
  unfold snapshot. case_decide; [mild|]. apply mild_bind; [mild|]. intros sb. apply mild_bind; [mild|]. intros _.
  apply mild_bind; [mild|]. intros sb2. apply mild_bind; [mild|]. intros sid. cbv zeta.
  apply mild_bind; [apply mild_make_snapshot_dir|]. intros _.
  apply mild_bind; [apply mild_record_snapshot; unfold u64_range; simpl; lia|]. intros _ w. apply mild_copy_or_rollback.
Qed.

End mild.

(** ** The invariant *)

(** A setup process that tells the pid of the guest it forked. *)
Definition truthful (r : setup_run) : Prop :=
  forall has_cgroup pid, drive r has_cgroup None (sr_lines r) = Ok pid -> sr_guest r = Some pid.

Section history.
Context `{SqlEngine, LimitsJson, !LimitsJsonLaws, CgroupBase}.
Context (root : path) (Hroot : str_utf8 root) (fs : project_fs) (layer_bytes : node -> Z).
Context (Hbytes : forall l, u64_range (layer_bytes l)).

(** The directory [d] is that of the sandbox with cgroup [c]. *)
Definition matching (d c : path) : Prop := exists id, d = state_dir root id /\ c = cgroup_of id.

Lemma matching_inj d d' c : matching d c -> matching d' c -> d = d'.
Proof. intros (id & -> & ->) (id' & -> & E%cgroup_of_inj). by subst. Qed.

(** Rows are of this backend and name the directory of their id; recorded
    cgroups and those of live recorded guests belong to their directory; setup
    processes still to come report guests of new pids. *)
Record sane (w : world) : Prop := {
  sane_wf : wf (w_db w);
  sane_rows : forall id sb, s_sandboxes (abstract (w_db w)) !! id = Some sb ->
    sb_state_dir sb = state_dir root id /\ sb_backend sb = BACKEND_NAME;
  sane_cgroups : forall d sd c, w_dirs w !! d = Some sd -> sd_cgroup_path sd = Some c -> matching d c;
  sane_guests : forall d sd pid c, w_dirs w !! d = Some sd -> sd_pidfile sd = Some pid ->
    w_guests w !! pid = Some (Some c) -> matching d c;
  sane_setups : Forall truthful (w_setups w) /\ NoDup (omap sr_guest (w_setups w));
  sane_fresh : forall pid, pid ∈ omap sr_guest (w_setups w) -> w_guests w !! pid = None /\
    forall d sd, w_dirs w !! d = Some sd -> sd_pidfile sd <> Some pid;
}.

Lemma sane_milder w w' : sane w -> milder w w' -> sane w'.
Proof.
  intros [_ R C G S F] [W' R' D' G' S']. split; rewrite ?S'; [done| | | |done|].
  - intros id sb' (sb & Hsb & -> & ->)%R'. by apply R.
  - intros d sd' c Hd Hc. destruct (D' _ _ Hd) as [[E _]|(sd & Hsd & E & _)]; [congruence|].
    rewrite E in Hc. by eapply C.
  - intros d sd' pid c Hd Hp Hg. destruct (D' _ _ Hd) as [[_ E]|(sd & Hsd & _ & E)]; [congruence|].
    rewrite E in Hp. eapply G; [exact Hsd|exact Hp|]. by eapply lookup_weaken.
  - intros pid [Hg Hp]%F. split; [by eapply lookup_weaken_None|]. intros d sd' Hd E.
    destruct (D' _ _ Hd) as [[_ E']|(sd & Hsd & _ & E')]; [congruence|]. apply (Hp d sd Hsd). congruence.
Qed.

Lemma sane_mild {E A} (m : ST world E A) w : mild m -> sane w -> sane (m w).2.
Proof. intros Hm Hw. eapply sane_milder; [exact Hw|]. apply Hm, Hw. Qed.

Lemma sane_apart w : sane w -> apart w.
Proof.
  intros Hw d d' sd sd' c pid Hd Hd' Hc Hp Hg. eapply matching_inj; [by eapply sane_cgroups|by eapply sane_guests].
Qed.

Lemma sane_own_dirs w : sane w -> own_dirs (abstract (w_db w)).
Proof.
  intros Hw id id' sb sb' Hs Hs' E. apply (state_dir_inj root).
  rewrite <- (proj1 (sane_rows _ Hw _ _ Hs)), <- (proj1 (sane_rows _ Hw _ _ Hs')). done.
Qed.

(** *** What keeps it *)

Definition keeps {E A} (m : ST world E A) : Prop := forall w, sane w -> sane (m w).2.

Lemma keeps_mild {E A} (m : ST world E A) : mild m -> keeps m.
Proof. intros Hm w. by apply sane_mild. Qed.

Lemma kept_bind {E A A'} (Q : A -> Prop) (m : ST world E A) (k : A -> ST world E A') : keeps m ->
  (forall w a w', m w = (Ok a, w') -> Q a) -> (forall a, Q a -> keeps (k a)) -> keeps (st_bind m k).
Proof.
  intros Hm HQ Hk w Hw. unfold st_bind. specialize (Hm w Hw). destruct (m w) as [[a|e] w1] eqn:Em; [|done].
  apply Hk; [by eapply HQ|exact Hm].
Qed.

Lemma kept_sys {A} (f : Io.error -> Error) (a : A) eff : (forall w, sane w -> sane (eff w)) -> keeps (sys f a eff).
Proof.
  intros He w Hw. unfold sys. cbv zeta. set (w1 := mkWorld _ _ _ _ _ _ _ _ _).
  assert (sane w1) as Hw1 by (eapply sane_milder; [exact Hw|apply milder_core; [apply Hw|done..]]).
  destruct (w_faults w) as [|[e|] fs']; [|exact Hw1|]; by apply He.
Qed.

Lemma spec_insert_rows f sb s r s' : spec_step f (OInsertSandbox sb) s r s' ->
  s_sandboxes s' = s_sandboxes s \/ s_sandboxes s' = <[sb_id sb := stored_sandbox sb]> (s_sandboxes s).
Proof. inversion 1; auto. Qed.

Lemma new_sandbox_kept now bs spec pd : keeps (reg (insert_sandbox (new_sandbox root now (hex_bytes bs) spec pd))).
Proof.
  intros w Hw. set (sb := new_sandbox _ _ _ _ _). unfold reg. destruct (insert_sandbox sb (w_db w)) as [r d] eqn:E.
  destruct (run_refines (OInsertSandbox sb) _ _ _ (sane_wf _ Hw) I E) as [Hstep Hwf].
  split; cbn [snd set_db w_db w_dirs w_guests w_setups]; [done| |by apply Hw..]. intros id sb' Hsb.
  destruct (spec_insert_rows _ _ _ _ _ Hstep) as [Es|Es]; rewrite Es in Hsb; [by apply (sane_rows _ Hw)|].
  destruct (decide (id = hex_bytes bs)) as [->|Hne].
  - rewrite lookup_insert_eq in Hsb. injection Hsb as <-. split; [|done]. by apply str_lossy_id, state_dir_text.
  - rewrite lookup_insert_ne in Hsb by done. by apply (sane_rows _ Hw).
Qed.

(** *** The start of a guest *)

Lemma create_cgroup_path id l w c w' : create_cgroup id l w = (Ok (Some c), w') -> c = cgroup_of id.
Proof.
  unfold create_cgroup, st_bind, st_ret, sys, cgroup_of. cbv zeta.
  repeat case_match; intros; by simplify_eq.
Qed.

Lemma sane_record_cgroup id c w : c = cgroup_of id -> sane w ->
  sane (update_dir (state_dir root id) (set_cgroup_path c) w).
Proof.
  intros -> [W R C G S F]. unfold update_dir. split; cbn [w_db w_dirs w_guests w_setups set_dirs]; [done..| | |done|].
  - intros d sd c [(<- & sd0 & Hsd & ->)|[Hne Hd]]%lookup_alter_Some Hc; [|by eapply C].
    injection Hc as <-. by exists id.
  - intros d sd pid c [(<- & sd0 & Hsd & ->)|[Hne Hd]]%lookup_alter_Some Hp Hg; [|by eapply G]. by eapply G.
  - intros pid [Hg Hp]%F. split; [done|].
    intros d sd [(<- & sd0 & Hsd & ->)|[Hne Hd]]%lookup_alter_Some; [exact (Hp _ sd0 Hsd)|by eapply Hp].
Qed.

(** The guest [pid] may be recorded in [d]. *)
Definition recordable (d : path) (pid : N) (w : world) : Prop :=
  (forall c, w_guests w !! pid = Some (Some c) -> matching d c) /\ pid ∉ omap sr_guest (w_setups w).

Lemma sane_record_pid d pid w : recordable d pid w -> sane w -> sane (update_dir d (set_pidfile pid) w).
Proof.
  intros [Hm Hnot] [W R C G S F]. unfold update_dir.
  split; cbn [w_db w_dirs w_guests w_setups set_dirs]; [done..| | |done|].
  - intros d' sd c [(<- & sd0 & Hsd & ->)|[Hne Hd]]%lookup_alter_Some Hc; by eapply C.
  - intros d' sd pid' c [(<- & sd0 & Hsd & ->)|[Hne Hd]]%lookup_alter_Some Hp Hg; [|by eapply G].
    injection Hp as <-. by apply Hm.
  - intros p Hin. destruct (F p Hin) as [Hg Hp]. split; [done|].
    intros d' sd [(<- & sd0 & Hsd & ->)|[Hne Hd]]%lookup_alter_Some; [|by eapply Hp]. simpl. by intros [= ->].
Qed.

Lemma sane_next_setup w r w1 : sane w -> next_setup w = (Ok r, w1) -> sane w1 /\ truthful r /\
  (forall pid, sr_guest r = Some pid -> w_guests w1 !! pid = None /\ (pid ∉ omap sr_guest (w_setups w1)) /\
    (forall d sd, w_dirs w1 !! d = Some sd -> sd_pidfile sd <> Some pid)).
Proof.
  intros [W R C G [St Sn] F]. unfold next_setup. intros [= <- <-].
  destruct (w_setups w) as [|r rs] eqn:E; simpl; [split; [by split|split; [by intros ??|done]]|].
  apply Forall_cons in St as [Ht St]. simpl in Sn, F. split; [|split; [exact Ht|]].
  - split; simpl; try done; [|].
    + split; [done|]. destruct (sr_guest r); [by apply NoDup_cons in Sn as [_ ?]|done].
    + intros pid Hin. apply F. simpl. destruct (sr_guest r); [by apply elem_of_cons; right|done].
  - intros pid Hp. rewrite Hp in Sn, F. apply NoDup_cons in Sn as [Hnot _].
    destruct (F pid) as [Hg Hd]; [by apply elem_of_cons; left|done].
Qed.

Lemma sane_start w r w1 cg d : sane w -> next_setup w = (Ok r, w1) -> (forall c, cg = Some c -> matching d c) ->
  sane (start_guest r cg w1) /\ forall b pid, drive r b None (sr_lines r) = Ok pid ->
    recordable d pid (start_guest r cg w1).
Proof.
  intros Hw E Hcg. destruct (sane_next_setup _ _ _ Hw E) as ([W R C G S F] & Ht & Hfresh).
  unfold start_guest. destruct (sr_guest r) as [p|] eqn:Hp.
  - destruct (Hfresh p eq_refl) as (Hg & Hnot & Hd). split.
    + split; simpl; try done.
      * intros d' sd pid c Hd' Hpid. rewrite lookup_insert_ne by (intros ->; by eapply Hd). by eapply G.
      * intros pid Hin. destruct (F pid Hin) as [Hg' Hd']. split; [|done]. rewrite lookup_insert_ne; [done|by intros ->].
    + intros b pid Hdr. apply Ht in Hdr. assert (pid = p) as -> by congruence. split; [|done].
      simpl. intros c. rewrite lookup_insert_eq. intros [= ->]. by apply Hcg.
  - split; [by split|]. intros b pid Hdr. apply Ht in Hdr. congruence.
Qed.

Lemma keeps_end now id spec pd pid w : sane w -> recordable (state_dir root id) pid w ->
  forall st : option N,
  let sb := new_sandbox root now id spec pd in
  sane ((do! _ := st_lift (match st with
                           | Some _ => Ok tt
                           | None => Err (setup_error "guest died immediately after setup")
                           end) in
         do! _ := sys (Error_io "write pidfile") tt (update_dir (sb_state_dir sb) (set_pidfile pid)) in
         do! _ := reg (update_sandbox_state (sb_id sb) Ready) in
         st_ret (ready_sandbox sb)) w).2.
Proof.
  intros Hw Hr [s|] sb; [|done]. unfold st_bind at 1. cbn [st_lift].
  unfold st_bind at 1. unfold sys. cbv zeta. set (w1 := mkWorld _ _ _ _ _ _ _ _ _).
  assert (sane w1) as Hw1 by (eapply sane_milder; [exact Hw|apply milder_core; [apply Hw|done..]]).
  pose proof (sane_record_pid (state_dir root id) pid w1 Hr Hw1) as Hw2.
  assert (mild (do! _ := reg (update_sandbox_state (sb_id sb) Ready) in st_ret (ready_sandbox sb))) as Hm.
  { apply mild_bind; [apply mild_update_state|intros; apply mild_ret]. }
  destruct (w_faults w) as [|[e|] fs']; [|exact Hw1|]; by apply (sane_mild _ _ Hm).
Qed.

Lemma keeps_do_spawn now id spec pd : keeps (do_spawn (new_sandbox root now id spec pd) spec).
Proof.
  set (sb := new_sandbox _ _ _ _ _). unfold do_spawn. cbv zeta.
  eapply (kept_bind (fun cg => forall c, cg = Some c -> c = cgroup_of id)).
  { apply keeps_mild, mild_create_cgroup. }
  { intros w a w' E c ->. by eapply create_cgroup_path. }
  intros cg Hcg. apply (kept_bind (fun _ => True)); [|done|intros _ _].
  { destruct cg as [c|]; [|by intros ?]. apply kept_sys. intros w. apply sane_record_cgroup. by apply Hcg. }
  apply (kept_bind (fun _ => True)); [apply keeps_mild, mild_lift|done|intros _ _].
  apply (kept_bind (fun _ => True)); [by apply kept_sys|done|intros _ _].
  intros w Hw. unfold st_bind at 1. destruct (next_setup w) as [[r|e] w1] eqn:E; [|done].
  unfold st_bind at 1. destruct (sane_start w r w1 cg (state_dir root id) Hw E) as [Hs Hp].
  { intros c ->. exists id. split; [done|by apply Hcg]. }
  destruct (drive r _ None (sr_lines r)) as [pid|e] eqn:Hdr; [|exact Hs].
  by apply (keeps_end now id spec pd pid), (Hp _ _ Hdr).
Qed.

Lemma keeps_spawn now spec : keeps (spawn root fs now spec).
Proof.
  unfold spawn. apply (kept_bind (fun _ => True)); [apply keeps_mild, mild_lift|done|intros pd _].
  apply (kept_bind (fun id => exists bs, id = hex_bytes bs)); [apply keeps_mild, mild_random_id|apply random_id_hex|].
  intros id [bs ->]. cbv zeta.
  apply (kept_bind (fun _ => True)); [apply keeps_mild, mild_create_subdirs|done|intros _ _].
  apply (kept_bind (fun _ => True)); [apply keeps_mild, mild_acquire|done|intros _ _].
  apply (kept_bind (fun _ => True)); [apply keeps_mild, mild_seed_upper|done|intros _ _].
  apply (kept_bind (fun _ => True)); [apply new_sandbox_kept|done|intros _ _].
  intros w Hw. unfold spawn_or_rollback. pose proof (keeps_do_spawn now (hex_bytes bs) spec pd w Hw) as Hs.
  destruct (do_spawn _ spec w) as [[sb|e] w1]; [exact Hs|]. cbn [snd] in Hs.
  pose proof (sane_mild _ _ (mild_destroy_inner (new_sandbox root now (hex_bytes bs) spec pd)) Hs) as Hd.
  by destruct (destroy_inner _ w1).
Qed.

Lemma keeps_restore now sid name : keeps (restore root fs now sid name).
Proof.
  unfold restore. apply (kept_bind (fun _ => True)); [apply keeps_mild, mild_get_snapshot|done|intros sn _].
  apply keeps_spawn.
Qed.

Lemma keeps_reconcile_one held others sb n : (forall sb w, sane w -> sane (others sb w)) ->
  keeps (reconcile_one held others sb n).
Proof.
  intros Ho w Hw. unfold reconcile_one. case_decide; [done|]. destruct (guest_alive _ w); [done|].
  destruct (w_dirs w !! sb_state_dir sb).
  - cbv zeta. pose proof (Ho sb w Hw) as Hw'. destruct (held _); [done|].
    pose proof (sane_mild _ _ (mild_destroy_inner sb) Hw') as Hd. by destruct (destroy_inner sb _) as [[[]|e] w2].
  - pose proof (sane_mild _ _ (mild_remove_sandbox (sb_id sb)) Hw) as Hd. by destruct (reg (remove_sandbox _) w).
Qed.

Lemma keeps_reconcile held others : (forall sb w, sane w -> sane (others sb w)) -> keeps (reconcile held others).
Proof.
  intros Ho. unfold reconcile.
  apply (kept_bind (fun _ => True)); [apply keeps_mild, mild_list_sandboxes|done|intros sbs _].
  generalize 0%nat. induction sbs as [|sb sbs IH]; intros n; simpl; [by intros w|].
  apply (kept_bind (fun _ => True)); [by apply keeps_reconcile_one|done|intros n' _; apply IH].
Qed.

(** *** Histories *)

(** What can happen: the calls of the backend, another process's calls while a
    reconcile passes from a sandbox's liveness check to its lock, a guest that
    dies, and a guest that writes to its layer. *)
Inductive action :=
  | ASpawn (now : Z) (spec : SandboxSpec)
  | ARestore (now : Z) (snapshot_id : string) (name : option string)
  | ASnapshot (now : Z) (id name : string)
  | ADestroy (id : string)
  | AReconcile (held : path -> bool) (meanwhile : Sandbox -> list action)
  | AExit (pid : N)
  | AWrite (d : path) (layer : node).

Fixpoint perform (a : action) (w : world) : world :=
  match a with
  | ASpawn now spec => (spawn root fs now spec w).2
  | ARestore now sid name => (restore root fs now sid name w).2
  | ASnapshot now id name => (snapshot root now layer_bytes id name w).2
  | ADestroy id => (destroy id w).2
  | AReconcile held meanwhile =>
      (reconcile held (fun sb w => fold_left (fun w a => perform a w) (meanwhile sb) w) w).2
  | AExit pid => set_guests (delete pid (w_guests w)) w
  | AWrite d l => update_dir d (set_upper l) w
  end.

Definition history (acts : list action) (w : world) : world := fold_left (fun w a => perform a w) acts w.

Lemma sane_perform a : forall w, sane w -> sane (perform a w).
Proof.
  revert a. fix IHa 1. intros a w Hw. destruct a as [now spec|now sid name|now id name|id|held meanwhile|pid|d l]; simpl.
  - by apply keeps_spawn.
  - by apply keeps_restore.
  - by apply keeps_mild; [apply mild_snapshot|].
  - by apply keeps_mild; [apply mild_destroy|].
  - apply keeps_reconcile; [|done]. intros sb. generalize (meanwhile sb).
    fix IH 1. intros [|a acts] w0 Hw0; simpl; [done|]. apply IH, IHa, Hw0.
  - eapply sane_milder; [exact Hw|]. apply milder_guests; [apply Hw|apply delete_subseteq].
  - eapply sane_milder; [exact Hw|]. apply milder_upper, Hw.
Qed.

Lemma sane_history acts : forall w, sane w -> sane (history acts w).
Proof. induction acts as [|a acts IH]; intros w Hw; simpl; [done|]. by apply IH, sane_perform. Qed.

(** The first start, whatever the system will do. *)
Lemma sane_start_empty w : db_sandbox (w_db w) = [] -> db_snapshot (w_db w) = [] -> w_dirs w = ∅ -> w_guests w = ∅ ->
  Forall truthful (w_setups w) -> NoDup (omap sr_guest (w_setups w)) -> sane w.
Proof.
  intros Hs Hn Hd Hg Ht Hnd. split; rewrite ?Hd, ?Hg; try done.
  - split; rewrite ?Hs, ?Hn; try by constructor.
    all: by intros ?? ?%elem_of_nil.
  - intros id sb. unfold abstract. rewrite Hs. done.
Qed.

(** From here on no call fails. *)
Definition quiet (w : world) : world :=
  mkWorld (mkDb (db_sandbox (w_db w)) (db_snapshot (w_db w)) []) (w_dirs w) (w_snapshots w) (w_guests w)
    (w_cgroups w) [] (w_random w) (w_setups w) (w_dropped w).

Lemma sane_quiet w : sane w -> sane (quiet w).
Proof. intros Hw. eapply sane_milder; [exact Hw|]. by apply milder_core; [apply Hw|..]. Qed.

(** C18: Whatever calls were made, whichever of them failed on the way, whatever
    other processes did during a reconcile and whichever guests died, a
    reconcile that nothing disturbs succeeds and leaves exactly the sandboxes
    with a live guest, untouched; of the others neither the row nor the
    directory is left. *)
Theorem history_heals acts w : sane w ->
  let w1 := quiet (history acts w) in
  exists n w', reconcile no_lock alone w1 = (Ok n, w') /\
  (forall id sb, s_sandboxes (abstract (w_db w')) !! id = Some sb <->
     s_sandboxes (abstract (w_db w1)) !! id = Some sb /\ guest_alive (sb_state_dir sb) w1 = true) /\
  (forall id sb, s_sandboxes (abstract (w_db w1)) !! id = Some sb ->
     if guest_alive (sb_state_dir sb) w1
     then w_dirs w' !! sb_state_dir sb = w_dirs w1 !! sb_state_dir sb /\ guest_alive (sb_state_dir sb) w' = true
     else w_dirs w' !! sb_state_dir sb = None).
Proof.
  intros Hw w1. assert (sane w1) as Hw1 by (by apply sane_quiet, sane_history).
  destruct (reconcile_alone w1) as (l & w' & Hp & (Hs & Hk & Hd & Hg) & E);
    [done|apply Hw1|by apply sane_apart|by apply sane_own_dirs|].
  assert (forall id sb, s_sandboxes (abstract (w_db w1)) !! id = Some sb ->
    dead w1 sb <-> guest_alive (sb_state_dir sb) w1 = false) as Hdead.
  { intros id sb Hsb. unfold dead. destruct (sane_rows _ Hw1 _ _ Hsb) as [_ ->]. naive_solver. }
  eexists _, w'. split; [exact E|].
  pose proof (fun id sb => dead_swept w1 l id sb (sane_wf _ Hw1) (sane_own_dirs _ Hw1) Hp) as Hsw. split.
  - intros id sb. destruct (s_sandboxes (abstract (w_db w1)) !! id) as [sb1|] eqn:Hsb.
    + destruct (Hsw id sb1 Hsb) as [Hid _]. destruct (guest_alive (sb_state_dir sb1) w1) eqn:Ha.
      * rewrite Hk, Hsb; [naive_solver|]. rewrite <- Hid, (Hdead id sb1 Hsb). congruence.
      * rewrite Hs; [naive_solver congruence|]. by apply Hid, (Hdead id sb1 Hsb).
    + split; [|by intros [? _]]. intros Hl. rewrite Hk in Hl; [congruence|].
      intros Hin. rewrite Hs in Hl by done. done.
  - intros id sb Hsb. destruct (Hsw id sb Hsb) as [_ Hdir]. destruct (guest_alive (sb_state_dir sb) w1) eqn:Ha.
    + destruct (Hg (sb_state_dir sb)) as [-> ->]; [|done]. rewrite <- Hdir, (Hdead id sb Hsb). congruence.
    + apply Hd, Hdir. by rewrite (Hdead id sb Hsb).
Qed.
End history.

(** ** Witness *)
Module Witness.

#[local] Existing Instance RegistrySpec.Witness.json.
#[local] Existing Instance RegistrySpec.Witness.json_laws.
#[local] Existing Instance RegistrySpec.Witness.in_order.
#[local] Existing Instance BackendSpec.Witness.base.
Import BackendSpec.Witness.

Definition setup_of (digit : string) (pid : N) : setup_run :=
  mkSetupRun ["unshared"; "pid " +:+ digit; "ready"]%string
    None false EmptyString (Ok tt) (Ok tt) None (Some pid) (Some 1%N).

(** A first start. *)
Definition first : world :=
  mkWorld RegistrySpec.Witness.empty ∅ ∅ ∅ ∅ []
    [Ok (replicate 16 Byte.x01); Ok (replicate 16 Byte.x02); Ok (replicate 16 Byte.x03)]
    [setup_of "7" 7; setup_of "8" 8] [].

(** A sandbox, a snapshot of it and a sandbox from that; then the first one's
    guest dies. *)
Definition acts : list action :=
  [ASpawn 0 (spec0 (Some "box"%string)); ASnapshot 5 "box" "snap"; ARestore 9 "snap" (Some "copy"%string); AExit 7].

Definition after : world := quiet (history "/s" any_dir no_bytes acts first).

Lemma sane_first : sane "/s" first.
Proof.
  apply sane_start_empty; try done.
  - repeat constructor; intros [] pid; vm_compute; congruence.
  - repeat constructor; vm_compute; set_solver.
Qed.

Lemma history_heals_witness : exists n w', reconcile no_lock alone after = (Ok n, w') /\
  s_sandboxes (abstract (w_db w')) !! id1 = None /\ w_dirs w' !! ("/s/" +:+ id1) = None /\
  s_sandboxes (abstract (w_db w')) !! id3 = Some the_copy.
Proof.
  assert (str_utf8 "/s") as Hroot by (apply utf8_ascii; by repeat constructor).
  assert (forall l, u64_range (no_bytes l)) as Hb by (intros l; unfold u64_range, no_bytes; lia).
  destruct (history_heals "/s" Hroot any_dir no_bytes Hb acts first sane_first) as (n & w' & E & Hrows & Hdirs).
  exists n, w'. split; [exact E|].
  assert (s_sandboxes (abstract (w_db after)) !! id1 = Some the_sandbox) as H1 by (by vm_compute).
  assert (guest_alive (sb_state_dir the_sandbox) after = false) as Ha1 by (by vm_compute).
  split; [|split].
  - destruct (s_sandboxes (abstract (w_db w')) !! id1) as [sb|] eqn:Hsb; [|reflexivity].
    apply Hrows in Hsb as [Hsb Ha]. unfold after in H1, Ha1. rewrite H1 in Hsb. injection Hsb as <-.
    rewrite Ha1 in Ha. discriminate Ha.
  - specialize (Hdirs id1 the_sandbox H1). unfold after in Ha1. rewrite Ha1 in Hdirs. exact Hdirs.
  - apply Hrows. split; by vm_compute.
Defined.
End Witness.
