(* ===== verification/Exec.v ===== *)
(** * Running a command: from the guest's frames to an exit code

    draug-ns/src/linux/backend.rs, [NsBackend::exec] and the task it spawns;
    draug-cli/src/main.rs, [Command::Exec]; draug-cli/src/mcp.rs, [do_exec].
    An [ExecHandle] is the list of the events it will deliver: the channel is
    bounded but neither drops nor reorders.  A dropped handle sees a prefix.  A
    command changes the layer of its sandbox; how is the socket's to say. *)

From S2P Require Import Prelude Text Types FsTree Proto Registry RegistrySpec Output Backend.

(** ** The event stream *)

Definition closed_early : ExecEvent :=
  Failed "protocol" "guest closed the connection without a terminal frame".

(** What a frame becomes, and whether the task ends there. *)
Definition event_of (m : GuestMessage) : ExecEvent * bool :=
  match m with
  | Started pid => (EStarted pid, false)
  | Stdout data => (EStdout data, false)
  | Stderr data => (EStderr data, false)
  | Exit code signal => (Exited code signal, true)
  | ErrorMsg kind message => (Failed kind message, true)
  end.

(** The task: each frame takes at least the four bytes of its length. *)
Fixpoint relay_loop `{Codec GuestMessage} (fuel : nat) (r : reader) : list ExecEvent :=
  match fuel with
  | O => []
  | S fuel' =>
      match host_read_frame r with
      | (Ok (Some m), r') =>
          let '(event, terminal) := event_of m in
          if terminal : bool then [event] else event :: relay_loop fuel' r'
      | (Ok None, _) => [closed_early]
      | (Err e, _) => [Failed "protocol" ("reading guest stream: " +:+ Io.message e)]
      end
  end.

Definition relay `{Codec GuestMessage} (r : reader) : list ExecEvent :=
  relay_loop (S (length (rd_data r))) r.

(** ** exec *)

(** What the guest socket's path and the connection to it answer. *)
Record socket := mkSocket {
  so_stat : result Io.error bool;       (* is it a socket? *)
  so_connect : result Io.error unit;
  so_send : result Io.error unit;
  so_stream : reader;                   (* what the guest then sends *)
  so_writes : node -> node;             (* what the command does to the sandbox's layer *)
}.

Definition sock_path (d : path) : path := join (join d "rt") "guest.sock".

Definition stopped (sb : Sandbox) : Error := WrongState (sb_id sb) Stopped "exec".

Definition open_socket (so : socket) (alive : bool) (sb : Sandbox) : result Error unit :=
  let? _ := match so_stat so with
            | Ok true => Ok tt
            | Ok false =>
                Err (Protocol ("guest socket " +:+ str_lossy (sock_path (sb_state_dir sb)) +:+
                  " is not a socket (sandbox tampering?); refusing to connect"))
            | Err e =>
                if decide (Io.kind e = Io.NotFound)
                then Err (if alive then Protocol "guest socket is missing while the guest is alive" else stopped sb)
                else Err (Error_io "stat guest socket" e)
            end in
  match so_connect so with
  | Ok _ => Ok tt
  | Err e => Err (if alive then Protocol ("guest socket unreachable: " +:+ Io.message e) else stopped sb)
  end.

Definition request_msg (req : ExecRequest) : HostMessage :=
  ExecRequestMsg (er_argv req) (er_env req) (er_cwd req) false false (er_timeout_ms req).

(** The command writes to the layer of its sandbox while its events arrive; here
    the layer changes when the request is sent. *)
Definition run_command (so : socket) (d : path) (w : world) : world :=
  update_dir d (fun sd => set_upper (so_writes so (sd_upper sd)) sd) w.

(** The request that is sent, and the events that follow it. *)
Definition exec `{SqlEngine, LimitsJson, Codec GuestMessage} (so : socket) (id : string) (req : ExecRequest)
  : B (HostMessage * list ExecEvent) :=
  do! sb := reg (get_sandbox id) in
  if decide (sb_state sb = Creating) then st_fail (WrongState (sb_id sb) (sb_state sb) "exec")
  else if decide (er_argv req = []) then st_fail (InvalidSpec "exec argv must not be empty")
  else fun w =>
    (do! _ := st_lift (open_socket so (guest_alive (sb_state_dir sb) w) sb) in
     match so_send so with
     | Err e => st_fail (Protocol ("send exec request: " +:+ Io.message e))
     | Ok _ => fun w => (Ok (request_msg req, relay (so_stream so)), run_command so (sb_state_dir sb) w)
     end) w.

(** ** sbx exec *)

Definition EXIT_INTERNAL : Z := 125.
Definition EXIT_TIMEOUT : Z := 124.
Definition EXIT_SPAWN_FAILED : Z := 127.

(** [i32] addition, which wraps in a release build. *)
Definition i32_wrap (z : Z) : Z := (z + 2 ^ 31) mod 2 ^ 32 - 2 ^ 31.

Definition exit_status (code signal : option Z) : Z :=
  match code, signal with
  | Some c, _ => c
  | None, Some sig => i32_wrap (128 + sig)
  | None, None => EXIT_INTERNAL
  end.

Definition failed_status (kind : string) : Z :=
  if decide (kind = "timeout"%string) then EXIT_TIMEOUT
  else if decide (kind = "spawn-failed"%string) then EXIT_SPAWN_FAILED
  else EXIT_INTERNAL.

(** The exit code, and what was written to stdout and stderr before it; [None]
    for a stream that ends without a terminal event. *)
Fixpoint cli_loop (events : list ExecEvent) (out err : list byte) : option Z * list byte * list byte :=
  match events with
  | [] => (None, out, err)
  | EStarted _ :: events' => cli_loop events' out err
  | EStdout data :: events' => cli_loop events' (out ++ data) err
  | EStderr data :: events' => cli_loop events' out (err ++ data)
  | Exited code signal :: _ => (Some (exit_status code signal), out, err)
  | Failed kind message :: _ =>
      (Some (failed_status kind), out,
       err ++ bytes_of_string ("sbx: exec failed (" +:+ kind +:+ "): " +:+ message) ++ newline)
  end.

Definition cli_exec (events : list ExecEvent) : Z * list byte * list byte :=
  match cli_loop events [] [] with
  | (Some status, out, err) => (status, out, err)
  | (None, out, err) =>
      (EXIT_INTERNAL, out, err ++ bytes_of_string "sbx: exec stream ended unexpectedly" ++ newline)
  end.

(** [timeout.map(|s| s * 1000)], which wraps in a release build. *)
Definition cli_timeout_ms (timeout : option Z) : option Z := (fun s => wrap 64 (s * 1000)) <$> timeout.

(** ** do_exec of the MCP server *)

Record mcp_exec := mkMcpExec {
  mx_stdout : list byte;
  mx_stderr : list byte;
  mx_code : option Z;
  mx_signal : option Z;
  mx_failure : option (string * string);
}.

Fixpoint mcp_loop (events : list ExecEvent) (out err : list byte) : mcp_exec :=
  match events with
  | [] => mkMcpExec out err None None None
  | EStarted _ :: events' => mcp_loop events' out err
  | EStdout data :: events' => mcp_loop events' (push_capped out data) err
  | EStderr data :: events' => mcp_loop events' out (push_capped err data)
  | Exited code signal :: _ => mkMcpExec out err code signal None
  | Failed kind message :: _ => mkMcpExec out err None None (Some (kind, message))
  end.

(** [host_secs.saturating_sub(15).max(1) * 1000], in [u64]. *)
Definition ceiling_ms (host_secs : Z) : Z := wrap 64 (Z.max 1 (Z.max 0 (host_secs - 15)) * 1000).

Definition guest_ms (timeout_ms : option Z) (host_secs : Z) : Z :=
  Z.min (default (Z.of_N DEFAULT_EXEC_TIMEOUT_MS) timeout_ms) (ceiling_ms host_secs).

(** ** Lemmas *)

Definition terminal (e : ExecEvent) : bool :=
  match e with Exited _ _ | Failed _ _ => true | _ => false end.

Lemma event_of_terminal m : terminal (event_of m).1 = (event_of m).2.
Proof. by destruct m. Qed.

(** The bytes a list of events carries on a stream. *)
Definition stdout_of (events : list ExecEvent) : list byte :=
  concat ((fun e => match e with EStdout d => d | _ => [] end) <$> events).
Definition stderr_of (events : list ExecEvent) : list byte :=
  concat ((fun e => match e with EStderr d => d | _ => [] end) <$> events).

Section relay.
Context `{CodecLaws GuestMessage}.

Lemma host_read_frame_consumes r m r' : host_read_frame (T := GuestMessage) r = (Ok (Some m), r') ->
  (length (rd_data r') < length (rd_data r))%nat.
Proof.
  unfold host_read_frame. destruct (read_exact 4 r) as [x r1] eqn:E1. apply read_exact_inv in E1.
  destruct x as [hdr|e]; [|by case_decide]. destruct E1 as (Hd & Hl & _). case_decide; [done|].
  destruct (read_exact _ r1) as [y r2] eqn:E2. apply read_exact_inv in E2. destruct y as [body|]; [|done].
  destruct E2 as (Hd2 & _). destruct (from_slice body); [|done]. intros [= _ <-].
  rewrite Hd, Hd2, !length_app. unfold len in Hl. lia.
Qed.

Lemma host_read_frame_frame (m : GuestMessage) body rest f :
  to_vec m = Ok body -> (len body <= MAX_FRAME_LEN)%N ->
  host_read_frame (Reader (frame body ++ rest) f) = (Ok (Some m), Reader rest f).
Proof.
  intros Hm Hlen. unfold host_read_frame, frame. rewrite <- (assoc_L (++)).
  change 4%N with (len (to_be_bytes (len body))).
  rewrite read_exact_app, from_to_be_bytes; [|unfold MAX_FRAME_LEN in *; lia].
  rewrite decide_False by lia. rewrite read_exact_app. by rewrite (from_slice_to_vec _ _ Hm).
Qed.

(** Output, then one terminal event. *)
Definition complete_stream (events : list ExecEvent) : Prop :=
  exists body last, events = body ++ [last] /\ Forall (fun e => terminal e = false) body /\ terminal last = true.

Lemma complete_cons e events : terminal e = false -> complete_stream events -> complete_stream (e :: events).
Proof. intros He (body & last & -> & Hb & Hl). exists (e :: body), last. split_and!; [done|by constructor|done]. Qed.

Lemma complete_one e : terminal e = true -> complete_stream [e].
Proof. intros He. exists [], e. by split_and!. Qed.

Lemma relay_loop_complete fuel : forall r, (length (rd_data r) < fuel)%nat -> complete_stream (relay_loop fuel r).
Proof.
  induction fuel as [|fuel IH]; intros r Hr; [lia|]. simpl.
  destruct (host_read_frame r) as [[[m|]|e] r'] eqn:E; [|by apply complete_one..].
  pose proof (event_of_terminal m) as Ht. destruct (event_of m) as [ev [|]]; [by apply complete_one|].
  apply complete_cons; [done|]. apply IH. apply host_read_frame_consumes in E. lia.
Qed.

(** More fuel than the stream has bytes changes nothing. *)
Lemma relay_loop_fuel fuel : forall fuel' r, (length (rd_data r) < fuel)%nat -> (fuel <= fuel')%nat ->
  relay_loop fuel' r = relay_loop fuel r.
Proof.
  induction fuel as [|fuel IH]; intros fuel' r Hr Hle; [lia|]. destruct fuel' as [|fuel']; [lia|]. simpl.
  destruct (host_read_frame r) as [[[m|]|e] r'] eqn:E; [|done..].
  destruct (event_of m) as [ev [|]]; [done|]. f_equal. apply IH; [|lia].
  apply host_read_frame_consumes in E. lia.
Qed.

(** The frames of a list of messages, as [write_frame] puts them on the wire. *)
Inductive wire : list GuestMessage -> list byte -> Prop :=
  | wire_nil : wire [] []
  | wire_cons m ms body bytes : to_vec m = Ok body -> (len body <= MAX_FRAME_LEN)%N -> wire ms bytes ->
      wire (m :: ms) (frame body ++ bytes).

Lemma relay_loop_wire ms bytes : wire ms bytes -> Forall (fun m => (event_of m).2 = false) ms ->
  forall fuel rest f, (length bytes < fuel)%nat ->
  exists fuel', (fuel <= fuel' + length bytes)%nat /\
    relay_loop fuel (Reader (bytes ++ rest) f)
    = ((fun m => (event_of m).1) <$> ms) ++ relay_loop fuel' (Reader rest f).
Proof.
  induction 1 as [|m ms body bytes Hm Hlen Hw IH]; intros Hms fuel rest f Hf.
  { exists fuel. split; [simpl; lia|done]. }
  apply Forall_cons in Hms as [Hnt Hms]. destruct fuel as [|fuel]; [lia|].
  assert (length bytes < fuel)%nat as Hlt.
  { unfold frame in Hf. rewrite !length_app, length_to_be_bytes in Hf. lia. }
  destruct (IH Hms fuel rest f Hlt) as (fuel' & Hle & E). exists fuel'. split.
  { unfold frame. rewrite !length_app, length_to_be_bytes. lia. }
  cbn [relay_loop]. rewrite <- (assoc_L (++)), (host_read_frame_frame _ _ _ _ Hm Hlen).
  rewrite fmap_cons. destruct (event_of m) as [ev t]. simpl in Hnt. subst t. cbn [fst app]. by rewrite E.
Qed.
End relay.

Lemma cli_loop_body body rest : forall out err, Forall (fun e => terminal e = false) body ->
  cli_loop (body ++ rest) out err = cli_loop rest (out ++ stdout_of body) (err ++ stderr_of body).
Proof.
  unfold stdout_of, stderr_of.
  induction body as [|e body IH]; intros out err Hb; [by rewrite !app_nil_r|].
  apply Forall_cons in Hb as [He Hb]. rewrite !fmap_cons. cbn [concat]. rewrite !(assoc_L (++)), <- IH by done.
  destruct e; try done; cbn [app cli_loop]; by rewrite ?app_nil_r.
Qed.

Lemma push_capped_nil b : push_capped b [] = b.
Proof. unfold push_capped. case_match; [done|]. by rewrite take_nil, app_nil_r. Qed.

Lemma mcp_loop_body body last : forall out err, Forall (fun e => terminal e = false) body ->
  mcp_loop (body ++ [last]) out err =
  mcp_loop [last] (foldl push_capped out ((fun e => match e with EStdout d => d | _ => [] end) <$> body))
    (foldl push_capped err ((fun e => match e with EStderr d => d | _ => [] end) <$> body)).
Proof.
  induction body as [|e body IH]; intros out err Hb; [done|].
  apply Forall_cons in Hb as [He Hb]. rewrite !fmap_cons. cbn [foldl]. rewrite <- IH by done.
  destruct e; try done; cbn [app mcp_loop]; by rewrite ?push_capped_nil.
Qed.

(** The event that stands for a message. *)
Inductive same_event : GuestMessage -> ExecEvent -> Prop :=
  | same_started pid : same_event (Started pid) (EStarted pid)
  | same_stdout data : same_event (Stdout data) (EStdout data)
  | same_stderr data : same_event (Stderr data) (EStderr data)
  | same_exit code signal : same_event (Exit code signal) (Exited code signal)
  | same_error kind message : same_event (ErrorMsg kind message) (Failed kind message).

(** The messages after which the guest sends none. *)
Inductive ends_run : GuestMessage -> Prop :=
  | ends_exit code signal : ends_run (Exit code signal)
  | ends_error kind message : ends_run (ErrorMsg kind message).

Lemma same_event_of m : same_event m (event_of m).1.
Proof. destruct m; constructor. Qed.

Lemma ends_run_event m : ends_run m <-> (event_of m).2 = true.
Proof. split; [by destruct 1|]. destruct m; try done; by constructor. Qed.

(** ** Properties *)

Section properties.
Context `{CodecLaws GuestMessage}.

Lemma relay_ends ms bytes rest f m body : wire ms bytes -> Forall (fun m => (event_of m).2 = false) ms ->
  to_vec m = Ok body -> (len body <= MAX_FRAME_LEN)%N -> (event_of m).2 = true ->
  relay (Reader (bytes ++ frame body ++ rest) f) = ((fun m => (event_of m).1) <$> ms) ++ [(event_of m).1].
Proof.
  intros Hw Hms Hm Hlen Ht. unfold relay.
  destruct (relay_loop_wire _ _ Hw Hms (S (length (bytes ++ frame body ++ rest))) (frame body ++ rest) f)
    as (fuel' & Hle & E); [rewrite length_app; lia|].
  cbn [rd_data]. rewrite E. f_equal. destruct fuel' as [|fuel']; [rewrite length_app in Hle; lia|].
  cbn [relay_loop]. rewrite (host_read_frame_frame _ _ _ _ Hm Hlen).
  destruct (event_of m) as [ev t]. simpl in Ht. by subst.
Qed.

Lemma relay_closed ms bytes : wire ms bytes -> Forall (fun m => (event_of m).2 = false) ms ->
  relay (Reader bytes None) = ((fun m => (event_of m).1) <$> ms) ++ [closed_early].
Proof.
  intros Hw Hms. unfold relay. destruct (relay_loop_wire _ _ Hw Hms (S (length bytes)) [] None) as (fuel' & Hle & E); [lia|].
  cbn [rd_data]. rewrite app_nil_r in E. rewrite E. f_equal. destruct fuel' as [|fuel']; [lia|].
  cbn [relay_loop]. unfold host_read_frame. rewrite read_exact_short by done. done.
Qed.

(** Whatever bytes arrive on the guest's socket, the task ends and an exec
    delivers some output and then exactly one terminal event, its last. *)
Theorem relay_one_terminal r : complete_stream (relay r) /\
  forall fuel, (length (rd_data r) < fuel)%nat -> relay_loop fuel r = relay r.
Proof.
  split; [apply relay_loop_complete; lia|]. intros fuel Hf. apply relay_loop_fuel; lia.
Qed.

(** C28: the messages the guest framed come out as the same events, a kind of
    event for each kind of message, with the same data and in the same order, up
    to and with the first one that ends the run; what follows it on the wire is
    ignored, and a connection closed without one ends in a protocol failure. *)
Theorem relay_messages ms bytes rest f : wire ms bytes -> Forall (fun m => ~ ends_run m) ms ->
  exists events, Forall2 same_event ms events /\
  (forall m body, to_vec m = Ok body -> (len body <= MAX_FRAME_LEN)%N -> ends_run m ->
     exists event, same_event m event /\ relay (Reader (bytes ++ frame body ++ rest) f) = events ++ [event]) /\
  relay (Reader bytes None) = events ++ [closed_early].
Proof.
  intros Hw Hms. assert (Forall (fun m => (event_of m).2 = false) ms) as Hms'.
  { eapply Forall_impl; [exact Hms|]. intros m Hm. apply not_true_is_false. by intros Ht%ends_run_event. }
  exists ((fun m => (event_of m).1) <$> ms). split; [|split].
  - apply Forall2_fmap_r, Forall_Forall2_diag, Forall_true, same_event_of.
  - intros m body Hm Hlen Ht. exists (event_of m).1. split; [apply same_event_of|]. apply ends_run_event in Ht.
    by apply relay_ends.
  - by apply relay_closed.
Qed.

(** [sbx exec] writes the command's output through unchanged, stream by
    stream, and ends with its exit code, 128 plus its signal, 124 for a timeout,
    127 for a command that could not be started and 125 for anything else. *)
Theorem cli_exec_status r : exists body last, relay r = body ++ [last] /\
  match last, cli_exec (relay r) with
  | Exited code signal, (status, out, err) =>
      status = exit_status code signal /\ out = stdout_of body /\ err = stderr_of body
  | Failed kind message, (status, out, err) =>
      status = failed_status kind /\ out = stdout_of body /\
      err = stderr_of body ++ bytes_of_string ("sbx: exec failed (" +:+ kind +:+ "): " +:+ message) ++ newline
  | _, _ => False
  end.
Proof.
  destruct (relay_loop_complete (S (length (rd_data r))) r ltac:(lia)) as (body & last & E & Hb & Hl).
  exists body, last. unfold relay, cli_exec. rewrite E. split; [done|].
  rewrite cli_loop_body by done. by destruct last.
Qed.

(** The MCP server reports the status of the same terminal event, with each
    stream captured by [push_capped] in order. *)
Theorem mcp_exec_outcome r : exists body last, relay r = body ++ [last] /\
  let x := mcp_loop (relay r) [] [] in
  mx_stdout x = foldl push_capped [] ((fun e => match e with EStdout d => d | _ => [] end) <$> body) /\
  mx_stderr x = foldl push_capped [] ((fun e => match e with EStderr d => d | _ => [] end) <$> body) /\
  match last with
  | Exited code signal => mx_code x = code /\ mx_signal x = signal /\ mx_failure x = None
  | Failed kind message => mx_code x = None /\ mx_signal x = None /\ mx_failure x = Some (kind, message)
  | _ => False
  end.
Proof.
  destruct (relay_loop_complete (S (length (rd_data r))) r ltac:(lia)) as (body & last & E & Hb & Hl).
  exists body, last. unfold relay. rewrite E. split; [done|].
  rewrite mcp_loop_body by done. by destruct last.
Qed.

(** The guest's timeout is at most the one asked for and, for a host deadline
    of two seconds or more, ends before it, by fifteen seconds if there are
    that many; with a deadline of at most a second it does not. *)
Theorem guest_timeout_inside timeout_ms host_secs : 0 <= host_secs < 2 ^ 54 ->
  (forall t, timeout_ms = Some t -> guest_ms timeout_ms host_secs <= t) /\
  (2 <= host_secs -> guest_ms timeout_ms host_secs < host_secs * 1000) /\
  (16 <= host_secs -> guest_ms timeout_ms host_secs <= (host_secs - 15) * 1000) /\
  (host_secs <= 1 -> guest_ms None host_secs >= host_secs * 1000).
Proof.
  intros Hh. unfold guest_ms, ceiling_ms, wrap. rewrite Z.mod_small by lia.
  change (Z.of_N DEFAULT_EXEC_TIMEOUT_MS) with 120000. split_and!.
  - intros t ->. simpl. lia.
  - lia.
  - lia.
  - simpl. lia.
Qed.

(** [exec] sends a request only to a sandbox that is past [Creating], for a
    command with a program, and over a path that is a socket; then it is the
    request asked for, without stdin or terminal, and what the command changes is
    its own sandbox's layer. *)
Theorem exec_guarded `{SqlEngine, LimitsJson} so id req w msg events w' : exec so id req w = (Ok (msg, events), w') ->
  exists sb w1, reg (get_sandbox id) w = (Ok sb, w1) /\ sb_state sb <> Creating /\ er_argv req <> [] /\
  so_stat so = Ok true /\ so_connect so = Ok tt /\ so_send so = Ok tt /\
  msg = ExecRequestMsg (er_argv req) (er_env req) (er_cwd req) false false (er_timeout_ms req) /\
  events = relay (so_stream so) /\ w' = run_command so (sb_state_dir sb) w1.
Proof.
  intros E. unfold exec in E. apply st_bind_Ok in E as (sb & w1 & E1 & E2). exists sb, w1.
  case_decide as Hs; [done|]. case_decide as Ha; [done|].
  apply st_bind_Ok in E2 as (u & w2 & E2 & E3). unfold st_lift, open_socket in E2.
  destruct (so_stat so) as [[|]|e]; simpl in E2; [|done|by case_decide].
  destruct (so_connect so) as [[]|]; [|done]. injection E2 as <- <-.
  destruct (so_send so) as [[]|]; [|done]. injection E3 as <- <- <-. done.
Qed.
End properties.

(** ** Examples and witnesses: a codec for output and a clean exit *)
Module Witness.

#[local] Instance small_codec : Codec GuestMessage := {|
  to_vec m := match m with
              | Stdout d => Ok (Byte.x01 :: d)
              | Exit (Some 0) None => Ok [Byte.x00]
              | _ => Err "unsupported"%string
              end;
  from_slice l := match l with
                  | Byte.x01 :: d => Ok (Stdout d)
                  | [Byte.x00] => Ok (Exit (Some 0) None)
                  | _ => Err "unsupported"%string
                  end;
|}.
#[local] Instance small_codec_laws : CodecLaws GuestMessage.
Proof. split. intros [?|d|?|[[]|] []|??] body; simpl; try done; by intros [= <-]. Qed.

#[local] Existing Instance RegistrySpec.Witness.json.
#[local] Existing Instance RegistrySpec.Witness.in_order.

Definition ok_body : list byte := [Byte.x01; Byte.x6f; Byte.x6b].
Definition said_ok : list byte := frame ok_body.

Lemma said_ok_wire : wire [Stdout [Byte.x6f; Byte.x6b]] said_ok.
Proof.
  unfold said_ok. rewrite <- (app_nil_r (frame ok_body)).
  constructor; [done|by vm_compute|constructor].
Qed.

Lemma relay_messages_witness :
  relay (Reader (said_ok ++ frame [Byte.x00] ++ []) None) = [EStdout [Byte.x6f; Byte.x6b]; Exited (Some 0) None] /\
  relay (Reader said_ok None) = [EStdout [Byte.x6f; Byte.x6b]; closed_early].
Proof.
  assert (Forall (fun m => ~ ends_run m) [Stdout [Byte.x6f; Byte.x6b]]) as Hms.
  { constructor; [|constructor]. intros Hx. inversion Hx. }
  destruct (relay_messages [Stdout [Byte.x6f; Byte.x6b]] said_ok [] None said_ok_wire Hms)
    as (events & Hsame & Hexit & Hcut).
  assert (events = [EStdout [Byte.x6f; Byte.x6b]]) as Hev.
  { apply Forall2_cons_inv_l in Hsame as (e & es & He & Hes%Forall2_nil_inv_l & ->). inversion He. by subst. }
  rewrite Hev in Hexit, Hcut. split; [|exact Hcut].
  destruct (Hexit (Exit (Some 0) None) [Byte.x00] eq_refl ltac:(by vm_compute) (ends_exit _ _)) as (e & He & E).
  rewrite E. inversion He. reflexivity.
Defined.

Lemma guest_timeout_inside_witness : guest_ms None 300 < 300 * 1000 /\ guest_ms None 300 <= (300 - 15) * 1000.
Proof.
  destruct (guest_timeout_inside None 300 ltac:(lia)) as (_ & H2 & H3 & _). split; [apply H2|apply H3]; lia.
Defined.

(** One sandbox [a] that is ready, and its guest's socket. *)
Definition one_world : world := mkWorld RegistrySpec.Witness.one ∅ ∅ ∅ ∅ [] [] [] [].
Definition good_socket : socket := mkSocket (Ok true) (Ok tt) (Ok tt) (Reader said_ok None) (fun l => l).
Definition echo : ExecRequest := mkExecRequest ["echo"; "ok"]%string [] None (Some 1000).

Lemma exec_guarded_witness :
  exec good_socket "a" echo one_world = (Ok (request_msg echo, relay (so_stream good_socket)), one_world) /\
  exists sb w1, reg (get_sandbox "a") one_world = (Ok sb, w1) /\ sb_state sb <> Creating.
Proof.
  assert (exec good_socket "a" echo one_world = (Ok (request_msg echo, relay (so_stream good_socket)), one_world))
    as E by (by vm_compute).
  split; [exact E|].
  destruct (exec_guarded good_socket "a" echo one_world _ _ _ E) as (sb & w1 & Hsb & Hst & _).
  exists sb, w1. split; [exact Hsb|exact Hst].
Defined.

End Witness.
