(* ===== verification/Contract.v ===== *)
(** * The [Backend] trait: what a frontend may rely on

    draug-core/src/backend.rs states in prose what every isolation backend
    promises; draug-ns/src/lib.rs has its two implementations, the namespace
    backend and the stub of other platforms.  Here the trait is a class, the
    prose its laws, and both implementations are instances that satisfy them.
    What follows from the laws alone - that sandboxes can be branched off a
    snapshot - holds of every backend. *)

From S2P Require Import Prelude Text Types FsTree Proto Registry RegistrySpec Backend BackendSpec ReconcileSpec.
From S2P Require Import Recovery Exec.

(** ** The trait *)

(** An exec in flight: the events it will deliver. *)
Record ExecHandle := new { events : list ExecEvent }.

Definition next_event (h : ExecHandle) : option ExecEvent * ExecHandle :=
  match events h with
  | [] => (None, h)
  | e :: rest => (Some e, new rest)
  end.

Class IsBackend (W : Type) := {
  b_spawn : SandboxSpec -> ST W Error Sandbox;
  b_exec : string -> ExecRequest -> ST W Error ExecHandle;
  b_snapshot : string -> string -> ST W Error string;
  b_restore : string -> option string -> ST W Error Sandbox;
  b_destroy : string -> ST W Error unit;
}.

(** What a frontend can see of a backend: the writable layer of each sandbox and
    the layer each snapshot holds, by id, and which names are in use. *)
Class View (W : Type) := {
  layer : W -> string -> option node;
  held : W -> string -> option node;
  box_named : W -> string -> Prop;
  snap_named : W -> string -> Prop;
  consistent : W -> Prop;       (* a state the backend gets into *)
  reliable : W -> Prop;         (* its registry does not fail *)
}.

Section laws.
Context {W : Type} `{View W}.

(** No sandbox but [id], and no snapshot, differs. *)
Definition only (id : string) (w w' : W) : Prop :=
  (forall i, i <> id -> layer w' i = layer w i) /\ (forall s, held w' s = held w s) /\
  (forall s, snap_named w' s -> snap_named w s).

(** A sandbox called [name] was added, its layer is [l]. *)
Definition started (id : string) (name : option string) (l : node) (w w' : W) : Prop :=
  layer w id = None /\ layer w' id = Some l /\ only id w w' /\
  forall k, box_named w' k -> box_named w k \/ name = Some k.
End laws.

(** The trait's documentation, for the calls that succeed: a key is an id that
    is not also somebody's name. *)
Class BackendLaws (W : Type) `{IsBackend W, View W} := {
  spawn_law w spec sb w' : consistent w -> spec_from_snapshot spec = None ->
    b_spawn spec w = (Ok sb, w') -> consistent w' /\ exists l, started (sb_id sb) (spec_name spec) l w w';
  exec_law w id req r w' : consistent w -> ~ box_named w id -> b_exec id req w = (r, w') ->
    consistent w' /\ only id w w' /\ (forall k, box_named w' k <-> box_named w k) /\
    match r with
    | Ok _ => is_Some (layer w id) /\ is_Some (layer w' id)   (* the command writes to it *)
    | Err _ => layer w' id = layer w id
    end;
  snapshot_law w id name sid w' l : consistent w -> reliable w -> layer w id = Some l -> ~ box_named w id ->
    b_snapshot id name w = (Ok sid, w') ->
    consistent w' /\ held w sid = None /\ held w' sid = Some l /\ (forall s, s <> sid -> held w' s = held w s) /\
    (forall i, layer w' i = layer w i) /\ (forall k, box_named w' k -> box_named w k);
  restore_law w sid name sb w' l : consistent w -> held w sid = Some l -> ~ snap_named w sid ->
    b_restore sid name w = (Ok sb, w') -> consistent w' /\ started (sb_id sb) name l w w';
  destroy_law w id w' : consistent w -> ~ box_named w id -> b_destroy id w = (Ok tt, w') ->
    consistent w' /\ layer w' id = None /\ only id w w';
}.

(** ** What follows *)

Section client.
Context {W : Type} `{BackendLaws W}.

(** As many sandboxes as there are names, from one snapshot. *)
Fixpoint branch (sid : string) (names : list (option string)) : ST W Error (list Sandbox) :=
  match names with
  | [] => st_ret []
  | name :: names' =>
      do! sb := b_restore sid name in
      do! sbs := branch sid names' in
      st_ret (sb :: sbs)
  end.

Lemma only_trans id w1 w2 w3 : only id w1 w2 -> only id w2 w3 -> only id w1 w3.
Proof.
  intros (L1 & H1' & N1) (L2 & H2' & N2). split_and!.
  - intros i Hi. rewrite L2, L1; done.
  - intros s. by rewrite H2', H1'.
  - auto.
Qed.

Record branched (ids : list string) (names : list (option string)) (l : node) (w w' : W) : Prop := {
  br_consistent : consistent w';
  br_new : NoDup ids;
  br_fresh id : id ∈ ids -> layer w id = None;
  br_layers id : id ∈ ids -> layer w' id = Some l;
  br_others id : id ∉ ids -> layer w' id = layer w id;
  br_held s : held w' s = held w s;
  br_snaps s : snap_named w' s -> snap_named w s;
  br_boxes k : box_named w' k -> box_named w k \/ Some k ∈ names;
}.

Lemma branch_ok sid names l : forall w sbs w', consistent w -> held w sid = Some l -> ~ snap_named w sid ->
  branch sid names w = (Ok sbs, w') -> length sbs = length names /\ branched (sb_id <$> sbs) names l w w'.
Proof.
  induction names as [|name names IH]; intros w sbs w' Hw Hl Hn E; simpl in E.
  { injection E as <- <-. split; [done|]. by split; try done; [constructor|intros ? ?%elem_of_nil..|auto]. }
  apply st_bind_Ok in E as (sb & w1 & E1 & E2). apply st_bind_Ok in E2 as (sbs' & w2 & E2 & E3).
  injection E3 as <- <-.
  destruct (restore_law w sid name sb w1 l Hw Hl Hn E1) as (Hw1 & Hnew & Hlay & (Ho & Hh & Hs) & Hb).
  destruct (IH w1 sbs' w2) as [Hlen [C N F L O H' S B]]; [done|by rewrite Hh|by intros ?%Hs|done|].
  assert (sb_id sb ∉ sb_id <$> sbs') as Hnot by (intros Hin%F; congruence).
  split; [simpl; congruence|]. rewrite fmap_cons. split; [done|by constructor| | | | | |].
  - intros id [->|Hin]%elem_of_cons; [done|]. rewrite <- Ho by (by intros ->). by apply F.
  - intros id [->|Hin]%elem_of_cons; [by rewrite O|by apply L].
  - intros id [Hne Hin]%not_elem_of_cons. rewrite O, Ho; done.
  - intros s. by rewrite H', Hh.
  - auto.
  - intros k [[Hk|<-]%Hb|Hk]%B; [by left|right; left|right; by right].
Qed.

(** A snapshot of [src], the branches, and the end of [src]. *)
Definition fork (src snapshot_name : string) (names : list (option string)) : ST W Error (string * list Sandbox) :=
  do! sid := b_snapshot src snapshot_name in
  do! sbs := branch sid names in
  do! _ := b_destroy src in
  st_ret (sid, sbs).

(** The branches are new and distinct, and each starts from exactly the files the
    sandbox had; they, the snapshot and every bystander survive the end of the
    sandbox they came from. *)
Lemma fork_ok w src name names sid sbs w' l : consistent w -> reliable w -> layer w src = Some l ->
  ~ box_named w src -> Some src ∉ names ->
  (forall sid w1, b_snapshot src name w = (Ok sid, w1) -> ~ snap_named w1 sid) ->
  fork src name names w = (Ok (sid, sbs), w') ->
  length sbs = length names /\ NoDup (src :: (sb_id <$> sbs)) /\ layer w' src = None /\ held w' sid = Some l /\
  (forall sb, sb ∈ sbs -> layer w (sb_id sb) = None /\ layer w' (sb_id sb) = Some l) /\
  (forall id, id ∉ src :: (sb_id <$> sbs) -> layer w' id = layer w id) /\
  (forall s, s <> sid -> held w' s = held w s).
Proof.
  intros Hw Hrel Hl Hbox Hnames Hsid E. unfold fork in E.
  apply st_bind_Ok in E as (sid' & w1 & E1 & E). apply st_bind_Ok in E as (sbs' & w2 & E2 & E).
  apply st_bind_Ok in E as ([] & w3 & E3 & E). injection E as -> -> ->.
  destruct (snapshot_law w src name sid w1 l Hw Hrel Hl Hbox E1) as (Hw1 & _ & Hheld & Hsame & Hlay & Hb1).
  destruct (branch_ok sid names l w1 sbs w2 Hw1 Hheld (Hsid _ _ E1) E2) as [Hlen [C N F L O H' S B]].
  assert (~ box_named w2 src) as Hbox2 by (intros [?%Hb1|?]%B; done).
  destruct (destroy_law w2 src w' C Hbox2 E3) as (_ & Hgone & Ho & Hh & _).
  assert (src ∉ sb_id <$> sbs) as Hsrc by (intros Hin%F; rewrite Hlay in Hin; congruence).
  split; [done|]. split; [by constructor|]. split; [done|]. split; [by rewrite Hh, H'|]. split; [|split].
  - intros sb Hin%(list_elem_of_fmap_2 sb_id). rewrite <- Hlay. split; [by apply F|].
    rewrite Ho by (by intros <-). by apply L.
  - intros id [Hne Hin]%not_elem_of_cons. by rewrite Ho, O, Hlay.
  - intros s Hs. rewrite Hh, H'. by apply Hsame.
Qed.
End client.

(** ** Namespaces keep the promises *)

Section linux.
Context `{SqlEngine, LimitsJson, !LimitsJsonLaws, CgroupBase, Codec GuestMessage}.
Context (root : path) (Hroot : str_utf8 root) (fs : project_fs) (unix_now : Z) (layer_bytes : node -> Z).
Context (Hbytes : forall l, u64_range (layer_bytes l)) (so : socket).

(** [impl Backend for NsBackend] *)
#[local] Instance NsBackend : IsBackend world := {|
  b_spawn := spawn root fs unix_now;
  b_exec id req := do! (_, evs) := exec so id req in st_ret (new evs);
  b_snapshot := snapshot root unix_now layer_bytes;
  b_restore := restore root fs unix_now;
  b_destroy := destroy;
|}.

Notation boxes w := (s_sandboxes (abstract (w_db w))).
Notation snaps w := (s_snapshots (abstract (w_db w))).

#[local] Instance ns_view : View world := {|
  layer w id := (fun sb => layer_in (sb_state_dir sb) w) <$> boxes w !! id;
  held w sid := (fun sn => snapshot_layer (sn_path sn) w) <$> snaps w !! sid;
  box_named w k := exists id sb, boxes w !! id = Some sb /\ sb_name sb = Some k;
  snap_named w k := exists id sn, snaps w !! id = Some sn /\ sn_name sn = k;
  consistent w := sane root w /\ forall id sn, snaps w !! id = Some sn -> sn_path sn = snapshot_dir root id;
  reliable w := db_faults (w_db w) = [];
|}.

Ltac view := cbn [layer held box_named snap_named consistent reliable ns_view s_sandboxes s_snapshots].

(** What is registered is in the directory of its id. *)
Lemma box_dir w id sb : sane root w -> boxes w !! id = Some sb -> sb_state_dir sb = state_dir root id.
Proof. intros Hw Hsb. apply (sane_rows _ _ Hw _ _ Hsb). Qed.

Lemma snap_dir_inj id id' : snapshot_dir root id = snapshot_dir root id' -> id = id'.
Proof. unfold snapshot_dir, join. by intros ?%app_string_inj%app_string_inj. Qed.

Lemma sandbox_id w id sb : boxes w !! id = Some sb -> wf (w_db w) -> sb_id sb = id.
Proof. intros Hsb Hwf. by apply abstract_sandbox in Hsb as (r & _ & <- & <-). Qed.

Lemma snapshot_id w id sn : snaps w !! id = Some sn -> wf (w_db w) -> sn_id sn = id.
Proof. intros Hsn Hwf. by apply abstract_snapshot in Hsn as (q & _ & <- & <-). Qed.

(** A layer that no change reached. *)
Lemma layer_other w w' d i : sane root w -> boxes w' !! i = boxes w !! i -> state_dir root i <> d ->
  delete d (w_dirs w') = delete d (w_dirs w) -> layer w' i = layer w i.
Proof.
  intros Hw Hrow Hd Hdirs. view. rewrite Hrow. destruct (boxes w !! i) as [sb|] eqn:Hsb; [|done].
  cbn [fmap option_fmap option_map]. f_equal.
  unfold layer_in. rewrite (box_dir _ _ _ Hw Hsb). rewrite <- (lookup_delete_ne (w_dirs w') d) by done.
  by rewrite Hdirs, lookup_delete_ne.
Qed.

Lemma ns_started w spec sb w' : consistent w -> spawn root fs unix_now spec w = (Ok sb, w') ->
  consistent w' /\ exists sd, seeded w (spec_from_snapshot spec) (sd_upper sd) /\
    started (sb_id sb) (spec_name spec) (sd_upper sd) w w'.
Proof.
  intros [Hw Hsn] E. pose proof (keeps_spawn root Hroot fs unix_now spec w Hw) as Hw'.
  rewrite E in Hw'. cbn [snd] in Hw'.
  destruct (spawn_Ok root fs unix_now spec w sb w' (sane_wf _ _ Hw) E)
    as (_ & _ & Hdir & Hname & Hfresh & Habs & Hdirs & Hsnaps & sd & pid & cg & Hd & _ & _ & _ & _ & _ & Hseed & _).
  split.
  { split; [done|]. rewrite Habs. exact Hsn. }
  exists sd. split; [exact Hseed|].
  assert (boxes w' !! sb_id sb = Some (stored_sandbox sb)) as Hrow by (rewrite Habs; apply lookup_insert_eq).
  split_and!.
  - view. by rewrite Hfresh.
  - view. rewrite Hrow. cbn [fmap option_fmap option_map]. f_equal. unfold layer_in.
    change (str_lossy (sb_state_dir sb)) with (sb_state_dir (stored_sandbox sb)).
    rewrite (box_dir _ _ _ Hw' Hrow), <- Hdir, Hd. done.
  - split_and!.
    + intros i Hi. apply (layer_other w w' (sb_state_dir sb)); [done| | |done].
      * rewrite Habs. view. by rewrite lookup_insert_ne.
      * rewrite Hdir. by intros ?%state_dir_inj.
    + intros s. view. rewrite Habs. view. unfold snapshot_layer. by rewrite Hsnaps.
    + intros s. view. by rewrite Habs.
  - intros k (id & sb' & Hsb' & Hk). rewrite Habs in Hsb'. cbn [s_sandboxes] in Hsb'.
    apply lookup_insert_Some in Hsb' as [[<- <-]|[_ Hsb']]; [right; simpl in Hk; congruence|left; by exists id, sb'].
Qed.

Lemma ns_restore w sid name sb w' l : consistent w -> held w sid = Some l -> ~ snap_named w sid ->
  restore root fs unix_now sid name w = (Ok sb, w') -> consistent w' /\ started (sb_id sb) name l w w'.
Proof.
  intros [Hw Hsn] Hl Hnot E. unfold restore in E. apply st_bind_Ok in E as (sn & w1 & E1 & E2).
  apply reg_inv in E1 as (dd & E1 & ->). pose proof (sane_wf _ _ Hw) as Hwf.
  destruct (get_snapshot_Ok _ _ _ _ Hwf E1) as [Hrow Hkey]. pose proof (get_snapshot_tables _ _ _ _ E1) as [Ht1 Ht2].
  assert (abstract dd = abstract (w_db w)) as Habs by (by apply abstract_tables).
  assert (sane root (set_db dd w)) as Hw1.
  { eapply sane_milder; [exact Hw|]. by apply milder_core; [exact Hwf|..]. }
  assert (consistent (set_db dd w)) as Hcon.
  { split; [exact Hw1|]. change (w_db (set_db dd w)) with dd. by rewrite Habs. }
  destruct (ns_started _ _ _ _ Hcon E2) as [Hc (sd & Hseed & Hst)].
  split; [exact Hc|]. destruct Hseed as (sn' & Hsn' & Hkey' & Hlay). change (w_db (set_db dd w)) with dd in Hsn'.
  rewrite Habs in Hsn'. assert (sn_id sn = sid) as Hid.
  { destruct Hkey as [?|Hk]; [done|]. destruct Hnot. by exists (sn_id sn), sn. }
  assert (sn' = sn) as ->.
  { destruct Hkey' as [Hk|Hk]; [congruence|]. destruct Hnot. exists (sn_id sn'), sn'. split; [done|].
    by rewrite Hk. }
  replace (sd_upper sd) with l in Hst.
  - revert Hst. unfold started, only. view. change (w_db (set_db dd w)) with dd. by rewrite Habs.
  - cbn [held ns_view] in Hl. rewrite <- Hid, Hrow in Hl.
    cbn [fmap option_fmap option_map] in Hl. injection Hl as <-. by rewrite Hlay.
Qed.

Lemma snapshot_dir_text bs : str_utf8 (snapshot_dir root (hex_bytes bs)).
Proof.
  unfold str_utf8, snapshot_dir, join. rewrite !bytes_of_string_app.
  apply utf8_app; [apply utf8_app; [done|]|]; apply utf8_ascii; [by repeat constructor|].
  apply Forall_app. split; [by repeat constructor|apply hex_bytes_ascii].
Qed.

(** A key that is nobody's name is an id. *)
Lemma key_is_id w k sb : ~ box_named w k -> boxes w !! sb_id sb = Some sb -> sb_id sb = k \/ sb_name sb = Some k ->
  sb_id sb = k.
Proof. intros Hn Hsb [?|Hk]; [done|]. destruct Hn. by exists (sb_id sb), sb. Qed.

Lemma ns_snapshot w id name sid w' l : consistent w -> reliable w -> layer w id = Some l -> ~ box_named w id ->
  snapshot root unix_now layer_bytes id name w = (Ok sid, w') ->
  consistent w' /\ held w sid = None /\ held w' sid = Some l /\ (forall s, s <> sid -> held w' s = held w s) /\
  (forall i, layer w' i = layer w i) /\ (forall k, box_named w' k -> box_named w k).
Proof.
  intros [Hw Hsn] Hrel Hl Hnot E.
  pose proof (sane_mild root _ _ (mild_snapshot root unix_now layer_bytes Hbytes id name) Hw) as Hw'.
  rewrite E in Hw'. cbn [snd] in Hw'.
  destruct (snapshot_cases root unix_now layer_bytes _ _ _ _ _ (sane_wf _ _ Hw) Hrel Hbytes E)
    as (_ & Hlay & sb & sb1 & bs & Hsb & Hk1 & Hk & Hsb1 & -> & (Hnew & Habs & _ & Hsnaps & _)).
  rewrite (key_is_id w id sb1 Hnot Hsb1 Hk1) in Hk. pose proof (key_is_id w id sb Hnot Hsb Hk) as Hid.
  cbn [layer ns_view] in Hl. rewrite <- Hid, Hsb in Hl. cbn [fmap option_fmap option_map] in Hl. injection Hl as Hl.
  unfold stored_snapshot, with_size in Habs. cbn [sn_path sn_id sn_name sn_sandbox_id sn_rootfs sn_created_at] in Habs.
  rewrite (str_lossy_id _ (snapshot_dir_text bs)) in Habs. set (sid := hex_bytes bs) in *.
  split_and!.
  - split; [exact Hw'|]. rewrite Habs. cbn [s_snapshots]. intros i sn Hi.
    apply lookup_insert_Some in Hi as [[<- <-]|[_ Hi]]; [done|by apply Hsn].
  - view. destruct (snaps w !! sid) eqn:Hs; [|done]. destruct Hnew. left. by eexists.
  - view. rewrite Habs. view. rewrite lookup_insert_eq. cbn [fmap option_fmap option_map sn_path].
    unfold snapshot_layer. by rewrite Hsnaps, lookup_insert_eq, Hl.
  - intros s Hs. view. rewrite Habs. view. rewrite lookup_insert_ne by done.
    destruct (snaps w !! s) as [sn|] eqn:Hrow; [|done]. cbn [fmap option_fmap option_map]. f_equal.
    unfold snapshot_layer. rewrite (Hsn _ _ Hrow), Hsnaps, lookup_insert_ne; [done|]. by intros ?%snap_dir_inj.
  - intros i. view. rewrite Habs. view. destruct (boxes w !! i); [|done]. cbn [fmap option_fmap option_map].
    by rewrite Hlay.
  - intros k. view. by rewrite Habs.
Qed.

Lemma ns_destroy w id w' : consistent w -> ~ box_named w id -> destroy id w = (Ok tt, w') ->
  consistent w' /\ layer w' id = None /\ only id w w'.
Proof.
  intros [Hw Hsn] Hnot E. pose proof (sane_mild root _ _ (mild_destroy id) Hw) as Hw'.
  rewrite E in Hw'. cbn [snd] in Hw'.
  destruct (destroy_cases _ _ _ (sane_wf _ _ Hw) E)
    as [(Habs & Hdirs & _ & Hsnaps & _ & Hnone)|(sb & l & Hsb & Hk & Habs & Hdirs & Hsnaps & _)].
  - split; [split; [exact Hw'|by rewrite Habs]|]. split.
    + view. rewrite Habs. destruct (boxes w !! id) as [sb|] eqn:Hrow; [|done]. by destruct (Hnone _ _ Hrow).
    + split_and!.
      * intros i _. view. rewrite Habs. unfold layer_in. by rewrite Hdirs.
      * intros s. view. rewrite Habs. unfold snapshot_layer. by rewrite Hsnaps.
      * intros s. view. by rewrite Habs.
  - pose proof (key_is_id w id sb Hnot Hsb Hk) as Hid. rewrite Hid in *.
    assert (forall i, snaps w' !! i = orphaned id <$> snaps w !! i) as Hrows.
    { intros i. rewrite Habs. apply lookup_fmap. }
    assert (forall sn, sn_path (orphaned id sn) = sn_path sn /\ sn_name (orphaned id sn) = sn_name sn) as Horphan.
    { intros sn. unfold orphaned. by case_decide. }
    split; [split; [exact Hw'|]|split; [|split_and!]].
    + intros i sn Hi. rewrite Hrows in Hi. apply fmap_Some in Hi as (sn0 & Hi & ->).
      destruct (Horphan sn0) as [-> _]. by apply Hsn.
    + view. rewrite Habs. view. by rewrite lookup_delete_eq.
    + intros i Hi. apply (layer_other w w' (sb_state_dir sb)); [done| | |].
      * rewrite Habs. view. by rewrite lookup_delete_ne.
      * rewrite (box_dir _ _ _ Hw Hsb). by intros ?%state_dir_inj.
      * rewrite Hdirs. apply delete_delete_eq.
    + intros s. view. rewrite Hrows. destruct (snaps w !! s) as [sn|]; [|done]. cbn [fmap option_fmap option_map].
      destruct (Horphan sn) as [-> _]. unfold snapshot_layer. by rewrite Hsnaps.
    + intros s (i & sn & Hi & Hname). rewrite Hrows in Hi. apply fmap_Some in Hi as (sn0 & Hi & ->).
      exists i, sn0. split; [done|]. by destruct (Horphan sn0) as [_ <-].
Qed.

(** An exec reads the registry, and runs a command if it returns a handle. *)
Lemma exec_cases id req w r w' : wf (w_db w) -> exec so id req w = (r, w') -> exists dd,
  db_sandbox dd = db_sandbox (w_db w) /\ db_snapshot dd = db_snapshot (w_db w) /\
  match r with
  | Ok _ => exists sb, boxes w !! sb_id sb = Some sb /\ (sb_id sb = id \/ sb_name sb = Some id) /\
      w' = run_command so (sb_state_dir sb) (set_db dd w)
  | Err _ => w' = set_db dd w
  end.
Proof.
  intros Hwf. unfold exec, st_bind at 1. intros E. destruct (reg (get_sandbox id) w) as [r1 w1] eqn:E1.
  apply reg_inv in E1 as (dd & E1 & ->). pose proof (get_sandbox_tables _ _ _ _ E1) as [Ht1 Ht2].
  exists dd. do 2 (split; [done|]). destruct r1 as [sb|e]; [|by injection E as <- <-].
  destruct (get_sandbox_Ok _ _ _ _ Hwf E1) as [Hsb Hkey].
  repeat (case_decide; [by injection E as <- <-|]). unfold st_bind, st_lift in E.
  destruct (open_socket _ _ _); [|by injection E as <- <-].
  destruct (so_send so); injection E as <- <-; [by exists sb|done].
Qed.

Lemma ns_exec w id req r w' : consistent w -> ~ box_named w id -> b_exec id req w = (r, w') ->
  consistent w' /\ only id w w' /\ (forall k, box_named w' k <-> box_named w k) /\
  match r with
  | Ok _ => is_Some (layer w id) /\ is_Some (layer w' id)
  | Err _ => layer w' id = layer w id
  end.
Proof.
  intros [Hw Hsn] Hnot E. cbn [b_exec NsBackend] in E. unfold st_bind in E.
  pose proof (sane_wf _ _ Hw) as Hwf. destruct (exec so id req w) as [x w1] eqn:E1.
  assert (w' = w1) as -> by (by destruct x as [[]|]; injection E as _ <-).
  assert (match r with Ok _ => exists y, x = Ok y | Err _ => exists e, x = Err e end) as Hr
    by (destruct x as [[]|]; injection E as <-; eauto).
  apply exec_cases in E1 as (dd & Ht1 & Ht2 & Hcase); [|done].
  assert (sane root (set_db dd w)) as Hw1 by (eapply sane_milder; [exact Hw|by apply milder_core]).
  assert (boxes (set_db dd w) = boxes w /\ snaps (set_db dd w) = snaps w) as [Hbx Hsx]
    by (change (w_db (set_db dd w)) with dd; by rewrite (abstract_tables _ _ Ht1 Ht2)).
  unfold only. destruct r as [h|e].
  - destruct Hr as [y ->]. destruct Hcase as (sb & Hsb & Hkey & ->).
    pose proof (key_is_id w id sb Hnot Hsb Hkey) as <-.
    assert (boxes (run_command so (sb_state_dir sb) (set_db dd w)) = boxes w) as Hbx' by exact Hbx.
    assert (snaps (run_command so (sb_state_dir sb) (set_db dd w)) = snaps w) as Hsx' by exact Hsx.
    split; [split|split; [split; [|split]|split]].
    + eapply sane_milder; [exact Hw1|]. unfold run_command, update_dir. apply milder_write, Hw1.
    + intros i sn. rewrite Hsx'. apply Hsn.
    + intros i Hi. apply (layer_other w _ (sb_state_dir sb)); [done|by rewrite Hbx'| |].
      * rewrite (box_dir _ _ _ Hw Hsb). by intros ?%state_dir_inj.
      * cbn [w_dirs run_command update_dir set_dirs set_db]. apply delete_alter_eq.
    + intros s. view. by rewrite Hsx'.
    + intros s. view. by rewrite Hsx'.
    + intros k. view. by rewrite Hbx'.
    + view. rewrite Hbx', Hsb. by split; eexists.
  - destruct Hr as [e' ->]. subst w1. split; [split; [done|]|split; [split; [|split]|split]].
    + intros i sn. rewrite Hsx. apply Hsn.
    + intros i Hi. view. by rewrite Hbx.
    + intros s. view. by rewrite Hsx.
    + intros s. view. by rewrite Hsx.
    + intros k. view. by rewrite Hbx.
    + view. by rewrite Hbx.
Qed.

Lemma ns_laws : BackendLaws world.
Proof.
  split.
  - intros w spec sb w' Hw _ E. destruct (ns_started w spec sb w' Hw E) as [Hc (sd & _ & Hst)]. eauto.
  - apply ns_exec.
  - apply ns_snapshot.
  - apply ns_restore.
  - apply ns_destroy.
Qed.


#[local] Existing Instance ns_laws.

(** C12: sandboxes branched off a snapshot of a sandbox are new and distinct, and
    each starts from exactly the files the sandbox had; they, the snapshot and
    every bystander survive the end of the sandbox they came from. *)
Theorem fork_keeps_files w src name names sid sbs w' l : consistent w -> reliable w -> layer w src = Some l ->
  ~ box_named w src -> Some src ∉ names ->
  (forall sid w1, b_snapshot src name w = (Ok sid, w1) -> ~ snap_named w1 sid) ->
  fork src name names w = (Ok (sid, sbs), w') ->
  length sbs = length names /\ NoDup (src :: (sb_id <$> sbs)) /\ layer w' src = None /\ held w' sid = Some l /\
  (forall sb, sb ∈ sbs -> layer w (sb_id sb) = None /\ layer w' (sb_id sb) = Some l) /\
  (forall id, id ∉ src :: (sb_id <$> sbs) -> layer w' id = layer w id) /\
  (forall s, s <> sid -> held w' s = held w s).
Proof. apply fork_ok. Qed.
End linux.

(** ** The stub of other platforms *)
Module other.

Definition MSG : string := "the draug-ns backend requires Linux".

(** The handle has no state; [NsBackend::new] drops what it is given. *)
Inductive stub := Stub.

Definition stub_new {R} (registry : R) (state_root : path) : stub := Stub.

Definition refused {W A} : ST W Error A := st_fail (Unsupported MSG).

(** [impl Backend for NsBackend] *)
Definition StubBackend (W : Type) : IsBackend W := {|
  b_spawn _ := refused;
  b_exec _ _ := refused;
  b_snapshot _ _ := refused;
  b_restore _ _ := refused;
  b_destroy _ := refused;
|}.

Definition diff {W} (target : string) : ST W Error (list DiffEntry) := refused.
Definition reconcile {W} : ST W Error nat := st_ret 0%nat.
Definition userns_available : result string unit := Err MSG.
Definition maybe_run : unit := tt.

(** It promises nothing, and so keeps its promises, whatever one sees of it. *)
Lemma stub_laws (W : Type) (V : View W) : @BackendLaws W (StubBackend W) V.
Proof. split; try done. intros w id req r w' Hw _ [= <- <-]. by split_and!. Qed.

End other.

(** ** Witnesses *)
Module Witness.

#[local] Existing Instance RegistrySpec.Witness.json.
#[local] Existing Instance RegistrySpec.Witness.json_laws.
#[local] Existing Instance RegistrySpec.Witness.in_order.
#[local] Existing Instance BackendSpec.Witness.base.
#[local] Existing Instance Exec.Witness.small_codec.
Import BackendSpec.Witness.

Definition id4 : string := "04040404040404040404040404040404".

(** A sandbox that runs, and what the system will do next. *)
Definition start : world :=
  mkWorld RegistrySpec.Witness.empty ∅ ∅ ∅ ∅ []
    [Ok (replicate 16 Byte.x01); Ok (replicate 16 Byte.x02); Ok (replicate 16 Byte.x03); Ok (replicate 16 Byte.x04)]
    [Recovery.Witness.setup_of "7" 7; Recovery.Witness.setup_of "8" 8; Recovery.Witness.setup_of "9" 9] [].

Definition written : node := Node (mkInode (mkStat 33188 0 0 2 0) [] [Byte.x68; Byte.x69] None None) [].

(** It was started and wrote to its layer. *)
Definition running : world :=
  history "/s" any_dir no_bytes [ASpawn 0 (spec0 (Some "box"%string)); AWrite ("/s/" +:+ id1) written] start.

#[local] Instance the_backend : IsBackend world := NsBackend "/s" any_dir 9 no_bytes Exec.Witness.good_socket.
#[local] Instance the_view : View world := ns_view "/s".

Lemma root_text : str_utf8 "/s".
Proof. apply utf8_ascii. by repeat constructor. Qed.

Lemma no_bytes_u64 l : u64_range (no_bytes l).
Proof. unfold u64_range, no_bytes. lia. Qed.



Lemma sane_running : sane "/s" running.
Proof.
  apply (sane_history "/s" root_text any_dir no_bytes no_bytes_u64). apply sane_start_empty; try done.
  - repeat constructor; intros [] pid; vm_compute; congruence.
  - repeat constructor; vm_compute; set_solver.
Qed.

Definition box : Sandbox := ready_sandbox (new_sandbox "/s" 0 id1 (spec0 (Some "box"%string)) "/project").
Definition copy (id name : string) : Sandbox :=
  ready_sandbox (new_sandbox "/s" 9 id (spec0 (Some name)) "/project").
Definition meta : SnapshotMeta := mkSnapshot id2 (Some id1) "snap" ("/s/snapshots/" +:+ id2) "/project" 0 9.

Definition frozen : world := snd (b_snapshot id1 "snap" running).
Definition forked : world := snd (fork id1 "snap" [Some "a"; Some "b"]%string running).

Lemma running_boxes : s_sandboxes (abstract (w_db running)) = {[id1 := box]}.
Proof. vm_cast_no_check (eq_refl ({[id1 := box]} : gmap string Sandbox)). Qed.
Lemma running_snaps : s_snapshots (abstract (w_db running)) = ∅.
Proof. vm_cast_no_check (eq_refl (∅ : gmap string SnapshotMeta)). Qed.
Lemma frozen_snaps : s_snapshots (abstract (w_db frozen)) = {[id2 := meta]}.
Proof. vm_cast_no_check (eq_refl ({[id2 := meta]} : gmap string SnapshotMeta)). Qed.
Lemma freeze_runs : b_snapshot id1 "snap" running = (Ok id2, frozen).
Proof. unfold frozen. apply ran. by vm_compute. Qed.

Lemma Ok_inj {S E A} (a a' : A) (w w' : S) : (@Ok E A a, w) = (Ok a', w') -> a = a' /\ w = w'.
Proof. by intros [= -> ->]. Qed.

Lemma running_consistent : consistent running.
Proof. split; [exact sane_running|]. intros id sn. rewrite running_snaps, lookup_empty. done. Qed.

Lemma running_layer : layer running id1 = Some written.
Proof. vm_cast_no_check (eq_refl (Some written)). Qed.

Lemma running_unnamed : ~ box_named running id1.
Proof.
  intros (id & sb & Hsb & Hk). rewrite running_boxes in Hsb. apply lookup_singleton_Some in Hsb as [_ <-].
  discriminate Hk.
Qed.

Lemma frozen_unnamed sid w1 : b_snapshot id1 "snap" running = (Ok sid, w1) -> ~ snap_named w1 sid.
Proof.
  intros Hrun (id & sn & Hsn & Hname).
  rewrite freeze_runs in Hrun. apply Ok_inj in Hrun as [Hid Hw1]. rewrite <- Hw1, frozen_snaps in Hsn.
  apply lookup_singleton_Some in Hsn as [_ <-]. rewrite <- Hid in Hname. discriminate Hname.
Qed.

Lemma fork_runs : fork id1 "snap" [Some "a"; Some "b"]%string running = (Ok (id2, [copy id3 "a"; copy id4 "b"]), forked).
Proof. unfold forked. apply ran. by vm_compute. Qed.

Lemma fork_keeps_files_witness :
  fork id1 "snap" [Some "a"; Some "b"]%string running = (Ok (id2, [copy id3 "a"; copy id4 "b"]), forked) /\
  layer forked id1 = None /\ held forked id2 = Some written /\
  layer forked (sb_id (copy id3 "a")) = Some written /\ layer forked (sb_id (copy id4 "b")) = Some written.
Proof.
  split; [exact fork_runs|].
  destruct (fork_keeps_files "/s" root_text any_dir 9 no_bytes no_bytes_u64 Exec.Witness.good_socket
    running id1 "snap" [Some "a"; Some "b"]%string id2 [copy id3 "a"; copy id4 "b"]
    forked written running_consistent (eq_refl _) running_layer running_unnamed)
    as (_ & _ & Hgone & Hheld & Hcopies & _).
  - intros [Hx|[Hx|[]%not_elem_of_nil]%elem_of_cons]%elem_of_cons; discriminate Hx.
  - exact frozen_unnamed.
  - exact fork_runs.
  - split; [exact Hgone|]. split; [exact Hheld|]. split.
    + exact (proj2 (Hcopies (copy id3 "a") (list_elem_of_here _ _))).
    + exact (proj2 (Hcopies (copy id4 "b") (list_elem_of_further _ _ _ (list_elem_of_here _ _)))).
Defined.
End Witness.
