(* ===== verification/Mcp.v ===== *)
(** * The MCP server's tools

    draug-cli/src/mcp.rs: the quota, the error objects and the bodies of the
    seven tools, over the operations of Backend.v and Exec.v.  The rmcp crate
    (transport, schemas, dispatch) is a library; of [serde_json] the type of
    values and the fields the code puts in them are modelled. *)

From S2P Require Import Prelude Text Types FsTree Proto Registry Diff Output Backend Exec.

(** ** JSON *)

Inductive value :=
  | Null
  | Bool (b : bool)
  | Num (z : Z)
  | Str (s : string)
  | Arr (l : list value)
  | Obj (fields : list (string * value)).

Fixpoint field (k : string) (fs : list (string * value)) : option value :=
  match fs with
  | [] => None
  | (k', v) :: fs' => if decide (k' = k) then Some v else field k fs'
  end.

(** [Map::insert] *)
Definition obj_insert (k : string) (v : value) (fs : list (string * value)) : list (string * value) :=
  filter (fun e => e.1 <> k) fs ++ [(k, v)].

Definition opt_str (o : option string) : value := match o with Some s => Str s | None => Null end.
Definition opt_num (o : option Z) : value := match o with Some z => Num z | None => Null end.

(** [CallToolResult::structured] and [structured_error]; a tool either returns
    one of them, or a protocol error. *)
Inductive tool_result := Structured (v : value) | StructuredError (v : value).
Inductive error_data := InternalError (msg : string).

Definition T := ST world error_data tool_result.

(** ** Errors *)

Definition invalid (message : string) (data : value) : tool_result :=
  StructuredError (Obj [("error", Str "invalid_argument"); ("message", Str message);
    ("retriable", Bool false); ("details", data)]%string).

Definition classify (e : Error) : string * bool * string :=
  match e with
  | NotFound kind _ =>
      ("not_found", false, "no such " +:+ ResourceKind_fmt kind +:+ "; call sandbox_list to see what exists")
  | AlreadyExists kind _ =>
      ("already_exists", false,
       "a " +:+ ResourceKind_fmt kind +:+ " with that name already exists; pick another name")
  | InvalidSpec _ => ("invalid_spec", false, "fix the arguments and try again")
  | WrongState _ state op =>
      ("wrong_state", false,
       "cannot " +:+ op +:+ " a sandbox in state " +:+ state_debug state +:+ "; inspect it with sandbox_list")
  | Unsupported _ =>
      ("unsupported", false, "this host lacks a required kernel facility; the message names the knob")
  | Protocol _ =>
      ("protocol", false, "the sandbox's guest agent misbehaved; destroy and recreate the sandbox")
  | Exec kind _ =>
      ("exec_failed", bool_decide (kind = Timeout),
       "the command could not be run; check the program name, cwd, and timeout")
  | Registry _ => ("registry", true, "the registry was busy or errored; retrying may help")
  | IoErr op _ => ("io", true, "an OS operation (" +:+ op +:+ ") failed; the message has details")
  end%string.

Definition error_object (e : Error) : tool_result :=
  let '(slug, retriable, hint) := classify e in
  StructuredError (Obj [("error", Str slug); ("message", Str (Error_fmt e));
    ("retriable", Bool retriable); ("hint", Str hint)]%string).

(** ** Arguments *)

Record CreateArgs := mkCreateArgs {
  ca_project_dir : string;
  ca_name : option string;
  ca_memory_max : option Z;
  ca_cpu_millis : option Z;
  ca_pids_max : option Z;
  ca_network : bool;
  ca_env : option (list (string * string));
}.

Record ExecArgs := mkExecArgs {
  ea_sandbox : string;
  ea_command : list string;
  ea_cwd : option string;
  ea_timeout_ms : option Z;
  ea_env : option (list (string * string));
}.

Record SnapshotArgs := mkSnapshotArgs { sa_sandbox : string; sa_name : string }.
Record RestoreArgs := mkRestoreArgs { ra_snapshot : string; ra_name : option string }.

Record McpConfig := mkMcpConfig { call_timeout_secs : Z; max_sandboxes : nat }.

Definition default_config : McpConfig := mkMcpConfig 300 8.

Definition sandbox_fields (sb : Sandbox) : list (string * value) :=
  [("id", Str (sb_id sb)); ("name", opt_str (sb_name sb)); ("state", Str (state_as_str (sb_state sb)));
   ("project_dir", Str (str_lossy (sb_rootfs sb))); ("created_at", Num (sb_created_at sb))]%string.

Definition sandbox_json (sb : Sandbox) : value := Obj (sandbox_fields sb).

(** ** The tools *)

Section tools.
Context `{SqlEngine, LimitsJson, CgroupBase, Codec GuestMessage}.
Context (state_root : path) (fs : project_fs) (unix_now : Z) (layer_bytes : node -> Z).
Context (config : McpConfig).

(** A tool body around an operation: its error becomes an error object. *)
Definition tool {A} (m : B A) (k : A -> T) : T := fun w =>
  match m w with
  | (Ok a, w') => k a w'
  | (Err e, w') => (Ok (error_object e), w')
  end.

Definition give (r : tool_result) : T := st_ret r.

Definition reg_get_sandbox (key : string) : B Sandbox := reg (get_sandbox key).
Definition reg_get_snapshot (key : string) : B SnapshotMeta := reg (get_snapshot key).

Definition quota_unreadable : tool_result :=
  StructuredError (Obj [("error", Str "registry");
    ("message", Str "could not read the sandbox registry to check the quota");
    ("retriable", Bool true)]%string).

Definition quota_exceeded (count : nat) : tool_result :=
  StructuredError (Obj [("error", Str "quota_exceeded");
    ("message", Str ("at the max of " +:+ pretty (max_sandboxes config) +:+ " concurrent sandboxes ("
       +:+ pretty count +:+ " exist)"));
    ("retriable", Bool true);
    ("hint", Str "destroy an unused sandbox with sandbox_destroy, or raise --max-sandboxes on `sbx mcp`")]%string).

(** [check_quota]: what refuses, if anything; the caller holds the gate. *)
Definition check_quota : ST world error_data (option tool_result) := fun w =>
  match reg list_sandboxes w with
  | (Err _, w') => (Ok (Some quota_unreadable), w')
  | (Ok list, w') =>
      (Ok (if (max_sandboxes config <=? length list)%nat then Some (quota_exceeded (length list)) else None), w')
  end.

Definition gated (k : T) : T :=
  do! refused := check_quota in
  match refused with Some r => give r | None => k end.

Definition create_spec (args : CreateArgs) : SandboxSpec :=
  mkSpec (ca_name args) (ca_project_dir args) None
    (mkLimits (ca_cpu_millis args) (ca_memory_max args) (ca_pids_max args) None None)
    (default [] (ca_env args)) (ca_network args) false.

Definition do_create (args : CreateArgs) : T :=
  if negb (starts_with "/" (ca_project_dir args))
  then give (invalid "project_dir must be an absolute path" (Obj [("project_dir"%string, Str (ca_project_dir args))]))
  else gated (tool (spawn state_root fs unix_now (create_spec args))
                (fun sb => give (Structured (sandbox_json sb)))).

(** [clamp] of a captured stream, a [String]; [None] is a panic. *)
Definition rendered (bytes : list byte) : option value := (fun s => Str (string_of_bytes s)) <$> clamp bytes.

Definition exec_fields (x : mcp_exec) (duration_ms : Z) (out err : value) : list (string * value) :=
  let fields := [("exit_code", opt_num (mx_code x)); ("duration_ms", Num duration_ms);
                 ("stdout", out); ("stderr", err)]%string in
  match mx_signal x with Some sig => obj_insert "signal" (Num sig) fields | None => fields end.

Definition exec_result (x : mcp_exec) (duration_ms : Z) (out err : value) : tool_result :=
  let fields := exec_fields x duration_ms out err in
  match mx_failure x with
  | None => Structured (Obj fields)
  | Some (kind, message) =>
      let timed_out := bool_decide (kind = "timeout"%string) in
      StructuredError (Obj
        (obj_insert "hint" (Str (if timed_out
           then "the command hit its timeout_ms; raise it or make the command faster"
           else "the command could not be started; check the program name and cwd"))
        (obj_insert "timed_out" (Bool timed_out)
        (obj_insert "message" (Str message)
        (obj_insert "error" (Str kind) fields)))))
  end.

(** What the outside does to an exec: the guest's socket, and the time taken. *)
Definition do_exec (so : socket) (duration_ms : Z) (args : ExecArgs) : ST world error_data (option tool_result) :=
  if decide (ea_command args = [])
  then st_ret (Some (invalid "command must have at least one element" Null))
  else fun w =>
    match reg_get_sandbox (ea_sandbox args) w with
    | (Err e, w') => (Ok (Some (error_object e)), w')
    | (Ok sb, w') =>
        let req := mkExecRequest (ea_command args) (default [] (ea_env args)) (ea_cwd args)
                     (Some (guest_ms (ea_timeout_ms args) (call_timeout_secs config))) in
        match exec so (sb_id sb) req w' with
        | (Err e, w') => (Ok (Some (error_object e)), w')
        | (Ok (_, events), w') =>
            let x := mcp_loop events [] [] in
            (Ok (match rendered (mx_stdout x), rendered (mx_stderr x) with
                 | Some out, Some err => Some (exec_result x duration_ms out err)
                 | _, _ => None
                 end), w')
        end
    end.

Definition snapshot_note : string := "snapshots capture files, not processes; re-run anything that was running after a restore".

Definition do_snapshot (args : SnapshotArgs) : T :=
  tool (reg_get_sandbox (sa_sandbox args)) (fun sb =>
  tool (snapshot state_root unix_now layer_bytes (sb_id sb) (sa_name args)) (fun snap_id =>
  tool (reg_get_snapshot snap_id) (fun meta =>
    give (Structured (Obj [("id", Str (sn_id meta)); ("name", Str (sn_name meta));
      ("sandbox_id", opt_str (sn_sandbox_id meta)); ("size_bytes", Num (sn_size_bytes meta));
      ("note", Str snapshot_note)]%string))))).

Definition do_restore (args : RestoreArgs) : T :=
  tool (reg_get_snapshot (ra_snapshot args)) (fun snap =>
  gated (tool (restore state_root fs unix_now (sn_id snap) (ra_name args)) (fun sb =>
    give (Structured (Obj (obj_insert "from_snapshot" (Str (sn_id snap)) (sandbox_fields sb))))))).

(** [NsBackend::diff]; [lookup_layer] and [lookup_base] are the directories on
    disk. *)
Context (lookup_layer : layer_ref -> world -> node) (lookup_base : path -> option node).

Definition diff (target : string) : B (list DiffEntry) :=
  do! layer := resolve_layer target in
  fun w => (diff_upper (lookup_layer layer.1 w) (lookup_base layer.2), w).

Definition kind_str (k : DiffKind) : string :=
  match k with Added => "added" | Modified => "modified" | Deleted => "deleted" end.

(** [#[derive(Serialize)]] of a [DiffEntry]: an absent size or mode is left out. *)
Definition entry_json (e : DiffEntry) : value :=
  Obj ([("path"%string, Str (de_path e)); ("kind"%string, Str (kind_str (de_kind e)))]
       ++ match de_size e with Some n => [("size"%string, Num n)] | None => [] end
       ++ match de_mode e with Some m => [("mode"%string, Str m)] | None => [] end).

Definition count_kind (k : DiffKind) (entries : list DiffEntry) : Z :=
  Z.of_nat (length (filter (fun e => de_kind e = k) entries)).

Definition do_diff (target : string) : T :=
  tool (diff target) (fun entries =>
    give (Structured (Obj [("target", Str target); ("added", Num (count_kind Added entries));
      ("modified", Num (count_kind Modified entries)); ("deleted", Num (count_kind Deleted entries));
      ("entries", Arr (entry_json <$> entries))]%string))).

Definition do_destroy (key : string) : T := fun w =>
  let go (id : string) (existed : bool) :=
    tool (destroy id) (fun _ =>
      give (Structured (Obj [("destroyed", Str id); ("existed", Bool existed)]%string))) in
  match reg_get_sandbox key w with
  | (Ok sb, w') => go (sb_id sb) true w'
  | (Err (NotFound _ _), w') => go key false w'
  | (Err e, w') => (Ok (error_object e), w')
  end.

Definition snapshot_json (s : SnapshotMeta) : value :=
  Obj [("id", Str (sn_id s)); ("name", Str (sn_name s)); ("sandbox_id", opt_str (sn_sandbox_id s));
       ("size_bytes", Num (sn_size_bytes s)); ("created_at", Num (sn_created_at s))]%string.

Definition do_list : T :=
  tool (do! sandboxes := reg list_sandboxes in
        do! snapshots := reg (list_snapshots None) in
        st_ret (sandboxes, snapshots))
    (fun '(sandboxes, snapshots) =>
      give (Structured (Obj [("sandbox_count", Num (Z.of_nat (length sandboxes)));
        ("max_sandboxes", Num (Z.of_nat (max_sandboxes config)));
        ("sandboxes", Arr (sandbox_json <$> sandboxes));
        ("snapshots", Arr (snapshot_json <$> snapshots))]%string))).

(** [guard]: the deadline around a tool body; [None] is a body that did not
    finish in time. *)
Definition guard (r : option (result error_data tool_result)) : result error_data tool_result :=
  match r with
  | Some r => r
  | None => Ok (StructuredError (Obj [("error", Str "timeout");
      ("message", Str ("operation exceeded the host call deadline of " +:+ pretty (call_timeout_secs config) +:+ "s"));
      ("retriable", Bool true);
      ("hint", Str "raise --call-timeout on `sbx mcp`, or split the work into smaller steps")]%string))
  end.

End tools.
