(* ===== verification/McpSpec.v ===== *)
(** * What the MCP tools promise a client

    Every tool of Mcp.v returns an object of its documented shape or an error
    object, never a protocol error and never a panic. *)

From S2P Require Import Prelude Text Types FsTree Proto Registry Diff Output Backend Exec Mcp.

(** ** The shape of results *)

Inductive ty := TBool | TNum | TStr | TOpt (t : ty) | TArr (t : ty) | TObj (fields : list (string * ty)).

Fixpoint has_type (t : ty) (v : value) : bool :=
  match t with
  | TBool => match v with Bool _ => true | _ => false end
  | TNum => match v with Num _ => true | _ => false end
  | TStr => match v with Str _ => true | _ => false end
  | TOpt t => match v with Null => true | _ => has_type t v end
  | TArr t => match v with Arr l => forallb (has_type t) l | _ => false end
  | TObj fields =>
      match v with
      | Obj vs =>
          (fix go fields :=
             match fields with
             | [] => true
             | (k, t) :: fields' =>
                 match field k vs with Some x => has_type t x | None => false end && go fields'
             end) fields
      | _ => false
      end
  end.

Definition error_ty : ty := TObj [("error", TStr); ("message", TStr)]%string.

Definition sandbox_field_tys : list (string * ty) :=
  [("id", TStr); ("name", TOpt TStr); ("state", TStr); ("project_dir", TStr); ("created_at", TNum)]%string.

Definition snapshot_ty : ty :=
  TObj [("id", TStr); ("name", TStr); ("sandbox_id", TOpt TStr); ("size_bytes", TNum); ("created_at", TNum)]%string.

(** The tools, with what the outside contributes to an exec. *)
Inductive tool_call :=
  | CCreate (args : CreateArgs)
  | CExec (so : socket) (duration_ms : Z) (args : ExecArgs)
  | CSnapshot (args : SnapshotArgs)
  | CRestore (args : RestoreArgs)
  | CDiff (target : string)
  | CDestroy (key : string)
  | CList.

Definition result_ty (c : tool_call) : ty :=
  match c with
  | CCreate _ => TObj sandbox_field_tys
  | CExec _ _ _ => TObj [("exit_code", TOpt TNum); ("duration_ms", TNum); ("stdout", TStr); ("stderr", TStr)]
  | CSnapshot _ => TObj [("id", TStr); ("name", TStr); ("sandbox_id", TOpt TStr); ("size_bytes", TNum);
                         ("note", TStr)]
  | CRestore _ => TObj (sandbox_field_tys ++ [("from_snapshot"%string, TStr)])
  | CDiff _ => TObj [("target", TStr); ("added", TNum); ("modified", TNum); ("deleted", TNum);
                     ("entries", TArr (TObj [("path", TStr); ("kind", TStr)]))]
  | CDestroy _ => TObj [("destroyed", TStr); ("existed", TBool)]
  | CList => TObj [("sandbox_count", TNum); ("max_sandboxes", TNum);
                   ("sandboxes", TArr (TObj sandbox_field_tys));
                   ("snapshots", TArr snapshot_ty)]
  end%string.

Definition typed (t : ty) (r : tool_result) : bool :=
  match r with Structured v => has_type t v | StructuredError v => has_type error_ty v end.

Lemma error_object_typed t e : typed t (error_object e) = true.
Proof. by destruct e. Qed.

Lemma opt_str_typed o : has_type (TOpt TStr) (opt_str o) = true.
Proof. by destruct o. Qed.

Lemma opt_num_typed o : has_type (TOpt TNum) (opt_num o) = true.
Proof. by destruct o. Qed.

Lemma forallb_fmap {A} (f : A -> value) (p : value -> bool) l :
  (forall x, p (f x) = true) -> forallb p (f <$> l) = true.
Proof. intros Hf. induction l as [|x l IH]; [done|]. rewrite fmap_cons. simpl. by rewrite Hf. Qed.

Lemma sandbox_json_typed sb : has_type (TObj sandbox_field_tys) (sandbox_json sb) = true.
Proof. simpl. by destruct (sb_name sb). Qed.

Lemma snapshot_json_typed s : has_type snapshot_ty (snapshot_json s) = true.
Proof. simpl. by destruct (sn_sandbox_id s). Qed.

Lemma entry_json_typed e : has_type (TObj [("path", TStr); ("kind", TStr)])%string (entry_json e) = true.
Proof. done. Qed.

Lemma exec_result_typed x ms out err so d args :
  typed (result_ty (CExec so d args)) (exec_result x ms (Str out) (Str err)) = true.
Proof.
  destruct x as [o e code signal failure]. unfold exec_result, exec_fields. cbn [mx_signal mx_failure mx_code].
  destruct signal, failure as [[kind message]|]; destruct code; vm_compute; reflexivity.
Qed.

(** What an exec captured is within the cap. *)
Lemma mcp_loop_capped events : forall out err, (len out <= MAX_CAPTURE)%N -> (len err <= MAX_CAPTURE)%N ->
  (len (mx_stdout (mcp_loop events out err)) <= MAX_CAPTURE)%N /\
  (len (mx_stderr (mcp_loop events out err)) <= MAX_CAPTURE)%N.
Proof.
  induction events as [|e events IH]; intros out err Ho He; [done|].
  destruct e; cbn [mcp_loop]; try done; apply IH; try done;
    rewrite push_capped_take by done; apply len_take_cap.
Qed.

Lemma rendered_str bytes : (len bytes <= MAX_CAPTURE)%N -> exists s, rendered bytes = Some (Str s).
Proof.
  intros Hb. destruct (clamp_rendered bytes) as (out & E & _).
  { unfold MAX_CAPTURE in Hb. lia. }
  unfold rendered. rewrite E. by eexists.
Qed.

Section tools.
Context `{SqlEngine, LimitsJson, CgroupBase, Codec GuestMessage}.
Context (state_root : path) (fs : project_fs) (unix_now : Z) (layer_bytes : node -> Z).
Context (config : McpConfig) (lookup_layer : layer_ref -> world -> node) (lookup_base : path -> option node).

Definition run_tool (c : tool_call) : ST world error_data (option tool_result) :=
  let some (m : T) := do! r := m in st_ret (Some r) in
  match c with
  | CCreate args => some (do_create state_root fs unix_now config args)
  | CExec so ms args => do_exec config so ms args
  | CSnapshot args => some (do_snapshot state_root unix_now layer_bytes args)
  | CRestore args => some (do_restore state_root fs unix_now config args)
  | CDiff target => some (do_diff lookup_layer lookup_base target)
  | CDestroy key => some (do_destroy key)
  | CList => some (do_list config)
  end.

(** A body that always returns a result of the type. *)
Definition returns (t : ty) (m : T) : Prop := forall w, exists r w', m w = (Ok r, w') /\ typed t r = true.

Lemma returns_give t r : typed t r = true -> returns t (give r).
Proof. intros Hr w. by exists r, w. Qed.

Lemma returns_tool {A} t (m : B A) (k : A -> T) : (forall a, returns t (k a)) -> returns t (tool m k).
Proof.
  intros Hk w. unfold tool. destruct (m w) as [[a|e] w1]; [apply Hk|].
  exists (error_object e), w1. by rewrite error_object_typed.
Qed.

Lemma returns_gated t k : returns t k -> returns t (gated config k).
Proof.
  intros Hk w. unfold gated, st_bind, check_quota. destruct (reg list_sandboxes w) as [[l|e] w1].
  - destruct (_ <=? _)%nat; [|apply Hk]. by apply returns_give.
  - by apply returns_give.
Qed.

Lemma returns_create args : returns (result_ty (CCreate args)) (do_create state_root fs unix_now config args).
Proof.
  unfold do_create. case_match; [by apply returns_give|]. apply returns_gated, returns_tool.
  intros sb. apply returns_give, sandbox_json_typed.
Qed.

Lemma returns_snapshot args : returns (result_ty (CSnapshot args)) (do_snapshot state_root unix_now layer_bytes args).
Proof.
  unfold do_snapshot. do 3 (apply returns_tool; intros ?). apply returns_give. simpl.
  by destruct (sn_sandbox_id _).
Qed.

Lemma returns_restore args : returns (result_ty (CRestore args)) (do_restore state_root fs unix_now config args).
Proof.
  unfold do_restore. apply returns_tool. intros snap. apply returns_gated, returns_tool. intros sb.
  apply returns_give. destruct sb as [id [name|] st b r d l c]; vm_compute; reflexivity.
Qed.

Lemma returns_diff target : returns (result_ty (CDiff target)) (do_diff lookup_layer lookup_base target).
Proof.
  unfold do_diff. apply returns_tool. intros es. apply returns_give. simpl.
  rewrite andb_true_r. apply forallb_fmap. apply entry_json_typed.
Qed.

Lemma returns_destroy key : returns (result_ty (CDestroy key)) (do_destroy key).
Proof.
  assert (forall id ex, returns (result_ty (CDestroy key)) (tool (destroy id) (fun _ =>
    give (Structured (Obj [("destroyed", Str id); ("existed", Bool ex)]%string))))) as Hgo.
  { intros. apply returns_tool. intros _. by apply returns_give. }
  intros w. unfold do_destroy. destruct (reg_get_sandbox key w) as [[sb|e] w1]; [apply Hgo|].
  destruct e; try apply Hgo; eexists _, w1; (split; [done|apply error_object_typed]).
Qed.

Lemma returns_list : returns (result_ty CList) (do_list config).
Proof.
  unfold do_list. apply returns_tool. intros [sbs sns]. apply returns_give.
  assert (forallb (has_type (TObj sandbox_field_tys)) (sandbox_json <$> sbs)
          && (forallb (has_type snapshot_ty) (snapshot_json <$> sns) && true) = true) as E.
  { rewrite (forallb_fmap _ _ _ sandbox_json_typed). by rewrite (forallb_fmap _ _ _ snapshot_json_typed). }
  etrans; [|exact E]. reflexivity.
Qed.

Lemma run_tool_typed c w : exists r w', run_tool c w = (Ok (Some r), w') /\ typed (result_ty c) r = true.
Proof.
  assert (forall t m, returns t m -> exists r w',
    st_bind m (fun r => st_ret (Some r)) w = (Ok (Some r), w') /\ typed t r = true) as Hsome.
  { intros t m Hm. destruct (Hm w) as (r & w' & E & Hr). exists r, w'. unfold st_bind. by rewrite E. }
  destruct c as [args|so ms args|args|args|target|key|]; cbn [run_tool]; try apply Hsome.
  - apply returns_create.
  - unfold do_exec. case_decide; [by eexists _, w|].
    destruct (reg_get_sandbox _ w) as [[sb|e] w1]; [|eexists _, w1; split; [done|apply error_object_typed]].
    destruct (exec _ _ _ w1) as [[[msg events]|e] w2];
      [|eexists _, w2; split; [done|apply error_object_typed]].
    destruct (mcp_loop_capped events [] []) as [Ho He]; [by vm_compute..|].
    destruct (rendered_str _ Ho) as [so' ->]. destruct (rendered_str _ He) as [se ->].
    eexists _, w2. split; [done|apply exec_result_typed].
  - apply returns_snapshot.
  - apply returns_restore.
  - apply returns_diff.
  - apply returns_destroy.
  - apply returns_list.
Qed.

(** C30: Every tool call returns, and what it returns has the tool's documented
    shape or is an error object with a class and a message: whatever the
    registry, the disk, the guest and its output do, no tool ends in a protocol
    error or a panic. *)
Theorem tool_results_typed c w : exists r w', run_tool c w = (Ok (Some r), w') /\ typed (result_ty c) r = true.
Proof. apply run_tool_typed. Qed.

End tools.
