(* ===== verification/Quota.v ===== *)
(** * The quota under concurrency

    draug-cli/src/mcp.rs: [do_create] and [do_restore] hold the create gate
    across the quota check and the spawn, and [guard] drops the whole body when
    the deadline of the call passes.  A step of the server is one await point
    of one call; the schedule is the list of the steps, in the order they
    happen. *)

From S2P Require Import Prelude.

(** Where a call is; one that returned has no phase. *)
Inductive phase :=
  | Waiting      (* for the gate *)
  | Checking     (* holds the gate *)
  | Spawning     (* the check passed *)
  | Inserting    (* the insert is on the blocking pool *)
  | Placed.      (* the row is there *)

#[global] Instance phase_eq_dec : EqDecision phase.
Proof. solve_decision. Defined.

(** The sandbox a call makes is named after the call. *)
Record server := mkServer {
  rows : gset N;              (* the registry's sandboxes *)
  gate : option N;            (* the call that holds the create gate *)
  calls : gmap N phase;
  detached : gset N;          (* inserts still on the pool whose call is gone *)
  late : nat;                 (* how many calls were dropped during an insert *)
}.

Inductive action :=
  | Call (t : N)
  | Lock (t : N)
  | Check (t : N) (readable : bool)    (* check_quota *)
  | Dispatch (t : N)                   (* the spawn reaches its insert *)
  | FailEarly (t : N)
  | Insert (t : N) (ok : bool)
  | Finish (t : N) (rolled_back : bool)
  | Expire (t : N)                     (* the deadline: the body is dropped *)
  | Late (t : N) (ok : bool)
  | Destroy (t : N).

Definition start (rows0 : gset N) : server := mkServer rows0 None ∅ ∅ 0.

Section quota.
Context (max_sandboxes : nat).

Definition goes (t : N) (p : phase) (s : server) : server :=
  mkServer (rows s) (gate s) (<[t := p]> (calls s)) (detached s) (late s).

(** A call returns: its guard on the gate, if it has it, is dropped. *)
Definition returns (t : N) (s : server) : server :=
  mkServer (rows s) (if decide (gate s = Some t) then None else gate s) (delete t (calls s)) (detached s) (late s).

Definition with_rows (r : gset N) (s : server) : server :=
  mkServer r (gate s) (calls s) (detached s) (late s).

Definition in_phase (t : N) (p : phase) (s : server) : bool := bool_decide (calls s !! t = Some p).

(** [check_quota] *)
Definition admits (readable : bool) (s : server) : bool :=
  readable && negb (max_sandboxes <=? size (rows s))%nat.

Definition step (s : server) (a : action) : option server :=
  match a with
  | Call t => if decide (calls s !! t = None /\ (t ∉ rows s) /\ (t ∉ detached s))
              then Some (goes t Waiting s) else None
  | Lock t => if in_phase t Waiting s && bool_decide (gate s = None)
              then Some (goes t Checking (mkServer (rows s) (Some t) (calls s) (detached s) (late s))) else None
  | Check t readable =>
      if in_phase t Checking s
      then Some (if admits readable s then goes t Spawning s else returns t s) else None
  | Dispatch t => if in_phase t Spawning s then Some (goes t Inserting s) else None
  | FailEarly t => if in_phase t Spawning s then Some (returns t s) else None
  | Insert t ok =>
      if in_phase t Inserting s
      then Some (if ok : bool then goes t Placed (with_rows ({[t]} ∪ rows s) s) else returns t s) else None
  | Finish t rolled_back =>
      if in_phase t Placed s
      then Some (returns t (if rolled_back : bool then with_rows (rows s ∖ {[t]}) s else s)) else None
  | Expire t =>
      match calls s !! t with
      | None => None
      | Some Inserting =>
          Some (returns t (mkServer (rows s) (gate s) (calls s) ({[t]} ∪ detached s) (S (late s))))
      | Some _ => Some (returns t s)
      end
  | Late t ok =>
      if decide (t ∈ detached s)
      then Some (mkServer (if ok : bool then {[t]} ∪ rows s else rows s) (gate s) (calls s)
                   (detached s ∖ {[t]}) (late s)) else None
  | Destroy t => Some (with_rows (rows s ∖ {[t]}) s)
  end.

Fixpoint run (acts : list action) (s : server) : option server :=
  match acts with
  | [] => Some s
  | a :: acts' => match step s a with Some s' => run acts' s' | None => None end
  end.

(** ** The invariant *)

(** A call that may still add a row. *)
Definition pending (p : phase) : bool := match p with Spawning | Inserting => true | _ => false end.

Definition credit (s : server) : nat :=
  match gate s with
  | Some t => match calls s !! t with Some p => if pending p then 1 else 0 | None => 0 end
  | None => 0
  end.

Definition inv (s : server) : Prop :=
  (forall t p, calls s !! t = Some p -> p <> Waiting -> gate s = Some t) /\
  (size (rows s) + credit s + size (detached s) <= max_sandboxes + late s)%nat /\
  (size (detached s) <= late s)%nat.

Lemma size_add (t : N) (X : gset N) : (size ({[t]} ∪ X) <= S (size X))%nat.
Proof. rewrite size_union_alt, size_singleton. pose proof (subseteq_size (X ∖ {[t]}) X ltac:(set_solver)). lia. Qed.

Lemma size_remove (t : N) (X : gset N) : (size (X ∖ {[t]}) <= size X)%nat.
Proof. apply subseteq_size. set_solver. Qed.

Lemma size_remove_in (t : N) (X : gset N) : t ∈ X -> (size X = S (size (X ∖ {[t]})))%nat.
Proof. intros. rewrite size_difference by set_solver. rewrite size_singleton.
  assert (size X <> 0)%nat; [|lia]. rewrite size_empty_iff. set_solver. Qed.

Lemma credit_le s : (credit s <= 1)%nat.
Proof. unfold credit. repeat case_match; lia. Qed.

(** The gate is with the one call past [Waiting]. *)
Lemma credit_here s t p : inv s -> calls s !! t = Some p -> p <> Waiting ->
  credit s = if pending p then 1%nat else 0%nat.
Proof. intros (Hg & _) Ht Hp. unfold credit. by rewrite (Hg _ _ Ht Hp), Ht. Qed.

Lemma credit_goes s t p p' : inv s -> calls s !! t = Some p -> p <> Waiting ->
  credit (goes t p' s) = if pending p' then 1%nat else 0%nat.
Proof.
  intros (Hg & _) Ht Hp. unfold credit, goes. simpl. rewrite (Hg _ _ Ht Hp). by rewrite lookup_insert_eq.
Qed.

Lemma credit_returns s t p : inv s -> calls s !! t = Some p -> (credit (returns t s) <= credit s)%nat /\
  (p <> Waiting -> credit (returns t s) = 0%nat).
Proof.
  intros (Hg & _) Ht. unfold credit, returns. simpl. case_decide as Hd; [split; [lia|done]|].
  split; [|intros Hp; by destruct (Hd (Hg _ _ Ht Hp))].
  destruct (gate s) as [t'|]; [|done]. rewrite lookup_delete_ne by congruence. done.
Qed.

Lemma gate_goes s t p p' : inv s -> calls s !! t = Some p -> p <> Waiting ->
  forall t' q, calls (goes t p' s) !! t' = Some q -> q <> Waiting -> gate (goes t p' s) = Some t'.
Proof.
  intros (Hg & _) Ht Hp t' q Hq Hw. simpl in *. destruct (decide (t' = t)) as [->|Hne].
  - by apply (Hg t p).
  - rewrite lookup_insert_ne in Hq by done. by apply (Hg t' q).
Qed.

Lemma gate_returns s t : inv s ->
  forall t' q, calls (returns t s) !! t' = Some q -> q <> Waiting -> gate (returns t s) = Some t'.
Proof.
  intros (Hg & _) t' q Hq Hw. simpl in *. apply lookup_delete_Some in Hq as [Hne Hq].
  pose proof (Hg _ _ Hq Hw) as E. rewrite E. by rewrite decide_False by congruence.
Qed.

Lemma inv_returns s t p : inv s -> calls s !! t = Some p -> inv (returns t s).
Proof.
  intros Hi Ht. split; [by apply gate_returns|].
  destruct (credit_returns s t p Hi Ht) as [Hc _]. destruct Hi as (_ & Hs & Hd). simpl in *. lia.
Qed.

Lemma inv_fewer s r : inv s -> (size r <= size (rows s))%nat -> inv (with_rows r s).
Proof.
  intros (Hg & Hs & Hd) Hr. split; [done|]. unfold credit in *. simpl in *. lia.
Qed.

Lemma inv_call s t : inv s -> calls s !! t = None -> inv (goes t Waiting s).
Proof.
  intros (Hg & Hs & Hd) Ht. split_and!; [| |done].
  - intros t' q Hq Hw. simpl in *. apply lookup_insert_Some in Hq as [[_ <-]|[_ Hq]]; [done|eauto].
  - unfold credit in *. simpl. destruct (gate s) as [t'|] eqn:Eg; [|done].
    destruct (decide (t' = t)) as [->|Hne]; [rewrite lookup_insert_eq; simpl; lia|].
    by rewrite lookup_insert_ne by done.
Qed.

Lemma inv_lock s t : inv s -> calls s !! t = Some Waiting -> gate s = None ->
  inv (goes t Checking (mkServer (rows s) (Some t) (calls s) (detached s) (late s))).
Proof.
  intros (Hg & Hs & Hd) Ht Hgate. split_and!; [| |done].
  - intros t' q Hq Hw. simpl in *. apply lookup_insert_Some in Hq as [[-> _]|[_ Hq]]; [done|].
    apply Hg in Hq; [|done]. congruence.
  - unfold credit in *. simpl. rewrite lookup_insert_eq, Hgate in *. simpl. lia.
Qed.

(** The holder moves on: the rows and the credit after it must fit. *)
Lemma inv_goes s t p p' r : inv s -> calls s !! t = Some p -> p <> Waiting ->
  (size r + (if pending p' then 1 else 0) + size (detached s) <= max_sandboxes + late s)%nat ->
  inv (goes t p' (with_rows r s)).
Proof.
  intros Hi Ht Hp Hr. split_and!; [| |by apply Hi].
  - exact (gate_goes s t p p' Hi Ht Hp).
  - pose proof (credit_goes s t p p' Hi Ht Hp) as Hc. unfold credit in *. simpl in *. rewrite Hc. lia.
Qed.

Lemma inv_expire s t : inv s -> calls s !! t = Some Inserting ->
  inv (returns t (mkServer (rows s) (gate s) (calls s) ({[t]} ∪ detached s) (S (late s)))).
Proof.
  intros Hi Ht. pose proof (credit_here s t _ Hi Ht ltac:(done)) as Hc.
  destruct (credit_returns s t _ Hi Ht) as [_ Hr]. specialize (Hr ltac:(done)).
  pose proof (size_add t (detached s)). split; [by apply (gate_returns s t Hi)|].
  destruct Hi as (_ & Hs & Hd). unfold credit in *. simpl in *. rewrite Hr. simpl in *. lia.
Qed.

Lemma inv_late s t (ok : bool) : inv s -> t ∈ detached s ->
  inv (mkServer (if ok then {[t]} ∪ rows s else rows s) (gate s) (calls s) (detached s ∖ {[t]}) (late s)).
Proof.
  intros (Hg & Hs & Hd) Ht. pose proof (size_remove_in t (detached s) Ht). pose proof (size_add t (rows s)).
  split; [done|]. unfold credit in *. destruct ok; simpl in *; lia.
Qed.

Lemma in_phase_true t p s : in_phase t p s = true -> calls s !! t = Some p.
Proof. unfold in_phase. by intros ?%bool_decide_eq_true. Qed.

Lemma with_rows_self s : with_rows (rows s) s = s.
Proof. by destruct s. Qed.

Lemma inv_check s t readable : inv s -> calls s !! t = Some Checking -> admits readable s = true ->
  inv (goes t Spawning s).
Proof.
  intros Hi Ht Ha. rewrite <- (with_rows_self s). apply (inv_goes _ _ Checking); [done..|].
  unfold admits in Ha. apply andb_true_iff in Ha as [_ Ha]. destruct (_ <=? _)%nat eqn:E; [done|].
  apply Nat.leb_gt in E. destruct Hi as (_ & _ & Hd). simpl. lia.
Qed.

Lemma step_inv s a s' : inv s -> step s a = Some s' -> inv s'.
Proof.
  intros Hi. destruct a as [t|t|t rd|t|t|t ok|t rb|t|t ok|t]; cbn [step].
  - case_decide as Hc; [|done]. intros [= <-]. apply inv_call; [done|apply Hc].
  - intros H. destruct (in_phase t Waiting s) eqn:E; [|done]. apply in_phase_true in E.
    destruct (bool_decide _) eqn:Eg; [|done]. apply bool_decide_eq_true in Eg. injection H as <-. by apply inv_lock.
  - destruct (in_phase t Checking s) eqn:E; [|done]. apply in_phase_true in E. intros [= <-].
    destruct (admits rd s) eqn:Ea; [by eapply inv_check|by eapply inv_returns].
  - destruct (in_phase t Spawning s) eqn:E; [|done]. apply in_phase_true in E. intros [= <-].
    rewrite <- (with_rows_self s). apply (inv_goes _ _ Spawning); [done..|].
    pose proof (credit_here s t _ Hi E ltac:(done)) as Hc. destruct Hi as (_ & Hs & _). rewrite Hc in Hs. done.
  - destruct (in_phase t Spawning s) eqn:E; [|done]. apply in_phase_true in E. intros [= <-]. by eapply inv_returns.
  - destruct (in_phase t Inserting s) eqn:E; [|done]. apply in_phase_true in E. intros [= <-].
    destruct ok; [|by eapply inv_returns]. apply (inv_goes _ _ Inserting); [done..|].
    pose proof (credit_here s t _ Hi E ltac:(done)) as Hc. destruct Hi as (_ & Hs & _). rewrite Hc in Hs.
    pose proof (size_add t (rows s)). simpl in *. lia.
  - destruct (in_phase t Placed s) eqn:E; [|done]. apply in_phase_true in E. intros [= <-].
    destruct rb; [|by eapply inv_returns]. eapply inv_returns; [apply inv_fewer; [done|apply size_remove]|exact E].
  - destruct (calls s !! t) as [p|] eqn:E; [|done].
    destruct p; intros [= <-]; first [by eapply inv_returns|by apply inv_expire].
  - case_decide as Ht; [|done]. intros [= <-]. by apply inv_late.
  - intros [= <-]. apply inv_fewer; [done|apply size_remove].
Qed.

Lemma start_inv rows0 : (size rows0 <= max_sandboxes)%nat -> inv (start rows0).
Proof.
  intros Hr. unfold inv, credit, start. cbn [rows gate calls detached late].
  rewrite (size_empty (C := gset N)). split_and!; [by intros t p|lia..].
Qed.

Lemma run_inv acts s s' : inv s -> run acts s = Some s' -> inv s'.
Proof.
  revert s. induction acts as [|a acts IH]; intros s Hi; cbn [run]; [by intros [= <-]|].
  destruct (step s a) as [s1|] eqn:E; [|done]. apply IH. by eapply step_inv.
Qed.

(** C26: Racing creates and restores do not overshoot the quota.  Starting
    within it, after any sequence of steps of any number of concurrent calls
    the sandboxes are at most the quota plus the calls that were dropped by
    their deadline while their insert was running; without such a call, at
    most the quota. *)
Theorem quota_respected rows0 acts s : (size rows0 <= max_sandboxes)%nat -> run acts (start rows0) = Some s ->
  (size (rows s) <= max_sandboxes + late s)%nat /\ (late s = 0%nat -> (size (rows s) <= max_sandboxes)%nat).
Proof.
  intros Hr Hrun. destruct (run_inv _ _ _ (start_inv _ Hr) Hrun) as (_ & Hs & _). lia.
Qed.

End quota.

Module Witness.

Definition race : list action :=
  [Call 1; Call 2; Lock 1; Check 1 true; Dispatch 1; Insert 1 true; Finish 1 false;
   Lock 2; Check 2 true].

Lemma quota_respected_witness : exists s, run 1 race (start ∅) = Some s /\
  (size (rows s) <= 1 + late s)%nat /\ (late s = 0%nat -> (size (rows s) <= 1)%nat).
Proof.
  eexists. split; [vm_compute; reflexivity|]. apply (quota_respected 1 ∅ race); [vm_compute; lia|].
  vm_compute. reflexivity.
Defined.

(** The first call is dropped while its insert runs: the gate is free, the
    second call's check does not see the row. *)
Definition dropped : list action :=
  [Call 1; Call 2; Lock 1; Check 1 true; Dispatch 1; Expire 1;
   Lock 2; Check 2 true; Late 1 true; Dispatch 2; Insert 2 true; Finish 2 false].

End Witness.

(** The deadline of a call defeats the gate: a create dropped while its
    insert is on the blocking pool frees the gate before its row is there, and
    the next create passes a check that does not count it. *)
Theorem quota_overshoot : exists s, run 1 Witness.dropped (start ∅) = Some s /\
  size (rows s) = 2%nat /\ calls s = ∅.
Proof. eexists. split; [vm_compute; reflexivity|]. by vm_compute. Qed.
