(* ===== verification/Serve.v ===== *)
(** * The MCP server's life

    draug-cli/src/mcp.rs: [serve] and the tool methods, which put each tool
    body under the call deadline, for a client that calls one tool after the
    other.  The transport and the framing of the replies are the rmcp crate's,
    a parameter; so is what a body leaves that the deadline cut off.  What the
    process prints is part of its state.  Calls
    that run at the same time are in Quota.v and OpLock.v. *)

From S2P Require Import Prelude Text Types FsTree Proto Registry Diff Output Backend BackendSpec Exec Mcp McpSpec.

(** ** A process and what it has written

    Writes to the two streams are taken to succeed. *)

(** What [println!] and [eprintln!] write. *)
Definition say (line : string) : list byte := bytes_of_string line ++ newline.

Record term := mkTerm { t_world : world; t_out : list byte; t_err : list byte }.

Definition on_world {E A} (m : ST world E A) : ST term E A := fun t =>
  let '(r, w) := m (t_world t) in (r, mkTerm w (t_out t) (t_err t)).

Definition write_out {E} (bytes : list byte) : ST term E unit := fun t =>
  (Ok tt, mkTerm (t_world t) (t_out t ++ bytes) (t_err t)).
Definition write_err {E} (bytes : list byte) : ST term E unit := fun t =>
  (Ok tt, mkTerm (t_world t) (t_out t) (t_err t ++ bytes)).

Definition println {E} (line : string) : ST term E unit := write_out (say line).
Definition eprintln {E} (line : string) : ST term E unit := write_err (say line).

(** A reply, [None] when the body panicked. *)
Definition reply := option (result error_data tool_result).

Record transport := mkTransport {
  tr_hello : list byte;                  (* what the handshake writes *)
  tr_start : option string;              (* the error of the handshake *)
  tr_calls : list tool_call;
  tr_frame : reply -> list byte;         (* a reply as the client reads it *)
  tr_end : option string;                (* the error it ends with *)
}.

Section serve.
Context `{SqlEngine, LimitsJson, CgroupBase, Codec GuestMessage}.
Context (state_root : path) (fs : project_fs) (unix_now : Z) (layer_bytes : node -> Z).
Context (lookup_layer : layer_ref -> world -> node) (lookup_base : path -> option node).
Context (lock_held : path -> bool) (others : Sandbox -> world -> world).

(** The self-healing before the first command or call, which never fails it. *)
Definition heal : ST term Error unit :=
  do! healed := st_try (on_world (reconcile lock_held others)) in
  match healed with
  | Ok n => if (0 <? n)%nat then eprintln ("sbx: reconciled " +:+ pretty n +:+ " stale sandbox(es)") else st_ret tt
  | Err e => eprintln ("sbx: warning: reconcile failed: " +:+ Error_fmt e)
  end.

(** What a call that is not done by its deadline leaves behind, if it is not. *)
Context (late : tool_call -> world -> option world).

Section session.
Context (config : McpConfig).

(** A body under the guard. *)
Definition guarded (c : tool_call) (m : ST world error_data (option tool_result)) (w : world) : reply * world :=
  match late c w with
  | Some w' => (Some (guard config None), w')
  | None =>
      match m w with
      | (Ok (Some r), w') => (Some (guard config (Some (Ok r))), w')
      | (Ok None, w') => (None, w')
      | (Err e, w') => (Some (guard config (Some (Err e))), w')
      end
  end.

Definition always (m : T) : ST world error_data (option tool_result) := do! r := m in st_ret (Some r).

(** The tool methods. *)
Definition sandbox_create (args : CreateArgs) : world -> reply * world :=
  guarded (CCreate args) (always (do_create state_root fs unix_now config args)).
Definition sandbox_exec (so : socket) (duration_ms : Z) (args : ExecArgs) : world -> reply * world :=
  guarded (CExec so duration_ms args) (do_exec config so duration_ms args).
Definition sandbox_snapshot (args : SnapshotArgs) : world -> reply * world :=
  guarded (CSnapshot args) (always (do_snapshot state_root unix_now layer_bytes args)).
Definition sandbox_restore (args : RestoreArgs) : world -> reply * world :=
  guarded (CRestore args) (always (do_restore state_root fs unix_now config args)).
Definition sandbox_diff (target : string) : world -> reply * world :=
  guarded (CDiff target) (always (do_diff lookup_layer lookup_base target)).
Definition sandbox_destroy (key : string) : world -> reply * world :=
  guarded (CDestroy key) (always (do_destroy key)).
Definition sandbox_list : world -> reply * world := guarded CList (always (do_list config)).

(** The router's choice. *)
Definition call_tool (c : tool_call) : world -> reply * world :=
  match c with
  | CCreate args => sandbox_create args
  | CExec so duration_ms args => sandbox_exec so duration_ms args
  | CSnapshot args => sandbox_snapshot args
  | CRestore args => sandbox_restore args
  | CDiff target => sandbox_diff target
  | CDestroy key => sandbox_destroy key
  | CList => sandbox_list
  end.

(** The calls, each one's reply written when it is there. *)
Fixpoint session (frame : reply -> list byte) (calls : list tool_call) : ST term Error unit :=
  match calls with
  | [] => st_ret tt
  | c :: calls' =>
      do! r := on_world (fun w => let '(r, w') := call_tool c w in (Ok r, w')) in
      do! _ := write_out (frame r) in
      session frame calls'
  end.

Definition mcp_error (e : string) : Error := Error_io "mcp serve" (Io.other e).

(** What happens before the first call. *)
Definition greet (tr : transport) : ST term Error unit := do! _ := heal in write_out (tr_hello tr).

Definition ended (e : option string) : result Error unit :=
  match e with Some e => Err (mcp_error e) | None => Ok tt end.

Definition serve (tr : transport) : ST term Error unit :=
  do! _ := greet tr in
  do! _ := st_lift (ended (tr_start tr)) in
  do! _ := session (tr_frame tr) (tr_calls tr) in
  st_lift (ended (tr_end tr)).
End session.
End serve.

(** The self-healing says what it has to say on stderr. *)
Lemma heal_writes `{SqlEngine, LimitsJson, CgroupBase} lock_held others t : exists text t',
  heal lock_held others t = (Ok tt, t') /\ t_out t' = t_out t /\ t_err t' = t_err t ++ text /\
  t_world t' = (reconcile lock_held others (t_world t)).2.
Proof.
  unfold heal, st_bind, st_try, on_world. destruct (reconcile _ _ (t_world t)) as [[n|e] w'].
  - destruct (0 <? n)%nat; eexists _, _; (split; [reflexivity|]); split_and!; try done. by rewrite app_nil_r.
  - eexists _, _. split; [reflexivity|]. by split_and!.
Qed.

(** ** How many sandboxes there are *)

Definition count (w : world) : nat := length (db_sandbox (w_db w)).

(** [m] adds [n] rows at most. *)
Definition adds {E A} (n : nat) (m : ST world E A) : Prop := forall w, (count (m w).2 <= count w + n)%nat.

Section adds.
Context {E : Type}.

Lemma adds_ret {A} (a : A) : adds 0 (@st_ret _ E _ a).
Proof. intros w. simpl. lia. Qed.
Lemma adds_fail {A} (e : E) : adds 0 (@st_fail _ _ A e).
Proof. intros w. simpl. lia. Qed.
Lemma adds_lift {A} (r : result E A) : adds 0 (@st_lift world _ _ r).
Proof. intros w. simpl. lia. Qed.

Lemma adds_bind {A A'} n n' (m : ST world E A) (k : A -> ST world E A') :
  adds n m -> (forall a, adds n' (k a)) -> adds (n + n') (st_bind m k).
Proof.
  intros Hm Hk w. unfold st_bind. specialize (Hm w). destruct (m w) as [[a|e] w1]; simpl in *; [|lia].
  specialize (Hk a w1). lia.
Qed.

(** Nothing is added before, or after. *)
Lemma adds_then {A A'} n (m : ST world E A) (k : A -> ST world E A') :
  adds 0 m -> (forall a, adds n (k a)) -> adds n (st_bind m k).
Proof. intros Hm Hk. by apply (adds_bind 0 n). Qed.

Lemma adds_try {A} n (m : ST world E A) : adds n m -> adds n (st_try m).
Proof. intros Hm w. unfold st_try. specialize (Hm w). by destruct (m w). Qed.

Lemma adds_if {A} n (b : bool) (m m' : ST world E A) : adds n m -> adds n m' -> adds n (if b then m else m').
Proof. by destruct b. Qed.

Lemma adds_dec {A} n P (d : Decision P) (m m' : ST world E A) : adds n m -> adds n m' ->
  adds n (if decide P then m else m').
Proof. by case_decide. Qed.

Lemma adds_here {A} n (f : world -> ST world E A) : (forall w, adds n (f w)) -> adds n (fun w => f w w).
Proof. intros Hf w. apply Hf. Qed.
End adds.

Lemma adds_sys {A} (f : Io.error -> Error) (a : A) eff : (forall w, w_db (eff w) = w_db w) -> adds 0 (sys f a eff).
Proof.
  intros Heff w. unfold sys, count. destruct (w_faults w) as [|[e|] fs]; simpl; rewrite ?Heff; simpl; lia.
Qed.

(** What leaves the registry alone. *)
Lemma adds_frame {A} (m : B A) : (forall w r w', m w = (r, w') -> w_db w' = w_db w) -> adds 0 m.
Proof. intros Hm w. unfold count. destruct (m w) as [r w'] eqn:E. cbn [snd]. rewrite (Hm _ _ _ E). lia. Qed.

(** A registry operation, on the rows. *)
Definition db_adds {A} (n : nat) (f : db -> result Error A * db) : Prop :=
  forall d, (length (db_sandbox (f d).2) <= length (db_sandbox d) + n)%nat.

Lemma adds_reg {A} n (f : db -> result Error A * db) : db_adds n f -> adds n (reg f).
Proof. intros Hf w. unfold reg, count. specialize (Hf (w_db w)). by destruct (f (w_db w)). Qed.

Lemma statement_adds {A} n (body : db -> result Sql.error A * db) d :
  (forall d, (length (db_sandbox (body d).2) <= length (db_sandbox d) + n)%nat) ->
  (length (db_sandbox (statement body d).2) <= length (db_sandbox d) + n)%nat.
Proof.
  intros Hb. unfold statement. destruct (db_faults d) as [|[[k m]|] fs]; simpl; [apply Hb|lia|].
  apply (Hb (mkDb _ _ fs)).
Qed.

(** An operation [n] of one statement on [d]. *)
Ltac db_row n d :=
  match goal with
  | |- context [statement ?b d] =>
      let Hs := fresh in
      assert (length (db_sandbox (statement b d).2) <= length (db_sandbox d) + n)%nat as Hs;
        [apply statement_adds; intros; repeat case_match; simpl; rewrite ?length_app, ?length_fmap; simpl; try lia;
         rewrite Nat.add_0_r; apply length_filter
        |destruct (statement b d) as [? ?]; simpl in Hs; repeat case_match; simpl; lia]
  end.

Ltac db_adds := match goal with |- db_adds ?n _ => let d := fresh "d" in intros d; db_row n d end.

Section rows.
Context `{SqlEngine, LimitsJson}.

Lemma db_insert_sandbox sb : db_adds 1 (insert_sandbox sb).
Proof.
  unfold insert_sandbox. intros d. destruct (limits_to_json (sb_limits sb)); [|simpl; lia].
  db_row 1%nat d.
Qed.
Lemma db_get_sandbox k : db_adds 0 (get_sandbox k).
Proof. unfold get_sandbox. db_adds. Qed.
Lemma db_list_sandboxes : db_adds 0 list_sandboxes.
Proof. unfold list_sandboxes. db_adds. Qed.
Lemma db_update_sandbox_state id st : db_adds 0 (update_sandbox_state id st).
Proof. unfold update_sandbox_state. db_adds. Qed.
Lemma db_remove_sandbox id : db_adds 0 (remove_sandbox id).
Proof. unfold remove_sandbox. db_adds. Qed.
Lemma db_insert_snapshot sn : db_adds 0 (insert_snapshot sn).
Proof. unfold insert_snapshot. db_adds. Qed.
Lemma db_get_snapshot k : db_adds 0 (get_snapshot k).
Proof. unfold get_snapshot. db_adds. Qed.
Lemma db_list_snapshots k : db_adds 0 (list_snapshots k).
Proof. unfold list_snapshots. db_adds. Qed.
Lemma db_set_snapshot_size id z : db_adds 0 (set_snapshot_size id z).
Proof. unfold set_snapshot_size. db_adds. Qed.
Lemma db_remove_snapshot id : db_adds 0 (remove_snapshot id).
Proof. unfold remove_snapshot. db_adds. Qed.
End rows.

Create HintDb rows.
#[local] Hint Resolve adds_ret adds_fail adds_lift adds_try : rows.
#[local] Hint Extern 1 (adds _ (sys _ _ _)) => apply adds_sys; done : rows.
#[local] Hint Extern 1 (adds _ (reg _)) => apply adds_reg : rows.
#[local] Hint Resolve db_insert_sandbox db_get_sandbox db_list_sandboxes db_update_sandbox_state db_remove_sandbox
  db_insert_snapshot db_get_snapshot db_list_snapshots db_set_snapshot_size db_remove_snapshot : rows.

(** Operations composed of ones that add nothing. *)
Ltac no_rows :=
  repeat first [by eauto with rows | apply adds_then; [|intros ?] | apply adds_dec | case_match].

Section operations.
Context `{SqlEngine, LimitsJson, CgroupBase}.
Context (root : path) (fs : project_fs) (unix_now : Z) (layer_bytes : node -> Z).

Lemma adds_random_id : adds 0 random_id.
Proof. intros w. unfold random_id, count. destruct (w_random w) as [|[]]; simpl; lia. Qed.

Lemma adds_next_setup : adds 0 next_setup.
Proof. intros w. unfold next_setup, count. simpl. lia. Qed.

(** At one world. *)
Definition adds_at {A} (n : nat) (w : world) (r : result Error A * world) : Prop := (count r.2 <= count w + n)%nat.

Lemma adds_at_op {A} n (m : B A) w w0 : adds n m -> count w = count w0 -> adds_at n w0 (m w).
Proof. intros Hm E. unfold adds_at. specialize (Hm w). lia. Qed.

Lemma adds_at_ret {A} n (r : result Error A) w w0 : count w = count w0 -> adds_at n w0 (r, w).
Proof. unfold adds_at. simpl. lia. Qed.

Lemma adds_kill_guest d : adds 0 (kill_guest d).
Proof.
  intros w. unfold kill_guest. repeat case_match; try (simpl; lia). by apply (adds_sys _ tt).
Qed.


Lemma adds_remove_cgroup d : adds 0 (remove_cgroup d).
Proof. apply adds_frame. intros w r w' E. by apply remove_cgroup_inv in E as (_ & (Hdb & _) & _). Qed.

Lemma adds_remove_snapshot_dir d : adds 0 (remove_snapshot_dir d).
Proof.
  apply adds_frame. intros w r w' E. destruct (remove_snapshot_dir_run d w) as (w1 & l & E1 & Hdb & _).
  rewrite E1 in E. by injection E as _ <-.
Qed.

(** A call, and what is done about its failure. *)
Ltac after m w :=
  let Hm := fresh in
  assert (adds 0 m) as Hm by no_rows; specialize (Hm w); destruct (m w) as [[?|?] ?]; simpl in Hm.

Lemma adds_remove_state_dir d : adds 0 (remove_state_dir d).
Proof.
  intros w. unfold remove_state_dir. after (sys (Error_io "remove state dir") tt (drop_dir d)) w; [done|].
  repeat case_match; simpl; try done.
  pose proof (adds_sys (Error_io "cleanup helper") tt (drop_dir d) (fun _ => eq_refl) w0). lia.
Qed.

Lemma adds_copy_layer eff : (forall w, w_db (eff w) = w_db w) -> adds 0 (copy_layer eff).
Proof.
  intros He w. unfold copy_layer. pose proof (adds_sys (Error_io "copy layer") tt eff He w) as Hs.
  destruct (sys _ _ _ w) as [[?|?] w1]; simpl in Hs; [done|]. repeat case_match; simpl; try done.
  pose proof (adds_sys (Error_io "copy helper") tt eff He w1). lia.
Qed.
#[local] Hint Resolve adds_random_id adds_next_setup adds_kill_guest adds_remove_cgroup adds_remove_state_dir : rows.

Lemma adds_destroy_inner sb : adds 0 (destroy_inner sb).
Proof. unfold destroy_inner. no_rows. Qed.
#[local] Hint Resolve adds_destroy_inner : rows.

Lemma adds_acquire d : adds 0 (acquire_op_lock d).
Proof. unfold acquire_op_lock. no_rows. Qed.
#[local] Hint Resolve adds_acquire : rows.

Lemma adds_destroy id : adds 0 (destroy id).
Proof.
  intros w. unfold destroy. after (reg (get_sandbox id)) w.
  - assert (adds 0 (do! _ := st_try (acquire_op_lock (sb_state_dir a)) in destroy_inner a)) as Hd by no_rows.
    specialize (Hd w0). lia.
  - case_match; simpl; lia.
Qed.

Lemma adds_create_cgroup id l : adds 0 (create_cgroup id l).
Proof.
  intros w. unfold create_cgroup. cbv zeta.
  match goal with |- context [sys ?f ?a ?e w] => after (sys f a e) w end.
  - case_match; [|simpl; lia].
    match goal with |- context [st_bind ?m ?k w0] => 
      assert (adds 0 (st_bind m k)) as Hb by no_rows; specialize (Hb w0) end.
    lia.
  - case_match; simpl; lia.
Qed.
#[local] Hint Resolve adds_create_cgroup : rows.

Lemma adds_start_guest r hc cg :
  adds 0 (fun w => (drive r hc None (sr_lines r), start_guest r cg w) : result Error N * world).
Proof. intros w. unfold start_guest, count. simpl. case_match; simpl; lia. Qed.
#[local] Hint Resolve adds_start_guest : rows.

Lemma adds_do_spawn sb spec : adds 0 (do_spawn sb spec).
Proof. unfold do_spawn. cbv zeta. no_rows. Qed.

Lemma adds_spawn_or_rollback sb spec : adds 0 (spawn_or_rollback sb spec).
Proof.
  intros w. unfold spawn_or_rollback. pose proof (adds_do_spawn sb spec w) as Hd.
  destruct (do_spawn sb spec w) as [[?|?] w1]; simpl in *; [lia|].
  pose proof (adds_destroy_inner sb w1). destruct (destroy_inner sb w1). simpl in *. lia.
Qed.

Lemma adds_create_subdirs d : adds 0 (create_subdirs d).
Proof. unfold create_subdirs. no_rows. Qed.

Lemma adds_seed_upper d o : adds 0 (seed_upper d o).
Proof.
  unfold seed_upper. destruct o; [|no_rows]. apply adds_then; [no_rows|]. intros snap w.
  match goal with |- context [copy_layer ?e w] =>
    pose proof (adds_copy_layer e (fun _ => eq_refl) w); destruct (copy_layer e w) as [[?|?] ?] end; simpl in *; lia.
Qed.
#[local] Hint Resolve adds_spawn_or_rollback adds_create_subdirs adds_seed_upper : rows.

Lemma adds_spawn spec : adds 1 (spawn root fs unix_now spec).
Proof.
  unfold spawn. do 2 (apply adds_then; [no_rows|intros ?]). cbv zeta.
  do 3 (apply adds_then; [no_rows|intros ?]). apply (adds_bind 1 0); no_rows.
Qed.

Lemma adds_restore id name : adds 1 (restore root fs unix_now id name).
Proof. unfold restore. apply adds_then; [no_rows|]. intros snap. apply adds_spawn. Qed.

Lemma adds_make_snapshot_dir id d : adds 0 (make_snapshot_dir id d).
Proof.
  unfold make_snapshot_dir. apply adds_then; [no_rows|]. intros [] w. case_match; [simpl; lia|].
  by apply (adds_sys (Error_io "create snapshot dir") tt).
Qed.

#[local] Hint Resolve adds_remove_snapshot_dir : rows.

Lemma adds_record_snapshot meta : adds 0 (record_snapshot meta).
Proof.
  intros w. unfold record_snapshot. after (reg (insert_snapshot meta)) w; [done|].
  assert (adds 0 (do! _ := remove_snapshot_dir (sn_path meta) in @st_fail _ _ unit e)) as Hr by no_rows.
  specialize (Hr w0). lia.
Qed.

Lemma adds_copy_or_rollback id d l : adds 0 (copy_or_rollback layer_bytes id d l).
Proof.
  intros w. unfold copy_or_rollback.
  match goal with |- context [copy_layer ?e w] =>
    pose proof (adds_copy_layer e (fun _ => eq_refl) w); destruct (copy_layer e w) as [[?|?] w1] end; simpl in *.
  - assert (adds 0 (do! _ := reg (set_snapshot_size id (layer_bytes l)) in st_ret id)) as Hs by no_rows.
    specialize (Hs w1). lia.
  - assert (adds 0 (do! _ := remove_snapshot_dir d in do! _ := st_try (reg (remove_snapshot id)) in
                    @st_fail _ _ string e)) as Hr by no_rows.
    specialize (Hr w1). lia.
Qed.
#[local] Hint Resolve adds_make_snapshot_dir adds_record_snapshot adds_copy_or_rollback : rows.

Lemma adds_snapshot id name : adds 0 (snapshot root unix_now layer_bytes id name).
Proof. unfold snapshot. case_decide; [no_rows|]. cbv zeta. no_rows. intros w. apply adds_copy_or_rollback. Qed.

Lemma adds_resolve_layer target : adds 0 (resolve_layer target).
Proof.
  intros w. unfold resolve_layer. after (reg (get_snapshot target)) w; [simpl; lia|].
  assert (adds 0 (do! sb := reg (get_sandbox target) in st_ret (SandboxLayer (sb_state_dir sb), sb_rootfs sb))) as Hs
    by no_rows.
  specialize (Hs w0). lia.
Qed.

(** Other processes that make no sandbox meanwhile. *)
Context (lock_held : path -> bool) (others : Sandbox -> world -> world).
Context (Hothers : forall sb w, (count (others sb w) <= count w)%nat).

Lemma adds_reconcile_one sb n : adds 0 (reconcile_one lock_held others sb n).
Proof.
  intros w. unfold reconcile_one. case_decide; [simpl; lia|]. case_match; [simpl; lia|]. case_match.
  - cbv zeta. pose proof (Hothers sb w). destruct (lock_held (sb_state_dir sb)); [simpl; lia|].
    pose proof (adds_destroy_inner sb (others sb w)).
    destruct (destroy_inner sb (others sb w)) as [[?|?] ?]; simpl in *; lia.
  - after (reg (remove_sandbox (sb_id sb))) w; simpl; lia.
Qed.

Lemma heal_keeps t : (count (t_world (heal lock_held others t).2) <= count (t_world t))%nat.
Proof.
  assert (forall sbs n, adds 0 (reconcile_loop lock_held others sbs n)) as Hloop.
  { induction sbs as [|sb sbs IH]; intros n; simpl; [apply adds_ret|].
    apply adds_then; [apply adds_reconcile_one|apply IH]. }
  assert (adds 0 (reconcile lock_held others)) as Hr by (unfold reconcile; apply adds_then; [no_rows|auto]).
  specialize (Hr (t_world t)). destruct (heal_writes lock_held others t) as (text & t' & -> & _ & _ & Hw).
  cbn [snd]. rewrite Hw. lia.
Qed.
End operations.
#[local] Hint Resolve adds_destroy adds_snapshot adds_resolve_layer : rows.

(** ** The tools keep to the quota *)

Definition keeps {E A} (n : nat) (m : ST world E A) : Prop := forall w, (count w <= n)%nat -> (count (m w).2 <= n)%nat.

Lemma keeps_adds {E A} n (m : ST world E A) : adds 0 m -> keeps n m.
Proof. intros Hm w Hw. specialize (Hm w). lia. Qed.

Lemma adds_tool {A} n (m : B A) (k : A -> T) : adds 0 m -> (forall a, adds n (k a)) -> adds n (tool m k).
Proof.
  intros Hm Hk w. specialize (Hm w). unfold tool. destruct (m w) as [[a|e] w1]; simpl in *; [|lia].
  specialize (Hk a w1). lia.
Qed.

Lemma adds_last {A} n (m : B A) (f : A -> tool_result) : adds n m -> adds n (tool m (fun a => give (f a))).
Proof. intros Hm w. specialize (Hm w). unfold tool. by destruct (m w) as [[a|e] w1]. Qed.

Lemma keeps_tool {A} n (m : B A) (k : A -> T) : adds 0 m -> (forall a, keeps n (k a)) -> keeps n (tool m k).
Proof.
  intros Hm Hk w Hw. specialize (Hm w). unfold tool. destruct (m w) as [[a|e] w1]; simpl in *; [|lia].
  apply Hk. lia.
Qed.

Section tools.
Context `{SqlEngine, LimitsJson, CgroupBase, Codec GuestMessage}.
Context (root : path) (fs : project_fs) (unix_now : Z) (layer_bytes : node -> Z).
Context (lookup_layer : layer_ref -> world -> node) (lookup_base : path -> option node) (config : McpConfig).

(** The check counts the rows. *)
Lemma list_counts w l w' : reg list_sandboxes w = (Ok l, w') -> length l = count w /\ count w' = count w.
Proof.
  unfold reg, list_sandboxes, statement, count, order_by. destruct (db_faults (w_db w)) as [|[[]|] faults]; simpl;
    intros [= <- <-]; rewrite length_fmap, (merge_sort_Permutation _ _), (scan_perm _ _); done.
Qed.

(** Whoever passes the check may add one. *)
Lemma keeps_gated n (k : T) : (max_sandboxes config <= n)%nat -> adds 1 k -> keeps n (gated config k).
Proof.
  intros Hn Hk w Hw. unfold gated, st_bind, check_quota.
  assert (adds 0 (reg list_sandboxes)) as Hl by no_rows. specialize (Hl w).
  destruct (reg list_sandboxes w) as [[l|e] w1] eqn:E; simpl in Hl; [|simpl; lia].
  destruct (list_counts _ _ _ E) as [Hlen Hw1].
  destruct (Nat.leb_spec (max_sandboxes config) (length l)); [simpl; lia|].
  specialize (Hk w1). lia.
Qed.

Lemma adds_exec so id req : adds 0 (exec so id req).
Proof.
  unfold exec. apply adds_then; [no_rows|]. intros sb. repeat (apply adds_dec; [no_rows|]).
  intros w. match goal with |- context [st_bind ?m ?k w] => assert (adds 0 (st_bind m k)) as Hb end.
  { apply adds_then; [no_rows|]. intros []. case_match; [|no_rows]. apply adds_frame. by intros ??? [= _ <-]. }
  apply Hb.
Qed.

Lemma adds_do_exec so ms args : adds 0 (do_exec config so ms args).
Proof.
  intros w. unfold do_exec. case_decide; [simpl; lia|].
  assert (adds 0 (reg_get_sandbox (ea_sandbox args))) as Hg by (unfold reg_get_sandbox; no_rows). specialize (Hg w).
  destruct (reg_get_sandbox _ w) as [[sb|e] w1]; simpl in Hg; [|done].
  match goal with |- context [exec so ?i ?r w1] => pose proof (adds_exec so i r w1) as He;
    destruct (exec so i r w1) as [[[? ?]|?] w2] end; simpl in *; lia.
Qed.

Lemma adds_do_destroy key : adds 0 (do_destroy key).
Proof.
  assert (forall id ex, adds 0 (tool (destroy id) (fun _ =>
    give (Structured (Obj [("destroyed", Str id); ("existed", Bool ex)]%string))))) as Hgo
    by (intros; apply adds_last; no_rows).
  intros w. unfold do_destroy. assert (adds 0 (reg_get_sandbox key)) as Hg by (unfold reg_get_sandbox; no_rows).
  specialize (Hg w). destruct (reg_get_sandbox key w) as [[sb|e] w1]; simpl in Hg.
  - specialize (Hgo (sb_id sb) true w1). lia.
  - specialize (Hgo key false w1). destruct e; simpl; lia.
Qed.

Lemma keeps_some n (m : T) : keeps n m -> keeps n (do! r := m in st_ret (Some r)).
Proof. intros Hm w Hw. specialize (Hm w Hw). unfold st_bind. by destruct (m w) as [[?|?] ?]. Qed.

Lemma keeps_run_tool n c : (max_sandboxes config <= n)%nat ->
  keeps n (run_tool root fs unix_now layer_bytes config lookup_layer lookup_base c).
Proof.
  intros Hn. destruct c; cbn [run_tool]; try apply keeps_some.
  - unfold do_create. case_match; [apply keeps_adds; intros w; simpl; lia|].
    apply keeps_gated; [done|]. apply adds_last, adds_spawn.
  - apply keeps_adds, adds_do_exec.
  - unfold do_snapshot, reg_get_sandbox, reg_get_snapshot. apply keeps_adds.
    apply adds_tool; [no_rows|intros ?]. apply adds_tool; [apply adds_snapshot|intros ?]. apply adds_last. no_rows.
  - unfold do_restore, reg_get_snapshot. apply keeps_tool; [no_rows|]. intros snap.
    apply keeps_gated; [done|]. apply adds_last, adds_restore.
  - unfold do_diff, Mcp.diff. apply keeps_adds, adds_last. apply adds_then; [apply adds_resolve_layer|].
    intros l w. simpl. lia.
  - apply keeps_adds, adds_do_destroy.
  - unfold do_list. apply keeps_adds, adds_tool; [no_rows|]. intros [sbs sns]. unfold give. no_rows.
Qed.
End tools.

(** ** A session *)

(** A call is answered: with a result of the tool's type, or an error object. *)
Definition answers (c : tool_call) (r : reply) : Prop :=
  exists t, r = Some (Ok t) /\ typed (result_ty c) t = true.

Section session_spec.
Context `{SqlEngine, LimitsJson, CgroupBase, Codec GuestMessage}.
Context (root : path) (fs : project_fs) (unix_now : Z) (layer_bytes : node -> Z).
Context (lookup_layer : layer_ref -> world -> node) (lookup_base : path -> option node).
Context (lock_held : path -> bool) (others : Sandbox -> world -> world).
Context (late : tool_call -> world -> option world) (config : McpConfig).

Lemma call_tool_run c : call_tool root fs unix_now layer_bytes lookup_layer lookup_base late config c =
  guarded late config c (run_tool root fs unix_now layer_bytes config lookup_layer lookup_base c).
Proof. by destruct c. Qed.

Notation tool := (call_tool root fs unix_now layer_bytes lookup_layer lookup_base late config).
Notation after := (session root fs unix_now layer_bytes lookup_layer lookup_base late config).

Definition one_if_late (c : tool_call) (w : world) : nat := match late c w with Some _ => 1 | None => 0 end.

(** How many of the calls were cut off by their deadline. *)
Fixpoint cut (calls : list tool_call) (w : world) : nat :=
  match calls with
  | [] => 0
  | c :: calls' => one_if_late c w + cut calls' (tool c w).2
  end.

Context (Hothers : forall sb w, (count (others sb w) <= count w)%nat).
(** What was cut off goes on, and inserts one row if it gets there. *)
Context (Hlate : forall c w w', late c w = Some w' -> (count w' <= S (count w))%nat).

Lemma call_tool_sound n c w : (max_sandboxes config <= n)%nat -> (count w <= n)%nat ->
  let '(r, w') := tool c w in answers c r /\ (count w' <= n + one_if_late c w)%nat.
Proof.
  intros Hn Hw. rewrite call_tool_run. unfold guarded, one_if_late. pose proof (Hlate c w) as Hl. destruct (late c w) as [w'|].
  - split; [by eexists|]. specialize (Hl w' eq_refl). lia.
  - destruct (run_tool_typed root fs unix_now layer_bytes config lookup_layer lookup_base c w) as (t & w' & E & Ht).
    rewrite E. split; [by exists t|].
    pose proof (keeps_run_tool root fs unix_now layer_bytes lookup_layer lookup_base config n c Hn w Hw) as Hk.
    rewrite E in Hk. simpl in Hk. lia.
Qed.

Lemma session_sound frame calls : forall n t, (max_sandboxes config <= n)%nat -> (count (t_world t) <= n)%nat ->
  exists t' replies, after frame calls t = (Ok tt, t') /\
  (count (t_world t') <= n + cut calls (t_world t))%nat /\ Forall2 answers calls replies /\
  t_out t' = t_out t ++ concat (frame <$> replies) /\ t_err t' = t_err t.
Proof.
  induction calls as [|c calls IH]; intros n t Hn Hw; cbn [session cut].
  { exists t, []. split_and!; [done|lia|constructor|by rewrite app_nil_r|done]. }
  pose proof (call_tool_sound n c (t_world t) Hn Hw) as Hc. unfold st_bind at 1, on_world.
  destruct (tool c (t_world t)) as [r w1]. destruct Hc as [Hr Hw1]. unfold st_bind, write_out. cbn [t_world t_out t_err].
  edestruct (IH (n + one_if_late c (t_world t))%nat (mkTerm w1 (t_out t ++ frame r) (t_err t)))
    as (t' & rs & E & Hcount & Hrs & Hout & Herr); [lia|done|].
  exists t', (r :: rs). split; [exact E|]. split; [cbn [snd t_world] in *; lia|]. split; [by constructor|].
  split; [|exact Herr]. rewrite Hout, fmap_cons. cbn [concat t_out]. by rewrite (assoc_L (++)).
Qed.

(** C27: A session with one call at a time.  When the server starts with no more
    sandboxes than the quota allows, then after each of its calls there are at
    most as many, plus one for each call that its deadline cut off - such a call
    goes on, and may insert one row - whatever is called, whatever fails, and
    if other processes make no sandbox meanwhile.  Every call has one reply,
    written when it is done: a result of the tool's type or an error object. *)
Theorem session_keeps_quota tr t r t' : (count (t_world t) <= max_sandboxes config)%nat ->
  serve root fs unix_now layer_bytes lookup_layer lookup_base lock_held others late config tr t = (r, t') ->
  exists t0, greet lock_held others tr t = (Ok tt, t0) /\ t_out t0 = t_out t ++ tr_hello tr /\
  (count (t_world t0) <= max_sandboxes config)%nat /\
  match tr_start tr with
  | Some e => r = Err (mcp_error e) /\ t' = t0
  | None => r = ended (tr_end tr) /\ t' = (after (tr_frame tr) (tr_calls tr) t0).2 /\
      forall n, let calls := take n (tr_calls tr) in let tn := (after (tr_frame tr) calls t0).2 in
      (count (t_world tn) <= max_sandboxes config + cut calls (t_world t0))%nat /\
      exists replies, Forall2 answers calls replies /\
        t_out tn = t_out t ++ tr_hello tr ++ concat (tr_frame tr <$> replies)
  end.
Proof.
  intros Hw E. pose proof (heal_keeps root lock_held others Hothers t) as Hcount.
  destruct (heal_writes lock_held others t) as (text & t1 & Hheal & Hout & _). rewrite Hheal in Hcount. cbn [snd] in Hcount.
  set (t0 := mkTerm (t_world t1) (t_out t1 ++ tr_hello tr) (t_err t1)).
  assert (greet lock_held others tr t = (Ok tt, t0)) as Eg by (unfold greet, st_bind; by rewrite Hheal).
  unfold serve in E. unfold st_bind at 1 in E. rewrite Eg in E. assert (count (t_world t0) <= max_sandboxes config)%nat as Hw0 by (simpl; lia).
  assert (t_out t0 = t_out t ++ tr_hello tr) as Hout0 by (simpl; by rewrite Hout).
  exists t0. do 3 (split; [done|]). destruct (tr_start tr) as [e|].
  { injection E as <- <-. done. }
  unfold st_bind at 1 in E. cbn [ended st_lift] in E. unfold st_bind in E.
  destruct (session_sound (tr_frame tr) (tr_calls tr) _ t0 (le_n _) Hw0) as (t2 & _ & E2 & _).
  rewrite E2 in E. injection E as <- <-. rewrite E2. split; [done|]. split; [done|]. intros n.
  destruct (session_sound (tr_frame tr) (take n (tr_calls tr)) _ t0 (le_n _) Hw0) as (t3 & rs & E3 & Hc & Hrs & Ho & _).
  cbv zeta. rewrite E3. split; [exact Hc|]. exists rs. split; [exact Hrs|]. by rewrite (assoc_L (++)), <- Hout0.
Qed.
End session_spec.

(** ** A client *)
Module Witness.

#[local] Existing Instance RegistrySpec.Witness.json.
#[local] Existing Instance RegistrySpec.Witness.in_order.
#[local] Existing Instance Exec.Witness.small_codec.
#[local] Existing Instance BackendSpec.Witness.base.

Definition create : tool_call := CCreate (mkCreateArgs "/project" None None None None false None).

(** Two creates under a quota of one, a call that is cut off, a destroy and
    another create. *)
Definition calls : list tool_call := [create; create; CList; CDestroy BackendSpec.Witness.id1; create].
Definition client : transport :=
  mkTransport [] None calls (fun r => match r with Some (Ok _) => newline | _ => [] end) None.
Definition one : McpConfig := mkMcpConfig 300 1.

(** The deadline cuts the list off. *)
Definition cut_off (c : tool_call) (w : world) : option world := match c with CList => Some w | _ => None end.

Definition init : term := mkTerm (BackendSpec.Witness.world0 true false) [] [].
Definition served : result Error unit * term :=
  serve "/s" BackendSpec.Witness.any_dir 0 (fun _ => 0) (fun _ _ => empty_layer) (fun _ => None)
    (fun _ => false) (fun _ w => w) cut_off one client init.

Lemma session_keeps_quota_witness : exists t0,
  greet (fun _ => false) (fun _ w => w) client init = (Ok tt, t0) /\
  (count (t_world served.2) <= 1 + cut "/s" BackendSpec.Witness.any_dir 0%Z (fun _ => 0%Z) (fun _ _ => empty_layer)
     (fun _ => None) cut_off one calls (t_world t0))%nat.
Proof.
  destruct (session_keeps_quota "/s" BackendSpec.Witness.any_dir 0 (fun _ => 0) (fun _ _ => empty_layer) (fun _ => None)
    (fun _ => false) (fun _ w => w) cut_off one ltac:(intros; simpl; lia)
    ltac:(intros [] w w'; intros [= <-]; lia) client init served.1 served.2) as (t0 & Hg & _ & _ & _ & Ht & Hn).
  - vm_compute. lia.
  - unfold served. by destruct (serve _ _ _ _ _ _ _ _ _ _ _ _).
  - exists t0. split; [exact Hg|]. rewrite Ht. exact (proj1 (Hn 5%nat)).
Defined.

(** The second create was refused, the last one made a sandbox again. *)
Example served_one : count (t_world served.2) = 1%nat /\
  r_id <$> db_sandbox (w_db (t_world served.2)) = [BackendSpec.Witness.id2].
Proof. by vm_compute. Qed.

End Witness.
