(* ===== verification/Cli.v ===== *)
(** * The command line

    draug-cli/src/main.rs: where the state lives, [KEY=VALUE] parsing, the
    commands over the operations of Backend.v, Exec.v and Serve.v, and what the
    process prints and exits with.  Argument parsing is the clap crate's. *)

From S2P Require Import Prelude Text Types FsTree Proto Registry Diff Output Backend BackendSpec Exec Mcp McpSpec Serve.

(** ** Where the state is *)

(** The two environment variables, as [var_os] gives them. *)
Definition state_root (xdg_state_home home : option path) : path :=
  path_join
    (match xdg_state_home with
     | Some p => p
     | None => path_join (default EmptyString home) ".local/state"
     end) "draug".

(** [run] opens the registry in the state root, not where
    [Registry::default_path] would. *)
Definition registry_path (xdg_state_home home : option path) : path :=
  path_join (state_root xdg_state_home home) "registry.db".

Example registry_elsewhere :
  registry_path None (Some "/home/u") = "/home/u/.local/state/draug/registry.db" /\
  default_path None (Some "/home/u") = "/home/u/.local/share/draug/registry.db".
Proof. done. Qed.

(** ** KEY=VALUE *)

Section env.
(** [{:?}] of a [String], which only the error message uses. *)
Context (str_debug : string -> string).

Fixpoint parse_env (pairs : list string) : result string (list (string * string)) :=
  match pairs with
  | [] => Ok []
  | p :: pairs' =>
      match split_once "=" p with
      | None => Err ("--env " +:+ str_debug p +:+ " is not KEY=VALUE")
      | Some kv => let? env := parse_env pairs' in Ok (kv :: env)
      end
  end.

Definition no_equals (k : string) : Prop := split_once "=" k = None.

Definition pair_of (kv : string * string) : string := kv.1 +:+ "=" +:+ kv.2.

Lemma split_once_pair k v : no_equals k -> split_once "=" (pair_of (k, v)) = Some (k, v).
Proof.
  unfold no_equals, pair_of. cbn [fst snd]. induction k as [|a k IH]; [done|].
  change ((String a k +:+ "=" +:+ v)) with (String a (k +:+ "=" +:+ v)). cbn [split_once].
  case_decide; [done|]. intros Hk. destruct (split_once "=" k) as [[x y]|]; [done|]. by rewrite IH.
Qed.

Lemma split_once_key p k v : split_once "=" p = Some (k, v) -> no_equals k /\ p = pair_of (k, v).
Proof.
  unfold no_equals, pair_of. revert k. induction p as [|a p IH]; intros k; cbn [split_once]; [done|].
  case_decide as Ha; [intros [= <- <-]; split; [done|by subst a]|].
  destruct (split_once "=" p) as [[k' v']|]; [|done]. intros [= <- <-].
  destruct (IH k' eq_refl) as [Hk ->]. cbn [split_once]. rewrite decide_False, Hk by done. done.
Qed.

Definition keyed (kv : string * string) : Prop := no_equals kv.1.

Lemma parse_env_app env rest : Forall keyed env ->
  parse_env ((pair_of <$> env) ++ rest) = let? tail := parse_env rest in Ok (env ++ tail).
Proof.
  induction 1 as [|[k v] env Hk Henv IH]; [cbn [fmap list_fmap app]; by destruct (parse_env rest)|].
  rewrite fmap_cons. cbn [app parse_env]. rewrite split_once_pair by done. rewrite IH.
  by destruct (parse_env rest).
Qed.

Lemma pairs_of_args before : Forall (fun p => ~ no_equals p) before ->
  exists env, before = pair_of <$> env /\ Forall keyed env.
Proof.
  induction 1 as [|p before Hp Hb (env & -> & Henv)]; [by exists []|].
  unfold no_equals in Hp. destruct (split_once "=" p) as [[k v]|] eqn:E; [|done].
  apply split_once_key in E as [Hk ->]. exists ((k, v) :: env). split; [done|by constructor].
Qed.

Definition bad_env (bad : string) : string := "--env " +:+ str_debug bad +:+ " is not KEY=VALUE".

Lemma parse_env_run pairs :
  match parse_env pairs with
  | Ok env => pairs = pair_of <$> env /\ Forall keyed env
  | Err msg => exists before bad after, pairs = before ++ bad :: after /\
      Forall (fun p => ~ no_equals p) before /\ no_equals bad /\ msg = bad_env bad
  end.
Proof.
  induction pairs as [|p pairs IH]; cbn [parse_env]; [done|].
  destruct (split_once "=" p) as [[k v]|] eqn:E; [|by exists [], p, pairs].
  assert (~ no_equals p) as Hp by (unfold no_equals; by rewrite E).
  apply split_once_key in E as [Hk ->]. destruct (parse_env pairs) as [env|msg].
  - destruct IH as [-> Henv]. split; [done|by constructor].
  - destruct IH as (before & bad & after & -> & Hb & Hbad & ->).
    exists (pair_of (k, v) :: before), bad, after. split_and!; [done|by constructor|done|done].
Qed.

(** [--env] is read exactly: the parse succeeds with some variables when the
    arguments are those variables written KEY=VALUE, in order, split at the
    first equals sign - so a value may hold more of them, and a key none - and
    it fails when one argument has no equals sign, naming the first of them. *)

Theorem parse_env_exact pairs :
  (forall env, parse_env pairs = Ok env <-> pairs = pair_of <$> env /\ Forall keyed env) /\
  (forall msg, parse_env pairs = Err msg <->
    exists before bad after, pairs = before ++ bad :: after /\ Forall (fun p => ~ no_equals p) before /\
      no_equals bad /\ msg = bad_env bad).
Proof.
  pose proof (parse_env_run pairs) as Hrun. split.
  - intros env. split; [intros E; by rewrite E in Hrun|]. intros [-> Henv].
    rewrite <- (app_nil_r (pair_of <$> env)), parse_env_app by done. cbn [parse_env]. by rewrite app_nil_r.
  - intros msg. split; [intros E; by rewrite E in Hrun|].
    intros (before & bad & after & -> & (env & -> & Henv)%pairs_of_args & Hbad & ->).
    rewrite parse_env_app by done. cbn [parse_env]. unfold no_equals in Hbad. by rewrite Hbad.
Qed.

End env.

(** ** The commands *)

Inductive command :=
  | RunCmd (project_dir : path) (name : option string) (memory_max cpu_millis pids_max : option Z)
      (network : bool) (env : list string) (insecure_host_proc : bool)
  | ExecCmd (sandbox : string) (cwd : option string) (timeout : option Z) (env argv : list string)
  | SnapshotCmd (sandbox name : string)
  | RestoreCmd (snapshot : string) (name : option string)
  | DiffCmd (target : string) (json : bool)
  | DestroyCmd (sandbox : string)
  | McpCmd (call_timeout : Z) (max_sandboxes : nat).

Definition spec_of (project_dir : path) (name : option string) (memory_max cpu_millis pids_max : option Z)
    (network : bool) (env : list (string * string)) (insecure_host_proc : bool) : SandboxSpec :=
  mkSpec name project_dir None (mkLimits cpu_millis memory_max pids_max None None) env network insecure_host_proc.

Definition mark (k : DiffKind) : string := match k with Added => "+" | Modified => "~" | Deleted => "-" end.

Definition diff_line (e : DiffEntry) : string :=
  mark (de_kind e) +:+ " " +:+ de_path e +:+
  match de_size e with Some n => " (" +:+ pretty n +:+ " bytes)" | None => EmptyString end.

Definition name_suffix (name : option string) : string :=
  match name with Some n => " (" +:+ n +:+ ")" | None => EmptyString end.

Section commands.
Context `{SqlEngine, LimitsJson, CgroupBase, Codec GuestMessage}.
Context (root : path) (fs : project_fs) (unix_now : Z) (layer_bytes : node -> Z).
Context (lookup_layer : layer_ref -> world -> node) (lookup_base : path -> option node).
Context (str_debug : string -> string) (to_string_pretty : list DiffEntry -> result string string).
(** The guest's socket, as the outside has it when an exec connects; the client
    of the MCP server, and what a call of it that is cut off leaves. *)
Context (so : socket) (client : transport) (late : tool_call -> world -> option world).
Context (lock_held : path -> bool) (others : Sandbox -> world -> world).

Definition banner (call_timeout : Z) (max_sandboxes : nat) : string :=
  "sbx: MCP server on stdio (max " +:+ pretty max_sandboxes +:+ " sandboxes, " +:+ pretty call_timeout
  +:+ "s call timeout)".

Definition env_of (pairs : list string) : ST term Error (list (string * string)) :=
  st_lift (map_err InvalidSpec (parse_env str_debug pairs)).

Fixpoint print_lines (lines : list string) : ST term Error unit :=
  match lines with
  | [] => st_ret tt
  | line :: lines' => do! _ := println line in print_lines lines'
  end.

(** A command ends with its exit status. *)
Definition dispatch (cmd : command) : ST term Error Z :=
  match cmd with
  | RunCmd project_dir name memory_max cpu_millis pids_max network env insecure_host_proc =>
      do! env := env_of env in
      do! sb := on_world (spawn root fs unix_now
        (spec_of project_dir name memory_max cpu_millis pids_max network env insecure_host_proc)) in
      do! _ := eprintln ("sandbox " +:+ sb_id sb +:+ name_suffix (sb_name sb) +:+ " is ready") in
      do! _ := println (sb_id sb) in
      st_ret 0
  | ExecCmd sandbox cwd timeout env argv =>
      do! env := env_of env in
      do! sb := on_world (reg (get_sandbox sandbox)) in
      do! sent := on_world (exec so (sb_id sb) (mkExecRequest argv env cwd (cli_timeout_ms timeout))) in
      let '(code, out, err) := cli_exec sent.2 in
      do! _ := write_out out in
      do! _ := write_err err in
      st_ret code
  | DestroyCmd sandbox =>
      do! found := st_try (on_world (reg (get_sandbox sandbox))) in
      do! id := st_lift (match found with
                         | Ok sb => Ok (sb_id sb)
                         | Err (NotFound _ _) => Ok sandbox
                         | Err e => Err e
                         end) in
      do! _ := on_world (destroy id) in
      do! _ := eprintln ("sandbox " +:+ id +:+ " destroyed") in
      st_ret 0
  | SnapshotCmd sandbox name =>
      do! sb := on_world (reg (get_sandbox sandbox)) in
      do! snap := on_world (snapshot root unix_now layer_bytes (sb_id sb) name) in
      do! _ := eprintln ("snapshot " +:+ snap +:+ " (" +:+ name +:+ ") captured from " +:+ sb_id sb) in
      do! _ := println snap in
      st_ret 0
  | RestoreCmd snapshot name =>
      do! snap := on_world (reg (get_snapshot snapshot)) in
      do! sb := on_world (restore root fs unix_now (sn_id snap) name) in
      do! _ := eprintln ("restored snapshot " +:+ sn_id snap +:+ " into sandbox " +:+ sb_id sb
        +:+ name_suffix (sb_name sb)) in
      do! _ := println (sb_id sb) in
      st_ret 0
  | DiffCmd target json =>
      do! entries := on_world (Mcp.diff lookup_layer lookup_base target) in
      do! _ :=
        if json then
          do! text := st_lift (map_err (fun e => Error_io "serialize diff" (Io.other e)) (to_string_pretty entries)) in
          println text
        else if decide (entries = []) then eprintln "no changes against the base image"
        else print_lines (diff_line <$> entries) in
      st_ret 0
  | McpCmd call_timeout max_sandboxes =>
      do! _ := eprintln (banner call_timeout max_sandboxes) in
      do! _ := serve root fs unix_now layer_bytes lookup_layer lookup_base lock_held others late
        (mkMcpConfig call_timeout max_sandboxes) client in
      st_ret 0
  end.

(** [run]: the registry, the self-healing that never fails a command, and the
    command; [opened] is what [Registry::open] answers. *)
Definition run (opened : result Error unit) (cmd : command) : term -> Z * term := fun t =>
  match opened with
  | Err e => (EXIT_INTERNAL, (@eprintln Error ("sbx: cannot open registry: " +:+ Error_fmt e) t).2)
  | Ok _ =>
      match (do! _ := heal lock_held others in dispatch cmd) t with
      | (Ok code, t') => (code, t')
      | (Err e, t') => (EXIT_INTERNAL, (@eprintln Error ("sbx: error: " +:+ Error_fmt e) t').2)
      end
  end.

(** ** What a command tells its caller *)

(** The end of a run, as the caller sees it: the status and a line of stderr. *)
Inductive ending : ExecEvent -> Z -> list byte -> Prop :=
  | end_code c signal : ending (Exited (Some c) signal) c []
  | end_signal n : ending (Exited None (Some n)) (i32_wrap (128 + n)) []
  | end_neither : ending (Exited None None) 125 []
  | end_timeout m : ending (Failed "timeout" m) 124 (say ("sbx: exec failed (timeout): " +:+ m))
  | end_spawn m : ending (Failed "spawn-failed" m) 127 (say ("sbx: exec failed (spawn-failed): " +:+ m))
  | end_other kind m : kind <> "timeout"%string -> kind <> "spawn-failed"%string ->
      ending (Failed kind m) 125 (say ("sbx: exec failed (" +:+ kind +:+ "): " +:+ m)).

(** The events of an exec, passed on. *)
Inductive passed_on : list ExecEvent -> Z -> list byte -> list byte -> Prop :=
  | passed body last rest code line : Forall (fun e => terminal e = false) body -> ending last code line ->
      passed_on (body ++ last :: rest) code (stdout_of body) (stderr_of body ++ line)
  | passed_cut body : Forall (fun e => terminal e = false) body ->
      passed_on body 125 (stdout_of body) (stderr_of body ++ say "sbx: exec stream ended unexpectedly").

(** A command that did its work: the status, what it wrote to stdout and to
    stderr, and the world it left. *)
Inductive completes : command -> world -> Z -> list byte -> list byte -> world -> Prop :=
  | completes_run project_dir name memory_max cpu_millis pids_max network pairs insecure_host_proc env w sb w' :
      parse_env str_debug pairs = Ok env ->
      spawn root fs unix_now (mkSpec name project_dir None (mkLimits cpu_millis memory_max pids_max None None)
        env network insecure_host_proc) w = (Ok sb, w') ->
      completes (RunCmd project_dir name memory_max cpu_millis pids_max network pairs insecure_host_proc) w
        0 (say (sb_id sb)) (say ("sandbox " +:+ sb_id sb +:+ name_suffix (sb_name sb) +:+ " is ready")) w'
  | completes_exec sandbox cwd timeout pairs argv env w sb w1 msg events w' code out err :
      parse_env str_debug pairs = Ok env -> reg (get_sandbox sandbox) w = (Ok sb, w1) ->
      exec so (sb_id sb) (mkExecRequest argv env cwd (cli_timeout_ms timeout)) w1 = (Ok (msg, events), w') ->
      passed_on events code out err ->
      completes (ExecCmd sandbox cwd timeout pairs argv) w code out err w'
  | completes_destroy sandbox w x w1 id w' : reg (get_sandbox sandbox) w = (x, w1) ->
      (exists sb, x = Ok sb /\ id = sb_id sb) \/ (exists k i, x = Err (NotFound k i)) /\ id = sandbox ->
      destroy id w1 = (Ok tt, w') ->
      completes (DestroyCmd sandbox) w 0 [] (say ("sandbox " +:+ id +:+ " destroyed")) w'
  | completes_snapshot sandbox name w sb w1 snap w' : reg (get_sandbox sandbox) w = (Ok sb, w1) ->
      snapshot root unix_now layer_bytes (sb_id sb) name w1 = (Ok snap, w') ->
      completes (SnapshotCmd sandbox name) w 0 (say snap)
        (say ("snapshot " +:+ snap +:+ " (" +:+ name +:+ ") captured from " +:+ sb_id sb)) w'
  | completes_restore snapshot name w snap w1 sb w' : reg (get_snapshot snapshot) w = (Ok snap, w1) ->
      restore root fs unix_now (sn_id snap) name w1 = (Ok sb, w') ->
      completes (RestoreCmd snapshot name) w 0 (say (sb_id sb))
        (say ("restored snapshot " +:+ sn_id snap +:+ " into sandbox " +:+ sb_id sb +:+ name_suffix (sb_name sb))) w'
  | completes_json target w entries text w' : Mcp.diff lookup_layer lookup_base target w = (Ok entries, w') ->
      to_string_pretty entries = Ok text -> completes (DiffCmd target true) w 0 (say text) [] w'
  | completes_same target w w' : Mcp.diff lookup_layer lookup_base target w = (Ok [], w') ->
      completes (DiffCmd target false) w 0 [] (say "no changes against the base image") w'
  | completes_diff target w entries w' : Mcp.diff lookup_layer lookup_base target w = (Ok entries, w') -> entries <> [] ->
      completes (DiffCmd target false) w 0 (concat ((fun e => say (diff_line e)) <$> entries)) [] w'.

(** From one process to another state of it: the world, and more output. *)
Definition wrote (t : term) (w' : world) (out err : list byte) : term := mkTerm w' (t_out t ++ out) (t_err t ++ err).

Lemma wrote_more t w out err out' err' w' :
  wrote (wrote t w out err) w' out' err' = wrote t w' (out ++ out') (err ++ err').
Proof. unfold wrote. simpl. by rewrite <- !(assoc_L (++)). Qed.

Lemma wrote_nothing t : wrote t (t_world t) [] [] = t.
Proof. unfold wrote. rewrite !app_nil_r. by destruct t. Qed.

Lemma on_world_inv {E A} (m : ST world E A) t r t' : on_world m t = (r, t') -> exists w',
  m (t_world t) = (r, w') /\ t' = wrote t w' [] [].
Proof. unfold on_world, wrote. destruct (m (t_world t)) as [x w']. intros [= <- <-]. rewrite !app_nil_r. eauto. Qed.

Lemma print_lines_run lines : forall t,
  print_lines lines t = (Ok tt, wrote t (t_world t) (concat (say <$> lines)) []).
Proof.
  induction lines as [|line lines IH]; intros t; cbn [print_lines].
  - unfold st_ret. by rewrite wrote_nothing.
  - unfold st_bind, println, write_out. rewrite IH. unfold wrote. simpl. by rewrite <- (assoc_L (++)).
Qed.

Lemma exited_ending code signal : ending (Exited code signal) (exit_status code signal) [].
Proof. destruct code; [constructor|]. destruct signal; constructor. Qed.

Lemma failed_ending kind m :
  ending (Failed kind m) (failed_status kind) (say ("sbx: exec failed (" +:+ kind +:+ "): " +:+ m)).
Proof.
  unfold failed_status. destruct (decide (kind = "timeout"%string)) as [->|Ht]; [constructor|].
  destruct (decide (kind = "spawn-failed"%string)) as [->|Hs]; [constructor|by constructor].
Qed.

Lemma cli_loop_passed events : forall o e code out err, cli_loop events o e = (code, out, err) ->
  match code with
  | None => Forall (fun e => terminal e = false) events /\ out = o ++ stdout_of events /\ err = e ++ stderr_of events
  | Some c => exists body last rest line, events = body ++ last :: rest /\
      Forall (fun e => terminal e = false) body /\ ending last c line /\
      out = o ++ stdout_of body /\ err = e ++ stderr_of body ++ line
  end.
Proof.
  unfold stdout_of, stderr_of.
  induction events as [|ev events IH]; intros o e code out err; cbn [cli_loop].
  { intros [= <- <- <-]. cbn. rewrite !app_nil_r. split_and!; [constructor|done..]. }
  assert (forall o' e' d d', terminal ev = false -> o' = o ++ d -> e' = e ++ d' ->
    (match ev with EStdout d => d | _ => [] end) = d -> (match ev with EStderr d => d | _ => [] end) = d' ->
    cli_loop events o' e' = (code, out, err) -> match code with
    | None => Forall (fun e => terminal e = false) (ev :: events) /\
        out = o ++ concat ((fun e => match e with EStdout d => d | _ => [] end) <$> ev :: events) /\
        err = e ++ concat ((fun e => match e with EStderr d => d | _ => [] end) <$> ev :: events)
    | Some c => exists body last rest line, ev :: events = body ++ last :: rest /\
        Forall (fun e => terminal e = false) body /\ ending last c line /\
        out = o ++ concat ((fun e => match e with EStdout d => d | _ => [] end) <$> body) /\
        err = e ++ concat ((fun e => match e with EStderr d => d | _ => [] end) <$> body) ++ line
    end) as Hgo.
  { intros o' e' d d' Ht -> -> Hd Hd' E. apply IH in E. destruct code as [c|].
    - destruct E as (body & last & rest & line & -> & Hb & Hl & -> & ->).
      exists (ev :: body), last, rest, line. rewrite !fmap_cons. cbn [concat]. rewrite Hd, Hd', <- !(assoc_L (++)).
      split_and!; [done|by constructor|done..].
    - destruct E as (Hf & -> & ->). rewrite !fmap_cons. cbn [concat]. rewrite Hd, Hd', <- !(assoc_L (++)).
      split_and!; [by constructor|done..]. }
  destruct ev as [pid|d|d|c s|k m].
  - by apply (Hgo _ _ [] []); rewrite ?app_nil_r.
  - by apply (Hgo _ _ d []); rewrite ?app_nil_r.
  - by apply (Hgo _ _ [] d); rewrite ?app_nil_r.
  - intros [= <- <- <-]. exists [], (Exited c s), events, []. cbn. rewrite !app_nil_r.
    split_and!; [done|constructor|apply exited_ending|done..].
  - intros [= <- <- <-]. eexists [], (Failed k m), events, _. cbn. rewrite app_nil_r.
    split_and!; [done|constructor|apply failed_ending|done|done].
Qed.

Lemma cli_exec_passed events code out err : cli_exec events = (code, out, err) -> passed_on events code out err.
Proof.
  unfold cli_exec. destruct (cli_loop events [] []) as [[[c|] o] e] eqn:E; apply cli_loop_passed in E; intros [= <- <- <-].
  - destruct E as (body & last & rest & line & -> & Hb & Hl & -> & ->). by constructor.
  - destruct E as (Hf & -> & ->). by constructor.
Qed.

(** What a command that failed wrote: nothing, unless it is mcp. *)
Definition silent (t t' : term) : Prop := t_out t' = t_out t /\ t_err t' = t_err t.

Lemma on_world_bind_inv {A A'} (m : B A) (k : A -> ST term Error A') t r t' :
  st_bind (on_world m) k t = (r, t') ->
  (exists e, r = Err e /\ silent t t') \/
  exists a w1, m (t_world t) = (Ok a, w1) /\ k a (wrote t w1 [] []) = (r, t').
Proof.
  intros [(e & (w' & _ & ->)%on_world_inv & ->)|(a & t1 & (w1 & E & ->)%on_world_inv & Ek)]%st_bind_inv.
  - left. exists e. split; [done|]. unfold silent, wrote. simpl. by rewrite !app_nil_r.
  - right. by exists a, w1.
Qed.

Lemma lift_bind_inv {A A'} (x : result Error A) (k : A -> ST term Error A') t r t' :
  st_bind (st_lift x) k t = (r, t') -> (exists e, r = Err e /\ silent t t') \/ exists a, x = Ok a /\ k a t = (r, t').
Proof.
  intros [(e & [= -> ->] & ->)|(a & t1 & [= -> <-] & Ek)]%st_bind_inv; [left; by exists e|right; by exists a].
Qed.

(** Past the last call that can fail. *)
Definition finishes (cmd : command) (t : term) (r : result Error Z) (t' : term) : Prop :=
  (exists e, r = Err e /\ silent t t') \/
  exists code w' out err, r = Ok code /\ completes cmd (t_world t) code out err w' /\ t' = wrote t w' out err.

Lemma env_of_Ok pairs env : map_err InvalidSpec (parse_env str_debug pairs) = Ok env ->
  parse_env str_debug pairs = Ok env.
Proof. by destruct (parse_env str_debug pairs); intros [= <-]. Qed.

(** A call, which may be the last. *)
Lemma finishes_world {A} cmd t0 w (m : B A) (k : A -> ST term Error Z) r t' :
  st_bind (on_world m) k (wrote t0 w [] []) = (r, t') ->
  (forall a w', m w = (Ok a, w') -> k a (wrote t0 w' [] []) = (r, t') -> finishes cmd t0 r t') ->
  finishes cmd t0 r t'.
Proof.
  intros [(e & -> & Ho & He)|(a & w1 & E & Ek)]%on_world_bind_inv Hk.
  - left. exists e. split; [done|]. unfold silent, wrote in *. simpl in *. by rewrite !app_nil_r in *.
  - rewrite wrote_more in Ek. by apply (Hk _ _ E).
Qed.

Lemma finishes_lift {A} cmd t0 w (x : result Error A) (k : A -> ST term Error Z) r t' :
  st_bind (st_lift x) k (wrote t0 w [] []) = (r, t') ->
  (forall a, x = Ok a -> k a (wrote t0 w [] []) = (r, t') -> finishes cmd t0 r t') -> finishes cmd t0 r t'.
Proof.
  intros [(e & -> & Ho & He)|(a & E & Ek)]%lift_bind_inv Hk; [|by apply (Hk _ E)].
  left. exists e. split; [done|]. unfold silent, wrote in *. simpl in *. by rewrite !app_nil_r in *.
Qed.

(** The last prints. *)
Lemma finishes_prints cmd t0 w' code out err r t' : (r, t') = (Ok code, wrote t0 w' out err) ->
  completes cmd (t_world t0) code out err w' -> finishes cmd t0 r t'.
Proof. intros [= -> ->] Hc. right. by exists code, w', out, err. Qed.

(** [run], [snapshot] and [restore] end like this. *)
Lemma print_both t0 w line id : (do! _ := eprintln line in do! _ := println id in @st_ret _ Error _ 0) (wrote t0 w [] [])
  = (Ok 0, wrote t0 w (say id) (say line)).
Proof. unfold st_bind, eprintln, println, write_out, write_err, st_ret, wrote. simpl. by rewrite !app_nil_r. Qed.

Lemma print_one t0 w line : (do! _ := eprintln line in @st_ret _ Error _ 0) (wrote t0 w [] [])
  = (Ok 0, wrote t0 w [] (say line)).
Proof. unfold st_bind, eprintln, write_err, st_ret, wrote. simpl. by rewrite !app_nil_r. Qed.

Lemma print_diff (json : bool) target t0 w0 w entries r t' : w0 = t_world t0 ->
  Mcp.diff lookup_layer lookup_base target w0 = (Ok entries, w) ->
  (do! _ :=
     if json then
       do! text := st_lift (map_err (fun e => Error_io "serialize diff" (Io.other e)) (to_string_pretty entries)) in
       println text
     else if decide (entries = []) then eprintln "no changes against the base image"
     else print_lines (diff_line <$> entries) in
   st_ret 0) (wrote t0 w [] []) = (r, t') -> finishes (DiffCmd target json) t0 r t'.
Proof.
  intros -> Hd. destruct json; [|case_decide as Hne].
  - unfold st_bind at 1. destruct (to_string_pretty entries) as [text|e] eqn:Ht; intros E.
    + apply (finishes_prints _ _ w 0 (say text) []); [|by apply completes_json with entries].
      rewrite <- E. unfold st_bind, st_lift, println, write_out, st_ret, wrote. simpl. by rewrite !app_nil_r.
    + injection E as <- <-. left. eexists. split; [done|]. unfold silent, wrote. simpl. by rewrite !app_nil_r.
  - subst entries. intros E. eapply finishes_prints; [|by apply completes_same]. rewrite <- E. apply print_one.
  - unfold st_bind at 1. rewrite print_lines_run, wrote_more. intros E.
    eapply finishes_prints; [|by apply completes_diff]. rewrite <- E, <- list_fmap_compose. by rewrite app_nil_r.
Qed.

Lemma print_exec t0 w sandbox cwd timeout pairs argv events r t' :
  (let '(code, out, err) := cli_exec events in
   do! _ := write_out out in do! _ := write_err err in @st_ret _ Error _ code) (wrote t0 w [] []) = (r, t') ->
  (forall code out err, passed_on events code out err ->
     completes (ExecCmd sandbox cwd timeout pairs argv) (t_world t0) code out err w) ->
  finishes (ExecCmd sandbox cwd timeout pairs argv) t0 r t'.
Proof.
  destruct (cli_exec events) as [[code out] err] eqn:Hc. intros E Hdone. apply cli_exec_passed in Hc.
  apply (finishes_prints _ _ w code out err); [|by apply Hdone]. rewrite <- E.
  unfold st_bind, write_out, write_err, st_ret, wrote. simpl. by rewrite !app_nil_r.
Qed.

Lemma dispatch_finishes cmd t r t' : (forall n m, cmd <> McpCmd n m) -> dispatch cmd t = (r, t') ->
  finishes cmd t r t'.
Proof.
  intros Hcmd. rewrite <- (wrote_nothing t) at 1.
  destruct cmd as [dir name mem cpu pids net pairs ins|sandbox cwd timeout pairs argv|sandbox name|snap name
    |target json|sandbox|n m]; cbn [dispatch]; intros E; [..|by destruct (Hcmd n m)].
  - apply (finishes_lift _ _ _ _ _ _ _ E). intros env Henv%env_of_Ok E1.
    apply (finishes_world _ _ _ _ _ _ _ E1). intros sb w' Hsb E2. rewrite print_both in E2.
    eapply finishes_prints; [by rewrite <- E2|]. by apply completes_run with env.
  - apply (finishes_lift _ _ _ _ _ _ _ E). intros env Henv%env_of_Ok E1.
    apply (finishes_world _ _ _ _ _ _ _ E1). intros sb w1 Hsb E2.
    apply (finishes_world _ _ _ _ _ _ _ E2). intros [msg events] w' Hex E3.
    apply (print_exec _ _ _ _ _ _ _ _ _ _ E3). intros. by eapply completes_exec.
  - apply (finishes_world _ _ _ _ _ _ _ E). intros sb w1 Hsb E1.
    apply (finishes_world _ _ _ _ _ _ _ E1). intros sid w' Hsnap E2. rewrite print_both in E2.
    eapply finishes_prints; [by rewrite <- E2|]. by eapply completes_snapshot.
  - apply (finishes_world _ _ _ _ _ _ _ E). intros sn w1 Hsn E1.
    apply (finishes_world _ _ _ _ _ _ _ E1). intros sb w' Hsb E2. rewrite print_both in E2.
    eapply finishes_prints; [by rewrite <- E2|]. by eapply completes_restore.
  - apply (finishes_world _ _ _ _ _ _ _ E). intros entries w' Hd E1. by eapply print_diff.
  - unfold st_bind at 1, st_try in E. destruct (on_world _ _) as [found t1] eqn:E0.
    apply on_world_inv in E0 as (w1 & Hg & ->). rewrite wrote_more in E.
    apply (finishes_lift _ _ _ _ _ _ _ E). intros id Hid E1.
    apply (finishes_world _ _ _ _ _ _ _ E1). intros [] w' Hd E2. rewrite print_one in E2.
    eapply finishes_prints; [by rewrite <- E2|]. eapply completes_destroy; [exact Hg| |exact Hd].
    destruct found as [sb|[]]; try discriminate Hid; injection Hid as <-; [left|right]; by repeat eexists.
Qed.

(** *** The other way round: work that can be done is done *)

Lemma on_world_Ok {A A'} (m : B A) (k : A -> ST term Error A') t w a w1 : m w = (Ok a, w1) ->
  st_bind (on_world m) k (wrote t w [] []) = k a (wrote t w1 [] []).
Proof. intros E. unfold st_bind, on_world, wrote. simpl. by rewrite E. Qed.

Lemma env_of_run {A} pairs env (k : _ -> ST term Error A) t : parse_env str_debug pairs = Ok env ->
  st_bind (env_of pairs) k t = k env t.
Proof. intros E. unfold st_bind, env_of, st_lift. by rewrite E. Qed.

Lemma ending_status last code line : ending last code line ->
  match last with
  | Exited c signal => code = exit_status c signal /\ line = []
  | Failed kind m => code = failed_status kind /\ line = say ("sbx: exec failed (" +:+ kind +:+ "): " +:+ m)
  | _ => False
  end.
Proof. intros []; try done. unfold failed_status. by rewrite !decide_False. Qed.

Lemma passed_on_cli_exec events code out err : passed_on events code out err -> cli_exec events = (code, out, err).
Proof.
  intros [body last rest c line Hb Hend%ending_status|body Hb]; unfold cli_exec.
  - rewrite cli_loop_body by done. destruct last; try done; simpl; destruct Hend as [-> ->]; by rewrite ?app_nil_r.
  - rewrite <- (app_nil_r body) at 1. by rewrite cli_loop_body by done.
Qed.

Lemma dispatch_completes cmd t code out err w' : completes cmd (t_world t) code out err w' ->
  dispatch cmd t = (Ok code, wrote t w' out err).
Proof.
  rewrite <- (wrote_nothing t) at 2. remember (t_world t) as w eqn:Hw. clear Hw.
  intros [| |sandbox w0 x w1 id w2 Hg Hid Hd| | |target w0 entries text w1 Hd Ht| |]; cbn [dispatch].
  - erewrite env_of_run, on_world_Ok by done. apply print_both.
  - erewrite env_of_run, !on_world_Ok by done. cbn [snd]. erewrite passed_on_cli_exec by done.
    unfold st_bind, write_out, write_err, st_ret, wrote. simpl. by rewrite !app_nil_r.
  - unfold st_bind at 1, st_try, on_world at 1, wrote at 1. cbn [t_world]. rewrite Hg.
    match goal with |- context [st_lift ?x] => replace x with (@Ok Error _ id)
      by (destruct Hid as [(sb & -> & ->)|[(k & i & ->) ->]]; done) end.
    unfold st_bind at 1, st_lift.
    change (mkTerm w1 _ _) with (wrote t w1 [] []). erewrite on_world_Ok by done. apply print_one.
  - erewrite !on_world_Ok by done. apply print_both.
  - erewrite !on_world_Ok by done. apply print_both.
  - erewrite on_world_Ok by done. unfold st_bind, st_lift. rewrite Ht. simpl.
    unfold println, write_out, wrote. simpl. by rewrite !app_nil_r.
  - erewrite on_world_Ok by done. apply print_one.
  - erewrite on_world_Ok by done. rewrite decide_False by done.
    unfold st_bind. rewrite print_lines_run, wrote_more. by rewrite <- list_fmap_compose, app_nil_r.
Qed.

(** *** mcp *)

Lemma session_prints config frame calls : forall t, exists t' replies,
  session root fs unix_now layer_bytes lookup_layer lookup_base late config frame calls t = (Ok tt, t') /\
  length replies = length calls /\ t_out t' = t_out t ++ concat (frame <$> replies) /\ t_err t' = t_err t.
Proof.
  induction calls as [|c calls IH]; intros t; cbn [session].
  { exists t, []. split_and!; [done|done|by rewrite app_nil_r|done]. }
  unfold st_bind at 1, on_world. destruct (call_tool _ _ _ _ _ _ _ _ c (t_world t)) as [r w1].
  unfold st_bind, write_out. cbn [t_world t_out t_err].
  destruct (IH (mkTerm w1 (t_out t ++ frame r) (t_err t))) as (t' & rs & E & Hl & Ho & He).
  exists t', (r :: rs). split; [exact E|]. split; [simpl; congruence|]. split; [|exact He].
  rewrite Ho, fmap_cons. cbn [concat t_out]. by rewrite (assoc_L (++)).
Qed.

Lemma serve_writes config t : exists text t' replies,
  serve root fs unix_now layer_bytes lookup_layer lookup_base lock_held others late config client t
  = (match tr_start client with Some e => Err (mcp_error e) | None => ended (tr_end client) end, t') /\
  t_err t' = t_err t ++ text /\ t_out t' = t_out t ++ tr_hello client ++ concat (tr_frame client <$> replies) /\
  match tr_start client with Some _ => replies = [] | None => length replies = length (tr_calls client) end.
Proof.
  destruct (heal_writes lock_held others t) as (text & t2 & Eh & Ho2 & He2 & _).
  set (t3 := mkTerm (t_world t2) (t_out t2 ++ tr_hello client) (t_err t2)).
  assert (greet lock_held others client t = (Ok tt, t3)) as Eg by (unfold greet, st_bind; by rewrite Eh).
  unfold serve. unfold st_bind at 1. rewrite Eg. exists text. unfold st_bind at 1.
  destruct (tr_start client) as [e|]; cbn [ended st_lift].
  - exists t3, []. simpl. by rewrite Ho2, app_nil_r.
  - destruct (session_prints config (tr_frame client) (tr_calls client) t3) as (t4 & rs & E & Hl & Ho & He).
    unfold st_bind. rewrite E. exists t4, rs. split; [done|]. rewrite He, Ho. simpl. rewrite Ho2.
    by rewrite (assoc_L (++)).
Qed.

(** The server writes its banner and what the self-healing says to stderr, and
    to stdout the handshake and one framed reply for each call it took. *)
Lemma mcp_writes n m t r t' : dispatch (McpCmd n m) t = (r, t') -> exists text replies,
  t_err t' = t_err t ++ say (banner n m) ++ text /\
  t_out t' = t_out t ++ tr_hello client ++ concat (tr_frame client <$> replies) /\
  match tr_start client, tr_end client with
  | Some e, _ => r = Err (mcp_error e) /\ replies = []
  | None, Some e => r = Err (mcp_error e) /\ length replies = length (tr_calls client)
  | None, None => r = Ok 0 /\ length replies = length (tr_calls client)
  end.
Proof.
  intros E. cbn [dispatch] in E. unfold st_bind at 1 in E. unfold eprintln at 1, write_err in E.
  set (t1 := mkTerm (t_world t) (t_out t) (t_err t ++ say (banner n m))) in E.
  destruct (serve_writes (mkMcpConfig n m) t1) as (text & t2 & rs & Es & He & Ho & Hl).
  unfold st_bind in E. rewrite Es in E. exists text, rs.
  assert (t' = t2 /\ r = match tr_start client, tr_end client with
    | Some e, _ | None, Some e => Err (mcp_error e) | None, None => Ok 0 end) as [-> ->].
  { destruct (tr_start client), (tr_end client); injection E as <- <-; by split. }
  rewrite He, Ho. cbn. split; [by rewrite (assoc_L (++))|]. split; [done|].
  destruct (tr_start client), (tr_end client); by split.
Qed.


End commands.

Module Witness.

#[local] Existing Instance RegistrySpec.Witness.json.
#[local] Existing Instance RegistrySpec.Witness.in_order.
#[local] Existing Instance Exec.Witness.small_codec.
#[local] Existing Instance BackendSpec.Witness.base.

Definition no_tree : layer_ref -> world -> node := fun _ _ => empty_layer.

Definition nobody : transport := mkTransport [] (Some "closed"%string) [] (fun _ => []) None.

Definition ran (cmd : command) : Z * term :=
  run "/s" (mkProjectFs (fun p => Ok p) (fun _ => true)) 0 (fun _ => 0) no_tree
    (fun _ => None) (fun s => s) (fun _ => Err EmptyString) Exec.Witness.good_socket nobody (fun _ _ => None)
    (fun _ => false) (fun _ w => w) (Ok tt) cmd (mkTerm Exec.Witness.one_world [] []).


Definition destroyed := ran (DestroyCmd "nobody").

(** An unknown name is not an error. *)
Example destroyed_unknown : destroyed.1 = 0 /\ t_out destroyed.2 = [].
Proof. by vm_compute. Qed.

End Witness.
