(* ===== verification/UnitTests.v ===== *)
(** * The repository's unit tests, run on the model

    Every [#[test]] inside the source files, assertion by assertion, as a
    program over the definitions that model what it calls.  That each of them
    passes is checked by evaluation, except where the inputs are megabytes
    (proved) and where a codec is involved (proved for every codec).  The
    integration tests of draug-ns/tests need a real kernel and have no
    counterpart here. *)

From S2P Require Import Prelude Text Types FsTree Proto Registry Diff FsCopy Output Uidmap Cgroup Backend Mcp.
From S2P Require RegistrySpec FsCopySpec.

(** ** Assertions *)

Definition test := result string unit.

(** [assert!] *)
Definition check (what : string) (b : bool) : test := if b then Ok tt else Err what.

(** [assert_eq!] *)
Notation check_eq what a b := (check what (bool_decide (a = b))).

(** [unwrap] *)
Definition unwrap {E A} (r : result E A) : result string A := map_err (fun _ => "unwrap"%string) r.
Definition unwrap_opt {A} (o : option A) : result string A :=
  match o with Some a => Ok a | None => Err "unwrap"%string end.

Definition passes (t : test) : Prop := t = Ok tt.

(** ** draug-cli/src/mcp.rs *)
Module mcp.

Definition text (s : string) : list byte := bytes_of_string s.
Definition nl : string := String "010" EmptyString.
Definition includes (needle : string) (s : list byte) : bool := contains needle (string_of_bytes s).

Definition short_output_is_verbatim : test :=
  let s := text ("line1" +:+ nl +:+ "line2" +:+ nl +:+ "line3" +:+ nl) in
  check_eq "clamp" (clamp s) (Some s).

Definition numbered (i : nat) : list byte := text ("line" +:+ pretty (N.of_nat i) +:+ nl).

Definition long_output_keeps_head_and_tail_with_marker : test :=
  let input := concat (numbered <$> seq 1 500) in
  let? out := unwrap_opt (clamp input) in
  let lines := lines out in
  let half := N.to_nat (MAX_LINES / 2) in
  let? _ := check_eq "len" (len lines) (MAX_LINES + 1)%N in
  let? _ := check_eq "first" (lines !! 0%nat) (Some (text "line1")) in
  let? _ := check_eq "end of head" (lines !! (half - 1)%nat) (Some (text "line100")) in
  let? _ := check_eq "marker" (lines !! half) (Some (text "[... 300 lines omitted ...]")) in
  let? _ := check_eq "start of tail" (lines !! (half + 1)%nat) (Some (text "line401")) in
  check_eq "last" (last lines) (Some (text "line500")).

(** [repeat] *)
Definition repeated (n : N) (b : byte) : list byte := replicate (N.to_nat n) b.

Definition one_enormous_line_is_byte_capped :=
  let? out := unwrap_opt (clamp (repeated (MAX_BYTES * 3) Byte.x78)) in
  let? _ := check "not byte-capped" (len out <? MAX_BYTES + 128)%N in
  check "marker" (includes "bytes omitted" out).

Definition invalid_utf8_does_not_panic : test :=
  let? out := unwrap_opt (clamp [Byte.xff; Byte.xfe; Byte.x68; Byte.x69; Byte.xff]) in
  check "text" (includes "hi" out).

Definition capture_stops_but_marker_shows_truncation : test :=
  let chunk := repeated MAX_CAPTURE Byte.x61 in
  check_eq "len" (len (push_capped (push_capped [] chunk) chunk)) MAX_CAPTURE.

Definition error_object_is_structured_and_actionable : test :=
  match error_object (NotFound RSandbox "ghost") with
  | StructuredError (Obj v) =>
      let? _ := check "error" (match field "error" v with
                               | Some (Str s) => bool_decide (s = "not_found"%string) | _ => false end) in
      let? _ := check "retriable" (match field "retriable" v with Some (Bool b) => negb b | _ => false end) in
      let? _ := check "hint" (match field "hint" v with Some (Str s) => contains "sandbox_list" s | _ => false end) in
      check "message" (match field "message" v with Some (Str s) => contains "ghost" s | _ => false end)
  | _ => Err "is_error"%string
  end.

Example mcp_tests : Forall passes [short_output_is_verbatim; long_output_keeps_head_and_tail_with_marker;
  invalid_utf8_does_not_panic; error_object_is_structured_and_actionable].
Proof. by repeat constructor; vm_compute. Qed.

Example enormous_line : passes one_enormous_line_is_byte_capped.
Proof. by vm_compute. Qed.

Lemma len_repeated n b : len (repeated n b) = n.
Proof. unfold len, repeated. rewrite length_replicate. lia. Qed.

Lemma push_twice c : len c = MAX_CAPTURE -> len (push_capped (push_capped [] c) c) = MAX_CAPTURE.
Proof.
  intros Hc. rewrite (push_capped_take []) by done. rewrite push_capped_take by apply len_take_cap.
  unfold len in *. rewrite length_take, length_app, length_take, app_nil_l.
  generalize dependent MAX_CAPTURE. intros. lia.
Qed.

Example full_capture : passes capture_stops_but_marker_shows_truncation.
Proof.
  unfold capture_stops_but_marker_shows_truncation. pose proof (len_repeated MAX_CAPTURE Byte.x61) as Hl.
  revert Hl. generalize (repeated MAX_CAPTURE Byte.x61). intros c Hc.
  cbv zeta. unfold check. by rewrite bool_decide_true by (by apply push_twice).
Qed.

End mcp.

(** ** draug-ns/src/linux/uidmap.rs *)
Module uidmap.

Definition content : string :=
  "# comment" +:+ mcp.nl +:+ mcp.nl +:+ "alice:100000:65536" +:+ mcp.nl +:+ "1001:200000:1000" +:+ mcp.nl.

Definition parses_by_name_and_uid : test :=
  let? _ := check_eq "by name" (parse_subid content "alice" 1000) (Some (100000, 65535)%N) in
  let? _ := check_eq "by uid" (parse_subid content "bob" 1001) (Some (200000, 1000)%N) in
  check_eq "neither" (parse_subid content "bob" 1002) None.

Definition malformed : string :=
  "broken" +:+ mcp.nl +:+ "alice:xyz:10" +:+ mcp.nl +:+ "alice:5000:0" +:+ mcp.nl +:+ "alice:5000:10" +:+ mcp.nl.

Definition skips_malformed_lines : test :=
  check_eq "last line" (parse_subid malformed "alice" 1) (Some (5000, 10)%N).

Example uidmap_tests : Forall passes [parses_by_name_and_uid; skips_malformed_lines].
Proof. by repeat constructor; vm_compute. Qed.

End uidmap.

(** ** draug-ns/src/linux/cgroup.rs *)
Module cgroup.

Definition finds_v2_line_in_hybrid_output : test :=
  let content := "7:pids:/x" +:+ mcp.nl +:+ "1:cpu:/" +:+ mcp.nl +:+
                 "0::/user.slice/user-1000.slice/session.scope" +:+ mcp.nl in
  let? _ := check_eq "v2 line" (parse_own_cgroup content)
              (Some "/user.slice/user-1000.slice/session.scope"%string) in
  check_eq "none" (parse_own_cgroup ("1:cpu:/" +:+ mcp.nl)) None.

Example cgroup_tests : passes finds_v2_line_in_hybrid_output.
Proof. by vm_compute. Qed.

End cgroup.

(** ** draug-core/src/registry.rs *)
Module registry.

#[local] Existing Instance RegistrySpec.Witness.json.
#[local] Existing Instance RegistrySpec.Witness.in_order.

Definition sample_sandbox (id : string) (name : option string) : Sandbox :=
  mkSandbox id name Creating "ns" "/images/base" (join "/run/draug" id) unlimited 1.

Definition assert (what : string) (b : bool) : ST db Error unit :=
  if b then st_ret tt else st_fail (Protocol what).

(** [matches!(r, Err(..))] *)
Definition already_exists {A} (r : result Error A) : bool :=
  match r with Err (AlreadyExists _ _) => true | _ => false end.
Definition not_found {A} (r : result Error A) : bool :=
  match r with Err (NotFound _ _) => true | _ => false end.

Definition sandbox_roundtrip : ST db Error unit :=
  do! _ := insert_sandbox (sample_sandbox "sb1" (Some "dev"%string)) in
  do! by_id := get_sandbox "sb1" in
  do! _ := assert "name" (bool_decide (sb_name by_id = Some "dev"%string)) in
  do! by_name := get_sandbox "dev" in
  do! _ := assert "id" (bool_decide (sb_id by_name = "sb1"%string)) in
  do! _ := update_sandbox_state "sb1" Ready in
  do! sb := get_sandbox "sb1" in
  do! _ := assert "state" (bool_decide (sb_state sb = Ready)) in
  do! r := st_try (insert_sandbox (sample_sandbox "sb1" None)) in
  do! _ := assert "duplicate" (already_exists r) in
  do! _ := remove_sandbox "sb1" in
  do! r := st_try (get_sandbox "sb1") in
  do! _ := assert "removed" (not_found r) in
  remove_sandbox "sb1".

Definition snap : SnapshotMeta :=
  mkSnapshot "sn1" (Some "sb1"%string) "before-tests" "/var/lib/draug/snapshots/sn1" "/images/base" 42 2.

Definition snapshot_roundtrip : ST db Error unit :=
  do! _ := insert_sandbox (sample_sandbox "sb1" None) in
  do! _ := insert_snapshot snap in
  do! got := get_snapshot "before-tests" in
  do! _ := assert "id" (bool_decide (sn_id got = "sn1"%string)) in
  do! _ := assert "rootfs" (bool_decide (sn_rootfs got = "/images/base"%string)) in
  do! _ := assert "size" (bool_decide (sn_size_bytes got = 42)) in
  do! l := list_snapshots (Some "sb1"%string) in
  do! _ := assert "listed" (bool_decide (length l = 1%nat)) in
  do! _ := remove_sandbox "sb1" in
  do! got := get_snapshot "sn1" in
  assert "orphaned" (bool_decide (sn_sandbox_id got = None)).

Example registry_tests :
  Forall (fun t => fst (t RegistrySpec.Witness.empty) = Ok tt) [sandbox_roundtrip; snapshot_roundtrip].
Proof. by repeat constructor; vm_compute. Qed.

End registry.

(** ** draug-ns/src/linux/diff.rs

    The directories the tests build are trees here; a run that may not create
    whiteouts or overlay attributes skips the test, which has no counterpart. *)
Module diff.

Definition file (contents : string) : node :=
  Node (mkInode (mkStat 33188 1000 1000 (Z.of_N (str_len contents)) 0) [] (bytes_of_string contents) None None) [].
Definition directory (kids : list (string * node)) : node :=
  Node (mkInode (mkStat 16877 1000 1000 4096 0) [] [] None None) kids.
Definition opaque_directory (kids : list (string * node)) : node :=
  Node (mkInode (mkStat 16877 1000 1000 4096 0) [("user.overlay.opaque"%string, [Byte.x79])] [] None None) kids.
Definition whiteout : node := Node (mkInode (mkStat 8192 1000 1000 0 0) [] [] None None) [].

Definition kinds (entries : list DiffEntry) : gmap string DiffKind :=
  list_to_map (rev ((fun e => (de_path e, de_kind e)) <$> entries)).

Definition base : node := directory
  [("keepdir", directory [("stable.txt", file "x")]);
   ("gonedir", directory [("nested", directory [("b.txt", file "b")]); ("a.txt", file "a")]);
   ("edit.txt", file "old")]%string.

Definition upper : node := directory
  [("edit.txt", file "brand new longer"); ("added.txt", file "hi"); ("gonedir", whiteout)]%string.

Definition added_modified_and_directory_whiteout : test :=
  let? entries := unwrap (diff_upper upper (Some base)) in
  let k := kinds entries in
  let? _ := check_eq "added" (k !! "added.txt"%string) (Some Added) in
  let? _ := check_eq "edited" (k !! "edit.txt"%string) (Some Modified) in
  let? _ := check_eq "directory" (k !! "gonedir"%string) (Some Deleted) in
  let? _ := check_eq "its file" (k !! "gonedir/a.txt"%string) (Some Deleted) in
  let? _ := check_eq "its directory" (k !! "gonedir/nested"%string) (Some Deleted) in
  let? _ := check_eq "below that" (k !! "gonedir/nested/b.txt"%string) (Some Deleted) in
  let? _ := check "unchanged" (bool_decide (k !! "keepdir"%string = None)) in
  let? _ := check "unchanged" (bool_decide (k !! "keepdir/stable.txt"%string = None)) in
  let? edit := unwrap_opt (find (fun e => bool_decide (de_path e = "edit.txt"%string)) entries) in
  check_eq "size" (de_size edit) (Some (Z.of_N (str_len "brand new longer"))).

Definition opaque_directory_shadows_base_children : test :=
  let base := directory [("d", directory [("old.txt", file "old"); ("keep.txt", file "keep")])]%string in
  let upper := directory [("d", opaque_directory [("new.txt", file "new"); ("keep.txt", file "keep2")])]%string in
  let? entries := unwrap (diff_upper upper (Some base)) in
  let k := kinds entries in
  let? _ := check_eq "new" (k !! "d/new.txt"%string) (Some Added) in
  let? _ := check_eq "kept" (k !! "d/keep.txt"%string) (Some Modified) in
  check_eq "old" (k !! "d/old.txt"%string) (Some Deleted).

Example diff_tests : Forall passes [added_modified_and_directory_whiteout; opaque_directory_shadows_base_children].
Proof. by repeat constructor; vm_compute. Qed.

End diff.

(** ** draug-ns/src/linux/fscopy.rs

    A copy by an unprivileged user of their own files, under umask 022, with a
    kernel that refuses nothing. *)
Module fscopy.

Definition own (mode size : Z) (data : string) (kids : list (string * node)) : node :=
  Node (mkInode (mkStat mode 1000 1000 size 0) [] (bytes_of_string data) None None) kids.
Definition file (perms : Z) (contents : string) : node :=
  own (Z.lor S_IFREG perms) (Z.of_N (str_len contents)) contents [].
Definition directory (perms : Z) (kids : list (string * node)) : node := own (Z.lor S_IFDIR perms) 4096 EmptyString kids.
Definition symlink (target : string) : node :=
  own (Z.lor S_IFLNK 511) (Z.of_N (str_len target)) target [].

(** [copy_tree(&src, &dst)] with no [dst] there: the copy and the bytes. *)
Definition copied_tree (src : node) : result string (node * N) :=
  match copy_tree FsCopySpec.Witness.drop_setid 18 1000 1000 src None (mkKernel [] [] [] [] 0) with
  | (Ok dst, k) => Ok (dst, k_bytes k)
  | (Err _, _) => Err "unwrap"%string
  end.

Definition at_path (n : node) (p : list string) : result string node := unwrap_opt (lookup_path n p).
Definition reads (n : node) (p : list string) (contents : string) : test :=
  let? f := at_path n p in check_eq "contents" (i_data (n_inode f)) (bytes_of_string contents).
Definition has_mode (n : node) (p : list string) (perms : Z) : test :=
  let? f := at_path n p in check_eq "mode" (Z.land (st_mode (n_stat f)) 511) perms.

Definition copies_files_symlinks_and_modes : test :=
  let src := directory 493 [("sub", directory 493 [("b.txt", file 420 "world!")]); ("link", symlink "a.txt");
                            ("a.txt", file 384 "hello")]%string in
  let? (dst, bytes) := copied_tree src in
  let? _ := check_eq "bytes" bytes 11%N in
  let? _ := reads dst ["a.txt"%string] "hello" in
  let? _ := reads dst ["sub"; "b.txt"]%string "world!" in
  let? _ := has_mode dst ["a.txt"%string] 384 in
  let? link := at_path dst ["link"%string] in
  let? _ := check "link" (is_lnk (n_stat link)) in
  reads dst ["link"%string] "a.txt".

Definition copies_whiteouts : test :=
  let? (dst, _) := copied_tree (directory 493 [("gone"%string, own S_IFCHR 0 EmptyString [])]) in
  let? copied := at_path dst ["gone"%string] in
  let? _ := check "char device" (is_char_device (n_stat copied)) in
  check_eq "rdev" (st_rdev (n_stat copied)) 0.

Definition preserves_directory_mode_and_nesting : test :=
  let c := directory 493 [("deep.txt"%string, file 420 "x")] in
  let? (dst, _) := copied_tree (directory 493 [("a", directory 493 [("b", directory 320 [("c", c)])])]%string) in
  let? _ := reads dst ["a"; "b"; "c"; "deep.txt"]%string "x" in
  has_mode dst ["a"; "b"]%string 320.

Example fscopy_tests :
  Forall passes [copies_files_symlinks_and_modes; copies_whiteouts; preserves_directory_mode_and_nesting].
Proof. by repeat constructor; vm_compute. Qed.

End fscopy.

(** ** draug-proto/src/lib.rs

    For every codec that can encode the two messages in frames that are not too
    large. *)
Module proto.

Section codecs.
Context `{CodecLaws HostMessage, CodecLaws GuestMessage}.

Definition request : HostMessage :=
  ExecRequestMsg ["echo"; "hi"]%string [("A", "b")]%string None false false (Some 1000).
Definition output : GuestMessage := Stdout (bytes_of_string ("hi" +:+ mcp.nl)).

Definition roundtrip : test :=
  let '(sent, w) := write_frame request (Writer [] None None) in
  let? _ := unwrap sent in
  let '(sent, w) := write_frame output w in
  let? _ := unwrap sent in
  let '(got, r) := read_frame (T := HostMessage) (Reader (wr_out w) None) in
  let? got := unwrap got in
  let? got := unwrap_opt got in
  let? _ := check "request" (match got with
                             | ExecRequestMsg argv _ _ _ _ _ => bool_decide (argv !! 0%nat = Some "echo"%string)
                             | Stdin _ => false
                             end) in
  let '(got, r) := read_frame (T := GuestMessage) r in
  let? got := unwrap got in
  let? got := unwrap_opt got in
  let? _ := check "output" (match got with
                            | Stdout data => bool_decide (data = bytes_of_string ("hi" +:+ mcp.nl))
                            | _ => false
                            end) in
  let '(got, _) := read_frame (T := GuestMessage) r in
  let? got := unwrap got in
  check "end" (match got with None => true | Some _ => false end).

(** [write_frame] into memory. *)
Lemma write_frame_memory {T} `{Codec T} (m : T) body out : to_vec m = Ok body -> (len body <= MAX_FRAME_LEN)%N ->
  write_frame m (Writer out None None) = (Ok tt, Writer (out ++ frame body) None None).
Proof.
  intros Hm Hl. unfold write_frame. rewrite Hm, decide_True by done. unfold write_all, frame. simpl.
  by rewrite <- (assoc_L (++)).
Qed.

Lemma roundtrip_passes b1 b2 : to_vec request = Ok b1 -> to_vec output = Ok b2 ->
  (len b1 <= MAX_FRAME_LEN)%N -> (len b2 <= MAX_FRAME_LEN)%N -> passes roundtrip.
Proof.
  intros Hb1 Hb2 Hl1 Hl2. unfold roundtrip.
  rewrite (write_frame_memory request b1 []) by done. cbn [unwrap map_err].
  rewrite (write_frame_memory output b2) by done. cbn [unwrap map_err wr_out]. rewrite app_nil_l.
  rewrite (read_frame_frame request b1) by done. cbn [unwrap map_err unwrap_opt].
  replace (frame b2) with (frame b2 ++ []) by apply app_nil_r.
  by rewrite (read_frame_frame output b2) by done.
Qed.
End codecs.

End proto.
